(* ===== verification/_CoqProject ===== *)
-Q . S2P
Prelude.v
Effects.v
Text.v
Digest.v
Sql.v
Status.v
Schema.v
Transition.v
Checkpoints.v
RunPaths.v
Leases.v
RemoteClaim.v
Runs.v
WaitStates.v
PollApply.v
Launcher.v
Discovery.v
Provenance.v
RecoveryStores.v
Capsules.v
TypedMerge.v
EffectIntents.v
StepContext.v
Ownership.v
Host.v
Continuation.v
Recovery.v
RecoveryProgress.v
Runner.v
OwnershipSteps.v
Migration.v
ResumePreparation.v
Scheduler.v
SchedulerLoop.v
ScopeCharter.v
ScopeMeasurement.v
ScopeArtifacts.v
ScopeSteps.v
Templates.v
Shell.v
CommandManifest.v
TransitionLoop.v
StepResults.v
