(* ===== verification/Prelude.v ===== *)
(** * The Luther workflow runtime, verified

    Luther ([src/workflow]) runs issue-driven workflows: a daemon leases a GitHub
    issue, launches a run of a workflow on it, and an engine drives the run from
    step to step, checkpointing into SQLite, until the run ends or waits for
    something outside.  This library models that core, in Rocq functions
    translated from the Rust source, and proves what makes it correct: no two
    runs on one issue, no write by a run that lost its lease, no half-recorded
    step, no endless remediation loop, no secret in a checkpoint, no cleanup
    script in a workspace that is not the run's, no epoch recovered twice, no
    history rewritten, no merge without evidence.

    ** Files, and the code they model (under src/workflow/src)

    - [Prelude]: results, machine integers, record updates, shared tactics.
    - [Effects]: the monad [M] of the code's effects.  A database statement may
      fail, a transaction rolls back, the clock and the interrupt flag are read;
      all of these answer from an [Env] every theorem quantifies over, so a
      theorem covers every schedule of failures, every clock and every
      interrupt.  [wp] states what a computation does on every one of its ends.
    - [Sql]: tables as lists of rows in rowid order, and the statements the code
      issues: filters, guarded updates, upserts, newest-row lookups.
    - [Status]: the vocabularies stored as text (run, lease, wait, event and
      step statuses), each with its printer and parser, as instances of
      [TextEnum], whose laws are the round trips.
    - [Schema]: JSON values, workflow types ([workflow/schema.rs]), the rows of
      the tables, the database [Db].
    - [Transition] ([engine/transition.rs]): which edge an outcome follows.
    - [Checkpoints] ([persistence/checkpoint.rs]): checkpoints, the resume point,
      the event log.
    - [Leases] ([persistence/leases.rs], [persistence/claim_metadata.rs]): the
      claim of an issue, the conditional updates that fence writers, staleness.
    - [RunPaths] ([daemon/launcher/paths.rs]): the directories of a run.
    - [RemoteClaim] ([daemon/claim.rs], the query seam of
      [adapters/github_issues/]): the assignee and label of a claimed issue.
    - [Runs] ([persistence/run_metadata.rs], [persistence/sqlite/]): the run
      registry.
    - [WaitStates] ([persistence/wait_state.rs]): suspending a run.
    - [PollApply] ([daemon/poller.rs], [daemon/poller/apply.rs], [polling.rs]):
      applying what a poll found.
    - [Launcher] ([daemon/launcher.rs], [daemon/launcher/lease_finalization.rs],
      [daemon/claim.rs]): claim, capacity, launch, and settling the lease.
    - [StepContext] ([engine/executor.rs]): the variables of a run and what of
      them may be checkpointed.
    - [Runner] ([engine/error.rs], [engine/instance.rs], [engine/runner/]): the
      runner's state and everything it writes.
    - [TransitionLoop] ([engine/runner.rs]): the loop, its fuel, resume and
      interrupts.
    - [StepResults]: what the runner's transactions mean, end to end.
    - [Digest]: bytes, length-prefixed frames, hexadecimal, UTF-8; SHA-256 is the
      class [Sha256] ([crates/luther-engine-core/src/lib.rs]).
    - [Provenance] ([persistence/launch_provenance.rs]): what a launch was
      resolved from, and the check a resume makes of it.
    - [RecoveryStores] ([crates/luther-engine-core/src/recovery_epoch.rs],
      [persistence/recovery_operations.rs], [persistence/attempts.rs]): epochs,
      the ledger of operations, attempts; and what every statement on the
      recovery tables keeps, [ledger_wf] and [ledger_le].
    - [Capsules] ([engine/recovery/capsule.rs], [persistence/capsule_store.rs]):
      execution capsules and the launch transaction.
    - [TypedMerge] ([engine/recovery/typed_merge/], [merge_completion.rs]): how a
      merge is proved and a run marked merged.
    - [EffectIntents] ([persistence/effect_intents.rs]): external effects,
      prepared before and reconciled after.
    - [Ownership] ([engine/workspace_ownership.rs], [workspace_ownership/],
      [engine/continuation/workspace_marker.rs]): who owns a workspace, as a tree
      of system calls that any file system may answer.
    - [OwnershipSteps] (the same files, and
      [components/software_change/workspace_ownership.rs]): writing the markers,
      and the two steps that gate a workflow.
    - [Recovery] ([engine/recovery/protocol/], [policy.rs], [adapters/],
      [salvage.rs]): the recovery protocol, and the relations [reserves] and
      [short_circuits] it refines.
    - [RecoveryProgress]: the types of the ledger, and what a recovery does when
      nothing fails.
    - [Text]: the string operations of the standard library the code uses.
    - [Host]: the questions asked of the operating system beside the database.
    - [Discovery] ([daemon/discovery.rs], [daemon/discovery/approval.rs]): which
      open issues may be launched, in which order, routed how.
    - [Continuation] ([engine/continuation.rs], [engine/continuation/]): the
      operator's resume, retry and rewind: checks, selection, authorization, and
      the commit that reopens the run.
    - [Migration] ([persistence/legacy_migration_state.rs],
      [engine/continuation/legacy_ownership_migration.rs]): giving runs from
      before the ownership markers theirs, once.
    - [ResumePreparation] ([daemon/launcher/resume_preparation.rs]): every check
      before a waiting run's lease is taken for its resume.
    - [Scheduler] ([daemon/scheduler.rs], [daemon/scheduler/]): a pass over the
      targets, from owed cleanups to settled leases, and its summary;
      [SchedulerLoop]: the loop around it and its shutdown.
    - [ScopeCharter] ([components/software_change/scope_control/model.rs],
      [config_validation.rs]): the charter that freezes what a patch may be, its
      validation and normalization, and the policy it is drafted from.
    - [ScopeMeasurement] ([measurement.rs] and its parts, [evaluation.rs]):
      measuring a patch through git and judging it.
    - [ScopeArtifacts] ([persistence.rs], [decision.rs], [review_state.rs],
      [timeout_recovery.rs]): the files of scope control, the decision gate, the
      review rounds.
    - [ScopeSteps] ([scope_measure.rs], [task_charter.rs],
      [engine/executors/mod.rs], the review gate of [iteration_guard.rs],
      [llxprt_timeout.rs], the scope poll of [daemon/poller.rs]): the steps that
      enforce it.
    - [Templates] ([engine/executor.rs], [engine/shell_safe_tokens.rs], the dry
      run of [workflow/config_loader.rs]): interpolation, the tokens of a template.
    - [Shell] ([components/generic/shell.rs], [write_file.rs], [noop.rs]): binding
      and running a command, reading its outcome, writing a file.
    - [CommandManifest] ([workflow/command_manifest.rs], its validation in
      [workflow/config_loader.rs], [components/generic/command_manifest.rs]):
      commands as argument vectors, their removals, attempts and expectations.

    ** How the parts interact

    A claim ([Launcher.claim_for_launch], over [Leases.try_claim]) gives a run
    its lease, its receipt and its directories ([RunPaths.per_run_paths]);
    [Launcher.claim_and_launch] hands it to the engine through the
    [WorkflowLauncher] seam and settles the lease by what comes back.  The runner
    ([Runner.make_runner]) reads its counters from the newest checkpoint, and
    each turn of the loop ([TransitionLoop.iterate]) starts a step, touches the
    lease, calls the step's executor, resolves the edge
    ([Transition.resolve_transition_schema]) and records the result in one
    transaction ([Runner.persist_step_result]) over [checkpoints], [events],
    [runs] and [issue_leases].  A wait parks the run
    ([WaitStates.persist_external_wait]); the poller brings it back or fails it
    ([PollApply.apply_poll_decision]) by consuming the wait, moving the lease
    and re-arming the checkpoint ([Checkpoints.set_resume_point]) together.

    The daemon's pass ([Scheduler.run_multi_target_once_with_poller]) composes
    these parts: it retries owed cleanups ([RemoteClaim]), polls the due waits
    ([PollApply]), takes the leases ready to resume ([ResumePreparation], whose
    last check is [Continuation.validate_continuation]), claims what discovery
    chose ([Discovery.discover], [Launcher.claim_for_launch_pending]) on the
    store and the remote service, dispatches the units in chunks and settles
    each lease ([Launcher.finish_lease_after_result]).  The store and the remote
    are the two halves of the state, [on_local] and [on_remote] of [Effects].

    An operator recovers a failed step through [Recovery.prepare], [reserve],
    the executor and [finalize], over the capsule the launch stored
    ([Capsules.persist_launch_atomically]), the epoch and ledger of
    [RecoveryStores], and the workspace's owner as [Ownership] adjudicates it in
    two phases, which [Recovery.Disk] lets differ.

    A mutating step asks the barrier ([ScopeSteps.scope_control_barrier]), which
    reads the charter, measures the work tree ([ScopeMeasurement]), asks the gate
    ([ScopeArtifacts.check_scope_gate]) and leaves a request for the operator;
    the wait it returns is polled by [ScopeSteps.poll_scope_decision].  Their
    state is the file system, a map from paths to contents, beside the context.

    A Rust function of a component is the definition of its name; a method of
    [&mut self] takes the state and returns it; [Result] is [Res], [?] is the
    monad's bind, [let _ =] is [ignore], [.ok()] is [try].  Integers are [Z],
    with the casts of the code written out.  Executors, the file system's
    answer about workspace ownership and the merge probe are parameters (the
    [Host] of [Runner], the registry of a runner): an executor may do anything
    to the database and to its lent context that the public interface allows.

    ** What the theorems show

    - Leases: at most one lease per issue in every reachable state; a claim wins
      exactly when the issue is free or reclaimable; a held issue is never taken
      over; a conditional update touches a lease only from an expected status of
      the expected owner, and reports the truth; recovery marks exactly the
      overdue leases.
    - Launches: settling a lease moves only the run's own and never leaves it
      running; a claim keeps its config's capacity or hands the issue back; a
      failed remote claim takes back exactly what it added; a run's directories
      are confined and never shared.
    - Scheduling: discovery accounts for every issue and chooses exactly the
      first wanted ones; its cache changes no answer; capacity is never exceeded
      by collecting; a prepared launch stands on a running lease, a settled
      receipt and a verified claim, or what it may have left is owed; dispatch
      settles every lease; the summary accounts for the whole pass; a shutdown
      ends the loop.
    - Continuations: a commit has all its effects or none and excludes every
      other while its process lives; a resume takes its lease only when all is
      valid; a legacy migration completes, and is audited, once.
    - Runs and checkpoints: round trips of the registry and of checkpoints, a
      fail-closed first insert, status updates that never resurrect a finished
      run, readers equal to their specifications, a re-armed step is resumed.
    - Waits: suspension is all or nothing and leaves a complete pollable wait;
      poll refreshes are guarded; of two pollers with one snapshot the second
      loses; a decision commits under its guards or changes nothing; the next
      poll is in bounds for every interval.
    - Recovery: a reservation is one atomic change under everything the
      preparation saw, an epoch is spent once, history only grows, success is the
      executor's recorded result, a completed request is replayed, the ledger
      stays typed, and a request nobody holds completes when nothing fails.
      Operation ids and capsules bind what they name up to a collision of two
      explicit frames; a launch and its capsule persist together; an effect is
      settled once; a run is marked merged on evidence; a resume is admitted for
      what was launched.
    - Scope control: a validated policy never fails its own charter; a
      measurement tells the whole patch and an evaluation is exact; git's listings
      are read back; charters and requests are never rewritten; the barrier lets
      a patch pass only within its charter or on an approval of exactly it, and an
      operator's answer settles the wait; reviews stay within their caps.
    - Ownership: owned only on a chain of checked markers, on any file system;
      the two ways to ask agree; establishing it replaces nothing; the gates
      pass on verified evidence.
    - Engine: the followed edge is the first that matches; every run ends,
      within [TransitionLoop.loop_fuel] turns; edge counters respect their
      limits; a step's result is recorded in full or not at all; an interrupted
      run resumes where it was; a failing run enters cleanup only in a trusted
      workspace, and a recorded denial refuses every later resume.
    - Templates and commands: interpolation is one pass over the template when
      values open no brace, in any order of the maps; a dry run is exact; values
      reach a shell as arguments only, each where the shell expands it; a command
      runs in a directory of the authorized identity; a validated manifest does
      not fail for its own sake, its removals stay in the repository, its commands
      are tried within their policy and pass on what their last child did, with no
      token left in their arguments.
    - Context: only allowlisted variables reach a checkpoint, restoring one
      brings back exactly those, a malformed one cannot write outside the
      allowlist, and public failure reasons are one of a fixed set of texts.

    ** Bounds and fuel

    The loop's fuel is [loop_fuel]: the number of distinct edges, times the
    largest limit on one, times the number of steps plus one, plus one pass over
    the steps.  [TransitionLoop.transition_loop_terminates] shows that it is
    never exhausted and that more changes nothing: a turn either follows an
    edge whose counter it raises below its limit, or moves forward in the list
    of steps.  The chunked run reader uses fuel equal to the list's length.

    ** What is assumed

    Statements apply in full or fail without a trace, and a failing commit rolls
    back (SQLite's documented atomicity); foreign keys are enforced; timestamps
    are nanosecond counts, whose order is the text order of the UTC RFC 3339
    strings the code stores; the tables exist.  Values the code stores as JSON
    text are held as values.  The JSON encoding of namespaced variables and of
    the step order is [StepContext.JsonCodec], whose round-trip law is a
    hypothesis where it is used and is proved of a concrete codec.  GitHub's
    answers are [RemoteClaim.GithubIssueQuery], with [RemoteClaim.GithubLaws] as the
    documented effect of each edit, one that fails included; what the engine
    does to the database during a launch is unconstrained but for the
    uniqueness of leases.  SHA-256 is any function ([Digest.Sha256]); what
    [serde_json] prints and parses is a codec ([CapsuleCodec], [RecoveryCodec],
    [ProofCodec], [JsonPrinter], [WorkflowDecoder], [ConfigDecoder]) whose
    round-trip law is a hypothesis where a theorem needs it and holds of a
    concrete one; git and GitHub answer a merge through [MergeProbes]; the error
    texts of the operating system are [ErrorText]; the process id and the text of
    a time are [Process]; parsing and printing times for people is [Rfc3339];
    Rust's debug printing of lists and options is [StringsDebug] and
    [OptionDebug]; which processes live and what the file system holds at each
    moment is [Os]; the remote lists and looks up issues through [IssueQuery];
    loading a workflow for a resume is [WorkflowResolver]; a launcher's threads,
    the pollers and the run-id generator are [Daemon].  In scope control git and
    the work tree are [WorkTree], asked anew at every call; regular expressions
    are [Regexes], TOML is [TomlParser], [serde_json] is [Serde] and
    [PolicyCodec], with reading back what was printed as the hypothesis
    [reads_back] where it is needed; a call on a file happens in full or not at
    all, and parent directories are not checked for.  In what order a [HashMap]
    yields its keys is [Templates.HashOrder]; what a shell step's child does is
    [Shell.ShellHost], and any function of what it was started with; the child of
    a manifest command is a call of [Ownership.Syscall], and this process's own
    environment and the decoding of a manifest are [CommandManifest.ManifestText].

    ** What is not modelled, and what comes next

    Not modelled: command-line parsing, processes, sockets, the git, GitHub and
    agent adapters, run artifacts and traces, scope control's status projection,
    the threads and signals around a child, the step executors that run other
    tools. *)
From stdpp Require Export base gmap strings list pretty sorting.
From stdpp Require Import tactics.
From Stdlib Require Export ZArith Lia.

(** ** Results *)

(** Rust's [Result<A, E>], error type first so that [Res E] is a monad. *)
Inductive Res (E A : Type) : Type :=
| Ok (a : A)
| Err (e : E).
Arguments Ok {E A} a.
Arguments Err {E A} e.

Global Instance Res_eq_dec {E A} `{EqDecision E, EqDecision A} : EqDecision (Res E A).
Proof. solve_decision. Defined.

Definition is_ok {E A} (r : Res E A) : bool := if r is Ok _ then true else false.

(** [Result::map_err]. *)
Definition res_map_err {E F A} (f : E -> F) (r : Res E A) : Res F A :=
  match r with Ok a => Ok a | Err e => Err (f e) end.

(** [Option::ok_or]. *)
Definition ok_or {E A} (o : option A) (e : E) : Res E A :=
  match o with Some a => Ok a | None => Err e end.

(** [Result::ok]. *)
Definition res_ok {E A} (r : Res E A) : option A :=
  match r with Ok a => Some a | Err _ => None end.

Global Instance Res_ret {E} : MRet (Res E) := fun A => @Ok E A.
Global Instance Res_bind {E} : MBind (Res E) := fun A B f r =>
  match r with Ok a => f a | Err e => Err e end.

Global Instance Res_fmap {E} : FMap (Res E) := fun A B f r =>
  match r with Ok a => Ok (f a) | Err e => Err e end.

(** [Option::or_else]/[Option::or]. *)
Definition opt_or {A} (x y : option A) : option A :=
  match x with Some _ => x | None => y end.

(** Comparisons of text, as booleans. *)
Declare Scope luther_scope.
Delimit Scope luther_scope with luther.
Notation "s =?s t" := (bool_decide ((s : string) = (t : string))) (at level 70) : luther_scope.
Open Scope luther_scope.

(** [str::is_empty]. *)
Definition str_is_empty (s : string) : bool := s =?s "".

(** ** Traversals *)

(** A traversal that succeeds reads every element. *)
Lemma mapM_Ok {E A B} (f : A -> Res E B) (l : list A) (k : list B) :
  mapM f l = Ok k ->
  k = omap (fun a => res_ok (f a)) l /\ Forall (fun a => is_ok (f a) = true) l.
Proof.
  revert k. induction l as [|a l IH]; cbn; intros k; [by intros [= <-]|].
  unfold mapM in *. cbn. destruct (f a) as [b|e] eqn:Ef; cbn; [|done].
  destruct (mapM f l) as [k'|e] eqn:Em; unfold mapM in Em; rewrite Em; cbn; [|done].
  intros [= <-]. destruct (IH k' Em) as [-> Hall]. split; [done|].
  constructor; [by rewrite Ef|done].
Qed.

(** ** Machine integers *)

Definition u32_max : Z := 2 ^ 32 - 1.
Definition i64_max : Z := 2 ^ 63 - 1.
Definition u64_max : Z := 2 ^ 64 - 1.

Definition is_u32 (z : Z) : Prop := (0 <= z <= u32_max)%Z.
Definition is_u64 (z : Z) : Prop := (0 <= z <= u64_max)%Z.

Global Instance is_u32_dec z : Decision (is_u32 z).
Proof. unfold is_u32. apply _. Defined.
Global Instance is_u64_dec z : Decision (is_u64 z).
Proof. unfold is_u64. apply _. Defined.

(** The [as u32] cast of a wider integer. *)
Definition as_u32 (z : Z) : Z := Z.modulo z (2 ^ 32).

Lemma as_u32_id z : is_u32 z -> as_u32 z = z.
Proof. unfold is_u32, as_u32, u32_max. intros. apply Z.mod_small. lia. Qed.

(** ** Record updates

    [eta_of] rebuilds a record from its projections; a setter is that term
    abstracted over one projection, so [cbn] reduces a projection of a setter
    even when the record is a variable. *)
Class Eta (R : Type) := eta_of : R -> R.

Ltac make_setter proj :=
  let f := fresh "f" in let r := fresh "r" in
  intros f r;
  let rebuilt := eval hnf in (eta_of r) in
  let abstracted := eval pattern (proj r) in rebuilt in
  lazymatch abstracted with
  | ?ctx _ => let t := eval cbv beta in (ctx (f (proj r))) in exact t
  end.

Class Setter {R T : Type} (proj : R -> T) := upd : (T -> T) -> R -> R.
Arguments upd {R T} proj {_} f r.
Hint Extern 1 (@Setter _ _ ?proj) => make_setter proj : typeclass_instances.

Notation "r <| proj := v |>" := (upd proj (fun _ => v) r)
  (at level 1, left associativity, format "r <| proj  :=  v |>").

(** ** Case analysis *)

(** Split every [match]/[if] of the goal on its scrutinee, simplifying the
    hypotheses each time. *)
Ltac split_matches :=
  repeat (case_match; simplify_eq/=; try done).

(** Prove a decidable closed proposition by evaluating its decision. *)
Ltac by_computation := apply (bool_decide_unpack _); vm_compute; exact I.

(** Turn the boolean tests among the hypotheses into propositions. *)
Ltac bool_hyps :=
  repeat match goal with
  | H : (_ && _) = true |- _ => apply andb_true_iff in H as [? ?]
  | H : (_ || _) = false |- _ => apply orb_false_iff in H as [? ?]
  | H : (_ || _) = true |- _ => apply orb_true_iff in H
  | H : negb _ = true |- _ => apply negb_true_iff in H
  | H : negb _ = false |- _ => apply negb_false_iff in H
  | H : bool_decide _ = true |- _ => apply bool_decide_eq_true in H
  | H : bool_decide _ = false |- _ => apply bool_decide_eq_false in H
  | H : is_true _ |- _ => unfold is_true in H
  end.
