(* ===== verification/Effects.v ===== *)
(** The effects the runtime's code has: a database that statements read and
    write, transactions that roll back, the wall clock, statements that can
    fail, and the interrupt flag another thread sets.

    A computation is a state passing function that returns a [Res].  What the
    process cannot control is an environment [Env]: what the clock says at the
    n-th reading, whether the n-th database statement fails, what the n-th load
    of the interrupt flag sees.  Theorems quantify over every environment, so
    they hold for every clock and for every schedule of failures. *)
From S2P Require Import Prelude.

Class Env := {
  env_clock : nat -> Z;       (** n-th [Utc::now()], nanoseconds since the epoch *)
  env_fault : nat -> bool;    (** does the n-th database statement fail? *)
  env_interrupt : nat -> bool (** what the n-th load of the interrupt flag returns *)
}.

(** [rusqlite::Error], as far as the code tells errors apart. *)
Inductive SqlError :=
| SqliteFailure                      (** busy, I/O, disk full, ... *)
| ConstraintViolation                (** [SQLITE_CONSTRAINT] *)
| ToSqlConversionFailure
| FromSqlConversionFailure (column : nat)
| InvalidColumnType (column : nat)
| IntegralValueOutOfRange (column : nat) (value : Z)
| QueryReturnedNoRows.

Global Instance SqlError_eq_dec : EqDecision SqlError.
Proof. solve_decision. Defined.

(** The process id, and [chrono]'s rendering of a timestamp. *)
Class Process := {
  process_id : Z;
  to_rfc3339 : Z -> string
}.

(** The database together with how far each oracle of the environment has been
    consumed. *)
Record World (D : Type) := mkWorld {
  w_db : D;
  w_clock : nat;
  w_stmt : nat;
  w_intr : nat
}.
Arguments mkWorld {D}.
Arguments w_db {D}.
Arguments w_clock {D}.
Arguments w_stmt {D}.
Arguments w_intr {D}.

Definition set_db {D} (d : D) (w : World D) : World D :=
  mkWorld d (w_clock w) (w_stmt w) (w_intr w).

Definition M (D E A : Type) : Type := World D -> Res E A * World D.

Global Instance M_ret {D E} : MRet (M D E) := fun A a w => (Ok a, w).
Global Instance M_bind {D E} : MBind (M D E) := fun A B f m w =>
  match m w with
  | (Ok a, w') => f a w'
  | (Err e, w') => (Err e, w')
  end.

Definition throw {D E A} (e : E) : M D E A := fun w => (Err e, w).
Definition lift_res {D E A} (r : Res E A) : M D E A := fun w => (r, w).

(** The [?] operator with a [From] conversion, [.map_err(f)?]. *)
Definition map_err {D E F A} (f : E -> F) (m : M D E A) : M D F A := fun w =>
  let '(r, w') := m w in (res_map_err f r, w').

(** [m] as a value: the caller looks at the [Result] itself. *)
Definition try {D E F A} (m : M D E A) : M D F (Res E A) := fun w =>
  let '(r, w') := m w in (Ok r, w').

(** [let _ = m;], a best-effort call. *)
Definition ignore {D E F A} (m : M D E A) : M D F unit := fun w =>
  let '(_, w') := m w in (Ok tt, w').

Section Primitives.
Context {D : Type} `{Env}.

(** [Utc::now()] *)
Definition now {E} : M D E Z := fun w =>
  (Ok (env_clock (w_clock w)), mkWorld (w_db w) (S (w_clock w)) (w_stmt w) (w_intr w)).

(** [interrupted.load(SeqCst)] *)
Definition load_interrupt {E} : M D E bool := fun w =>
  (Ok (env_interrupt (w_intr w)), mkWorld (w_db w) (w_clock w) (w_stmt w) (S (w_intr w))).

(** What something outside the process answers now; every reading has its own
    time, so two of them may differ. *)
Definition observe {E A} (f : nat -> A) : M D E A := fun w =>
  (Ok (f (w_clock w)), mkWorld (w_db w) (S (w_clock w)) (w_stmt w) (w_intr w)).

Definition next_stmt (w : World D) : World D :=
  mkWorld (w_db w) (w_clock w) (S (w_stmt w)) (w_intr w).

(** A reading statement: it may fail, and never changes the database. *)
Definition query {A} (f : D -> Res SqlError A) : M D SqlError A := fun w =>
  if env_fault (w_stmt w) then (Err SqliteFailure, next_stmt w)
  else (f (w_db w), next_stmt w).

(** A writing statement: it applies in full or, on an error, not at all. *)
Definition execute {A} (f : D -> Res SqlError (A * D)) : M D SqlError A := fun w =>
  if env_fault (w_stmt w) then (Err SqliteFailure, next_stmt w)
  else match f (w_db w) with
       | Ok (a, d) => (Ok a, set_db d (next_stmt w))
       | Err e => (Err e, next_stmt w)
       end.

(** A transaction: [BEGIN], the body, [COMMIT].  The body's error, or a
    failing [BEGIN] or [COMMIT], leaves the database as it was: the
    transaction object is dropped without a commit. *)
Definition transaction {E A} (of_sql : SqlError -> E) (body : M D E A) : M D E A := fun w =>
  match map_err of_sql (query (fun _ => Ok tt)) w with
  | (Err e, w1) => (Err e, w1)
  | (Ok _, w1) =>
      match body w1 with
      | (Err e, w2) => (Err e, set_db (w_db w) w2)
      | (Ok a, w2) =>
          match map_err of_sql (query (fun _ => Ok tt)) w2 with
          | (Err e, w3) => (Err e, set_db (w_db w) w3)
          | (Ok _, w3) => (Ok a, w3)
          end
      end
  end.

(** A transaction whose body says with its value whether to commit: the code
    returns early from the function that owns the transaction, and dropping an
    uncommitted transaction rolls it back. *)
Definition transaction_if {E A} (at_begin : SqlError -> E) (at_commit : A -> SqlError -> E)
    (commits : A -> bool) (body : M D E A) : M D E A := fun w =>
  match map_err at_begin (query (fun _ => Ok tt)) w with
  | (Err e, w1) => (Err e, w1)
  | (Ok _, w1) =>
      match body w1 with
      | (Err e, w2) => (Err e, set_db (w_db w) w2)
      | (Ok a, w2) =>
          if commits a then
            match map_err (at_commit a) (query (fun _ => Ok tt)) w2 with
            | (Err e, w3) => (Err e, set_db (w_db w) w3)
            | (Ok _, w3) => (Ok a, w3)
            end
          else (Ok a, set_db (w_db w) w2)
      end
  end.
End Primitives.

(** [for a in l { s = f(s, a)?; }], and the loop without an accumulator. *)
Fixpoint fold_each {D E A S} (f : S -> A -> M D E S) (s : S) (l : list A) : M D E S :=
  match l with
  | [] => mret s
  | a :: l' => s' ← f s a; fold_each f s' l'
  end.
Definition for_each {D E A} (f : A -> M D E unit) (l : list A) : M D E unit := fold_each (fun _ a => f a) tt l.

(** ** Two states side by side: the local database and a remote service *)

Section Zoom.
Context {D R : Type}.

Definition local_of (w : World (D * R)) : World D :=
  mkWorld (fst (w_db w)) (w_clock w) (w_stmt w) (w_intr w).
Definition remote_of (w : World (D * R)) : World R :=
  mkWorld (snd (w_db w)) (w_clock w) (w_stmt w) (w_intr w).

(** A computation on the database alone, on the remote alone. *)
Definition on_local {E A} (m : M D E A) : M (D * R) E A := fun w =>
  let '(r, w') := m (local_of w) in
  (r, mkWorld (w_db w', snd (w_db w)) (w_clock w') (w_stmt w') (w_intr w')).
Definition on_remote {E A} (m : M R E A) : M (D * R) E A := fun w =>
  let '(r, w') := m (remote_of w) in
  (r, mkWorld (fst (w_db w), w_db w') (w_clock w') (w_stmt w') (w_intr w')).
End Zoom.

(** An environment where nothing fails, for evaluating the model on concrete
    inputs. *)
Definition calm : Env := {|
  env_clock n := (100 + Z.of_nat n)%Z;
  env_fault _ := false;
  env_interrupt _ := false
|}.

Definition start {D} (d : D) : World D := mkWorld d 0 0 0.

(** ** Reasoning *)

(** [wp m Q w]: run from [w], [m] ends in a result and a world that satisfy [Q]. *)
Definition wp {D E A} (m : M D E A) (Q : Res E A -> World D -> Prop) (w : World D) : Prop :=
  Q (fst (m w)) (snd (m w)).

(** What the database is after [m], whatever [m] returns. *)
Definition keeps {D E A} (P : D -> Prop) (m : M D E A) : Prop :=
  forall w, P (w_db w) -> P (w_db (snd (m w))).

(** Computations that only read the database. *)
Definition read_only {D E A} (m : M D E A) : Prop :=
  forall w, w_db (snd (m w)) = w_db w.

Create HintDb eff discriminated.

Section Rules.
Context {D : Type} `{Env}.

Lemma wp_consequence {E A} (m : M D E A) (Q Q' : Res E A -> World D -> Prop) w :
  wp m Q w -> (forall r w', Q r w' -> Q' r w') -> wp m Q' w.
Proof. unfold wp. auto. Qed.

Lemma wp_and {E A} (m : M D E A) (Q Q' : Res E A -> World D -> Prop) w :
  wp m Q w -> wp m Q' w -> wp m (fun r w' => Q r w' /\ Q' r w') w.
Proof. by split. Qed.

(** The result, by name. *)
Lemma wp_result {E A} (m : M D E A) w : wp m (fun r _ => r = fst (m w)) w.
Proof. reflexivity. Qed.

Lemma wp_value {E A} (m : M D E A) (Q : Res E A -> World D -> Prop) w r :
  fst (m w) = r -> wp m Q w -> Q r (snd (m w)).
Proof. by intros <-. Qed.

Lemma wp_ends {E A} (m : M D E A) (Q : Res E A -> World D -> Prop) w r w' :
  m w = (r, w') -> Q r w' -> wp m Q w.
Proof. unfold wp. by intros ->. Qed.

(** An invariant, as a postcondition beside another. *)
Lemma wp_keeps {E A} (P : D -> Prop) (m : M D E A) (Q : Res E A -> World D -> Prop) w :
  keeps P m -> P (w_db w) -> wp m Q w -> wp m (fun r w' => Q r w' /\ P (w_db w')) w.
Proof. intros Hk HP HQ. split; [done|by apply Hk]. Qed.

Lemma wp_kept {E A} (P : D -> Prop) (m : M D E A) w :
  keeps P m -> P (w_db w) -> wp m (fun _ w' => P (w_db w')) w.
Proof. intros Hk HP. by apply Hk. Qed.

Lemma wp_ret {E A} (a : A) (Q : Res E A -> World D -> Prop) w :
  wp (mret a : M D E A) Q w <-> Q (Ok a) w.
Proof. reflexivity. Qed.

Lemma wp_throw {E A} (e : E) (Q : Res E A -> World D -> Prop) w :
  wp (throw e) Q w <-> Q (Err e) w.
Proof. reflexivity. Qed.

Lemma wp_lift_res {E A} (r : Res E A) (Q : Res E A -> World D -> Prop) w :
  wp (lift_res r) Q w <-> Q r w.
Proof. reflexivity. Qed.

Lemma wp_bind {E A B} (m : M D E A) (f : A -> M D E B) Q w :
  wp (mbind f m) Q w <->
  wp m (fun r w' => match r with Ok a => wp (f a) Q w' | Err e => Q (Err e) w' end) w.
Proof. unfold wp, mbind, M_bind. destruct (m w) as [[a|e] w']; reflexivity. Qed.

Lemma wp_map_err {E F A} (f : E -> F) (m : M D E A) Q w :
  wp (map_err f m) Q w <-> wp m (fun r w' => Q (res_map_err f r) w') w.
Proof. unfold wp, map_err. destruct (m w). reflexivity. Qed.

Lemma wp_try {E F A} (m : M D E A) (Q : Res F (Res E A) -> World D -> Prop) w :
  wp (try m) Q w <-> wp m (fun r w' => Q (Ok r) w') w.
Proof. unfold wp, try. destruct (m w). reflexivity. Qed.

Lemma wp_on_local {R E A} (m : M D E A) Q (w : World (D * R)) :
  wp m (fun r w' => forall w'', local_of w'' = w' -> snd (w_db w'') = snd (w_db w) -> Q r w'') (local_of w) ->
  wp (on_local m) Q w.
Proof.
  unfold wp, on_local. destruct (m (local_of w)) as [r w']. cbn. intros HQ. apply HQ; [|done].
  by destruct w'.
Qed.

Lemma wp_on_remote {R E A} (m : M R E A) Q (w : World (D * R)) :
  wp m (fun r w' => forall w'', remote_of w'' = w' -> fst (w_db w'') = fst (w_db w) -> Q r w'') (remote_of w) ->
  wp (on_remote m) Q w.
Proof.
  unfold wp, on_remote. destruct (m (remote_of w)) as [r w']. cbn. intros HQ. apply HQ; [|done].
  by destruct w'.
Qed.

Lemma wp_ignore {E F A} (m : M D E A) (Q : Res F unit -> World D -> Prop) w :
  wp (ignore m) Q w <-> wp m (fun _ w' => Q (Ok tt) w') w.
Proof. unfold wp, ignore. destruct (m w). reflexivity. Qed.

Lemma wp_now {E} (Q : Res E Z -> World D -> Prop) w :
  (forall w', w_db w' = w_db w -> w_stmt w' = w_stmt w -> Q (Ok (env_clock (w_clock w))) w') ->
  wp now Q w.
Proof. intros HQ. apply HQ; reflexivity. Qed.

Lemma wp_observe {E A} (f : nat -> A) (Q : Res E A -> World D -> Prop) w :
  (forall n w', w_db w' = w_db w -> w_stmt w' = w_stmt w -> Q (Ok (f n)) w') ->
  wp (observe f) Q w.
Proof. intros HQ. apply (HQ (w_clock w)); reflexivity. Qed.

Lemma wp_load_interrupt {E} (Q : Res E bool -> World D -> Prop) w :
  (forall b w', w_db w' = w_db w -> w_stmt w' = w_stmt w -> Q (Ok b) w') ->
  wp load_interrupt Q w.
Proof. intros HQ. apply HQ; reflexivity. Qed.

Lemma wp_query {A} (f : D -> Res SqlError A) (Q : Res SqlError A -> World D -> Prop) w :
  (forall w', w_db w' = w_db w -> Q (Err SqliteFailure) w') ->
  (forall w', w_db w' = w_db w -> Q (f (w_db w)) w') ->
  wp (query f) Q w.
Proof.
  intros Hf Hok. unfold wp, query. destruct (env_fault (w_stmt w)); cbn; auto.
Qed.

Lemma wp_execute {A} (f : D -> Res SqlError (A * D)) (Q : Res SqlError A -> World D -> Prop) w :
  (forall w', w_db w' = w_db w -> Q (Err SqliteFailure) w') ->
  (forall e w', f (w_db w) = Err e -> w_db w' = w_db w -> Q (Err e) w') ->
  (forall a d w', f (w_db w) = Ok (a, d) -> w_db w' = d -> Q (Ok a) w') ->
  wp (execute f) Q w.
Proof.
  intros Hf Herr Hok. unfold wp, execute.
  destruct (env_fault (w_stmt w)); cbn; auto.
  destruct (f (w_db w)) as [[a d]|e] eqn:Ef; cbn; eauto.
Qed.

(** A transaction either reports an error and leaves the database alone, or
    reports exactly what its body did. *)
Lemma wp_transaction {E A} (of_sql : SqlError -> E) (body : M D E A) Q w :
  (forall e w', w_db w' = w_db w -> Q (Err e) w') ->
  (forall w1, w_db w1 = w_db w ->
     wp body (fun r w2 => match r with
                          | Ok a => forall w3, w_db w3 = w_db w2 -> Q (Ok a) w3
                          | Err _ => True
                          end) w1) ->
  wp (transaction of_sql body) Q w.
Proof.
  intros Herr Hbody. unfold wp, transaction, map_err, query.
  destruct (env_fault (w_stmt w)); cbn; [by apply Herr|].
  specialize (Hbody (next_stmt w) eq_refl). unfold wp in Hbody.
  destruct (body (next_stmt w)) as [[a|e] w2]; cbn in *; [|by apply Herr].
  destruct (env_fault (w_stmt w2)); cbn; [by apply Herr|by apply Hbody].
Qed.

(** The same for a transaction that may end without a commit, with what each
    error means: the value is the body's, the database is the body's only where
    the value commits. *)
Lemma wp_transaction_if_errors {E A} (at_begin : SqlError -> E) (at_commit : A -> SqlError -> E)
    (commits : A -> bool) (body : M D E A) Q w :
  (forall e w', w_db w' = w_db w -> Q (Err (at_begin e)) w') ->
  (forall w1, w_db w1 = w_db w ->
     wp body (fun r w2 =>
       match r with
       | Ok a => forall w3,
           (w_db w3 = (if commits a then w_db w2 else w_db w) -> Q (Ok a) w3) /\
           (forall e, w_db w3 = w_db w -> Q (Err (at_commit a e)) w3)
       | Err e => forall w3, w_db w3 = w_db w -> Q (Err e) w3
       end) w1) ->
  wp (transaction_if at_begin at_commit commits body) Q w.
Proof.
  intros Herr Hbody. unfold wp, transaction_if, map_err, query.
  destruct (env_fault (w_stmt w)); cbn; [by apply Herr|].
  specialize (Hbody (next_stmt w) eq_refl). unfold wp in Hbody.
  destruct (body (next_stmt w)) as [[a|e] w2]; cbn in *; [|by apply Hbody].
  destruct (commits a); [|by apply Hbody].
  destruct (env_fault (w_stmt w2)); cbn; by apply Hbody.
Qed.

Lemma wp_transaction_if {E A} (at_begin : SqlError -> E) (at_commit : A -> SqlError -> E)
    (commits : A -> bool) (body : M D E A) Q w :
  (forall e w', w_db w' = w_db w -> Q (Err e) w') ->
  (forall w1, w_db w1 = w_db w ->
     wp body (fun r w2 => match r with
                          | Ok a => forall w3,
                              w_db w3 = (if commits a then w_db w2 else w_db w) -> Q (Ok a) w3
                          | Err _ => True
                          end) w1) ->
  wp (transaction_if at_begin at_commit commits body) Q w.
Proof.
  intros Herr Hbody. apply wp_transaction_if_errors; [auto|]. intros w1 Hw1.
  eapply wp_consequence; [by apply Hbody|]. intros [a|e] w2; auto.
Qed.

(** Atomicity: an error of a transaction is an error without a trace. *)
Lemma transaction_atomic {E A} (of_sql : SqlError -> E) (body : M D E A) w :
  match transaction of_sql body w with
  | (Err _, w') => w_db w' = w_db w
  | (Ok _, _) => True
  end.
Proof.
  unfold transaction, map_err, query.
  destruct (env_fault (w_stmt w)); cbn; [done|].
  destruct (body (next_stmt w)) as [[a|e] w2]; cbn; [|done].
  by destruct (env_fault (w_stmt w2)).
Qed.

(** *** Invariants *)

Lemma keeps_ret {E A} P (a : A) : keeps P (mret a : M D E A).
Proof. by intros w. Qed.
Lemma keeps_throw {E A} P (e : E) : keeps P (throw e : M D E A).
Proof. by intros w. Qed.
Lemma keeps_lift_res {E A} P (r : Res E A) : keeps P (lift_res r : M D E A).
Proof. by intros w. Qed.
Lemma keeps_bind {E A B} P (m : M D E A) (f : A -> M D E B) :
  keeps P m -> (forall a, keeps P (f a)) -> keeps P (mbind f m).
Proof.
  intros Hm Hf w HP. specialize (Hm w HP). unfold mbind, M_bind.
  destruct (m w) as [[a|e] w']; cbn in *; [by apply Hf|done].
Qed.
Lemma keeps_map_err {E F A} P (f : E -> F) (m : M D E A) :
  keeps P m -> keeps P (map_err f m).
Proof. intros Hm w HP. specialize (Hm w HP). unfold map_err. by destruct (m w). Qed.
Lemma keeps_try {E F A} P (m : M D E A) : keeps P m -> keeps P (try m : M D F _).
Proof. intros Hm w HP. specialize (Hm w HP). unfold try. by destruct (m w). Qed.
Lemma keeps_ignore {E F A} P (m : M D E A) : keeps P m -> keeps P (ignore m : M D F _).
Proof. intros Hm w HP. specialize (Hm w HP). unfold ignore. by destruct (m w). Qed.
Lemma keeps_now {E} P : keeps P (now : M D E Z).
Proof. by intros w. Qed.
Lemma keeps_observe {E A} P (f : nat -> A) : keeps P (observe f : M D E A).
Proof. by intros w. Qed.
Lemma keeps_load_interrupt {E} P : keeps P (load_interrupt : M D E bool).
Proof. by intros w. Qed.
Lemma keeps_query {A} P (f : D -> Res SqlError A) : keeps P (query f).
Proof. intros w HP. unfold query. by destruct (env_fault _). Qed.
Lemma keeps_execute {A} P (f : D -> Res SqlError (A * D)) :
  (forall d a d', P d -> f d = Ok (a, d') -> P d') -> keeps P (execute f).
Proof.
  intros Hf w HP. unfold execute. destruct (env_fault _); [done|].
  destruct (f (w_db w)) as [[a d]|e] eqn:Ef; cbn; eauto.
Qed.
Lemma keeps_transaction {E A} P (g : SqlError -> E) (m : M D E A) :
  keeps P m -> keeps P (transaction g m).
Proof.
  intros Hm w HP. unfold transaction, map_err, query.
  destruct (env_fault (w_stmt w)); cbn; [done|].
  specialize (Hm (next_stmt w) HP).
  destruct (m (next_stmt w)) as [[a|e] w2]; cbn in *; [|done].
  by destruct (env_fault (w_stmt w2)).
Qed.

Lemma keeps_transaction_if {E A} P (g : SqlError -> E) (h : A -> SqlError -> E) c (m : M D E A) :
  keeps P m -> keeps P (transaction_if g h c m).
Proof.
  intros Hm w HP. unfold transaction_if, map_err, query.
  destruct (env_fault (w_stmt w)); cbn; [done|].
  specialize (Hm (next_stmt w) HP).
  destruct (m (next_stmt w)) as [[a|e] w2]; cbn in *; [|done].
  destruct (c a); [|done]. by destruct (env_fault (w_stmt w2)).
Qed.

Lemma keeps_fold_each {E A S} P (f : S -> A -> M D E S) s l :
  (forall s a, keeps P (f s a)) -> keeps P (fold_each f s l).
Proof.
  intros Hf. revert s. induction l as [|a l IH]; intros s; [apply keeps_ret|].
  apply keeps_bind; [apply Hf|apply IH].
Qed.
Lemma keeps_for_each {E A} P (f : A -> M D E unit) l : (forall a, keeps P (f a)) -> keeps P (for_each f l).
Proof. intros Hf. apply keeps_fold_each. intros _. apply Hf. Qed.

(** A loop keeps what every turn keeps, and errs as a turn does. *)
Lemma wp_fold_each {E A S} (I : S -> World D -> Prop) (Q : E -> World D -> Prop) (f : S -> A -> M D E S) s l w :
  (forall s a w, a ∈ l -> I s w ->
     wp (f s a) (fun r w' => match r with Ok s' => I s' w' | Err e => Q e w' end) w) ->
  I s w -> wp (fold_each f s l) (fun r w' => match r with Ok s' => I s' w' | Err e => Q e w' end) w.
Proof.
  revert s w. induction l as [|a l IH]; intros s w Hf Hs; [by apply wp_ret|].
  apply wp_bind. eapply wp_consequence; [apply Hf; [apply list_elem_of_here|done]|].
  intros [s'|e] w' Hw'; [|done]. apply IH; [|done]. intros. apply Hf; [by apply list_elem_of_further|done].
Qed.

(** A loop whose invariant speaks of what is left to visit. *)
Lemma wp_fold_each_rest {E A S} (I : list A -> S -> World D -> Prop) (Q : E -> World D -> Prop)
    (f : S -> A -> M D E S) s l w :
  (forall a l' s w, I (a :: l') s w ->
     wp (f s a) (fun r w' => match r with Ok s' => I l' s' w' | Err e => Q e w' end) w) ->
  I l s w -> wp (fold_each f s l) (fun r w' => match r with Ok s' => I [] s' w' | Err e => Q e w' end) w.
Proof.
  intros Hf. revert s w. induction l as [|a l IH]; intros s w Hs; [by apply wp_ret|].
  apply wp_bind. eapply wp_consequence; [by apply Hf|]. intros [s'|e] w' Hw'; [by apply IH|done].
Qed.

(** A computation on the remote leaves the local database alone. *)
Lemma keeps_on_remote {R E A} (P : D -> Prop) (m : M R E A) :
  keeps (fun d => P (fst d)) (on_remote m : M (D * R) E A).
Proof. intros w HP. unfold on_remote. by destruct (m (remote_of w)). Qed.
Lemma keeps_on_local {R E A} (P : D -> Prop) (m : M D E A) :
  keeps P m -> keeps (fun d => P (fst d)) (on_local m : M (D * R) E A).
Proof. intros Hm w HP. specialize (Hm (local_of w) HP). unfold on_local. by destruct (m (local_of w)). Qed.

Lemma read_only_keeps {E A} (m : M D E A) P : read_only m -> keeps P m.
Proof. intros Hm w HP. by rewrite Hm. Qed.
Lemma keeps_read_only {E A} (m : M D E A) : (forall d0, keeps (fun d => d = d0) m) -> read_only m.
Proof. intros Hm w. by apply (Hm (w_db w)). Qed.
Lemma read_only_query {A} (f : D -> Res SqlError A) : read_only (query f).
Proof. intros w. unfold query. by destruct (env_fault _). Qed.
Lemma wp_read_only {E A} (m : M D E A) w : read_only m -> wp m (fun _ w' => w_db w' = w_db w) w.
Proof. intros Hm. apply Hm. Qed.
Lemma read_only_bind {E A B} (m : M D E A) (f : A -> M D E B) :
  read_only m -> (forall a, read_only (f a)) -> read_only (mbind f m).
Proof.
  intros Hm Hf w. specialize (Hm w). unfold mbind, M_bind.
  destruct (m w) as [[a|e] w']; cbn in *; [by rewrite Hf|done].
Qed.
End Rules.

#[export] Hint Resolve keeps_ret keeps_throw keeps_lift_res keeps_bind keeps_map_err keeps_try
  keeps_ignore keeps_now keeps_observe keeps_load_interrupt keeps_query keeps_transaction keeps_transaction_if
  keeps_on_remote keeps_on_local keeps_fold_each keeps_for_each : eff.

(** Peel one layer of a computation under [keeps], splitting the matches of the
    code on the way. *)
Ltac keeps_step :=
  match goal with
  | |- keeps _ (mbind _ _) => apply keeps_bind; [|intros ?]
  | |- keeps _ (map_err _ _) => apply keeps_map_err
  | |- keeps _ (try _) => apply keeps_try
  | |- keeps _ (ignore _) => apply keeps_ignore
  | |- keeps _ (transaction _ _) => apply keeps_transaction
  | |- keeps _ (transaction_if _ _ _ _) => apply keeps_transaction_if
  | |- keeps _ (on_remote _) => apply keeps_on_remote
  | |- keeps _ (on_local _) => apply keeps_on_local
  | |- keeps _ (fold_each _ _ _) => apply keeps_fold_each; intros ? ?
  | |- keeps _ (for_each _ _) => apply keeps_for_each; intros ?
  | |- keeps _ (query _) => apply keeps_query
  | |- keeps _ (mret _) => apply keeps_ret
  | |- keeps _ (throw _) => apply keeps_throw
  | |- keeps _ (lift_res _) => apply keeps_lift_res
  | |- keeps _ now => apply keeps_now
  | |- keeps _ (observe _) => apply keeps_observe
  | |- keeps _ load_interrupt => apply keeps_load_interrupt
  | |- keeps _ (match ?x with _ => _ end) => destruct x
  end.
Ltac keeps_auto := repeat (keeps_step || (solve [eauto with eff])).

Ltac read_only_auto := apply keeps_read_only; intros ?; keeps_auto.

(** *** Without failures *)

(** No statement fails. *)
Class FaultFree (env : Env) : Prop := fault_free n : env_fault n = false.

Section FaultFree.
Context {D : Type} {env : Env} `{!FaultFree env}.

Lemma wp_query_live {A} (f : D -> Res SqlError A) (Q : Res SqlError A -> World D -> Prop) w :
  (forall w', w_db w' = w_db w -> Q (f (w_db w)) w') -> wp (query f) Q w.
Proof. intros HQ. unfold wp, query. rewrite fault_free. by apply HQ. Qed.

Lemma wp_execute_live {A} (f : D -> Res SqlError (A * D)) (Q : Res SqlError A -> World D -> Prop) w a d :
  f (w_db w) = Ok (a, d) -> (forall w', w_db w' = d -> Q (Ok a) w') -> wp (execute f) Q w.
Proof. intros Hf HQ. unfold wp, execute. rewrite fault_free, Hf. by apply HQ. Qed.

Lemma wp_transaction_if_live {E A} (g : SqlError -> E) (h : A -> SqlError -> E) (c : A -> bool)
    (body : M D E A) Q w :
  (forall w1, w_db w1 = w_db w ->
     wp body (fun r w2 => match r with
                          | Ok a => forall w3, w_db w3 = (if c a then w_db w2 else w_db w) -> Q (Ok a) w3
                          | Err e => forall w3, w_db w3 = w_db w -> Q (Err e) w3
                          end) w1) ->
  wp (transaction_if g h c body) Q w.
Proof.
  intros Hb. unfold wp, transaction_if, map_err, query. rewrite !fault_free. cbn.
  specialize (Hb (next_stmt w) eq_refl). unfold wp in Hb.
  destruct (body (next_stmt w)) as [[a|e] w2]; cbn in *; [|by apply Hb].
  destruct (c a); [rewrite fault_free|]; by apply Hb.
Qed.
End FaultFree.

#[global] Instance calm_fault_free : FaultFree calm.
Proof. by intros n. Qed.

(** *** Errors *)

(** The errors a computation can end in. *)
Definition raises {D E A} (P : E -> Prop) (m : M D E A) : Prop :=
  forall w, match fst (m w) with Ok _ => True | Err e => P e end.

Section Raises.
Context {D : Type} `{Env}.

Lemma raises_ret {E A} P (a : A) : raises P (mret a : M D E A).
Proof. by intros w. Qed.
Lemma raises_throw {E A} (P : E -> Prop) e : P e -> raises P (throw e : M D E A).
Proof. by intros He w. Qed.
Lemma raises_lift_res {E A} (P : E -> Prop) (r : Res E A) :
  (forall e, r = Err e -> P e) -> raises P (lift_res r : M D E A).
Proof. intros Hr w. cbn. destruct r; auto. Qed.
Lemma raises_bind {E A B} (P : E -> Prop) (m : M D E A) (f : A -> M D E B) :
  raises P m -> (forall a, raises P (f a)) -> raises P (mbind f m).
Proof.
  intros Hm Hf w. specialize (Hm w). unfold mbind, M_bind. destruct (m w) as [[a|e] w']; [apply Hf|done].
Qed.
Lemma raises_map_err {E F A} (P : F -> Prop) (f : E -> F) (m : M D E A) :
  raises (fun e => P (f e)) m -> raises P (map_err f m).
Proof. intros Hm w. specialize (Hm w). unfold map_err. by destruct (m w) as [[a|e] w']. Qed.
Lemma raises_any {E A} (P : E -> Prop) (m : M D E A) : (forall e, P e) -> raises P m.
Proof. intros HP w. destruct (fst (m w)); auto. Qed.
Lemma raises_try {E F A} (P : F -> Prop) (m : M D E A) : raises P (try m : M D F _).
Proof. intros w. unfold try. by destruct (m w). Qed.
Lemma raises_now {E} (P : E -> Prop) : raises P (now : M D E Z).
Proof. by intros w. Qed.
Lemma raises_transaction_if {E A} (P : E -> Prop) (g : SqlError -> E) (h : A -> SqlError -> E) c (m : M D E A) :
  (forall e, P (g e)) -> (forall a e, P (h a e)) -> raises P m -> raises P (transaction_if g h c m).
Proof.
  intros Hg Hh Hm w. unfold transaction_if, map_err, query.
  destruct (env_fault (w_stmt w)); cbn; [apply Hg|]. specialize (Hm (next_stmt w)).
  destruct (m (next_stmt w)) as [[a|e] w2]; cbn in *; [|done].
  destruct (c a); [|done]. destruct (env_fault (w_stmt w2)); cbn; [apply Hh|done].
Qed.

Lemma wp_raises {E A} (P : E -> Prop) (m : M D E A) w :
  raises P m -> wp m (fun r _ => forall e, r = Err e -> P e) w.
Proof. intros Hm. specialize (Hm w). unfold wp. destruct (fst (m w)); intros e' [= <-]; done. Qed.
End Raises.

Ltac raises_auto :=
  repeat match goal with
  | |- raises _ (mbind _ _) => apply raises_bind; [|intros ?]
  | |- raises _ (map_err _ _) => apply raises_map_err
  | |- raises _ (try _) => apply raises_try
  | |- raises _ (mret _) => apply raises_ret
  | |- raises _ (throw _) => apply raises_throw
  | |- raises _ (lift_res _) => apply raises_lift_res
  | |- raises _ now => apply raises_now
  | |- raises _ (match ?x with _ => _ end) => destruct x
  | |- raises _ _ => solve [apply raises_any; auto]
  end.

(** Peel one layer of a computation under [wp]. *)
Ltac wp_step :=
  match goal with
  | |- wp (mbind _ _) _ _ => apply wp_bind
  | |- wp (mret _) _ _ => apply wp_ret
  | |- wp (throw _) _ _ => apply wp_throw
  | |- wp (lift_res _) _ _ => apply wp_lift_res
  | |- wp (map_err _ _) _ _ => apply wp_map_err
  | |- wp (try _) _ _ => apply wp_try
  | |- wp (ignore _) _ _ => apply wp_ignore
  | |- wp now _ _ => apply wp_now; intros
  | |- wp (observe _) _ _ => apply wp_observe; intros
  | |- wp load_interrupt _ _ => apply wp_load_interrupt; intros
  end.

(** Rewrite with what is known of the databases of the worlds at hand. *)
Ltac db_eqs :=
  repeat match goal with
         | H : Ok _ = Ok _ |- _ => injection H as H; try subst
         | H : Err _ = Ok _ |- _ => discriminate H
         | H : Ok _ = Err _ |- _ => discriminate H
         | H : Err _ = Err _ |- _ => injection H as H; try subst
         | H : w_db ?w = _ |- _ =>
             is_var w;
             repeat match goal with
                    | H' : context [w_db w] |- _ =>
                        lazymatch H' with H => fail | _ => rewrite H in H' end
                    end;
             try rewrite !H; clear H
         end.

(** Run a computation under [wp]: every primitive is peeled, every statement
    splits on whether it fails. *)
Ltac wp_prim :=
  match goal with
  | |- wp (execute _) _ _ => apply wp_execute; intros
  | |- wp (query _) _ _ => apply wp_query; intros
  | |- forall w', w_db w' = _ -> _ => intros
  | |- _ => wp_step
  end.
Ltac wp_run :=
  cbn [res_map_err];
  repeat (wp_prim; cbn [res_map_err];
          repeat match goal with
                 | H : Ok _ = Err _ |- _ => discriminate H
                 | H : Err _ = Ok _ |- _ => discriminate H
                 | H : Ok (_, _) = Ok (?a, ?d) |- _ => injection H as; try subst a; try subst d
                 | H : _ = Ok (?a, ?d) |- _ => is_var a; is_var d; progress cbn beta in H
                 | H : _ = Err ?d |- _ => progress cbn beta in H
                 end).

(** The same without entering the statements, to apply a lemma about one. *)
Ltac wp_steps := cbn [res_map_err]; repeat (wp_step; cbn [res_map_err]).

(** Split on the condition the computation tests first. *)
Ltac wp_if E := match goal with |- wp (if ?c then _ else _) _ _ => destruct c eqn:E; wp_steps end.

(** *** Successful runs *)

Lemma bind_Ok {D E A B} (m : M D E A) (f : A -> M D E B) w b w' :
  mbind f m w = (Ok b, w') -> exists a w1, m w = (Ok a, w1) /\ f a w1 = (Ok b, w').
Proof. unfold mbind, M_bind. destruct (m w) as [[a|e] w1]; [by eauto|done]. Qed.

Lemma ret_Ok {D E A} (a b : A) (w w' : World D) :
  (mret a : M D E A) w = (Ok b, w') -> a = b /\ w = w'.
Proof. by intros [=]. Qed.

Lemma throw_Ok {D E A} (e : E) (b : A) (w w' : World D) : (throw e : M D E A) w = (Ok b, w') -> False.
Proof. done. Qed.

Lemma map_err_Ok {D E F A} (f : E -> F) (m : M D E A) (b : A) (w w' : World D) :
  map_err f m w = (Ok b, w') -> m w = (Ok b, w').
Proof. unfold map_err. by destruct (m w) as [[a|e] w1]; intros [= -> ->]. Qed.

Lemma lift_res_Ok {D E A} (r : Res E A) (b : A) (w w' : World D) :
  lift_res r w = (Ok b, w') -> r = Ok b /\ w = w'.
Proof. by intros [=]. Qed.

Lemma try_Ok {D E F A} (m : M D E A) (r : Res E A) (w w' : World D) :
  (try m : M D F _) w = (Ok r, w') -> m w = (r, w').
Proof. unfold try. destruct (m w). by intros [= -> ->]. Qed.

(** Take a successful run apart: the intermediate results, the branches. *)
Ltac run_inv1 :=
  match goal with
  | H : mbind _ _ _ = (Ok _, _) |- _ => apply bind_Ok in H as (? & ? & ? & H)
  | H : (mret _) _ = (Ok _, _) |- _ => apply ret_Ok in H as [H ?]; try subst
  | H : (throw _) _ = (Ok _, _) |- _ => destruct (throw_Ok _ _ _ _ H)
  | H : lift_res _ _ = (Ok _, _) |- _ => apply lift_res_Ok in H as [H ?]; try subst
  | H : map_err _ _ _ = (Ok _, _) |- _ => apply map_err_Ok in H
  | H : try _ _ = (Ok _, _) |- _ => apply try_Ok in H
  | H : (match ?x with _ => _ end) _ = (Ok _, _) |- _ => destruct x eqn:?
  | H : (let '(_, _) := ?x in _) _ = (Ok _, _) |- _ => destruct x eqn:?
  end.
Ltac run_inv := repeat (run_inv1; simplify_eq/=).
