(* ===== verification/Text.v ===== *)
(** Text as the standard library handles it: decimal integers, trimming,
    splitting.  Strings are UTF-8 bytes; the functions here look at ASCII
    characters only, so they mean on bytes what they mean on characters. *)
From S2P Require Import Prelude.
From Stdlib Require Import Ascii.

(** [char::to_digit(10)] *)
Definition digit_value (c : ascii) : option Z :=
  let n := nat_of_ascii c in
  if decide (48 <= n <= 57) then Some (Z.of_nat n - 48)%Z else None.

(** The checked accumulation of [u64::from_str]. *)
Fixpoint parse_digits (max acc : Z) (s : string) : option Z :=
  match s with
  | "" => Some acc
  | String c rest =>
      match digit_value c with
      | None => None
      | Some d =>
          let acc' := (acc * 10 + d)%Z in
          if decide (acc' <= max)%Z then parse_digits max acc' rest else None
      end
  end.

(** [str::parse::<u64>().ok()]: an optional [+], then at least one digit. *)
Definition parse_unsigned (max : Z) (s : string) : option Z :=
  match s with
  | "" => None
  | String "+" "" => None
  | String "+" rest => parse_digits max 0 rest
  | _ => parse_digits max 0 s
  end.
Definition parse_u64 (s : string) : option Z := parse_unsigned u64_max s.
Definition parse_u32 (s : string) : option Z := parse_unsigned u32_max s.

(** [str::trim_start_matches] of a character. *)
Fixpoint trim_start_char (c : ascii) (s : string) : string :=
  match s with
  | String d rest => if decide (d = c) then trim_start_char c rest else s
  | "" => ""
  end.

(** [str::split] at a character: always at least one piece. *)
Fixpoint split_char (c : ascii) (s : string) : list string :=
  match s with
  | "" => [""]
  | String d rest =>
      if decide (d = c) then "" :: split_char c rest
      else match split_char c rest with
           | piece :: pieces => String d piece :: pieces
           | [] => [String d ""]
           end
  end.

(** [[String]::join] *)
Fixpoint join_with (sep : string) (l : list string) : string :=
  match l with
  | [] => ""
  | [s] => s
  | s :: rest => s +:+ sep +:+ join_with sep rest
  end.

(** ** Decimal integers are read back *)

Lemma digit_value_pretty d : (d < 10)%N -> digit_value (pretty_N_char d) = Some (Z.of_N d).
Proof.
  intros Hd. assert (d ∈ seqZ 0 10 ≫= fun z => [Z.to_N z]) as Hin.
  { apply list_elem_of_bind. exists (Z.of_N d). split; [|apply elem_of_seqZ; lia].
    rewrite N2Z.id. by apply list_elem_of_singleton. }
  cbn in Hin. repeat (apply elem_of_cons in Hin as [->|Hin]; [done|]).
  by apply not_elem_of_nil in Hin.
Qed.

Lemma parse_digits_pretty_go max x s :
  (Z.of_N x <= max)%Z -> parse_digits max 0 (pretty_N_go x s) = parse_digits max (Z.of_N x) s.
Proof.
  revert s. induction (N.lt_wf_0 x) as [x _ IH]. intros s Hx.
  destruct (decide (0 < x)%N) as [Hpos|Hz].
  - rewrite pretty_N_go_step by done.
    assert (Hdiv : (x `div` 10 < x)%N) by (apply N.div_lt; lia).
    rewrite IH by lia. cbn.
    rewrite digit_value_pretty by (apply N.mod_lt; lia).
    assert (Heq : (Z.of_N (x `div` 10) * 10 + Z.of_N (x `mod` 10) = Z.of_N x)%Z).
    { rewrite (N.div_mod x 10) at 3 by lia. lia. }
    rewrite Heq. by rewrite decide_True.
  - assert (x = 0)%N as -> by lia. by rewrite pretty_N_go_0.
Qed.

(** A text of decimal digits. *)
Fixpoint all_digits (s : string) : bool :=
  match s with
  | "" => true
  | String c rest => bool_decide (is_Some (digit_value c)) && all_digits rest
  end.

Lemma all_digits_go x s : all_digits s = true -> all_digits (pretty_N_go x s) = true.
Proof.
  revert s. induction (N.lt_wf_0 x) as [x _ IH]. intros s Hs.
  destruct (decide (0 < x)%N) as [Hpos|Hz].
  - rewrite pretty_N_go_step by done. apply IH; [apply N.div_lt; lia|]. cbn.
    rewrite digit_value_pretty by (apply N.mod_lt; lia). cbn. done.
  - assert (x = 0)%N as -> by lia. done.
Qed.

Lemma pretty_Z_N z : (0 <= z)%Z -> (pretty z : string) = pretty (Z.to_N z).
Proof. intros Hz. by destruct z. Qed.

Lemma parse_digits_pretty max z : (0 <= z <= max)%Z -> parse_digits max 0 (pretty z) = Some z.
Proof.
  intros Hz. rewrite pretty_Z_N by lia. unfold pretty, pretty_N. case_decide as E.
  - assert (z = 0)%Z as -> by lia. cbn [parse_digits]. change (digit_value "0") with (Some 0%Z).
    cbn [Z.mul Z.add]. by rewrite decide_True by lia.
  - rewrite parse_digits_pretty_go by lia. cbn [parse_digits]. f_equal. lia.
Qed.

Lemma all_digits_pretty z : (0 <= z)%Z -> all_digits (pretty z) = true.
Proof.
  intros Hz. rewrite pretty_Z_N by lia. unfold pretty, pretty_N. case_decide; [done|].
  by apply all_digits_go.
Qed.

Lemma pretty_N_go_not_empty x s : s <> "" -> pretty_N_go x s <> "".
Proof.
  revert s. induction (N.lt_wf_0 x) as [x _ IH]. intros s Hs.
  destruct (decide (0 < x)%N); [|by assert (x = 0)%N as -> by lia].
  rewrite pretty_N_go_step by done. apply IH; [apply N.div_lt; lia|done].
Qed.

Lemma pretty_not_empty z : (0 <= z)%Z -> (pretty z : string) <> "".
Proof.
  intros Hz. rewrite pretty_Z_N by lia. unfold pretty, pretty_N. case_decide; [done|].
  rewrite pretty_N_go_step by lia. by apply pretty_N_go_not_empty.
Qed.

(** What the readers of this file do on a text of digits. *)
Lemma digit_not c d s :
  all_digits (String d s) = true -> digit_value c = None -> d <> c.
Proof. cbn. intros [[v Hv]%bool_decide_eq_true _]%andb_true_iff Hc ->. congruence. Qed.

Lemma char_app c s : String c "" +:+ s = String c s.
Proof. reflexivity. Qed.

Lemma split_char_step c d s :
  split_char c (String d s) =
  if decide (d = c) then "" :: split_char c s
  else match split_char c s with
       | piece :: pieces => String d piece :: pieces
       | [] => [String d ""]
       end.
Proof. reflexivity. Qed.

Lemma trim_start_step c d s :
  trim_start_char c (String d s) = if decide (d = c) then trim_start_char c s else String d s.
Proof. reflexivity. Qed.

Lemma split_char_digits c s t :
  all_digits s = true -> digit_value c = None ->
  split_char c (s +:+ String c t) = s :: split_char c t.
Proof.
  intros Hs Hc. induction s as [|d s IH].
  - change ("" +:+ String c t) with (String c t). by rewrite split_char_step, decide_True.
  - change (String d s +:+ String c t) with (String d (s +:+ String c t)).
    rewrite split_char_step, decide_False by (by eapply digit_not).
    rewrite IH; [done|]. by apply andb_true_iff in Hs as [_ ?].
Qed.

Lemma split_char_digits_end c s : all_digits s = true -> digit_value c = None -> split_char c s = [s].
Proof.
  intros Hs Hc. induction s as [|d s IH]; [done|].
  rewrite split_char_step, decide_False by (by eapply digit_not). rewrite IH; [done|].
  by apply andb_true_iff in Hs as [_ ?].
Qed.

Lemma trim_start_digits c s t :
  all_digits s = true -> s <> "" -> digit_value c = None ->
  trim_start_char c (s +:+ t) = s +:+ t.
Proof.
  intros Hs Hne Hc. destruct s as [|d s]; [done|].
  change (String d s +:+ t) with (String d (s +:+ t)).
  by rewrite trim_start_step, decide_False by (by eapply digit_not).
Qed.

Lemma parse_unsigned_digits max s :
  all_digits s = true -> s <> "" -> parse_unsigned max s = parse_digits max 0 s.
Proof.
  intros Hs Hne. destruct s as [|d s]; [done|].
  assert (d <> "+"%char) by (by eapply digit_not).
  unfold parse_unsigned. destruct d as [[] [] [] [] [] [] [] []]; done.
Qed.

(** Printing a machine integer and parsing it gives it back. *)
Lemma parse_u64_pretty z : is_u64 z -> parse_u64 (pretty z) = Some z.
Proof.
  intros Hz. unfold parse_u64. rewrite parse_unsigned_digits.
  - by apply parse_digits_pretty.
  - apply all_digits_pretty. unfold is_u64 in Hz. lia.
  - apply pretty_not_empty. unfold is_u64 in Hz. lia.
Qed.

(** What the standard library prints for [{:?}] of an optional string: quotes
    and escapes. *)
Class OptionDebug := debug_opt_string : option string -> string.

Definition debug_opt_int (o : option Z) : string :=
  match o with Some n => "Some(" +:+ pretty n +:+ ")" | None => "None" end.

(** [str::split_once] at a character. *)
Fixpoint split_once (c : ascii) (s : string) : option (string * string) :=
  match s with
  | "" => None
  | String d rest =>
      if decide (d = c) then Some ("", rest)
      else '(before, after) ← split_once c rest; Some (String d before, after)
  end.
