(* ===== verification/Digest.v ===== *)
(** Bytes, digests and the length-prefixed frames that the stores hash
    ([persistence/recovery_operations.rs], [persistence/effect_intents.rs],
    [engine/recovery/capsule.rs], [persistence/launch_provenance.rs], and
    [sha256_hex] of the core crate).

    A byte sequence ([Vec<u8>], [&[u8]]) is a [string] of [ascii]; an
    [as_bytes] is then the identity.  SHA-256 itself is third-party code: the
    class [Sha256] holds it, with no law.  The theorems about digests are about
    the frames that are hashed, so they hold for every hash function: two
    bindings with the same digest either are the same binding or exhibit a
    collision on two explicit frames. *)
From Stdlib Require Import Ascii String.
From S2P Require Import Prelude.

Abbreviation Bytes := string.

(** ** Fixed-width integers *)

Definition byte_of (z : Z) : ascii := ascii_of_N (Z.to_N (Z.land z 255)).
Definition byte_value (c : ascii) : Z := Z.of_N (N_of_ascii c).

(** [to_be_bytes] of an [8 n]-bit integer; a negative one in two's
    complement. *)
Fixpoint be_bytes (n : nat) (z : Z) : Bytes :=
  match n with
  | 0 => EmptyString
  | S n' => String (byte_of (Z.shiftr z (8 * Z.of_nat n'))) (be_bytes n' z)
  end.

(** [from_be_bytes], unsigned. *)
Fixpoint be_value (acc : Z) (s : Bytes) : Z :=
  match s with
  | EmptyString => acc
  | String c s' => be_value (256 * acc + byte_value c) s'
  end.

Definition u32_to_be_bytes (z : Z) : Bytes := be_bytes 4 z.
Definition u64_to_be_bytes (z : Z) : Bytes := be_bytes 8 z.
Definition i64_to_be_bytes (z : Z) : Bytes := be_bytes 8 z.

(** ** Frames *)

(** [buf] extended by the length of [bytes], in [w] bytes and saturating, and
    the bytes. *)
Definition push_prefixed (w : nat) (buf bytes : Bytes) : Bytes :=
  let len := Z.min (Z.of_nat (String.length bytes)) (2 ^ (8 * Z.of_nat w) - 1) in
  buf +:+ be_bytes w len +:+ bytes.

(** [recovery_operations.rs] and [effect_intents.rs]: a [u64] prefix. *)
Definition push_len_prefixed (buf bytes : Bytes) : Bytes := push_prefixed 8 buf bytes.

(** [capsule.rs]: a [u32] prefix. *)
Definition write_len_prefixed (buf bytes : Bytes) : Bytes := push_prefixed 4 buf bytes.

(** Reading one field back, and [n] of them. *)
Definition read_field (w : nat) (s : Bytes) : option (Bytes * Bytes) :=
  let len := Z.to_nat (be_value 0 (substring 0 w s)) in
  let rest := substring w (String.length s - w) s in
  if decide (w + len <= String.length s)
  then Some (substring 0 len rest, substring len (String.length rest - len) rest)
  else None.

Fixpoint read_fields (w n : nat) (s : Bytes) : option (list Bytes * Bytes) :=
  match n with
  | 0 => Some ([], s)
  | S n' =>
      '(f, s1) ← read_field w s;
      '(fs, s2) ← read_fields w n' s1;
      Some (f :: fs, s2)
  end.

(** ** Hexadecimal *)

Definition DIGITS : string := "0123456789abcdef".

Definition hex_of_nibble (n : N) : ascii := default "0"%char (String.get (N.to_nat n) DIGITS).

Fixpoint hex_lower (s : Bytes) : string :=
  match s with
  | EmptyString => EmptyString
  | String c s' =>
      let n := N_of_ascii c in
      String (hex_of_nibble (N.shiftr n 4)) (String (hex_of_nibble (N.land n 15)) (hex_lower s'))
  end.

(** The digest function of the [sha2] crate. *)
Class Sha256 := sha256 : Bytes -> Bytes.

(** [sha256_hex], [hex_digest]: the digest in lowercase hexadecimal. *)
Definition sha256_hex `{Sha256} (bytes : Bytes) : string := hex_lower (sha256 bytes).

(** ** UTF-8 *)

Definition between (lo hi : Z) (c : ascii) : bool :=
  ((lo <=? byte_value c) && (byte_value c <=? hi))%Z.
Definition continuation (c : ascii) : bool := between 128 191 c.

(** What [String::from_utf8] accepts: no overlong form, no surrogate, nothing
    above U+10FFFF. *)
Fixpoint utf8_valid (s : Bytes) : bool :=
  match s with
  | EmptyString => true
  | String c0 s0 =>
      if between 0 127 c0 then utf8_valid s0
      else match s0 with
      | EmptyString => false
      | String c1 s1 =>
          if between 194 223 c0 then continuation c1 && utf8_valid s1
          else match s1 with
          | EmptyString => false
          | String c2 s2 =>
              let second :=
                if between 224 224 c0 then between 160 191 c1
                else if between 237 237 c0 then between 128 159 c1
                else continuation c1 in
              if between 224 239 c0 then second && continuation c2 && utf8_valid s2
              else match s2 with
              | EmptyString => false
              | String c3 s3 =>
                  let second :=
                    if between 240 240 c0 then between 144 191 c1
                    else if between 244 244 c0 then between 128 143 c1
                    else continuation c1 in
                  between 240 244 c0 && second && continuation c2 && continuation c3
                  && utf8_valid s3
              end
          end
      end
  end.

(** The ranges of the bytes that follow a first byte. *)
Definition sequence_ranges (c : ascii) : option (list (Z * Z)) :=
  let tail := (128, 191)%Z in
  if between 0 127 c then Some []
  else if between 194 223 c then Some [tail]
  else if between 224 224 c then Some [(160, 191)%Z; tail]
  else if between 237 237 c then Some [(128, 159)%Z; tail]
  else if between 225 239 c then Some [tail; tail]
  else if between 240 240 c then Some [(144, 191)%Z; tail; tail]
  else if between 241 243 c then Some [tail; tail; tail]
  else if between 244 244 c then Some [(128, 143)%Z; tail; tail]
  else None.

Fixpoint matching (ranges : list (Z * Z)) (s : Bytes) : nat :=
  match ranges, s with
  | (lo, hi) :: ranges, String c s => if between lo hi c then S (matching ranges s) else 0
  | _, _ => 0
  end.

(** U+FFFD *)
Definition REPLACEMENT_CHARACTER : Bytes :=
  String (byte_of 239) (String (byte_of 191) (String (byte_of 189) "")).

(** [String::from_utf8_lossy]: each maximal prefix of an ill-formed sequence
    becomes one replacement character. *)
Fixpoint utf8_lossy (fuel : nat) (s : Bytes) : string :=
  match fuel, s with
  | S fuel, String c rest =>
      match sequence_ranges c with
      | None => REPLACEMENT_CHARACTER +:+ utf8_lossy fuel rest
      | Some ranges =>
          let n := matching ranges rest in
          let after := utf8_lossy fuel (substring n (String.length rest - n) rest) in
          if n =? length ranges then String c (substring 0 n rest) +:+ after
          else REPLACEMENT_CHARACTER +:+ after
      end
  | _, _ => EmptyString
  end.
Definition from_utf8_lossy (s : Bytes) : string := utf8_lossy (String.length s) s.

Example lossy_sample :
  from_utf8_lossy "run-1" = "run-1" /\
  from_utf8_lossy (String (byte_of 226) (String (byte_of 130) "a")) = REPLACEMENT_CHARACTER +:+ "a" /\
  from_utf8_lossy (String (byte_of 192) "b") = REPLACEMENT_CHARACTER +:+ "b".
Proof. vm_compute. done. Qed.

(** ** Lemmas *)

Lemma length_be_bytes n z : String.length (be_bytes n z) = n.
Proof. induction n as [|n IH]; cbn; [done|]. by rewrite IH. Qed.

Lemma byte_value_of z : byte_value (byte_of z) = (z mod 256)%Z.
Proof.
  unfold byte_value, byte_of. change 255%Z with (Z.ones 8). rewrite Z.land_ones by lia.
  change (2 ^ 8)%Z with 256%Z. pose proof (Z.mod_pos_bound z 256 ltac:(lia)).
  rewrite N_ascii_embedding by lia. lia.
Qed.

Lemma be_value_bytes n z acc :
  be_value acc (be_bytes n z) = (acc * 2 ^ (8 * Z.of_nat n) + z mod 2 ^ (8 * Z.of_nat n))%Z.
Proof.
  revert acc. induction n as [|n IH]; intros acc; cbn [be_bytes be_value].
  - change (2 ^ (8 * Z.of_nat 0))%Z with 1%Z. rewrite Z.mod_1_r. lia.
  - rewrite IH, byte_value_of, Z.shiftr_div_pow2 by lia.
    set (p := (2 ^ (8 * Z.of_nat n))%Z).
    assert (Hp : (0 < p)%Z) by (apply Z.pow_pos_nonneg; lia).
    assert (HS : (2 ^ (8 * Z.of_nat (S n)) = p * 256)%Z).
    { unfold p. change 256%Z with (2 ^ 8)%Z. rewrite <- Z.pow_add_r by lia. f_equal. lia. }
    rewrite HS, (Z.rem_mul_r z p 256) by lia. lia.
Qed.

Lemma be_bytes_inj n z z' :
  be_bytes n z = be_bytes n z' ->
  (z mod 2 ^ (8 * Z.of_nat n) = z' mod 2 ^ (8 * Z.of_nat n))%Z.
Proof.
  intros Heq. pose proof (be_value_bytes n z 0) as H1. pose proof (be_value_bytes n z' 0) as H2.
  rewrite Heq in H1. lia.
Qed.

Lemma append_nil_r s : s +:+ "" = s.
Proof. induction s as [|c s IH]; [done|]. change (String c (s +:+ "") = String c s). by rewrite IH. Qed.

Lemma append_assoc s1 s2 s3 : (s1 +:+ s2) +:+ s3 = s1 +:+ s2 +:+ s3.
Proof.
  induction s1 as [|c s IH]; [done|].
  change (String c ((s +:+ s2) +:+ s3) = String c (s +:+ s2 +:+ s3)). by rewrite IH.
Qed.

Lemma length_append s1 s2 : String.length (s1 +:+ s2) = String.length s1 + String.length s2.
Proof.
  induction s1 as [|c s IH]; [done|].
  change (S (String.length (s +:+ s2)) = S (String.length s + String.length s2)). by rewrite IH.
Qed.

Lemma append_length_inj s1 s2 t1 t2 :
  String.length s1 = String.length s2 -> s1 +:+ t1 = s2 +:+ t2 -> s1 = s2 /\ t1 = t2.
Proof.
  revert s2. induction s1 as [|c s1 IH]; intros [|c2 s2]; try done. intros [= Hl] Heq.
  change (String c (s1 +:+ t1) = String c2 (s2 +:+ t2)) in Heq. injection Heq as -> Heq.
  by destruct (IH s2 Hl Heq) as [-> ->].
Qed.

Lemma substring_prefix n s t : n = String.length s -> substring 0 n (s +:+ t) = s.
Proof.
  intros ->. induction s as [|c s IH]; [by destruct t|].
  change (String c (substring 0 (String.length s) (s +:+ t)) = String c s). by rewrite IH.
Qed.

Lemma substring_suffix n m s t :
  n = String.length s -> m = String.length t -> substring n m (s +:+ t) = t.
Proof.
  intros -> ->. induction s as [|c s IH]; [|exact IH].
  change (substring 0 (String.length t) t = t).
  pose proof (substring_prefix _ t "" eq_refl) as Hp. by rewrite append_nil_r in Hp.
Qed.

(** A field whose length fits its prefix is read back, with what follows. *)
Lemma read_field_prefixed w bytes rest :
  (Z.of_nat (String.length bytes) < 2 ^ (8 * Z.of_nat w))%Z ->
  read_field w (push_prefixed w "" bytes +:+ rest) = Some (bytes, rest).
Proof.
  intros Hfit. unfold push_prefixed, read_field. rewrite Z.min_l by lia.
  change ("" +:+ ?x) with x. rewrite append_assoc.
  set (pre := be_bytes w (Z.of_nat (String.length bytes))).
  assert (Hpre : w = String.length pre) by (symmetry; apply length_be_bytes).
  rewrite !(length_append pre), <- Hpre.
  rewrite substring_prefix, substring_suffix by (done || lia).
  assert (Hv : Z.to_nat (be_value 0 pre) = String.length bytes)
    by (unfold pre; rewrite be_value_bytes, Z.mod_small; lia).
  rewrite Hv.
  rewrite decide_True by (rewrite length_append; lia).
  rewrite length_append, substring_prefix, substring_suffix by (done || lia). done.
Qed.

Lemma push_prefixed_buf w buf bytes :
  push_prefixed w buf bytes = buf +:+ push_prefixed w "" bytes.
Proof. done. Qed.

(** Frames: fields one after the other. *)
Definition frame (w : nat) (fs : list Bytes) : Bytes :=
  fold_left (push_prefixed w) fs EmptyString.

Definition fits (w : nat) (fs : list Bytes) : Prop :=
  Forall (fun f => (Z.of_nat (String.length f) < 2 ^ (8 * Z.of_nat w))%Z) fs.

Global Instance fits_dec w fs : Decision (fits w fs).
Proof. unfold fits. apply _. Defined.

Lemma fold_push_buf w fs buf :
  fold_left (push_prefixed w) fs buf = buf +:+ fold_left (push_prefixed w) fs EmptyString.
Proof.
  revert buf. induction fs as [|f fs IH]; intros buf; cbn [fold_left].
  - by rewrite append_nil_r.
  - rewrite (IH (push_prefixed w buf f)), (IH (push_prefixed w "" f)).
    rewrite (push_prefixed_buf w buf). by rewrite append_assoc.
Qed.

Lemma frame_cons w f fs : frame w (f :: fs) = push_prefixed w "" f +:+ frame w fs.
Proof. unfold frame. cbn [fold_left]. apply fold_push_buf. Qed.

(** Reading as many fields as were written gives them back. *)
Lemma read_fields_frame w fs rest :
  fits w fs -> read_fields w (length fs) (frame w fs +:+ rest) = Some (fs, rest).
Proof.
  induction 1 as [|f fs Hf _ IH]; [done|].
  rewrite frame_cons, append_assoc. cbn [length read_fields].
  rewrite read_field_prefixed by done. cbn. by rewrite IH.
Qed.

Lemma frame_inj w fs fs' rest rest' :
  fits w fs -> fits w fs' -> length fs = length fs' ->
  frame w fs +:+ rest = frame w fs' +:+ rest' -> fs = fs' /\ rest = rest'.
Proof.
  intros H1 H2 Hl Heq. pose proof (read_fields_frame w fs rest H1) as E1.
  rewrite Heq, Hl, read_fields_frame in E1 by done. by simplify_eq.
Qed.

Lemma fits_i64 w z fs : 0 < w -> fits w fs -> fits w (i64_to_be_bytes z :: fs).
Proof.
  intros Hw Hfs. constructor; [|done]. unfold i64_to_be_bytes. rewrite length_be_bytes.
  assert (2 ^ 8 <= 2 ^ (8 * Z.of_nat w))%Z by (apply Z.pow_le_mono_r; lia). lia.
Qed.

Lemma i64_to_be_bytes_inj z z' :
  (- 2 ^ 63 <= z < 2 ^ 63)%Z -> (- 2 ^ 63 <= z' < 2 ^ 63)%Z ->
  i64_to_be_bytes z = i64_to_be_bytes z' -> z = z'.
Proof.
  intros Hz Hz' Heq. apply be_bytes_inj in Heq. change (8 * Z.of_nat 8)%Z with 64%Z in Heq.
  assert (Hm : forall x, (- 2 ^ 63 <= x < 2 ^ 63 ->
                x mod 2 ^ 64 = if decide (x < 0) then x + 2 ^ 64 else x)%Z).
  { intros x Hx. case_decide.
    - rewrite <- (Z.mod_add x 1) by lia. apply Z.mod_small. lia.
    - apply Z.mod_small. lia. }
  rewrite !Hm in Heq by done. repeat case_decide; lia.
Qed.

(** *** Hexadecimal *)

(** The value of a hexadecimal digit of either case. *)
Definition nibble_value (c : ascii) : option N :=
  let n := N_of_ascii c in
  if (48 <=? n)%N && (n <? 58)%N then Some (n - 48)%N
  else if (97 <=? n)%N && (n <? 103)%N then Some (n - 87)%N
  else if (65 <=? n)%N && (n <? 71)%N then Some (n - 55)%N
  else None.

Fixpoint unhex (s : string) : option Bytes :=
  match s with
  | EmptyString => Some EmptyString
  | String _ EmptyString => None
  | String h (String l s') =>
      hi ← nibble_value h; lo ← nibble_value l; rest ← unhex s';
      Some (String (ascii_of_N (N.lor (N.shiftl hi 4) lo)) rest)
  end.

Lemma nibbles_back c :
  nibble_value (hex_of_nibble (N.shiftr (N_of_ascii c) 4)) = Some (N.shiftr (N_of_ascii c) 4) /\
  nibble_value (hex_of_nibble (N.land (N_of_ascii c) 15)) = Some (N.land (N_of_ascii c) 15) /\
  ascii_of_N (N.lor (N.shiftl (N.shiftr (N_of_ascii c) 4) 4) (N.land (N_of_ascii c) 15)) = c.
Proof. destruct c as [[] [] [] [] [] [] [] []]; vm_compute; auto. Qed.

Lemma unhex_hex_lower s : unhex (hex_lower s) = Some s.
Proof.
  induction s as [|c s IH]; [done|]. cbn [hex_lower unhex].
  destruct (nibbles_back c) as (-> & -> & Hc). cbn. rewrite IH. cbn. by rewrite Hc.
Qed.

Lemma hex_lower_inj s s' : hex_lower s = hex_lower s' -> s = s'.
Proof. intros Heq. apply (inj Some). by rewrite <- !unhex_hex_lower, Heq. Qed.

Lemma length_hex_lower s : String.length (hex_lower s) = 2 * String.length s.
Proof. induction s as [|c s IH]; cbn [hex_lower String.length]; [done|]. rewrite IH. lia. Qed.

#[global] Arguments be_bytes : simpl never.
#[global] Arguments hex_lower : simpl never.
#[global] Arguments push_prefixed : simpl never.
