(* ===== verification/Sql.v ===== *)
(** SQL tables as lists of rows, in rowid order: what the statements the code
    issues mean, and the lemmas the components share about them. *)
From S2P Require Import Prelude.

(** Membership in a list by its constructors. *)
Ltac elem_tac :=
  intros;
  repeat match goal with
         | H : _ ∈ _ :: _ |- _ => apply elem_of_cons in H as [->|H]
         | H : _ ∈ [] |- _ => by apply not_elem_of_nil in H
         end;
  eauto using list_elem_of_here, list_elem_of_further.

Section Tables.
Context {R : Type}.
Implicit Types (t : list R) (p : R -> bool).

(** [SELECT ... WHERE p] *)
Definition select_where p t : list R := List.filter p t.

(** [SELECT ... WHERE p] read through [query_row(...).optional()]: the first
    row. *)
Definition select_first p t : option R := List.find p t.

(** [SELECT COUNT( * ) ... WHERE p] *)
Definition count_where p t : nat := length (select_where p t).

(** [UPDATE ... SET f WHERE p]: the rows after it, and how many matched. *)
Definition update_where p (f : R -> R) t : list R :=
  (fun r => if p r then f r else r) <$> t.

(** [DELETE ... WHERE p] *)
Definition delete_where p t : list R := List.filter (fun r => negb (p r)) t.

(** A row that satisfies [p] exists. *)
Definition exists_where p t : bool := existsb p t.

(** [INSERT ... ON CONFLICT(key) DO UPDATE SET <every other column>] where
    the update has no [WHERE]: replace the row with the same key, else
    append. *)
Definition upsert_by (same : R -> R -> bool) (merge : R -> R -> R) (r : R) t : list R :=
  if existsb (same r) t then update_where (same r) (merge r) t else t ++ [r].

(** [ORDER BY ts DESC LIMIT 1]: a row of the greatest [key]; among equals the
    first in table order. *)
Fixpoint newest_by (key : R -> Z) t : option R :=
  match t with
  | [] => None
  | r :: t' =>
      match newest_by key t' with
      | Some r' => if (key r <? key r')%Z then Some r' else Some r
      | None => Some r
      end
  end.

Lemma select_first_Some p t r :
  select_first p t = Some r -> r ∈ t /\ p r = true.
Proof.
  intros Hf. apply find_some in Hf as [Hin Hp]. split; [|done]. by apply list_elem_of_In.
Qed.

Lemma select_first_None p t :
  select_first p t = None <-> forall r, r ∈ t -> p r = false.
Proof.
  unfold select_first. split.
  - intros Hf r Hr. eapply find_none; [exact Hf|]. by apply list_elem_of_In.
  - induction t as [|x t IH]; cbn; intros Hall; [done|].
    rewrite (Hall x) by elem_tac. apply IH. elem_tac.
Qed.

Lemma elem_of_select_where p t r : r ∈ select_where p t <-> r ∈ t /\ p r = true.
Proof. unfold select_where. rewrite !list_elem_of_In. apply filter_In. Qed.

Lemma elem_of_delete_where p t r : r ∈ delete_where p t <-> r ∈ t /\ p r = false.
Proof.
  unfold delete_where. rewrite !list_elem_of_In, filter_In.
  by rewrite negb_true_iff.
Qed.

Lemma elem_of_update_where p f t r :
  r ∈ update_where p f t <->
  exists r0, r0 ∈ t /\ r = (if p r0 then f r0 else r0).
Proof.
  unfold update_where. rewrite list_elem_of_fmap.
  split; intros (r0 & H1 & H2); exists r0; by split.
Qed.

Lemma exists_where_true p t : exists_where p t = true <-> exists r, r ∈ t /\ p r = true.
Proof.
  unfold exists_where. rewrite existsb_exists.
  split; intros (r & Hin & Hp); exists r; by rewrite list_elem_of_In in *.
Qed.

Lemma exists_where_select p q t r :
  select_first q t = Some r -> p r = true -> exists_where p t = true.
Proof. intros [Hr _]%select_first_Some Hp. apply exists_where_true. eauto. Qed.

Lemma exists_where_false p t : exists_where p t = false <-> forall r, r ∈ t -> p r = false.
Proof.
  split.
  - intros Hf r Hr. destruct (p r) eqn:Ep; [|done].
    assert (exists_where p t = true) by (apply exists_where_true; eauto). congruence.
  - intros Hall. destruct (exists_where p t) eqn:E; [|done].
    apply exists_where_true in E as (r & Hr & Hp). by rewrite Hall in Hp.
Qed.

Lemma count_where_pos p t : 0 < count_where p t <-> exists r, r ∈ t /\ p r = true.
Proof.
  unfold count_where. split.
  - destruct (select_where p t) as [|r l] eqn:E; cbn; [lia|]. intros _.
    exists r. apply elem_of_select_where. rewrite E. elem_tac.
  - intros (r & Hr). apply elem_of_select_where in Hr.
    destruct (select_where p t); cbn; [elem_tac|lia].
Qed.

Lemma count_where_app p t t' : count_where p (t ++ t') = count_where p t + count_where p t'.
Proof. unfold count_where, select_where. by rewrite List.filter_app, length_app. Qed.

Lemma count_where_0 p t : count_where p t = 0 <-> forall r, r ∈ t -> p r = false.
Proof.
  split.
  - intros Hc r Hr. destruct (p r) eqn:E; [|done].
    assert (0 < count_where p t) by (apply count_where_pos; eauto). lia.
  - intros Hall. destruct (Nat.eq_0_gt_0_cases (count_where p t)) as [|Hp]; [done|].
    apply count_where_pos in Hp as (r & Hr & E). by rewrite Hall in E.
Qed.

Lemma update_where_id p f t :
  (forall r, r ∈ t -> p r = true -> f r = r) -> update_where p f t = t.
Proof.
  unfold update_where. intros Hid. induction t as [|r t IH]; csimpl; [done|].
  f_equal; [|apply IH; elem_tac].
  destruct (p r) eqn:Ep; [apply Hid; elem_tac|done].
Qed.

Lemma update_where_none p f t : (forall r, r ∈ t -> p r = false) -> update_where p f t = t.
Proof. intros Hn. apply update_where_id. intros r Hr. by rewrite Hn. Qed.

(** An update that keeps a column keeps the column's list of values. *)
Lemma update_where_column {K} (k : R -> K) p f t :
  (forall r, p r = true -> k (f r) = k r) -> k <$> update_where p f t = k <$> t.
Proof.
  intros Hk. unfold update_where. rewrite <- list_fmap_compose. apply list_fmap_ext.
  intros i r _. cbn. destruct (p r) eqn:E; [by apply Hk|done].
Qed.

(** What an upsert that replaces the row leaves in the table. *)
Lemma elem_of_upsert_replace same r r' t :
  r' ∈ upsert_by same (fun r _ => r) r t <-> r' = r \/ (r' ∈ t /\ same r r' = false).
Proof.
  unfold upsert_by. destruct (existsb (same r) t) eqn:Ex.
  - rewrite elem_of_update_where. split.
    + intros (r0 & Hr0 & ->). destruct (same r r0) eqn:E; [by left|by right].
    + apply exists_where_true in Ex as (r0 & Hr0 & E).
      intros [->|[Hr' E']]; [exists r0; by rewrite E|exists r'; by rewrite E'].
  - rewrite elem_of_app, list_elem_of_singleton. split.
    + intros [Hr'| ->]; [right; split; [done|]|by left].
      by eapply exists_where_false.
    + intros [->|[? _]]; [by right|by left].
Qed.

Lemma delete_where_keys {K} (key : R -> K) p t :
  NoDup (key <$> t) -> NoDup (key <$> delete_where p t).
Proof.
  unfold delete_where. induction t as [|r t IH]; csimpl; [done|].
  intros [Hr Hnd]%NoDup_cons. destruct (negb (p r)); csimpl; [|by apply IH].
  apply NoDup_cons. split; [|by apply IH].
  intros (x & Heq & Hx)%list_elem_of_fmap. destruct Hr. apply list_elem_of_fmap. exists x.
  split; [done|]. by eapply elem_of_delete_where.
Qed.

(** An upsert on a key keeps the key unique. *)
Lemma upsert_by_keys {K} (key : R -> K) same merge r t :
  (forall r', same r r' = true <-> key r = key r') ->
  (forall r', same r r' = true -> key (merge r r') = key r') ->
  NoDup (key <$> t) -> NoDup (key <$> upsert_by same merge r t).
Proof.
  intros Hsame Hmerge Hnd. unfold upsert_by. destruct (existsb (same r) t) eqn:Ex.
  - by rewrite update_where_column.
  - rewrite fmap_app. apply NoDup_app. split; [done|]. split; [|apply NoDup_singleton].
    intros k (r' & -> & Hr')%list_elem_of_fmap Hk.
    apply list_elem_of_singleton in Hk.
    pose proof (proj1 (exists_where_false _ _) Ex r' Hr') as Hf.
    assert (same r r' = true) by (apply Hsame; congruence). congruence.
Qed.

(** A lookup after an update of the rows it looks for, and of other rows. *)
Lemma select_first_update p f t :
  (forall r, p r = true -> p (f r) = true) ->
  select_first p (update_where p f t) = f <$> select_first p t.
Proof.
  intros Hp. unfold select_first, update_where. induction t as [|r t IH]; csimpl; [done|].
  destruct (p r) eqn:E; [by rewrite Hp|by rewrite E].
Qed.

Lemma select_first_update_key q p f t :
  (forall r, p r = true -> q (f r) = q r) ->
  select_first q (update_where p f t) =
  (fun r => if p r then f r else r) <$> select_first q t.
Proof.
  intros Hq. unfold select_first, update_where. induction t as [|r t IH]; csimpl; [done|].
  destruct (p r) eqn:E; [rewrite Hq by done|]; destruct (q r); csimpl; by rewrite ?E.
Qed.

Lemma select_first_update_other q p f t :
  (forall r, p r = true -> q r = false /\ q (f r) = false) ->
  select_first q (update_where p f t) = select_first q t.
Proof.
  intros Hq. unfold select_first, update_where. induction t as [|r t IH]; csimpl; [done|].
  destruct (p r) eqn:E; [|by rewrite IH].
  destruct (Hq r E) as [H1 H2]. by rewrite H1, H2, IH.
Qed.

Lemma select_first_app p t t' :
  select_first p (t ++ t') =
  match select_first p t with Some r => Some r | None => select_first p t' end.
Proof. unfold select_first. induction t as [|r t IH]; cbn; [done|]. by destruct (p r). Qed.

(** Lookups after an upsert that replaces the row. *)
Lemma select_first_upsert q same r t :
  (forall r', q r' = same r r') -> q r = true ->
  select_first q (upsert_by same (fun r _ => r) r t) = Some r.
Proof.
  intros Hq Hr. unfold upsert_by. destruct (existsb (same r) t) eqn:Ex.
  - apply exists_where_true in Ex as (r0 & Hr0 & E).
    unfold select_first, update_where. induction t as [|x t IH]; [by apply not_elem_of_nil in Hr0|].
    csimpl. destruct (same r x) eqn:Ex'; [by rewrite Hr|]. rewrite Hq, Ex'.
    apply elem_of_cons in Hr0 as [->|Hr0]; [congruence|]. by apply IH.
  - rewrite select_first_app.
    destruct (select_first q t) as [x|] eqn:Es; [|unfold select_first; cbn; by rewrite Hr].
    apply select_first_Some in Es as [Hx Hqx].
    pose proof (proj1 (exists_where_false (same r) t) Ex x Hx). congruence.
Qed.

Lemma select_first_upsert_merge q same merge r t :
  (forall r', q r' = same r r') -> q r = true -> (forall r', q r' = true -> q (merge r r') = true) ->
  select_first q (upsert_by same merge r t) =
  Some (from_option (merge r) r (select_first q t)).
Proof.
  intros Hq Hr Hm. unfold upsert_by. destruct (existsb (same r) t) eqn:Ex.
  - assert (Hu : update_where (same r) (merge r) t = update_where q (merge r) t).
    { unfold update_where. apply list_fmap_ext. intros i x _. by rewrite Hq. }
    rewrite Hu, select_first_update by done.
    destruct (select_first q t) eqn:Es; [done|]. rewrite select_first_None in Es.
    apply exists_where_true in Ex as (r0 & Hr0 & E). by rewrite <- Hq, Es in E.
  - rewrite select_first_app.
    destruct (select_first q t) as [x|] eqn:Es; [|unfold select_first; cbn; by rewrite Hr].
    apply select_first_Some in Es as [Hx Hqx].
    pose proof (proj1 (exists_where_false (same r) t) Ex x Hx). congruence.
Qed.

Lemma select_first_upsert_other q same r t :
  (forall r', same r r' = true -> q r' = false) -> q r = false ->
  select_first q (upsert_by same (fun r _ => r) r t) = select_first q t.
Proof.
  intros Hq Hr. unfold upsert_by. destruct (existsb (same r) t).
  - apply select_first_update_other. auto.
  - rewrite select_first_app. destruct (select_first q t); [done|].
    unfold select_first. cbn. by rewrite Hr.
Qed.

(** A row is the one a lookup by a unique key finds. *)
Lemma select_first_key {K} (key : R -> K) p t r :
  NoDup (key <$> t) -> r ∈ t -> p r = true ->
  (forall r', p r' = true -> key r' = key r) -> select_first p t = Some r.
Proof.
  intros Hnd Hr Hp Hk. unfold select_first.
  induction t as [|x t IH]; csimpl in *; [by apply not_elem_of_nil in Hr|].
  apply NoDup_cons in Hnd as [Hx Hnd]. destruct (p x) eqn:E.
  - apply elem_of_cons in Hr as [->|Hr]; [done|]. destruct Hx.
    rewrite (Hk x E). apply list_elem_of_fmap. by exists r.
  - apply elem_of_cons in Hr as [->|Hr]; [congruence|]. by apply IH.
Qed.

(** Rows of two disjoint conditions, selected together or one after the other. *)
Lemma select_where_disjoint p q t :
  (forall r, p r = true -> q r = false) ->
  select_where (fun r => p r || q r) t ≡ₚ select_where p t ++ select_where q t.
Proof.
  intros Hpq. unfold select_where. induction t as [|r t IH]; cbn; [done|].
  destruct (p r) eqn:Ep; cbn.
  - rewrite (Hpq r Ep). cbn. by rewrite IH.
  - destruct (q r); cbn; [|done]. rewrite IH. by apply Permutation_middle.
Qed.

(** An update guarded on the row of one unique key: either that row satisfied
    the guard and is rewritten, or the table is unchanged. *)
Lemma guarded_update {K} (key : R -> K) q g f t :
  NoDup (key <$> t) ->
  (forall r r', q r = true -> q r' = true -> key r = key r') ->
  (forall r, g r = true -> q r = true /\ q (f r) = true) ->
  if bool_decide (0 < count_where g t)
  then exists old, select_first q t = Some old /\ g old = true /\
         select_first q (update_where g f t) = Some (f old)
  else update_where g f t = t /\ forall old, select_first q t = Some old -> g old = false.
Proof.
  intros Hnd Hq Hg. case_bool_decide as Hc.
  - apply count_where_pos in Hc as (old & Hin & Hold). destruct (Hg _ Hold) as [Hqo _].
    assert (Hsel : select_first q t = Some old) by (apply (select_first_key key); eauto).
    exists old. split_and!; try done.
    rewrite select_first_update_key, Hsel; cbn; [by rewrite Hold|].
    intros r Hr. destruct (Hg r Hr). congruence.
  - assert (Hz : count_where g t = 0) by lia. split; [by apply update_where_none, count_where_0|].
    intros old Hsel. rewrite count_where_0 in Hz. apply Hz. by eapply select_first_Some.
Qed.

(** Deleting the row of a unique key, if it satisfies the guard. *)
Lemma guarded_delete {K} (key : R -> K) q g t :
  NoDup (key <$> t) ->
  (forall r r', q r = true -> q r' = true -> key r = key r') ->
  (forall r, g r = true -> q r = true) ->
  0 < count_where g t ->
  (exists old, select_first q t = Some old /\ g old = true) /\
  select_first q (delete_where g t) = None.
Proof.
  intros Hnd Hq Hg (old & Hin & Hold)%count_where_pos.
  assert (Hsel : select_first q t = Some old) by (apply (select_first_key key); eauto).
  split; [eauto|]. apply select_first_None. intros r [Hr Hgr]%elem_of_delete_where.
  destruct (q r) eqn:E; [|done].
  assert (Hsel' : select_first q t = Some r) by (apply (select_first_key key); eauto).
  congruence.
Qed.

(** The only row satisfying [p] is the one found. *)
Lemma find_unique p t r :
  r ∈ t -> p r = true -> (forall r', r' ∈ t -> p r' = true -> r' = r) ->
  List.find p t = Some r.
Proof.
  intros Hr Hp Hu. destruct (List.find p t) as [r'|] eqn:Ef.
  - apply select_first_Some in Ef as [Hin Hp']. by rewrite (Hu r').
  - rewrite (proj1 (select_first_None p t) Ef r Hr) in Hp. done.
Qed.

Lemma length_update_where p f t : length (update_where p f t) = length t.
Proof. apply length_fmap. Qed.

Lemma count_where_le_length p t : count_where p t <= length t.
Proof. unfold count_where, select_where. apply filter_length_le. Qed.

(** How a count changes when rows matching [q] are rewritten. *)
Lemma count_where_update p q f t :
  (forall r, r ∈ t -> q r = true -> p (f r) = p r) ->
  count_where p (update_where q f t) = count_where p t.
Proof.
  unfold count_where, select_where, update_where. intros Hp.
  induction t as [|r t IH]; csimpl; [done|].
  assert (Hr : p (if q r then f r else r) = p r).
  { destruct (q r) eqn:Eq; [apply Hp; elem_tac|done]. }
  rewrite Hr. destruct (p r); cbn; rewrite IH; elem_tac.
Qed.

(** A rewriting that makes no row counted that was not. *)
Lemma count_where_update_le p q f t :
  (forall r, r ∈ t -> q r = true -> p (f r) = true -> p r = true) ->
  count_where p (update_where q f t) <= count_where p t.
Proof.
  unfold count_where, select_where, update_where. intros Hp. induction t as [|r t IH]; [done|]. cbn.
  specialize (IH (fun r' Hr' => Hp r' (list_elem_of_further _ _ _ Hr'))).
  specialize (Hp r (list_elem_of_here _ _)). destruct (q r); [|by destruct (p r); cbn; lia].
  destruct (p (f r)); [rewrite Hp by done|destruct (p r)]; cbn; lia.
Qed.

(** Rewriting the row of one unique key adds at most one to a count, and takes
    one away when it turns the row from counted to not counted. *)
Lemma count_where_update_one {K} (key : R -> K) p q f t :
  NoDup (key <$> t) -> (forall r r', q r = true -> q r' = true -> key r = key r') ->
  count_where p (update_where q f t) <= S (count_where p t).
Proof.
  unfold count_where, select_where, update_where. intros Hnd Hq.
  induction t as [|r t IH]; csimpl; [lia|].
  apply NoDup_cons in Hnd as [Hr Hnd].
  destruct (q r) eqn:Eq.
  - assert (Hrest : (fun r' => if q r' then f r' else r') <$> t = t).
    { apply (update_where_none q f t). intros r' Hr'. destruct (q r') eqn:Eq'; [|done].
      destruct Hr. rewrite (Hq r r' Eq Eq'). apply list_elem_of_fmap. by exists r'. }
    rewrite Hrest. destruct (p (f r)), (p r); cbn; lia.
  - specialize (IH Hnd). destruct (p r); cbn; lia.
Qed.

Lemma count_where_update_drop p q f t :
  (forall r, r ∈ t -> q r = true -> p (f r) = false) ->
  count_where p (update_where q f t) <= count_where p t /\
  ((exists r, r ∈ t /\ q r = true /\ p r = true) ->
   S (count_where p (update_where q f t)) <= count_where p t).
Proof.
  unfold count_where, select_where, update_where. intros Hp.
  induction t as [|r t IH]; csimpl; [split; [lia|]; intros (r & Hr & _); by apply elem_of_nil in Hr|].
  destruct IH as [IH1 IH2]; [intros; apply Hp; elem_tac; done|].
  destruct (q r) eqn:Eq.
  - rewrite (Hp r) by elem_tac. split; [destruct (p r); cbn; lia|].
    intros (r' & [->|Hr']%elem_of_cons & Hq' & Hp'); [rewrite Hp'; cbn; lia|].
    destruct (p r); cbn; [lia|]. apply IH2. eauto.
  - split; [destruct (p r); cbn; lia|].
    intros (r' & [->|Hr']%elem_of_cons & Hq' & Hp'); [congruence|].
    assert (S (length (List.filter p ((fun r => if q r then f r else r) <$> t))) <=
            length (List.filter p t)) by (apply IH2; eauto).
    destruct (p r); cbn; lia.
Qed.

(** At most one row has the value of a unique key. *)
Lemma count_where_unique {K} (key : R -> K) p t :
  NoDup (key <$> t) -> (forall r r', p r = true -> p r' = true -> key r = key r') ->
  count_where p t <= 1.
Proof.
  unfold count_where, select_where. intros Hnd Hp. induction t as [|r t IH]; csimpl; [lia|].
  apply NoDup_cons in Hnd as [Hr Hnd]. destruct (p r) eqn:Er; [|by apply IH].
  assert (Hz : count_where p t = 0); [|unfold count_where, select_where in Hz; cbn; lia].
  apply count_where_0. intros r' Hr'. destruct (p r') eqn:Er'; [|done].
  destruct Hr. rewrite (Hp r r' Er Er'). apply list_elem_of_fmap. by exists r'.
Qed.

Lemma newest_by_Some_elem key t r : newest_by key t = Some r -> r ∈ t.
Proof.
  revert r. induction t as [|x t IH]; cbn; [done|]. intros r.
  destruct (newest_by key t) as [r'|]; [|intros [= ->]; elem_tac].
  destruct (Z.ltb_spec (key x) (key r')); intros [= ->].
  - apply elem_of_cons. right. by apply IH.
  - elem_tac.
Qed.

Lemma newest_by_max key t r r' :
  newest_by key t = Some r -> r' ∈ t -> (key r' <= key r)%Z.
Proof.
  revert r. induction t as [|x t IH]; cbn; [done|]. intros r Hn Hr'.
  destruct (newest_by key t) as [m|] eqn:Em.
  - destruct (Z.ltb_spec (key x) (key m)); simplify_eq/=;
      apply elem_of_cons in Hr' as [->|Hr']; try lia; specialize (IH _ eq_refl Hr'); lia.
  - simplify_eq/=. apply elem_of_cons in Hr' as [->|Hr']; [lia|].
    destruct t; [elem_tac|]. cbn in Em. split_matches.
Qed.

Lemma newest_by_None key t : newest_by key t = None <-> t = [].
Proof. destruct t as [|x t]; cbn; [done|]. split_matches. Qed.

(** A row strictly newer than every other is the one selected. *)
Lemma newest_by_unique key t r :
  r ∈ t -> (forall r', r' ∈ t -> r' = r \/ (key r' < key r)%Z) ->
  newest_by key t = Some r.
Proof.
  intros Hr Hmax. destruct (newest_by key t) as [m|] eqn:Em.
  - pose proof (newest_by_max _ _ _ _ Em Hr) as Hle.
    pose proof (newest_by_Some_elem _ _ _ Em) as Hm.
    destruct (Hmax m Hm) as [->|]; [done|lia].
  - apply newest_by_None in Em as ->. elem_tac.
Qed.
End Tables.

(** The statements stay folded in the components' proofs. *)
#[global] Arguments select_where : simpl never.
#[global] Arguments select_first : simpl never.
#[global] Arguments count_where : simpl never.
#[global] Arguments update_where : simpl never.
#[global] Arguments delete_where : simpl never.
#[global] Arguments exists_where : simpl never.
#[global] Arguments upsert_by : simpl never.
