(* ===== verification/Status.v ===== *)
(** The closed vocabularies the runtime stores as text: run statuses
    ([persistence/run_metadata.rs]), lease statuses ([persistence/leases.rs]),
    wait kinds ([persistence/wait_state.rs]), event types
    ([persistence/checkpoint.rs]) and step outcomes ([engine/transition.rs]),
    each with its [Display]/[FromStr] pair and the predicates the guards use. *)
From S2P Require Import Prelude.

(** What a stored vocabulary promises its clients: printing then parsing is the
    identity, and parsing accepts nothing but printed text. *)
Class TextEnum (E A : Type) := {
  to_text : A -> string;
  from_text : string -> Res E A;
  from_to_text : forall a, from_text (to_text a) = Ok a;
  to_from_text : forall s a, from_text s = Ok a -> to_text a = s
}.

Lemma to_text_inj {E A} `{TextEnum E A} a b : to_text a = to_text b -> a = b.
Proof.
  intros Heq. pose proof (from_to_text a) as Ha. rewrite Heq, from_to_text in Ha. congruence.
Qed.

Lemma to_text_eqb {E A} `{TextEnum E A} `{EqDecision A} a b :
  (to_text a =?s to_text b) = bool_decide (a = b).
Proof.
  apply bool_decide_ext. split; [apply to_text_inj|by intros ->].
Qed.

(** Solve [from_to_text]/[to_from_text] for a parser written as a chain of
    comparisons. *)
Ltac parse_print := intros []; reflexivity.
Ltac print_parse parser :=
  intros s a; unfold parser;
  repeat (case_bool_decide; [intros [= <-]; subst; reflexivity|]); intros [=].

Module RunStatus.
Inductive t :=
| Initialized | Queued | Starting | Running | WaitingForChecks | WaitingExternal
| ReadyToResume | Remediating | Blocked | Paused | ReviewReady | Completed | Failed
| Abandoned | Merged | Cancelled.

Global Instance eq_dec : EqDecision t.
Proof. solve_decision. Defined.

Definition to_string (s : t) : string :=
  match s with
  | Initialized => "initialized"
  | Queued => "queued"
  | Starting => "starting"
  | Running => "running"
  | WaitingForChecks => "waiting_for_checks"
  | WaitingExternal => "waiting_external"
  | ReadyToResume => "ready_to_resume"
  | Remediating => "remediating"
  | Blocked => "blocked"
  | Paused => "paused"
  | ReviewReady => "review_ready"
  | Completed => "completed"
  | Failed => "failed"
  | Abandoned => "abandoned"
  | Merged => "merged"
  | Cancelled => "cancelled"
  end.

(** [RunStatusParseError(String)] *)
Record ParseError := mkParseError { unknown_status : string }.

Definition from_str (s : string) : Res ParseError t :=
  if s =?s "initialized" then Ok Initialized
  else if s =?s "queued" then Ok Queued
  else if s =?s "starting" then Ok Starting
  else if s =?s "running" then Ok Running
  else if s =?s "waiting_for_checks" then Ok WaitingForChecks
  else if s =?s "waiting_external" then Ok WaitingExternal
  else if s =?s "ready_to_resume" then Ok ReadyToResume
  else if s =?s "remediating" then Ok Remediating
  else if s =?s "blocked" then Ok Blocked
  else if s =?s "paused" then Ok Paused
  else if s =?s "review_ready" then Ok ReviewReady
  else if s =?s "completed" then Ok Completed
  else if s =?s "failed" then Ok Failed
  else if s =?s "abandoned" then Ok Abandoned
  else if s =?s "merged" then Ok Merged
  else if s =?s "cancelled" then Ok Cancelled
  else Err (mkParseError s).

Definition TERMINAL_SQL : list string :=
  ["completed"; "failed"; "abandoned"; "merged"; "cancelled"].

Definition is_terminal (s : t) : bool :=
  match s with
  | Completed | Failed | Abandoned | Merged | Cancelled => true
  | _ => false
  end.

Definition is_resumable (s : t) : bool :=
  match s with
  | WaitingForChecks | WaitingExternal | ReadyToResume | Paused | Blocked | Failed => true
  | _ => false
  end.

Global Program Instance text : TextEnum ParseError t := {|
  to_text := to_string; from_text := from_str
|}.
Next Obligation. parse_print. Qed.
Next Obligation. print_parse from_str. Qed.

(** The SQL list and the Rust predicate name the same statuses. *)
Lemma terminal_sql_is_terminal s :
  existsb (fun x => to_string s =?s x) TERMINAL_SQL = is_terminal s.
Proof. by destruct s. Qed.
End RunStatus.

Module LeaseStatus.
Inductive t :=
| Pending | Claimed | Running | WaitingExternal | ReadyToResume | Completed | Failed
| Abandoned | CleanupAbandoned | Stale.

Global Instance eq_dec : EqDecision t.
Proof. solve_decision. Defined.

Definition as_str (s : t) : string :=
  match s with
  | Pending => "pending"
  | Claimed => "claimed"
  | Running => "running"
  | WaitingExternal => "waiting_external"
  | ReadyToResume => "ready_to_resume"
  | Completed => "completed"
  | Failed => "failed"
  | Abandoned => "abandoned"
  | CleanupAbandoned => "cleanup_abandoned"
  | Stale => "stale"
  end.

Definition from_str (s : string) : Res string t :=
  if s =?s "pending" then Ok Pending
  else if s =?s "claimed" then Ok Claimed
  else if s =?s "running" then Ok Running
  else if s =?s "waiting_external" then Ok WaitingExternal
  else if s =?s "ready_to_resume" then Ok ReadyToResume
  else if s =?s "completed" then Ok Completed
  else if s =?s "failed" then Ok Failed
  else if s =?s "abandoned" then Ok Abandoned
  else if s =?s "cleanup_abandoned" then Ok CleanupAbandoned
  else if s =?s "stale" then Ok Stale
  else Err ("Unknown lease status: " +:+ s).

Global Program Instance text : TextEnum string t := {|
  to_text := as_str; from_text := from_str
|}.
Next Obligation. parse_print. Qed.
Next Obligation. print_parse from_str. Qed.

Definition RECLAIMABLE : list t := [Completed; Failed; Abandoned; Stale].

(** [RECLAIMABLE.contains] *)
Definition reclaimable (s : t) : bool := existsb (fun x => bool_decide (x = s)) RECLAIMABLE.

Definition is_active (s : t) : bool :=
  match s with Claimed | Running => true | _ => false end.

Definition blocks_duplicate_work (s : t) : bool := negb (reclaimable s).

Lemma blocks_active s : is_active s = true -> blocks_duplicate_work s = true.
Proof. by destruct s. Qed.
End LeaseStatus.

Module WaitKind.
Inductive t :=
| PrChecks | CoderabbitReview | HumanReview | PrMerge | RateLimitBackoff
| DependencyChildWorkflow | DependencyChildMerge | ScopeDecision.

Global Instance eq_dec : EqDecision t.
Proof. solve_decision. Defined.

Definition to_string (k : t) : string :=
  match k with
  | PrChecks => "pr_checks"
  | CoderabbitReview => "coderabbit_review"
  | HumanReview => "human_review"
  | PrMerge => "pr_merge"
  | RateLimitBackoff => "rate_limit_backoff"
  | DependencyChildWorkflow => "dependency_child_workflow"
  | DependencyChildMerge => "dependency_child_merge"
  | ScopeDecision => "scope_decision"
  end.

Definition from_str (s : string) : Res string t :=
  if s =?s "pr_checks" then Ok PrChecks
  else if s =?s "coderabbit_review" then Ok CoderabbitReview
  else if s =?s "human_review" then Ok HumanReview
  else if s =?s "pr_merge" then Ok PrMerge
  else if s =?s "rate_limit_backoff" then Ok RateLimitBackoff
  else if s =?s "dependency_child_workflow" then Ok DependencyChildWorkflow
  else if s =?s "dependency_child_merge" then Ok DependencyChildMerge
  else if s =?s "scope_decision" then Ok ScopeDecision
  else Err ("Unknown wait kind: " +:+ s).

Global Program Instance text : TextEnum string t := {|
  to_text := to_string; from_text := from_str
|}.
Next Obligation. parse_print. Qed.
Next Obligation. print_parse from_str. Qed.
End WaitKind.

Module EventType.
Inductive t :=
| StepStart | StepOutcome | ProcessSpawn | ProcessExit | AgentSpawn | AgentExit | Error
| TerminalState.

Global Instance eq_dec : EqDecision t.
Proof. solve_decision. Defined.

Definition to_string (e : t) : string :=
  match e with
  | StepStart => "step_start"
  | StepOutcome => "step_outcome"
  | ProcessSpawn => "process_spawn"
  | ProcessExit => "process_exit"
  | AgentSpawn => "agent_spawn"
  | AgentExit => "agent_exit"
  | Error => "error"
  | TerminalState => "terminal_state"
  end.

Definition from_str (s : string) : Res string t :=
  if s =?s "step_start" then Ok StepStart
  else if s =?s "step_outcome" then Ok StepOutcome
  else if s =?s "process_spawn" then Ok ProcessSpawn
  else if s =?s "process_exit" then Ok ProcessExit
  else if s =?s "agent_spawn" then Ok AgentSpawn
  else if s =?s "agent_exit" then Ok AgentExit
  else if s =?s "error" then Ok Error
  else if s =?s "terminal_state" then Ok TerminalState
  else Err ("Unknown event type: " +:+ s).

Global Program Instance text : TextEnum string t := {|
  to_text := to_string; from_text := from_str
|}.
Next Obligation. parse_print. Qed.
Next Obligation. print_parse from_str. Qed.
End EventType.

Module StepOutcome.
Inductive t := Success | Retryable | Fatal | Fixable | Abandon | Wait.

Global Instance eq_dec : EqDecision t.
Proof. solve_decision. Defined.

Definition as_condition_str (o : t) : string :=
  match o with
  | Success => "success"
  | Retryable => "retryable"
  | Fatal => "fatal"
  | Fixable => "fixable"
  | Abandon => "abandon"
  | Wait => "wait"
  end.

(** [Display] *)
Definition to_string (o : t) : string := as_condition_str o.

Definition from_str (s : string) : Res string t :=
  if s =?s "success" then Ok Success
  else if s =?s "retryable" then Ok Retryable
  else if s =?s "fatal" then Ok Fatal
  else if s =?s "fixable" then Ok Fixable
  else if s =?s "abandon" then Ok Abandon
  else if s =?s "wait" then Ok Wait
  else Err ("unknown step outcome: " +:+ s).

Global Program Instance text : TextEnum string t := {|
  to_text := to_string; from_text := from_str
|}.
Next Obligation. parse_print. Qed.
Next Obligation. print_parse from_str. Qed.
End StepOutcome.
