(* ===== verification/Schema.v ===== *)
(** The data the components share: JSON values, workflow types and configs
    ([workflow/schema.rs]), the rows of the database, and the database itself.

    A struct that the code stores with a status or kind column is polymorphic
    in that column: [RunMetadata] holds a [RunStatus.t], the row of the [runs]
    table holds the text.  Timestamps are nanoseconds since the epoch; the code
    stores them as UTC RFC 3339 text, whose text order is their order. *)
From S2P Require Import Prelude Status.

#[local] Set Warnings "-register-all".

(** [serde_json::Value]; numbers that are not integers keep their literal. *)
Inductive Json :=
| JNull
| JBool (b : bool)
| JInt (z : Z)
| JFloat (literal : string)
| JString (s : string)
| JArray (l : list Json)
| JObject (m : gmap string Json).

(** [Value::as_str] *)
Definition json_as_str (j : Json) : option string :=
  if j is JString s then Some s else None.

(** *** Equality of JSON values *)
Fixpoint json_eqb (j : Json) : Json -> bool :=
  match j with
  | JNull => fun k => if k is JNull then true else false
  | JBool b => fun k => if k is JBool b' then Bool.eqb b b' else false
  | JInt z => fun k => if k is JInt z' then (z =? z')%Z else false
  | JFloat s => fun k => if k is JFloat s' then s =?s s' else false
  | JString s => fun k => if k is JString s' then s =?s s' else false
  | JArray l => fun k =>
      let fix arrays l l' :=
        match l, l' with
        | [], [] => true
        | j :: l, j' :: l' => json_eqb j j' && arrays l l'
        | _, _ => false
        end in
      if k is JArray l' then arrays l l' else false
  | JObject m => fun k =>
      if k is JObject m' then
        bool_decide (dom m = dom m') &&
        map_fold (fun key j b => b && from_option (json_eqb j) false (m' !! key)) true m
      else false
  end.

Fixpoint json_size (j : Json) : nat :=
  match j with
  | JArray l => S (foldr (fun j n => json_size j + n) 0 l)
  | JObject m => S (map_fold (fun _ j n => json_size j + n) 0 m)
  | _ => 1
  end.

Lemma json_ind' (P : Json -> Prop) :
  P JNull -> (forall b, P (JBool b)) -> (forall z, P (JInt z)) -> (forall s, P (JFloat s)) ->
  (forall s, P (JString s)) -> (forall l, Forall P l -> P (JArray l)) ->
  (forall m, map_Forall (fun _ => P) m -> P (JObject m)) -> forall j, P j.
Proof.
  intros Hn Hb Hi Hf Hs Ha Ho j.
  induction j as [j IH] using (well_founded_induction (Wf_nat.well_founded_ltof _ json_size)).
  unfold Wf_nat.ltof in IH. destruct j as [| | | | |l|m]; [done..| |].
  - apply Ha, Forall_forall. intros j Hj. apply IH. cbn. clear IH.
    induction Hj as [|j' k l Hj IHj]; cbn; lia.
  - apply Ho. intros key j Hj. apply IH. cbn. clear IH.
    assert (map_fold (fun _ j n => json_size j + n) 0 m =
            json_size j + map_fold (fun _ j n => json_size j + n) 0 (delete key m)) as ->; [|lia].
    apply (map_fold_delete_L (fun _ j n => json_size j + n)); [lia|done].
Qed.

Lemma json_eqb_eq j k : json_eqb j k = true <-> j = k.
Proof.
  revert k. induction j as [|b|z|s|s|l Hl|m Hm] using json_ind'; intros [];
    cbn [json_eqb]; try (split; [discriminate|discriminate]); try done.
  - rewrite Bool.eqb_true_iff. split; [by intros ->|by intros [= ->]].
  - rewrite Z.eqb_eq. split; [by intros ->|by intros [= ->]].
  - rewrite bool_decide_eq_true. split; [by intros ->|by intros [= ->]].
  - rewrite bool_decide_eq_true. split; [by intros ->|by intros [= ->]].
  - rename l0 into l'. transitivity (l = l'); [|split; [by intros ->|by intros [= ->]]].
    revert l'. induction Hl as [|j l Hj Hl IH]; intros [|j' l']; try done.
    rewrite andb_true_iff, Hj, IH. split; [by intros [-> ->]|by intros [= -> ->]].
  - rename m0 into m'. rewrite andb_true_iff, bool_decide_eq_true.
    assert (Hfold : map_fold (fun key j b => b && from_option (json_eqb j) false (m' !! key)) true m = true
                    <-> map_Forall (fun key j => m' !! key = Some j) m).
    { clear -Hm. induction m as [|key j m Hk Hfold IH] using map_first_key_ind.
      - rewrite map_fold_empty. split; [intros _; apply map_Forall_empty|done].
      - rewrite map_fold_insert_first_key by done.
        apply map_Forall_insert in Hm as [Hj Hm]; [|done].
        rewrite map_Forall_insert, andb_true_iff, IH by done.
        assert (from_option (json_eqb j) false (m' !! key) = true <-> m' !! key = Some j); [|tauto].
        destruct (m' !! key) as [j'|]; cbn; [|done]. rewrite Hj. split; [by intros ->|by intros [= ->]]. }
    rewrite Hfold. split; [|intros [= ->]; split; [done|by intros ? ?]].
    intros [Hd Hall]. f_equal. apply map_eq. intros key.
    destruct (m !! key) as [j|] eqn:E; [by rewrite (Hall _ _ E)|].
    symmetry. apply not_elem_of_dom. rewrite <- Hd. by apply not_elem_of_dom.
Qed.

Global Instance json_eq_dec : EqDecision Json.
Proof. refine (fun j k => cast_if (decide (json_eqb j k = true))); abstract (by rewrite <- json_eqb_eq). Defined.

(** ** Workflow definitions *)

(** Recovery policy declared on a step ([engine/recovery/policy.rs]). *)
Inductive StepRecoveryPolicy :=
| PureReenter
| Idempotent
| ReconcileThenReenter
| ContinueWorkspace
| CompensateThenRetry
| NonRecoverable.

Inductive MergeStrategyConfig := McMergeCommit | McSquash | McRebase.

Record StepDef := mkStepDef {
  sd_step_id : string;
  sd_step_type : string;
  sd_description : option string;
  sd_parameters : option Json;
  sd_produces : option (list string);
  sd_consumes : option (list string);
  sd_terminal : option bool;
  sd_recovery_policy : option StepRecoveryPolicy
}.

Record TransitionDef := mkTransitionDef {
  from : string;
  to : string;
  condition : option string;
  max_iterations : option Z
}.

Record GuardConfig := mkGuardConfig {
  gc_max_retries : option Z;
  gc_timeout_seconds : option Z;
  gc_require_approval : option bool
}.

Record WorkflowType := mkWorkflowType {
  wt_workflow_type_id : string;
  steps : list StepDef;
  transitions : list TransitionDef;
  wt_guards : GuardConfig
}.

Record RuntimeConfig := mkRuntimeConfig {
  rc_timeout_seconds : Z;
  rc_max_retries : Z
}.

Record ParentOrchestrationConfig := mkParentOrchestrationConfig {
  auto_merge_children : bool;
  wait_for_human_merge : bool;
  merge_poll_interval_seconds : Z;
  max_child_merge_wait_seconds : option Z;
  child_workflow_type_id : string;
  child_config_id : string
}.

(** The fields of a workflow config that the modelled code reads. *)
Record WorkflowConfig := mkWorkflowConfig {
  wc_config_id : string;
  wc_workflow_type_id : string;
  wc_runtime : RuntimeConfig;
  wc_max_iterations : option Z;      (** [guard_limits.max_iterations] *)
  wc_variables : gmap string string;
  wc_parent_orchestration : ParentOrchestrationConfig;
  wc_merge_required : bool;
  wc_merge_strategy : option MergeStrategyConfig;
  wc_command_manifest : option Json  (** the manifest, as the JSON it serializes to *)
}.

(** ** Checkpoints *)

Record StateSnapshot := mkStateSnapshot {
  retry_count : Z;
  loop_count : Z;
  edge_loop_counts : gmap string Z;
  ss_context : gmap string Json;
  ss_status : string
}.

Record Checkpoint := mkCheckpoint {
  cp_run_id : string;
  cp_step_id : string;
  state_snapshot : StateSnapshot;
  cp_timestamp : Z
}.

(** A row of the [checkpoints] table: the loop counts live inside [context]. *)
Record CheckpointRow := mkCheckpointRow {
  cr_run_id : string;
  cr_step_id : string;
  cr_retry_count : Z;
  cr_loop_count : Z;
  cr_context : gmap string Json;
  cr_status : string;
  cr_timestamp : Z
}.

(** A row of the append-only [events] table. *)
Record EventRecord := mkEventRecord {
  ev_run_id : string;
  ev_step_id : string;
  ev_outcome : string;
  ev_event_type : string;
  ev_details : option string;
  ev_timestamp : Z
}.

(** ** Runs *)

Record FailureCleanupState := mkFailureCleanupState {
  fc_schema_version : Z;
  failed_step : string;
  failure_outcome : string;
  failure_reason : string;
  failed_checkpoint_id : string;
  failed_state_snapshot : StateSnapshot;
  cleanup_step : string;
  cleanup_succeeded : bool;
  captured_at : Z;
  cleanup_completed_at : option Z;
  recovery_consumed_at : option Z;
  ownership_denied : bool
}.

Inductive MigrationSource := LegacyOwnershipMigration.

Record LaunchProvenance := mkLaunchProvenance {
  lp_schema_version : Z;
  canonical_config_root : string;
  workflow_digest : string;
  config_digest : string;
  migration_source : option MigrationSource
}.

Record RunOf (St : Type) := mkRun {
  run_id : string;
  workflow_type_id : string;
  config_id : string;
  status : St;
  created_at : Z;
  updated_at : option Z;
  current_step : option string;
  previous_step : option string;
  previous_outcome : option string;
  next_step_candidates : list string;
  log_path : option string;
  artifact_root : option string;
  workspace_path : option string;
  repository : option string;
  issue_number : option Z;
  pr_number : option Z;
  head_sha : option string;
  process_pid : option Z;
  child_pids : list Z;
  continuation_rearm_checkpoint_id : option string;
  failure_cleanup : option FailureCleanupState;
  launch_provenance : option LaunchProvenance
}.
Arguments mkRun {St}.
Arguments run_id {St}.
Arguments workflow_type_id {St}.
Arguments config_id {St}.
Arguments status {St}.
Arguments created_at {St}.
Arguments updated_at {St}.
Arguments current_step {St}.
Arguments previous_step {St}.
Arguments previous_outcome {St}.
Arguments next_step_candidates {St}.
Arguments log_path {St}.
Arguments artifact_root {St}.
Arguments workspace_path {St}.
Arguments repository {St}.
Arguments issue_number {St}.
Arguments pr_number {St}.
Arguments head_sha {St}.
Arguments process_pid {St}.
Arguments child_pids {St}.
Arguments continuation_rearm_checkpoint_id {St}.
Arguments failure_cleanup {St}.
Arguments launch_provenance {St}.

Definition RunMetadata := RunOf RunStatus.t.
Definition RunRow := RunOf string.

(** ** Leases *)

Record LeaseOf (St : Type) := mkLease {
  lease_id : string;
  issue_repo : string;
  l_issue_number : Z;
  l_config_id : string;
  l_run_id : option string;
  l_status : St;
  claimed_at : Z;
  l_updated_at : Z;
  heartbeat_at : Z
}.
Arguments mkLease {St}.
Arguments lease_id {St}.
Arguments issue_repo {St}.
Arguments l_issue_number {St}.
Arguments l_config_id {St}.
Arguments l_run_id {St}.
Arguments l_status {St}.
Arguments claimed_at {St}.
Arguments l_updated_at {St}.
Arguments heartbeat_at {St}.

Global Instance lease_eq_dec {St} `{EqDecision St} : EqDecision (LeaseOf St).
Proof. solve_decision. Defined.

Definition IssueLease := LeaseOf LeaseStatus.t.
Definition LeaseRow := LeaseOf string.

(** A row of [claim_metadata]. *)
Record ClaimMetadataReceipt := mkClaimMetadataReceipt {
  cm_lease_id : string;
  cm_assignee : string;
  cm_label : string;
  assignment_added : bool;
  label_added : bool;
  cleanup_pending : bool
}.

(** ** External waits *)

Record WaitOf (K : Type) := mkWait {
  ws_run_id : string;
  suspension_id : string;
  ws_lease_id : option string;
  ws_workflow_type : string;
  ws_config_id : string;
  ws_repository : string;
  ws_issue_number : Z;
  ws_pr_number : option Z;
  ws_head_sha : option string;
  wait_kind : K;
  wait_condition : Json;
  last_observed_state : Json;
  next_poll_at : Z;
  poll_interval_seconds : Z;
  max_wait_seconds : option Z;
  resume_step : string;
  checkpoint_id : string;
  poll_count : Z;
  ws_created_at : Z;
  ws_updated_at : Z
}.
Arguments mkWait {K}.
Arguments ws_run_id {K}.
Arguments suspension_id {K}.
Arguments ws_lease_id {K}.
Arguments ws_workflow_type {K}.
Arguments ws_config_id {K}.
Arguments ws_repository {K}.
Arguments ws_issue_number {K}.
Arguments ws_pr_number {K}.
Arguments ws_head_sha {K}.
Arguments wait_kind {K}.
Arguments wait_condition {K}.
Arguments last_observed_state {K}.
Arguments next_poll_at {K}.
Arguments poll_interval_seconds {K}.
Arguments max_wait_seconds {K}.
Arguments resume_step {K}.
Arguments checkpoint_id {K}.
Arguments poll_count {K}.
Arguments ws_created_at {K}.
Arguments ws_updated_at {K}.

Global Instance wait_eq_dec {K} `{EqDecision K} : EqDecision (WaitOf K).
Proof. solve_decision. Defined.

Definition WaitStateRecord := WaitOf WaitKind.t.
Definition WaitRow := WaitOf string.

(** ** Recovery *)

(** A row of [recovery_epoch].  [epoch] is an integer column: a value above
    [i64::MAX] stands for the REAL that SQLite stores when an increment
    overflows, which no reader of integers accepts. *)
Record EpochRow := mkEpochRow {
  ep_run_id : string;
  ep_epoch : Z;
  ep_updated_at : Z
}.

Record OperationOf (St : Type) := mkOperation {
  op_operation_id : string;
  op_run_id : string;
  op_epoch : Z;
  op_step_id : string;
  op_capsule_envelope_digest : string;
  op_source_attempt_id : option Z;
  op_logical_request_key : string;
  op_intent_digest : string;
  op_status : St;
  op_owner_pid : option Z;
  op_lease_expires_at : option Z;
  op_execution_attempt_id : option Z;
  op_serialized_outcome : option string
}.
Arguments mkOperation {St}.
Arguments op_operation_id {St}.
Arguments op_run_id {St}.
Arguments op_epoch {St}.
Arguments op_step_id {St}.
Arguments op_capsule_envelope_digest {St}.
Arguments op_source_attempt_id {St}.
Arguments op_logical_request_key {St}.
Arguments op_intent_digest {St}.
Arguments op_status {St}.
Arguments op_owner_pid {St}.
Arguments op_lease_expires_at {St}.
Arguments op_execution_attempt_id {St}.
Arguments op_serialized_outcome {St}.

(** A row of [recovery_operations]: the columns a reader selects, and the two
    only written. *)
Record OperationRow := mkOperationRow {
  or_operation : OperationOf string;
  or_created_at : Z;
  or_finalized_at : option Z
}.

(** A row of [recovery_attempts]; the JSON columns hold their text. *)
Record AttemptRecord := mkAttemptRecord {
  at_attempt_id : Z;
  at_run_id : string;
  at_epoch : Z;
  at_source_attempt_id : option Z;
  at_operation_id : string;
  at_step_id : string;
  at_step_status : string;
  at_capsule_schema_version : Z;
  at_capsule_envelope_digest : string;
  at_state_snapshot_json : string;
  at_snapshot_digest : string;
  at_checkpoint_digest : option string;
  at_runner_result_json : option string;
  at_started_at : Z;
  at_finalized_at : option Z
}.

Record EffectOf (K : Type) := mkEffect {
  ef_effect_key : string;
  ef_operation_id : string;
  ef_attempt_id : Z;
  ef_sequence : Z;
  ef_effect_kind : K;
  ef_canonical_payload : string;
  ef_payload_digest : string;
  ef_payload_version : Z;
  ef_expected_target : option string;
  ef_expected_predecessor : option string;
  ef_observed_result : option string;
  ef_status : string
}.
Arguments mkEffect {K}.
Arguments ef_effect_key {K}.
Arguments ef_operation_id {K}.
Arguments ef_attempt_id {K}.
Arguments ef_sequence {K}.
Arguments ef_effect_kind {K}.
Arguments ef_canonical_payload {K}.
Arguments ef_payload_digest {K}.
Arguments ef_payload_version {K}.
Arguments ef_expected_target {K}.
Arguments ef_expected_predecessor {K}.
Arguments ef_observed_result {K}.
Arguments ef_status {K}.

(** A row of [effect_intents]. *)
Record EffectRow := mkEffectRow {
  er_effect : EffectOf string;
  er_created_at : Z;
  er_finalized_at : option Z
}.

(** A row of [execution_capsules]. *)
Record CapsuleRow := mkCapsuleRow {
  cx_run_id : string;
  cx_schema_version : Z;
  cx_canonicalization_version : Z;
  cx_domain_version : Z;
  cx_provenance_version : Z;
  cx_capsule_json : string;
  cx_envelope_digest : string;
  cx_workflow_digest : string;
  cx_config_digest : string;
  cx_created_at : Z
}.

(** A row of the append-only [salvage_lineage]. *)
Record SalvageRow := mkSalvageRow {
  sv_salvage_id : Z;
  sv_run_id : string;
  sv_recorded_at : Z;
  sv_detail : string
}.

(** A row of [merge_artifacts]. *)
Record MergeArtifactRow := mkMergeArtifactRow {
  mr_run_id : string;
  mr_pr_number : Z;
  mr_result_sha : string;
  mr_repo : string;
  mr_head_sha : string;
  mr_base_sha : string;
  mr_capsule_envelope_digest : string;
  mr_proof_kind : string;
  mr_proof_json : string;
  mr_recorded_at : Z
}.

(** A row of the [legacy_ownership_migrations] table. *)
Record MigrationRow := mkMigrationRow {
  mg_run_id : string;
  mg_workspace_path : string;
  mg_intent_at : Z;
  mg_completed_at : option Z;
  mg_status : string
}.

(** ** The database *)

Record Db := mkDb {
  runs : list RunRow;
  checkpoints : list CheckpointRow;
  events : list EventRecord;
  issue_leases : list LeaseRow;
  claim_metadata : list ClaimMetadataReceipt;
  wait_states : list WaitRow;
  recovery_epochs : list EpochRow;
  recovery_operations : list OperationRow;
  recovery_attempts : list AttemptRecord;
  attempts_seq : Z;                  (** [sqlite_sequence] of the attempts *)
  effect_intents : list EffectRow;
  execution_capsules : list CapsuleRow;
  salvage_lineage : list SalvageRow;
  salvage_seq : Z;                   (** [sqlite_sequence] of the lineage *)
  merge_artifacts : list MergeArtifactRow;
  legacy_migrations : list MigrationRow
}.

Definition empty_db : Db := mkDb [] [] [] [] [] [] [] [] [] 0 [] [] [] 0 [] [].

(** ** Setters *)

Global Instance eta_snapshot : Eta StateSnapshot := fun s =>
  mkStateSnapshot (retry_count s) (loop_count s) (edge_loop_counts s) (ss_context s) (ss_status s).
Global Instance eta_checkpoint : Eta Checkpoint := fun c =>
  mkCheckpoint (cp_run_id c) (cp_step_id c) (state_snapshot c) (cp_timestamp c).
Global Instance eta_checkpoint_row : Eta CheckpointRow := fun c =>
  mkCheckpointRow (cr_run_id c) (cr_step_id c) (cr_retry_count c) (cr_loop_count c) (cr_context c)
    (cr_status c) (cr_timestamp c).
Global Instance eta_failure : Eta FailureCleanupState := fun f =>
  mkFailureCleanupState (fc_schema_version f) (failed_step f) (failure_outcome f)
    (failure_reason f) (failed_checkpoint_id f) (failed_state_snapshot f) (cleanup_step f)
    (cleanup_succeeded f) (captured_at f) (cleanup_completed_at f) (recovery_consumed_at f)
    (ownership_denied f).
Global Instance eta_run {St} : Eta (RunOf St) := fun r =>
  mkRun (run_id r) (workflow_type_id r) (config_id r) (status r) (created_at r) (updated_at r)
    (current_step r) (previous_step r) (previous_outcome r) (next_step_candidates r)
    (log_path r) (artifact_root r) (workspace_path r) (repository r) (issue_number r)
    (pr_number r) (head_sha r) (process_pid r) (child_pids r)
    (continuation_rearm_checkpoint_id r) (failure_cleanup r) (launch_provenance r).
Global Instance eta_lease {St} : Eta (LeaseOf St) := fun l =>
  mkLease (lease_id l) (issue_repo l) (l_issue_number l) (l_config_id l) (l_run_id l)
    (l_status l) (claimed_at l) (l_updated_at l) (heartbeat_at l).
Global Instance eta_receipt : Eta ClaimMetadataReceipt := fun m =>
  mkClaimMetadataReceipt (cm_lease_id m) (cm_assignee m) (cm_label m) (assignment_added m)
    (label_added m) (cleanup_pending m).
Global Instance eta_wait {K} : Eta (WaitOf K) := fun w =>
  mkWait (ws_run_id w) (suspension_id w) (ws_lease_id w) (ws_workflow_type w) (ws_config_id w)
    (ws_repository w) (ws_issue_number w) (ws_pr_number w) (ws_head_sha w) (wait_kind w)
    (wait_condition w) (last_observed_state w) (next_poll_at w) (poll_interval_seconds w)
    (max_wait_seconds w) (resume_step w) (checkpoint_id w) (poll_count w) (ws_created_at w)
    (ws_updated_at w).
Global Instance eta_db : Eta Db := fun d =>
  mkDb (runs d) (checkpoints d) (events d) (issue_leases d) (claim_metadata d) (wait_states d)
    (recovery_epochs d) (recovery_operations d) (recovery_attempts d) (attempts_seq d)
    (effect_intents d) (execution_capsules d) (salvage_lineage d) (salvage_seq d)
    (merge_artifacts d) (legacy_migrations d).
Global Instance eta_migration_row : Eta MigrationRow := fun r =>
  mkMigrationRow (mg_run_id r) (mg_workspace_path r) (mg_intent_at r) (mg_completed_at r) (mg_status r).
Global Instance eta_epoch_row : Eta EpochRow := fun r => 
  mkEpochRow (ep_run_id r) (ep_epoch r) (ep_updated_at r).
Global Instance eta_operation {St} : Eta (OperationOf St) := fun o =>
  mkOperation (op_operation_id o) (op_run_id o) (op_epoch o) (op_step_id o)
    (op_capsule_envelope_digest o) (op_source_attempt_id o) (op_logical_request_key o)
    (op_intent_digest o) (op_status o) (op_owner_pid o) (op_lease_expires_at o)
    (op_execution_attempt_id o) (op_serialized_outcome o).
Global Instance eta_operation_row : Eta OperationRow := fun r =>
  mkOperationRow (or_operation r) (or_created_at r) (or_finalized_at r).
Global Instance eta_attempt : Eta AttemptRecord := fun a =>
  mkAttemptRecord (at_attempt_id a) (at_run_id a) (at_epoch a) (at_source_attempt_id a)
    (at_operation_id a) (at_step_id a) (at_step_status a) (at_capsule_schema_version a)
    (at_capsule_envelope_digest a) (at_state_snapshot_json a) (at_snapshot_digest a)
    (at_checkpoint_digest a) (at_runner_result_json a) (at_started_at a) (at_finalized_at a).
Global Instance eta_effect {K} : Eta (EffectOf K) := fun e =>
  mkEffect (ef_effect_key e) (ef_operation_id e) (ef_attempt_id e) (ef_sequence e)
    (ef_effect_kind e) (ef_canonical_payload e) (ef_payload_digest e) (ef_payload_version e)
    (ef_expected_target e) (ef_expected_predecessor e) (ef_observed_result e) (ef_status e).
Global Instance eta_effect_row : Eta EffectRow := fun r =>
  mkEffectRow (er_effect r) (er_created_at r) (er_finalized_at r).
