(* ===== verification/Transition.v ===== *)
(** Transition resolution ([engine/transition.rs]): which step follows a step
    with a given outcome. *)
From S2P Require Import Prelude Status Schema.

Module Transition.
(** The engine's own copy of the transition definition. *)
Record TransitionDef := mk {
  t_from : string;
  t_to : string;
  t_condition : option string;
  t_max_iterations : option Z
}.

(** The loop of both resolvers, over any list of edges given by its
    accessors. *)
Definition edge_matches (from : string) (condition : option string)
    (step : string) (outcome : StepOutcome.t) : bool :=
  (from =?s step) &&
  match condition with
  | Some cond => cond =?s StepOutcome.as_condition_str outcome
  | None => bool_decide (outcome = StepOutcome.Success)
  end.

Fixpoint resolve_transition (step : string) (outcome : StepOutcome.t)
    (transitions : list TransitionDef) : option string :=
  match transitions with
  | [] => None
  | t :: rest =>
      if edge_matches (t_from t) (t_condition t) step outcome then Some (t_to t)
      else resolve_transition step outcome rest
  end.

Fixpoint resolve_transition_schema (step : string) (outcome : StepOutcome.t)
    (transitions : list Schema.TransitionDef) : option string :=
  match transitions with
  | [] => None
  | t :: rest =>
      if edge_matches (from t) (condition t) step outcome then Some (to t)
      else resolve_transition_schema step outcome rest
  end.

(** [runner.rs, find_transition]: the edge itself. *)
Fixpoint find_transition (transitions : list Schema.TransitionDef) (step : string)
    (outcome : StepOutcome.t) : option Schema.TransitionDef :=
  match transitions with
  | [] => None
  | t :: rest =>
      if edge_matches (from t) (condition t) step outcome then Some t
      else find_transition rest step outcome
  end.

(** [runner.rs, compute_next_step_candidates]: the distinct successors over
    the outcomes, in the code's order. *)
Definition candidate_outcomes : list StepOutcome.t :=
  [StepOutcome.Success; StepOutcome.Fixable; StepOutcome.Fatal; StepOutcome.Retryable;
   StepOutcome.Abandon; StepOutcome.Wait].

Definition compute_next_step_candidates (transitions : list Schema.TransitionDef)
    (step_id : string) : list string :=
  fold_left (fun candidates outcome =>
    match resolve_transition_schema step_id outcome transitions with
    | Some next => if bool_decide (next ∈ candidates) then candidates else candidates ++ [next]
    | None => candidates
    end) candidate_outcomes [].

Definition of_schema (t : Schema.TransitionDef) : TransitionDef :=
  mk (from t) (to t) (condition t) (max_iterations t).

Lemma find_transition_matches ts step o t :
  find_transition ts step o = Some t ->
  t ∈ ts /\ edge_matches (from t) (condition t) step o = true.
Proof.
  induction ts as [|t' ts IH]; cbn; [done|].
  destruct (edge_matches (from t') (condition t') step o) eqn:Em.
  - intros [= ->]. split; [left|done].
  - intros Hf. destruct (IH Hf) as [Hin Hm]. split; [by right|done].
Qed.

Lemma edge_matches_from f c step o : edge_matches f c step o = true -> f = step.
Proof. unfold edge_matches. by intros [Hf%bool_decide_eq_true _]%andb_true_iff. Qed.

(** The first matching edge splits the list. *)
Lemma find_transition_split ts step o t :
  find_transition ts step o = Some t ->
  exists before after, ts = before ++ t :: after /\
    edge_matches (from t) (condition t) step o = true /\
    Forall (fun t' => edge_matches (from t') (condition t') step o = false) before.
Proof.
  induction ts as [|t' ts IH]; cbn; [done|].
  destruct (edge_matches (from t') _ _ _) eqn:Em.
  - intros [= ->]. by exists [], ts.
  - intros (before & after & -> & Ht & Hb)%IH. exists (t' :: before), after.
    split_and!; [done..|]. by constructor.
Qed.

Lemma find_transition_intro before t after step o :
  Forall (fun t' => edge_matches (from t') (condition t') step o = false) before ->
  edge_matches (from t) (condition t) step o = true ->
  find_transition (before ++ t :: after) step o = Some t.
Proof. intros Hb Ht. induction Hb as [|t' before Hf _ IH]; cbn; by rewrite ?Ht, ?Hf. Qed.

(** The edge whose limit the runner enforces is the edge it follows. *)
Lemma resolve_is_find ts step o :
  resolve_transition_schema step o ts = to <$> find_transition ts step o.
Proof. induction ts as [|t ts IH]; cbn; [done|]. by destruct (edge_matches _ _ _ _). Qed.

Lemma fold_candidates_spec ts step os acc next :
  let step_acc := fun cs o =>
    match resolve_transition_schema step o ts with
    | Some n => if bool_decide (n ∈ cs) then cs else cs ++ [n]
    | None => cs
    end in
  next ∈ fold_left step_acc os acc <->
  next ∈ acc \/ exists o, o ∈ os /\ resolve_transition_schema step o ts = Some next.
Proof.
  intros step_acc. revert acc. induction os as [|o os IH]; intros acc; cbn.
  { split; [by left|]. intros [|(? & ?%not_elem_of_nil & _)]; done. }
  rewrite IH. unfold step_acc. clear IH.
  destruct (resolve_transition_schema step o ts) as [n|] eqn:Er.
  - destruct (decide (n ∈ acc)) as [Hin|Hni].
    + rewrite bool_decide_eq_true_2 by done. split.
      * intros [?|(o' & ? & ?)]; [by left|right; exists o'; split; [by right|done]].
      * intros [?|(o' & [->|?]%elem_of_cons & Ho)]; [by left| |right; eauto].
        rewrite Er in Ho. simplify_eq. by left.
    + rewrite bool_decide_eq_false_2 by done. rewrite elem_of_app, list_elem_of_singleton.
      split.
      * intros [[?| ->]|(o' & ? & ?)]; [by left|right; exists o; split; [left|done]|].
        right. exists o'. split; [by right|done].
      * intros [?|(o' & [->|?]%elem_of_cons & Ho)]; [by left; left| |right; eauto].
        rewrite Er in Ho. simplify_eq. left. by right.
  - split.
    + intros [?|(o' & ? & ?)]; [by left|right; exists o'; split; [by right|done]].
    + intros [?|(o' & [->|?]%elem_of_cons & Ho)]; [by left| |right; eauto].
      congruence.
Qed.

Lemma fold_candidates_NoDup ts step os acc :
  NoDup acc ->
  NoDup (fold_left (fun cs o =>
    match resolve_transition_schema step o ts with
    | Some n => if bool_decide (n ∈ cs) then cs else cs ++ [n]
    | None => cs
    end) os acc).
Proof.
  revert acc. induction os as [|o os IH]; cbn; intros acc Hnd; [done|]. apply IH.
  destruct (resolve_transition_schema step o ts) as [n|]; [|done].
  case_bool_decide as Hn; [done|]. apply NoDup_app. split; [done|].
  split; [|apply NoDup_singleton]. intros x Hx ->%list_elem_of_singleton. done.
Qed.

(** Which edge is followed.  A step follows an outcome to [next] exactly
    when [next] is the target of the first edge of the list that leaves the
    step and whose condition is the outcome's name (no condition meaning
    success); and the resolver over the engine's own edges answers the same
    as the one over the schema's. *)
Theorem resolve_first_match (ts : list Schema.TransitionDef) (step : string)
    (o : StepOutcome.t) (next : string) :
  let follows t := from t = step /\
    (condition t = Some (StepOutcome.as_condition_str o) \/
     condition t = None /\ o = StepOutcome.Success) in
  (resolve_transition_schema step o ts = Some next <->
   exists before t after, ts = before ++ t :: after /\ follows t /\ to t = next /\
     Forall (fun t' => ~ follows t') before) /\
  resolve_transition step o (of_schema <$> ts) = resolve_transition_schema step o ts.
Proof.
  intros follows.
  assert (Hm : forall t, edge_matches (from t) (condition t) step o = true <-> follows t).
  { intros t. unfold edge_matches, follows. rewrite andb_true_iff, bool_decide_eq_true.
    destruct (condition t) as [c|]; rewrite bool_decide_eq_true; split;
      [intros [-> ->]|intros [-> [[= ->]|[[=] _]]]|intros [-> ->]|intros [-> [[=]|[_ ->]]]]; auto. }
  split.
  - rewrite resolve_is_find. split.
    + intros (t & Hf & ->)%fmap_Some.
      apply find_transition_split in Hf as (before & after & -> & Ht & Hbefore).
      exists before, t, after. split_and!; [done|by apply Hm|done|].
      eapply Forall_impl; [exact Hbefore|]. cbn. intros t' Hf Hfo%Hm. congruence.
    + intros (before & t & after & -> & Ht & <- & Hbefore). apply fmap_Some. exists t.
      split; [|done]. apply find_transition_intro; [|by apply Hm].
      eapply Forall_impl; [exact Hbefore|]. cbn. intros t' Hf.
      destruct (edge_matches _ _ _ _) eqn:E; [|done]. by apply Hm in E.
  - induction ts as [|t ts IH]; csimpl; [done|]. by rewrite IH.
Qed.

(** The recorded next-step candidates are exactly the steps some outcome
    leads to, each once. *)
Theorem candidates_exact (ts : list Schema.TransitionDef) (step : string) :
  NoDup (compute_next_step_candidates ts step) /\
  forall next, next ∈ compute_next_step_candidates ts step <->
    exists o, resolve_transition_schema step o ts = Some next.
Proof.
  split; [apply fold_candidates_NoDup; constructor|]. intros next.
  unfold compute_next_step_candidates. rewrite fold_candidates_spec. split.
  - intros [?%not_elem_of_nil|(o & _ & Ho)]; [done|by exists o].
  - intros (o & Ho). right. exists o. split; [|done].
    destruct o; unfold candidate_outcomes; by repeat constructor.
Qed.
End Transition.
