(* ===== verification/Checkpoints.v ===== *)
(** Checkpoints and the event log ([persistence/checkpoint.rs]): saving and
    loading execution state, re-arming a resume point, the append-only events. *)
From S2P Require Import Prelude Effects Sql Status Schema.

(** [PersistenceError]; a [Database] error carries the SQLite error whose
    rendering is the message in the code. *)
Inductive PersistenceError :=
| Database (e : SqlError)
| Serialization (msg : string)
| NotFound (what : string).

Definition CHECKPOINT_STATUS_WAITING : string := "waiting".
Definition CHECKPOINT_STATUS_INTERRUPTED : string := "interrupted".
Definition CHECKPOINT_STATUS_READY_TO_RESUME : string := "ready_to_resume".

Definition is_resumable_checkpoint_status (s : string) : bool :=
  (s =?s CHECKPOINT_STATUS_WAITING) || (s =?s CHECKPOINT_STATUS_INTERRUPTED)
  || (s =?s CHECKPOINT_STATUS_READY_TO_RESUME).

(** The steps that may run again whoever asks ([engine/continuation.rs]). *)
Definition SAFE_RERUN_STEPS : list string :=
  ["watch_pr_checks"; "collect_ci_failures"; "collect_coderabbit_feedback"; "capture_pr_identity";
   "post_pr_iteration_guard"].
Definition is_safe_rerun_step (step_id : string) : bool := bool_decide (step_id ∈ SAFE_RERUN_STEPS).

Definition EDGE_LOOP_COUNTS_KEY : string := "__edge_loop_counts".

Definition default_snapshot : StateSnapshot := mkStateSnapshot 0 0 ∅ ∅ "running".

Definition mark_interrupted (now : Z) (c : Checkpoint) : Checkpoint :=
  c <| state_snapshot := (state_snapshot c) <| ss_status := "interrupted" |> |>
    <| cp_timestamp := now |>.

Definition mark_completed (now : Z) (c : Checkpoint) : Checkpoint :=
  c <| state_snapshot := (state_snapshot c) <| ss_status := "completed" |> |>
    <| cp_timestamp := now |>.

(** ** Rows *)

(** [serde_json::to_value] of the loop counts. *)
Definition counts_to_json (counts : gmap string Z) : Json := JObject (JInt <$> counts).

(** A [u32] read from a JSON value. *)
Definition json_u32 (j : Json) : option Z :=
  match j with JInt z => if decide (is_u32 z) then Some z else None | _ => None end.

(** [serde_json::from_value::<HashMap<String, u32>>]: every member must be a
    [u32]. *)
Definition json_u32_map (j : Json) : option (gmap string Z) :=
  match j with
  | JObject m =>
      if decide (map_Forall (fun _ v => is_Some (json_u32 v)) m)
      then Some (omap json_u32 m) else None
  | _ => None
  end.

#[global] Arguments counts_to_json : simpl never.
#[global] Arguments json_u32_map : simpl never.

(** The row [save_checkpoint_with_conn] binds. *)
Definition checkpoint_to_row (c : Checkpoint) : CheckpointRow :=
  let s := state_snapshot c in
  let context_data :=
    <[EDGE_LOOP_COUNTS_KEY := counts_to_json (edge_loop_counts s)]> (ss_context s) in
  mkCheckpointRow (cp_run_id c) (cp_step_id c) (retry_count s) (loop_count s) context_data
    (ss_status s) (cp_timestamp c).

(** The checkpoint the readers build from a row. *)
Definition row_to_checkpoint (r : CheckpointRow) : Checkpoint :=
  let edge_counts :=
    default ∅ (cr_context r !! EDGE_LOOP_COUNTS_KEY ≫= json_u32_map) in
  mkCheckpoint (cr_run_id r) (cr_step_id r)
    (mkStateSnapshot (as_u32 (cr_retry_count r)) (as_u32 (cr_loop_count r)) edge_counts
       (cr_context r) (cr_status r))
    (cr_timestamp r).

Definition same_checkpoint_key (r r' : CheckpointRow) : bool :=
  (cr_run_id r =?s cr_run_id r') && (cr_step_id r =?s cr_step_id r').

Definition checkpoint_of_run (run : string) (r : CheckpointRow) : bool := cr_run_id r =?s run.
Definition checkpoint_at (run step : string) (r : CheckpointRow) : bool :=
  (cr_run_id r =?s run) && (cr_step_id r =?s step).

Definition older (a b : CheckpointRow) : Prop := (cr_timestamp a <= cr_timestamp b)%Z.

#[global] Instance older_dec : RelDecision older.
Proof. intros a b. unfold older. apply _. Defined.

(** [ORDER BY timestamp ASC] *)
Definition sort_by_timestamp (rows : list CheckpointRow) : list CheckpointRow :=
  merge_sort older rows.

(** [iter().position(..)] *)
Fixpoint position {A} (p : A -> bool) (l : list A) : option nat :=
  match l with
  | [] => None
  | x :: l' => if p x then Some 0 else S <$> position p l'
  end.

(** ** Operations *)

Section Operations.
Context `{Env}.

(** [CREATE TABLE IF NOT EXISTS], a statement that changes nothing on an
    initialized database. *)
Definition ensure_table : M Db SqlError unit := execute (fun d => Ok (tt, d)).

(** Insert, or on a [(run_id, step_id)] conflict replace every other column. *)
Definition upsert_checkpoint (row : CheckpointRow) : M Db SqlError unit :=
  execute (fun d =>
    Ok (tt, d <| checkpoints := upsert_by same_checkpoint_key (fun r _ => r) row (checkpoints d) |>)).

Definition save_checkpoint_with_conn (c : Checkpoint) : M Db PersistenceError unit :=
  map_err Database ensure_table;;
  map_err Database (upsert_checkpoint (checkpoint_to_row c)).

Definition load_checkpoint_with_conn (run : string) : M Db PersistenceError (option Checkpoint) :=
  map_err Database (query (fun d =>
    Ok (row_to_checkpoint <$>
        newest_by cr_timestamp (select_where (checkpoint_of_run run) (checkpoints d))))).

Definition list_checkpoints (run : string) : M Db PersistenceError (list Checkpoint) :=
  map_err Database (query (fun d =>
    Ok (row_to_checkpoint <$>
        sort_by_timestamp (select_where (checkpoint_of_run run) (checkpoints d))))).

Definition get_checkpoint_for_step (run step : string)
    : M Db PersistenceError (option Checkpoint) :=
  cps ← list_checkpoints run;
  mret (List.find (fun cp => cp_step_id cp =?s step) cps).

Definition load_checkpoint_before_step (run step : string)
    : M Db PersistenceError (option Checkpoint) :=
  cps ← list_checkpoints run;
  mret (match position (fun cp => cp_step_id cp =?s step) cps with
        | Some (S idx) => cps !! idx
        | _ => None
        end).

Definition rearm_row (now : Z) (r : CheckpointRow) : CheckpointRow :=
  r <| cr_status := CHECKPOINT_STATUS_READY_TO_RESUME |> <| cr_timestamp := now |>.

Definition set_resume_point (run step : string) : M Db PersistenceError Z :=
  t ← now;
  updated ← map_err Database (execute (fun d =>
    Ok (count_where (checkpoint_at run step) (checkpoints d),
        d <| checkpoints :=
               update_where (checkpoint_at run step) (rearm_row t) (checkpoints d) |>)));
  if bool_decide (updated = 0)
  then throw (NotFound ("no checkpoint for run " +:+ run +:+ " step " +:+ step))
  else mret t.

(** Two [ALTER TABLE]s whose errors (the columns exist) are ignored. *)
Definition migrate_events_table : M Db PersistenceError unit :=
  ignore ensure_table;;
  ignore ensure_table.

Definition append_typed_event_with_conn (run step outcome : string) (event_type : EventType.t)
    (details : option string) (timestamp : Z) : M Db PersistenceError unit :=
  map_err Database ensure_table;;
  migrate_events_table;;
  map_err Database (execute (fun d =>
    Ok (tt, d <| events := events d ++
                  [mkEventRecord run step outcome (EventType.to_string event_type) details
                     timestamp] |>))).

Definition append_event_with_conn (run step outcome : string) (timestamp : Z)
    : M Db PersistenceError unit :=
  append_typed_event_with_conn run step outcome EventType.StepOutcome None timestamp.

Definition event_of_run (run : string) (e : EventRecord) : bool := ev_run_id e =?s run.

(** The rows come in insertion order, [ORDER BY id ASC]. *)
Definition load_events (run : string) : M Db PersistenceError (list EventRecord) :=
  map_err Database (query (fun d => Ok (select_where (event_of_run run) (events d)))).

(** [ORDER BY id DESC LIMIT limit], then reversed. *)
Definition load_recent_events (run : string) (limit : nat)
    : M Db PersistenceError (list EventRecord) :=
  if bool_decide (limit = 0) then mret []
  else
    rows ← map_err Database (query (fun d =>
      Ok (take (Z.to_nat (Z.min (Z.of_nat limit) i64_max))
            (reverse (select_where (event_of_run run) (events d))))));
    mret (reverse rows).

Definition event_typed (run : string) (event_type : EventType.t) (e : EventRecord) : bool :=
  event_of_run run e && (ev_event_type e =?s EventType.to_string event_type).

Definition load_events_by_type (run : string) (event_type : EventType.t)
    : M Db PersistenceError (list EventRecord) :=
  map_err Database (query (fun d => Ok (select_where (event_typed run event_type) (events d)))).

Definition load_latest_event (run : string) : M Db PersistenceError (option EventRecord) :=
  map_err Database (query (fun d => Ok (last (select_where (event_of_run run) (events d))))).

Definition count_events_by_type (run : string) (event_type : EventType.t)
    : M Db PersistenceError Z :=
  map_err Database (query (fun d =>
    Ok (Z.of_nat (count_where (event_typed run event_type) (events d))))).
End Operations.


(** The stable identity of a checkpoint ([engine/continuation.rs]). *)
Definition checkpoint_identity `{Process} (c : Checkpoint) : string :=
  cp_step_id c +:+ "@" +:+ to_rfc3339 (cp_timestamp c).

(** ** Properties *)

(** The primary key of the table. *)
Definition checkpoint_key (r : CheckpointRow) : string * string := (cr_run_id r, cr_step_id r).
Definition checkpoint_keys (d : Db) : Prop := NoDup (checkpoint_key <$> checkpoints d).

#[global] Instance checkpoint_keys_dec d : Decision (checkpoint_keys d).
Proof. unfold checkpoint_keys. apply _. Defined.

(** The counters of a checkpoint are [u32]s. *)
Definition checkpoint_counters (c : Checkpoint) : Prop :=
  is_u32 (retry_count (state_snapshot c)) /\ is_u32 (loop_count (state_snapshot c)) /\
  map_Forall (fun _ n => is_u32 n) (edge_loop_counts (state_snapshot c)).

#[global] Instance checkpoint_counters_dec c : Decision (checkpoint_counters c).
Proof. unfold checkpoint_counters. apply _. Defined.

(** What a reader sees of a saved checkpoint: the same, with the loop counts
    also visible in its context. *)
Definition as_stored (c : Checkpoint) : Checkpoint :=
  let s := state_snapshot c in
  c <| state_snapshot := s <| ss_context :=
         <[EDGE_LOOP_COUNTS_KEY := counts_to_json (edge_loop_counts s)]> (ss_context s) |> |>.

Lemma json_u32_map_counts (m : gmap string Z) :
  map_Forall (fun _ n => is_u32 n) m -> json_u32_map (counts_to_json m) = Some m.
Proof.
  intros Hm. unfold json_u32_map, counts_to_json.
  assert (Hj : forall k n, m !! k = Some n -> json_u32 (JInt n) = Some n).
  { intros k n Hk. unfold json_u32. rewrite decide_True; [done|]. by apply (Hm k n). }
  rewrite decide_True.
  - f_equal. apply map_eq. intros k. rewrite lookup_omap, lookup_fmap.
    destruct (m !! k) as [n|] eqn:E; [|done]. by apply (Hj k n).
  - intros k j. rewrite lookup_fmap. intros (n & Hk & ->)%fmap_Some.
    rewrite (Hj k n Hk). by eexists.
Qed.

Lemma row_of_checkpoint c :
  checkpoint_counters c -> row_to_checkpoint (checkpoint_to_row c) = as_stored c.
Proof.
  intros (Hr & Hl & He). unfold row_to_checkpoint, checkpoint_to_row, as_stored. cbn.
  rewrite lookup_insert_eq. cbn. rewrite json_u32_map_counts by done. cbn.
  rewrite !as_u32_id by done. by destruct c as [? ? [] ?].
Qed.

Lemma same_checkpoint_key_spec r r' :
  same_checkpoint_key r r' = true <-> checkpoint_key r = checkpoint_key r'.
Proof.
  unfold same_checkpoint_key, checkpoint_key. rewrite andb_true_iff, !bool_decide_eq_true.
  split; [by intros [-> ->]|by intros [=]].
Qed.

Lemma checkpoint_at_key run step r :
  checkpoint_at run step r = true <-> checkpoint_key r = (run, step).
Proof.
  unfold checkpoint_at, checkpoint_key. rewrite andb_true_iff, !bool_decide_eq_true.
  split; [by intros [-> ->]|by intros [=]].
Qed.

(** Every row the log-ordered listing returns is a row of the run, and back. *)
Lemma elem_of_sorted run rows r :
  r ∈ sort_by_timestamp (select_where (checkpoint_of_run run) rows) <->
  r ∈ rows /\ cr_run_id r = run.
Proof.
  unfold sort_by_timestamp. rewrite (merge_sort_Permutation older).
  rewrite elem_of_select_where. unfold checkpoint_of_run. by rewrite bool_decide_eq_true.
Qed.

Lemma find_fmap {A B} (f : A -> B) (p : B -> bool) (l : list A) :
  List.find p (f <$> l) = f <$> List.find (fun a => p (f a)) l.
Proof. induction l as [|a l IH]; csimpl; [done|]. by destruct (p (f a)). Qed.

Section Theorems.
Context `{Env}.

Lemma keeps_ensure_table P : keeps P (ensure_table).
Proof. apply keeps_execute. intros d [] d' HP [= <-]. done. Qed.
#[local] Hint Resolve keeps_ensure_table : eff.

Lemma checkpoint_keys_save c : keeps checkpoint_keys (save_checkpoint_with_conn c).
Proof.
  unfold save_checkpoint_with_conn. keeps_auto.
  apply keeps_execute. intros d [] d' HP [= <-]. unfold checkpoint_keys in *. cbn.
  apply upsert_by_keys; [apply same_checkpoint_key_spec| |done].
  intros r' ?. by apply same_checkpoint_key_spec.
Qed.

Lemma checkpoint_keys_set_resume_point run step :
  keeps checkpoint_keys (set_resume_point run step).
Proof.
  unfold set_resume_point. keeps_auto.
  apply keeps_execute. intros d n d' HP [= <- <-]. unfold checkpoint_keys in *. cbn.
  by rewrite update_where_column.
Qed.

(** What re-arming does to the database. *)
Lemma set_resume_point_wp run step w :
  wp (set_resume_point run step)
     (fun r w' =>
        match r with
        | Ok t =>
            w_db w' = (w_db w) <| checkpoints :=
              update_where (checkpoint_at run step) (rearm_row t) (checkpoints (w_db w)) |> /\
            exists c, c ∈ checkpoints (w_db w) /\ checkpoint_at run step c = true
        | Err (NotFound _) =>
            w_db w' = w_db w /\
            forall c, c ∈ checkpoints (w_db w) -> checkpoint_at run step c = false
        | Err (Database e) => w_db w' = w_db w /\ e = SqliteFailure
        | Err (Serialization _) => False
        end) w.
Proof.
  unfold set_resume_point. wp_run; try by db_eqs.
  case_bool_decide as Hn; wp_run; db_eqs.
  - rewrite count_where_0 in Hn. split; [|done].
    rewrite update_where_none by done. by destruct (w_db w).
  - split; [done|]. apply count_where_pos. cbn in Hn. lia.
Qed.

(** The table after a save. *)
Definition saved (c : Checkpoint) (d : Db) : Db :=
  d <| checkpoints :=
    upsert_by same_checkpoint_key (fun r _ => r) (checkpoint_to_row c) (checkpoints d) |>.

Lemma save_checkpoint_wp c w :
  wp (save_checkpoint_with_conn c)
     (fun r w' =>
        match r with
        | Ok _ => w_db w' = saved c (w_db w)
        | Err e => w_db w' = w_db w /\ e = Database SqliteFailure
        end) w.
Proof. unfold save_checkpoint_with_conn, ensure_table, upsert_checkpoint. wp_run; by db_eqs. Qed.

Lemma append_event_wp run step outcome ty details t w :
  wp (append_typed_event_with_conn run step outcome ty details t)
     (fun r w' =>
        match r with
        | Ok _ =>
            w_db w' = (w_db w) <| events := events (w_db w) ++
              [mkEventRecord run step outcome (EventType.to_string ty) details t] |>
        | Err e => w_db w' = w_db w /\ e = Database SqliteFailure
        end) w.
Proof.
  unfold append_typed_event_with_conn, migrate_events_table, ensure_table. wp_run; by db_eqs.
Qed.

(** A saved row is the one the run's listing has at its step. *)
Lemma find_saved row rows :
  NoDup (checkpoint_key <$> rows) ->
  List.find (fun r => cr_step_id r =?s cr_step_id row)
    (sort_by_timestamp (select_where (checkpoint_of_run (cr_run_id row))
       (upsert_by same_checkpoint_key (fun r _ => r) row rows))) = Some row.
Proof.
  intros Hnd. apply find_unique.
  - apply elem_of_sorted. split; [|done]. apply elem_of_upsert_replace. by left.
  - by apply bool_decide_eq_true.
  - intros r' (Hr' & Hrun)%elem_of_sorted Hstep%bool_decide_eq_true.
    apply elem_of_upsert_replace in Hr' as [->|[_ Hs]]; [done|].
    assert (same_checkpoint_key row r' = true) as Ht; [|congruence].
    apply same_checkpoint_key_spec. unfold checkpoint_key. by rewrite Hrun, Hstep.
Qed.
End Theorems.

(** Re-arming a step of a run whose rows are all older than the stamp makes that
    step the newest. *)
Lemma rearmed_newest run step t rows :
  (exists r, r ∈ rows /\ checkpoint_at run step r = true) ->
  Forall (fun r => cr_run_id r = run -> cr_timestamp r < t)%Z rows ->
  exists r, newest_by cr_timestamp (select_where (checkpoint_of_run run)
              (update_where (checkpoint_at run step) (rearm_row t) rows)) = Some r /\
    checkpoint_key r = (run, step) /\ cr_status r = CHECKPOINT_STATUS_READY_TO_RESUME /\
    cr_timestamp r = t.
Proof.
  intros (r0 & Hr0 & Hat) Hold. rewrite Forall_forall in Hold.
  set (sel := select_where _ _).
  assert (Hin : rearm_row t r0 ∈ sel).
  { apply elem_of_select_where. split.
    - apply elem_of_update_where. exists r0. by rewrite Hat.
    - apply checkpoint_at_key in Hat as [= Hrun _]. by apply bool_decide_eq_true. }
  destruct (newest_by cr_timestamp sel) as [r|] eqn:En.
  2:{ apply newest_by_None in En. rewrite En in Hin. by apply not_elem_of_nil in Hin. }
  exists r. split; [done|].
  pose proof (newest_by_max _ _ _ _ En Hin) as Hmax. cbn in Hmax.
  apply newest_by_Some_elem, elem_of_select_where in En as [Hr Hrun%bool_decide_eq_true].
  apply elem_of_update_where in Hr as (r1 & Hr1 & ->).
  destruct (checkpoint_at run step r1) eqn:E1.
  - apply checkpoint_at_key in E1. by split_and!.
  - specialize (Hold r1 Hr1 Hrun). lia.
Qed.

(** A checkpoint saved after all others of its run is the one a resume loads. *)
Lemma saved_newest c rows :
  Forall (fun r => cr_run_id r = cp_run_id c -> cr_timestamp r < cp_timestamp c)%Z rows ->
  newest_by cr_timestamp (select_where (checkpoint_of_run (cp_run_id c))
    (upsert_by same_checkpoint_key (fun r _ => r) (checkpoint_to_row c) rows)) =
  Some (checkpoint_to_row c).
Proof.
  intros Hold. apply newest_by_unique.
  - apply elem_of_select_where. split; [|by apply bool_decide_eq_true].
    apply elem_of_upsert_replace. by left.
  - intros r [Hr Hrun%bool_decide_eq_true]%elem_of_select_where.
    apply elem_of_upsert_replace in Hr as [->|[Hr _]]; [by left|right].
    rewrite Forall_forall in Hold. by apply Hold.
Qed.

(** ** Main theorems *)

Section Claims.
Context `{Env}.

(** Saving a checkpoint whose counters are machine integers and reading
    its step back, under every schedule of statement failures, gives exactly
    the checkpoint that was saved (its loop counts recovered from the
    reserved context key), or one of the two calls reported the database
    error. *)
Theorem save_checkpoint_roundtrip (c : Checkpoint) (w : World Db)
    (Hkeys : checkpoint_keys (w_db w)) (Hc : checkpoint_counters c) :
  wp (save_checkpoint_with_conn c;; get_checkpoint_for_step (cp_run_id c) (cp_step_id c))
     (fun r _ => r = Ok (Some (as_stored c)) \/ r = Err (Database SqliteFailure)) w.
Proof.
  unfold save_checkpoint_with_conn, get_checkpoint_for_step, list_checkpoints, ensure_table,
    upsert_checkpoint.
  wp_run; try by right.
  left. do 2 f_equal. rewrite find_fmap. db_eqs. cbn [checkpoints upd].
  pose proof (find_saved (checkpoint_to_row c) _ Hkeys) as Hf. cbn in Hf |- *.
  rewrite Hf. cbn. by rewrite row_of_checkpoint.
Qed.

(** Re-arming a step makes the newest-first resume loader pick it.  When
    the clock has moved past every checkpoint of the run, a successful
    [set_resume_point] followed by the loader yields that step with status
    [ready_to_resume] and the stamp that was returned; an error from the
    update means the run has no checkpoint at the step (and then nothing
    changed) or a failed statement. *)
Theorem set_resume_point_selected (run step : string) (w : World Db)
    (Hclock : Forall (fun r => cr_run_id r = run -> cr_timestamp r < env_clock (w_clock w))%Z
                (checkpoints (w_db w))) :
  wp (t ← set_resume_point run step; cp ← load_checkpoint_with_conn run; mret (t, cp))
     (fun r w' =>
        match r with
        | Ok (t, cp) =>
            t = env_clock (w_clock w) /\
            events (w_db w') = events (w_db w) /\
            exists c, cp = Some c /\ cp_run_id c = run /\ cp_step_id c = step /\
              ss_status (state_snapshot c) = CHECKPOINT_STATUS_READY_TO_RESUME /\
              cp_timestamp c = t
        | Err (NotFound _) =>
            w_db w' = w_db w /\
            forall r, r ∈ checkpoints (w_db w) -> checkpoint_at run step r = false
        | Err (Database e) => e = SqliteFailure
        | Err (Serialization _) => False
        end) w.
Proof.
  unfold set_resume_point, load_checkpoint_with_conn. wp_run; try done.
  case_bool_decide as Hn; wp_run; try done.
  - db_eqs. rewrite count_where_0 in Hn. split; [|done].
    rewrite update_where_none by done. by destruct (w_db w).
  - db_eqs. cbn. split_and!; [done..|].
    destruct (rearmed_newest run step (env_clock (w_clock w)) (checkpoints (w_db w)))
      as (r & Hnew & [= Hrun Hstep] & Hst & Ht); [|done|].
    { apply count_where_pos. cbn in Hn. lia. }
    rewrite Hnew. by exists (row_to_checkpoint r).
Qed.

(** The tail of the event log.  [load_recent_events] with limit [n]
    returns, oldest first, exactly the last [n] of the events [load_events]
    returns (all of them when there are fewer); a limit of zero asks the
    database nothing. *)
Theorem load_recent_events_tail (run : string) (limit : nat) (w : World Db)
    (Hfit : (Z.of_nat limit <= i64_max)%Z) :
  wp (load_recent_events run limit)
     (fun r w' =>
        let all := select_where (event_of_run run) (events (w_db w)) in
        w_db w' = w_db w /\
        match r with
        | Ok l => l = drop (length all - limit) all
        | Err e => limit <> 0 /\ e = Database SqliteFailure
        end) w.
Proof.
  unfold load_recent_events. case_bool_decide as Hl; wp_run; db_eqs; split; try done.
  - by rewrite Hl, Nat.sub_0_r, drop_all.
  - by rewrite Z.min_l, Nat2Z.id, take_reverse, reverse_involutive by done.
Qed.
End Claims.

(** ** Witnesses *)

#[local] Existing Instance calm.

Definition sample_snapshot : StateSnapshot :=
  mkStateSnapshot 1 2 {["review:fix" := 2%Z]} {["pr" := JInt 7]} "running".
Definition sample_checkpoint : Checkpoint := mkCheckpoint "run-1" "review" sample_snapshot 5.
Definition sample_rows : list CheckpointRow :=
  [checkpoint_to_row sample_checkpoint;
   checkpoint_to_row (mkCheckpoint "run-1" "plan" default_snapshot 9)].
Definition sample_db : Db := empty_db <| checkpoints := sample_rows |>.

Lemma save_checkpoint_roundtrip_witness :
  let w := start sample_db in
  wp (save_checkpoint_with_conn sample_checkpoint;;
      get_checkpoint_for_step "run-1" "review")
     (fun r _ => r = Ok (Some (as_stored sample_checkpoint)) \/ r = Err (Database SqliteFailure)) w.
Proof.
  intros w. apply (save_checkpoint_roundtrip sample_checkpoint w).
  - by_computation.
  - by_computation.
Defined.

Lemma set_resume_point_selected_witness :
  let w := start sample_db in
  wp (t ← set_resume_point "run-1" "review";
                  cp ← load_checkpoint_with_conn "run-1"; mret (t, cp))
    (fun r w' =>
       match r with
       | Ok (t, cp) =>
           t = env_clock (w_clock w) /\
           events (w_db w') = events (w_db w) /\
           exists c, cp = Some c /\ cp_run_id c = "run-1" /\ cp_step_id c = "review" /\
             ss_status (state_snapshot c) = CHECKPOINT_STATUS_READY_TO_RESUME /\
             cp_timestamp c = t
       | Err (NotFound _) =>
           w_db w' = w_db w /\
           forall r, r ∈ checkpoints (w_db w) -> checkpoint_at "run-1" "review" r = false
       | Err (Database e) => e = SqliteFailure
       | Err (Serialization _) => False
       end) w.
Proof. intros w. apply set_resume_point_selected. repeat constructor. Defined.

Lemma load_recent_events_tail_witness :
  let e n := mkEventRecord "run-1" n "success" "step_outcome" None 0 in
  let w := start (empty_db <| events := [e "a"; e "b"; e "c"] |>) in
  wp (load_recent_events "run-1" 2)
    (fun r w' =>
       let all := select_where (event_of_run "run-1") (events (w_db w)) in
       w_db w' = w_db w /\
       match r with
       | Ok l => l = drop (length all - 2) all
       | Err e => 2 <> 0 /\ e = Database SqliteFailure
       end) w.
Proof. intros e w. apply (load_recent_events_tail). by_computation. Defined.
