(* ===== verification/RunPaths.v ===== *)
(** Per-run directories of daemon launches ([daemon/launcher/paths.rs]): a run
    works under [base/issue-N/run-id], and a run id that could leave its base is
    refused.  Paths are the text of UTF-8 Unix paths; [components] and [join]
    are the standard library's [Path::components] and [Path::join] on them. *)
From S2P Require Import Prelude.
From Stdlib Require Import Ascii.

(** ** Paths *)

Inductive Component := RootDir | CurDir | ParentDir | Normal (name : string).

(** The text between separators. *)
Fixpoint split_slash (s : string) : list string :=
  match s with
  | "" => [""]
  | String c rest =>
      if decide (c = "/"%char) then "" :: split_slash rest
      else match split_slash rest with
           | piece :: pieces => String c piece :: pieces
           | [] => [String c ""]
           end
  end.

(** A piece after the first: empty pieces and [.] are dropped. *)
Definition piece_component (p : string) : option Component :=
  if (p =?s "") || (p =?s ".") then None
  else Some (if p =?s ".." then ParentDir else Normal p).

Definition pieces_components (pieces : list string) : list Component :=
  match pieces with
  | [] | [""] => []
  | "" :: rest => RootDir :: omap piece_component rest
  | "." :: rest => CurDir :: omap piece_component rest
  | _ => omap piece_component pieces
  end.

(** [Path::components] *)
Definition components (path : string) : list Component := pieces_components (split_slash path).

Fixpoint last_char (s : string) : option ascii :=
  match s with
  | "" => None
  | String c "" => Some c
  | String _ rest => last_char rest
  end.

(** [Path::join] *)
Definition join (base path : string) : string :=
  if bool_decide (String.get 0 path = Some "/"%char) then path
  else if bool_decide (last_char base = None \/ last_char base = Some "/"%char)
  then base +:+ path
  else base +:+ "/" +:+ path.

(** ** Operations *)

Record DaemonPathBases := mkDaemonPathBases {
  work_dir_base : option string;
  artifact_dir_base : option string
}.

Record PerRunPaths := mkPerRunPaths {
  work_dir : option string;
  artifact_dir : option string
}.

Fixpoint has_char (c : ascii) (s : string) : bool :=
  match s with
  | "" => false
  | String c' rest => bool_decide (c' = c) || has_char c rest
  end.

Definition unsafe_run_id (run_id : string) : string :=
  "run_id must be a single safe path component: " +:+ run_id.

Definition validate_run_id_path_component (run_id : string) : Res string unit :=
  if str_is_empty run_id then Err "run_id must not be empty"
  else if has_char "\" run_id then Err (unsafe_run_id run_id)
  else match components run_id with
       | [Normal _] => Ok tt
       | _ => Err (unsafe_run_id run_id)
       end.

Definition issue_segment (issue_number : Z) : string := "issue-" +:+ pretty issue_number.

Definition per_run_paths (bases : DaemonPathBases) (issue_number : Z) (run_id : string)
    : Res string PerRunPaths :=
  validate_run_id_path_component run_id;;
  let dir base := join (join base (issue_segment issue_number)) run_id in
  Ok (mkPerRunPaths (dir <$> work_dir_base bases) (dir <$> artifact_dir_base bases)).

(** ** Lemmas *)

Lemma split_slash_nonempty s : split_slash s <> [].
Proof. destruct s; cbn; [done|]. case_decide; [done|]. by destruct (split_slash s). Qed.

Lemma split_slash_empty s : split_slash s = [""] -> s = "".
Proof.
  destruct s as [|c s]; [done|]. cbn. pose proof (split_slash_nonempty s).
  case_decide; [by intros [=]|]. by destruct (split_slash s).
Qed.

Lemma split_slash_app a b : split_slash (a +:+ "/" +:+ b) = split_slash a ++ split_slash b.
Proof.
  induction a as [|c a IH]; [done|]. 
  change (String c a +:+ "/" +:+ b) with (String c (a +:+ "/" +:+ b)).
  remember (a +:+ "/" +:+ b) as s. cbn [split_slash]. rewrite IH. case_decide; [done|].
  by destruct (split_slash a) eqn:E; [destruct (split_slash_nonempty a)|].
Qed.

Lemma split_slash_plain s : has_char "/" s = false -> split_slash s = [s].
Proof.
  induction s as [|c s IH]; [done|]. cbn.
  intros [Hc Hs]%orb_false_iff. apply bool_decide_eq_false in Hc.
  rewrite decide_False by done. by rewrite IH.
Qed.

Lemma last_slash s : last_char s = Some "/"%char -> exists s', s = s' +:+ "/".
Proof.
  induction s as [|c [|c' s] IH]; cbn in *; [done|intros [= ->]; by exists ""|].
  intros H. destruct (IH H) as [s' Hs']. exists (String c s'). cbn. by rewrite Hs'.
Qed.

Lemma last_char_none s : last_char s = None -> s = "".
Proof. induction s as [|c [|c' s] IH]; cbn in *; [done|done|]. intros H. by specialize (IH H). Qed.

Lemma append_assoc_str (a b c : string) : (a +:+ b) +:+ c = a +:+ (b +:+ c).
Proof.
  induction a as [|x a IH]; [done|].
  change (String x ((a +:+ b) +:+ c) = String x (a +:+ (b +:+ c))). by rewrite IH.
Qed.

Lemma pieces_components_app ps qs :
  ps <> [] -> ps <> [""] -> pieces_components (ps ++ qs) = pieces_components ps ++ omap piece_component qs.
Proof.
  intros H1 H2. destruct ps as [|p ps]; [done|].
  assert (Hgen : omap piece_component (p :: ps ++ qs) =
                 omap piece_component (p :: ps) ++ omap piece_component qs)
    by (rewrite <- omap_app; done).
  destruct p as [|[[] [] [] [] [] [] [] []] p]; try exact Hgen.
  - destruct ps as [|p' ps]; [done|]. cbn [pieces_components app].
    change (p' :: ps ++ qs) with ((p' :: ps) ++ qs). by rewrite omap_app.
  - destruct p; [|exact Hgen]. cbn [pieces_components app]. by rewrite omap_app.
Qed.

(** A path whose first piece is neither empty nor [.] adds its pieces to what it
    is joined under. *)
Lemma components_join base path :
  (forall p ps, split_slash path = p :: ps -> p <> "" /\ p <> ".") ->
  components (join base path) = components base ++ omap piece_component (split_slash path).
Proof.
  intros Hfirst. unfold components, join.
  case_bool_decide as Habs.
  { destruct path as [|c path]; [done|]. injection Habs as ->.
    by destruct (Hfirst "" (split_slash path)). }
  assert (Hpath : pieces_components (split_slash path) = omap piece_component (split_slash path)).
  { destruct (split_slash path) as [|p ps] eqn:E; [done|]. destruct (Hfirst p ps eq_refl) as [Hp Hp'].
    destruct p as [|[[] [] [] [] [] [] [] []] [|]]; try done. }
  case_bool_decide as Hlast.
  - destruct Hlast as [->%last_char_none|(base' & ->)%last_slash]; [exact Hpath|].
    rewrite append_assoc_str, split_slash_app.
    change (base' +:+ "/") with (base' +:+ "/" +:+ ""). rewrite split_slash_app.
    destruct (decide (split_slash base' = [""])) as [E|E].
    + rewrite E. destruct (split_slash path) eqn:Es; [by destruct (split_slash_nonempty path)|done].
    + rewrite !pieces_components_app by (done || apply split_slash_nonempty). cbn.
      by rewrite app_nil_r.
  - rewrite split_slash_app. apply pieces_components_app; [apply split_slash_nonempty|].
    intros ->%split_slash_empty. by apply Hlast; left.
Qed.

(** *** Decimal numbers hold no separator *)

Lemma has_char_pretty_go (x : N) s :
  has_char "/" s = false -> has_char "/" (pretty_N_go x s) = false.
Proof.
  revert s. induction (N.lt_wf_0 x) as [x _ IH]; intros s Hs.
  destruct (decide (0 < x)%N) as [Hx|Hx].
  - rewrite pretty_N_go_step by done. apply IH; [apply N.div_lt; lia|]. cbn.
    rewrite Hs, orb_false_r. apply bool_decide_eq_false.
    unfold pretty_N_char. by repeat case_match.
  - assert (x = 0%N) as -> by lia. by rewrite pretty_N_go_0.
Qed.

Lemma has_char_pretty (z : Z) : has_char "/" (pretty z) = false.
Proof.
  assert (HN : forall n : N, has_char "/" (pretty n) = false).
  { intros n. unfold pretty, pretty_N. case_decide; [done|]. by apply has_char_pretty_go. }
  destruct z as [|p|p]; [done|exact (HN (Npos p))|exact (HN (Npos p))].
Qed.

Lemma issue_segment_pieces number : split_slash (issue_segment number) = [issue_segment number].
Proof. apply split_slash_plain. apply has_char_pretty. Qed.

Lemma issue_segment_inj n m : issue_segment n = issue_segment m -> n = m.
Proof. intros H%String.app_inj. by apply (inj pretty). Qed.

(** What the validation accepts: one proper component after the empty and [.]
    pieces are dropped. *)
Lemma validate_run_id_Ok run :
  validate_run_id_path_component run = Ok tt ->
  exists name, omap piece_component (split_slash run) = [Normal name] /\
    components run = [Normal name] /\
    forall p ps, split_slash run = p :: ps -> p <> "" /\ p <> ".".
Proof.
  unfold validate_run_id_path_component, components, str_is_empty.
  destruct (bool_decide (run = "")) eqn:Ee; [done|]. apply bool_decide_eq_false in Ee.
  destruct (has_char _ _); [done|].
  destruct (split_slash run) as [|p ps] eqn:Es; [by destruct (split_slash_nonempty run)|].
  destruct (decide (p = "")) as [->|Hp].
  { destruct ps; [by destruct Ee; apply split_slash_empty|]. done. }
  destruct (decide (p = ".")) as [->|Hp']; [done|].
  assert (Hc : pieces_components (p :: ps) = omap piece_component (p :: ps))
    by by destruct p as [|[[] [] [] [] [] [] [] []] [|]].
  rewrite Hc. intros H. destruct (omap _ _) as [|[| | |name] [|]] eqn:Eo; try done.
  exists name. split_and!; try done. by intros ? ? [= <- <-].
Qed.

Lemma components_run_dir base number run name :
  omap piece_component (split_slash run) = [Normal name] ->
  (forall p ps, split_slash run = p :: ps -> p <> "" /\ p <> ".") ->
  components (join (join base (issue_segment number)) run) =
  components base ++ [Normal (issue_segment number); Normal name].
Proof.
  intros Hname Hfirst. rewrite components_join by done.
  rewrite components_join by (rewrite issue_segment_pieces; by intros ? ? [= <- <-]).
  rewrite issue_segment_pieces, Hname, <- app_assoc. done.
Qed.

(** The directory a run gets under a base, by components. *)
Definition run_dir_of (base : option string) (number : Z) (name : string) (dir : option string) : Prop :=
  match base, dir with
  | Some b, Some d => components d = components b ++ [Normal (issue_segment number); Normal name]
  | None, None => True
  | _, _ => False
  end.

Lemma per_run_paths_Ok bases number run paths :
  per_run_paths bases number run = Ok paths ->
  exists name, components run = [Normal name] /\
    run_dir_of (work_dir_base bases) number name (work_dir paths) /\
    run_dir_of (artifact_dir_base bases) number name (artifact_dir paths).
Proof.
  unfold per_run_paths. intros H.
  destruct (validate_run_id_path_component run) as [[]|e] eqn:Ev; [|done].
  injection H as <-. destruct (validate_run_id_Ok _ Ev) as (name & Hname & Hc & Hfirst).
  exists name. split; [done|]. unfold run_dir_of.
  split; [destruct (work_dir_base bases)|destruct (artifact_dir_base bases)]; cbn; try done;
    by apply components_run_dir.
Qed.

(** ** Main theorem *)

(** A run cannot leave its directory or meet another's.  An accepted run
    id is one proper component, and each directory of the run is its base, then
    [issue-N], then that component: no parent traversal, no absolute escape, no
    directory without its base.  Under the same bases two accepted runs whose
    work directories coincide are of the same issue with the same component.
    A refusal means the id is empty, has a backslash, or is no such component. *)
Theorem per_run_paths_confined (bases : DaemonPathBases) (number : Z) (run : string) :
  match per_run_paths bases number run with
  | Ok paths =>
      exists name, components run = [Normal name] /\
        run_dir_of (work_dir_base bases) number name (work_dir paths) /\
        run_dir_of (artifact_dir_base bases) number name (artifact_dir paths) /\
        forall number' run' paths' dir dir',
          per_run_paths bases number' run' = Ok paths' ->
          work_dir paths = Some dir -> work_dir paths' = Some dir' ->
          components dir = components dir' ->
          number = number' /\ components run = components run'
  | Err _ =>
      run = "" \/ has_char "\" run = true \/ forall name, components run <> [Normal name]
  end.
Proof.
  destruct (per_run_paths bases number run) as [paths|e] eqn:Ep.
  - destruct (per_run_paths_Ok _ _ _ _ Ep) as (name & Hc & Hw & Ha).
    exists name. split_and!; try done.
    intros number' run' paths' dir dir' Ep' Hd Hd' Heq.
    destruct (per_run_paths_Ok _ _ _ _ Ep') as (name' & Hc' & Hw' & _).
    unfold run_dir_of in Hw, Hw'. rewrite Hd in Hw. rewrite Hd' in Hw'.
    destruct (work_dir_base bases) as [b|]; [|done].
    rewrite Hw, Hw' in Heq. apply app_inv_head in Heq. 
    assert (Hseg : issue_segment number = issue_segment number') by congruence.
    split; [by apply issue_segment_inj|congruence].
  - unfold per_run_paths, validate_run_id_path_component, str_is_empty in Ep.
    destruct (bool_decide (run = "")) eqn:Ee; [left; by apply bool_decide_eq_true in Ee|].
    destruct (has_char "\" run); [by right; left|]. right; right. intros name Hc.
    by rewrite Hc in Ep.
Qed.

(** A trailing separator is no component, so an id that has one is accepted. *)
Example trailing_separator_accepted : validate_run_id_path_component "run-1/" = Ok tt.
Proof. reflexivity. Qed.

Definition sample_bases : DaemonPathBases := mkDaemonPathBases (Some "/tmp/work") None.

Example per_run_paths_sample :
  per_run_paths sample_bases 109 "run-aaa" = Ok (mkPerRunPaths (Some "/tmp/work/issue-109/run-aaa") None) /\
  is_ok (per_run_paths sample_bases 1 "../escape") = false /\
  is_ok (per_run_paths sample_bases 1 "/tmp/escape") = false /\
  is_ok (per_run_paths sample_bases 1 "foo\..\escape") = false.
Proof. vm_compute. done. Qed.
