(* ===== verification/Leases.v ===== *)
(** Issue leases ([persistence/leases.rs]) and the receipts of the remote claim
    ([persistence/claim_metadata.rs]): the durable records that keep two daemons
    from working on one issue, and fence out writers that lost their lease. *)
From S2P Require Import Prelude Effects Sql Status Schema.

(** ** Rows *)

(** The [i64 as u64] cast. *)
Definition as_u64 (z : Z) : Z := Z.modulo z (2 ^ 64).

(** [row_to_lease]: an unknown status reads as [Pending]. *)
Definition row_to_lease (r : LeaseRow) : IssueLease :=
  mkLease (lease_id r) (issue_repo r) (as_u64 (l_issue_number r)) (l_config_id r) (l_run_id r)
    (default LeaseStatus.Pending (res_ok (LeaseStatus.from_str (l_status r))))
    (claimed_at r) (l_updated_at r) (heartbeat_at r).

Definition issue_number_to_sql_i64 (n : Z) : Res SqlError Z :=
  if decide (n <= i64_max)%Z then Ok n else Err ToSqlConversionFailure.

(** The values a lease binds in an [INSERT], the issue number converted. *)
Definition lease_to_row (number : Z) (l : IssueLease) : LeaseRow :=
  mkLease (lease_id l) (issue_repo l) number (l_config_id l) (l_run_id l)
    (LeaseStatus.as_str (l_status l)) (claimed_at l) (l_updated_at l) (heartbeat_at l).

Definition lease_named (id : string) (r : LeaseRow) : bool := lease_id r =?s id.
Definition lease_on (repo : string) (number : Z) (r : LeaseRow) : bool :=
  (issue_repo r =?s repo) && bool_decide (l_issue_number r = number).
Definition lease_of_run (run : string) (r : LeaseRow) : bool := bool_decide (l_run_id r = Some run).

(** [status IN (...)] *)
Definition lease_status_in (l : list LeaseStatus.t) (r : LeaseRow) : bool :=
  existsb (fun s => l_status r =?s LeaseStatus.as_str s) l.

(** [status IN ('claimed', 'running')] *)
Definition lease_active (r : LeaseRow) : bool :=
  (l_status r =?s "claimed") || (l_status r =?s "running").

(** [ORDER BY issue_repo, issue_number] *)
Definition issue_order (a b : LeaseRow) : Prop :=
  String.ltb (issue_repo a) (issue_repo b) = true \/
  (issue_repo a = issue_repo b /\ (l_issue_number a <= l_issue_number b)%Z).
#[global] Instance issue_order_dec : RelDecision issue_order.
Proof. intros a b. unfold issue_order. apply _. Defined.

(** [ORDER BY updated_at, issue_repo, issue_number] *)
Definition update_order (a b : LeaseRow) : Prop :=
  (l_updated_at a < l_updated_at b)%Z \/ (l_updated_at a = l_updated_at b /\ issue_order a b).
#[global] Instance update_order_dec : RelDecision update_order.
Proof. intros a b. unfold update_order. apply _. Defined.

(** ** Statements *)

(** A lease id is the table's primary key. *)
Definition id_taken (id : string) (except : LeaseRow -> bool) (rows : list LeaseRow) : bool :=
  exists_where (fun r => lease_named id r && negb (except r)) rows.

(** [INSERT INTO issue_leases] *)
Definition insert_lease (row : LeaseRow) (d : Db) : Res SqlError (unit * Db) :=
  if exists_where (lease_named (lease_id row)) (issue_leases d)
     || exists_where (lease_on (issue_repo row) (l_issue_number row)) (issue_leases d)
  then Err ConstraintViolation
  else Ok (tt, d <| issue_leases := issue_leases d ++ [row] |>).

(** [DO UPDATE SET] of the claim: every column but the issue. *)
Definition reclaim_row (new old : LeaseRow) : LeaseRow :=
  mkLease (lease_id new) (issue_repo old) (l_issue_number old) (l_config_id new) (l_run_id new)
    (l_status new) (claimed_at new) (l_updated_at new) (heartbeat_at new).

(** [ON UPDATE CASCADE] of the receipts' foreign key. *)
Definition cascade_lease_id (old new : string) (receipts : list ClaimMetadataReceipt)
    : list ClaimMetadataReceipt :=
  update_where (fun m => cm_lease_id m =?s old) (fun m => m <| cm_lease_id := new |>) receipts.

(** The claiming upsert, with what its [RETURNING lease_id] gives. *)
Definition claim_statement (row : LeaseRow) (d : Db) : Res SqlError (option string * Db) :=
  let on_issue := lease_on (issue_repo row) (l_issue_number row) in
  if id_taken (lease_id row) on_issue (issue_leases d) then Err ConstraintViolation
  else
    match select_first on_issue (issue_leases d) with
    | None => Ok (Some (lease_id row), d <| issue_leases := issue_leases d ++ [row] |>)
    | Some old =>
        if lease_status_in LeaseStatus.RECLAIMABLE old then
          Ok (Some (lease_id row),
              d <| issue_leases := update_where on_issue (reclaim_row row) (issue_leases d) |>
                <| claim_metadata :=
                     cascade_lease_id (lease_id old) (lease_id row) (claim_metadata d) |>)
        else Ok (None, d)
    end.

(** [UPDATE issue_leases SET ... WHERE ...] with its count of changed rows. *)
Definition update_leases (p : LeaseRow -> bool) (f : LeaseRow -> LeaseRow) (d : Db)
    : Res SqlError (nat * Db) :=
  Ok (count_where p (issue_leases d), d <| issue_leases := update_where p f (issue_leases d) |>).

(** What a conditional transition writes: [run_id = COALESCE(?, run_id)]. *)
Definition cas_row (status : LeaseStatus.t) (new_run_id : option string) (now : Z) (r : LeaseRow)
    : LeaseRow :=
  r <| l_status := LeaseStatus.as_str status |> <| l_run_id := opt_or new_run_id (l_run_id r) |>
    <| l_updated_at := now |> <| heartbeat_at := now |>.

(** [WHERE lease_id = ? AND status IN (..)] and the owner guard. *)
Definition cas_guard (lease : string) (expected : list LeaseStatus.t) (owner : LeaseRow -> bool)
    (r : LeaseRow) : bool :=
  lease_named lease r && lease_status_in expected r && owner r.

(** The owner guard of [update_lease_status_conditional]: [None] disables it. *)
Definition owner_guard (expected_run_id : option string) (r : LeaseRow) : bool :=
  match expected_run_id with
  | Some run => lease_of_run run r
  | None => true
  end.

(** The exact owner guard: [None] means the column is [NULL]. *)
Definition exact_owner_guard (expected_run_id : option string) (r : LeaseRow) : bool :=
  match expected_run_id with
  | Some run => lease_of_run run r
  | None => bool_decide (l_run_id r = None)
  end.

Inductive ConditionalLeaseStatusOutcome :=
| Applied
| Rejected (current_status : LeaseStatus.t) (current_run_id : option string)
| Missing.

(** [lease-{repo}-{issue_number}-{nanos}]; a stamp outside [i64] nanoseconds
    prints as 0. *)
Definition claim_lease_id (repo : string) (number now : Z) : string :=
  let nanos := if decide (- i64_max - 1 <= now <= i64_max)%Z then now else 0%Z in
  "lease-" +:+ repo +:+ "-" +:+ pretty number +:+ "-" +:+ pretty nanos.

(** ** Operations *)

Section Operations.
Context `{Env}.

Definition create_lease (l : IssueLease) : M Db SqlError unit :=
  number ← lift_res (issue_number_to_sql_i64 (l_issue_number l));
  execute (insert_lease (lease_to_row number l)).

Definition try_claim (repo : string) (number : Z) (config : string) : M Db SqlError (option IssueLease) :=
  t ← now;
  let lease := mkLease (claim_lease_id repo number t) repo number config None
                 LeaseStatus.Claimed t t t in
  number_i64 ← lift_res (issue_number_to_sql_i64 number);
  claimed ← execute (claim_statement (lease_to_row number_i64 lease));
  mret (match claimed with
        | Some id => if id =?s lease_id lease then Some lease else None
        | None => None
        end).

Definition get_lease_for_issue (repo : string) (number : Z) : M Db SqlError (option IssueLease) :=
  number_i64 ← lift_res (issue_number_to_sql_i64 number);
  query (fun d => Ok (row_to_lease <$> select_first (lease_on repo number_i64) (issue_leases d))).

Definition get_leases_for_issues (repo : string) (numbers : list Z) : M Db SqlError (gmap Z IssueLease) :=
  match numbers with
  | [] => mret ∅
  | _ =>
      query (fun _ => Ok tt);;
      numbers_i64 ← lift_res (mapM (M := Res SqlError) issue_number_to_sql_i64 numbers);
      rows ← query (fun d => Ok (merge_sort issue_order
        (select_where (fun r => (issue_repo r =?s repo) && bool_decide (l_issue_number r ∈ numbers_i64))
           (issue_leases d))));
      mret (fold_left (fun m l => <[l_issue_number l := l]> m) (row_to_lease <$> rows) ∅)
  end.

(** [ORDER BY updated_at DESC LIMIT 1] *)
Definition get_lease_for_run (run : string) : M Db SqlError (option IssueLease) :=
  query (fun d =>
    Ok (row_to_lease <$> newest_by l_updated_at (select_where (lease_of_run run) (issue_leases d)))).

Definition update_lease_status (lease : string) (status : LeaseStatus.t) (run : option string)
    : M Db SqlError unit :=
  t ← now;
  changed ←
    match run with
    | Some rid =>
        execute (update_leases (lease_named lease)
          (fun r => r <| l_status := LeaseStatus.as_str status |> <| l_run_id := Some rid |>
                      <| l_updated_at := t |>))
    | None =>
        execute (update_leases (lease_named lease)
          (fun r => r <| l_status := LeaseStatus.as_str status |> <| l_updated_at := t |>))
    end;
  let _ := changed in mret tt.

(** The body both conditional updates share once the guard is chosen. *)
Definition conditional_update (lease : string) (status : LeaseStatus.t)
    (expected : list LeaseStatus.t) (new_run_id : option string) (owner : LeaseRow -> bool)
    : M Db SqlError bool :=
  if from_option str_is_empty false new_run_id then throw ToSqlConversionFailure
  else if bool_decide (expected = []) then mret false
  else
    t ← now;
    changed ← execute (update_leases (cas_guard lease expected owner) (cas_row status new_run_id t));
    mret (bool_decide (0 < changed)).

Definition update_lease_status_conditional (lease : string) (status : LeaseStatus.t)
    (expected : list LeaseStatus.t) (new_run_id expected_run_id : option string) : M Db SqlError bool :=
  conditional_update lease status expected new_run_id (owner_guard expected_run_id).

Definition update_lease_status_conditional_exact_owner (lease : string) (status : LeaseStatus.t)
    (expected : list LeaseStatus.t) (new_run_id expected_run_id : option string) : M Db SqlError bool :=
  conditional_update lease status expected new_run_id (exact_owner_guard expected_run_id).

(** [SELECT status, run_id], the status parsed strictly. *)
Definition current_owner (lease : string) (d : Db)
    : Res SqlError (option (LeaseStatus.t * option string)) :=
  match select_first (lease_named lease) (issue_leases d) with
  | None => Ok None
  | Some r =>
      match LeaseStatus.from_str (l_status r) with
      | Ok s => Ok (Some (s, l_run_id r))
      | Err _ => Err (FromSqlConversionFailure 0)
      end
  end.

Definition update_lease_status_conditional_outcome (lease : string) (status : LeaseStatus.t)
    (expected : list LeaseStatus.t) (new_run_id expected_run_id : option string)
    : M Db SqlError ConditionalLeaseStatusOutcome :=
  transaction id
    (applied ← update_lease_status_conditional lease status expected new_run_id expected_run_id;
     if (applied : bool) then mret Applied
     else
       current ← query (current_owner lease);
       mret (match current with
             | Some (current_status, current_run_id) => Rejected current_status current_run_id
             | None => Missing
             end)).

Definition touch_owned_running_lease_heartbeat (lease expected_run_id : string) : M Db SqlError bool :=
  t ← now;
  changed ← execute (update_leases
    (fun r => lease_named lease r && lease_of_run expected_run_id r
              && (l_status r =?s LeaseStatus.as_str LeaseStatus.Running))
    (fun r => r <| heartbeat_at := t |> <| l_updated_at := t |>));
  mret (bool_decide (changed = 1)).

Definition list_leases (order : LeaseRow -> LeaseRow -> Prop) `{!RelDecision order}
    (p : LeaseRow -> bool) : M Db SqlError (list IssueLease) :=
  query (fun d => Ok (row_to_lease <$> merge_sort order (select_where p (issue_leases d)))).

Definition list_all_leases : M Db SqlError (list IssueLease) := list_leases issue_order (fun _ => true).
Definition list_leases_by_config (config : string) : M Db SqlError (list IssueLease) :=
  list_leases issue_order (fun r => l_config_id r =?s config).
Definition list_leases_by_status (status : LeaseStatus.t) : M Db SqlError (list IssueLease) :=
  list_leases issue_order (fun r => l_status r =?s LeaseStatus.as_str status).
Definition list_ready_to_resume_leases (config : string) : M Db SqlError (list IssueLease) :=
  list_leases update_order
    (fun r => (l_config_id r =?s config) && (l_status r =?s "ready_to_resume")).

Definition count_active_leases : M Db SqlError nat :=
  query (fun d => Ok (count_where lease_active (issue_leases d))).
Definition count_active_leases_for_config (config : string) : M Db SqlError nat :=
  query (fun d =>
    Ok (count_where (fun r => (l_config_id r =?s config) && lease_active r) (issue_leases d))).
Definition count_active_leases_for_repository (repo : string) : M Db SqlError nat :=
  query (fun d =>
    Ok (count_where (fun r => (issue_repo r =?s repo) && lease_active r) (issue_leases d))).

(** Nanoseconds in a second, the unit of every stamp. *)
Definition NANOS : Z := 1000000000.

(** [now - Duration::seconds(timeout_secs as i64)] *)
Definition cutoff (now timeout_secs : Z) : Z :=
  let secs := if decide (timeout_secs <= i64_max)%Z then timeout_secs
              else (timeout_secs - 2 ^ 64)%Z in
  (now - secs * NANOS)%Z.

Definition stale_row (now : Z) (r : LeaseRow) : LeaseRow :=
  r <| l_status := "stale" |> <| l_updated_at := now |>.

(** The two [WHERE] clauses of the recovery. *)
Definition lease_overdue (limit : Z) (r : LeaseRow) : bool :=
  lease_active r && bool_decide (heartbeat_at r < limit)%Z.
Definition ready_overdue (limit : Z) (r : LeaseRow) : bool :=
  (l_status r =?s "ready_to_resume") && bool_decide (l_updated_at r < limit)%Z.

Definition mark_stale_leases (timeout_secs : Z) : M Db SqlError nat :=
  t ← now;
  execute (update_leases (lease_overdue (cutoff t timeout_secs)) (stale_row t)).

Definition mark_stale_ready_to_resume_leases (timeout_secs : Z) : M Db SqlError nat :=
  t ← now;
  execute (update_leases (ready_overdue (cutoff t timeout_secs)) (stale_row t)).

(** *** Receipts of the remote claim *)

(** The foreign key: a receipt needs its lease. *)
Definition upsert_receipt (receipt : ClaimMetadataReceipt) (d : Db) : Res SqlError (unit * Db) :=
  if exists_where (lease_named (cm_lease_id receipt)) (issue_leases d) then
    Ok (tt, d <| claim_metadata :=
                   upsert_by (fun a b => cm_lease_id a =?s cm_lease_id b) (fun a _ => a) receipt
                     (claim_metadata d) |>)
  else Err ConstraintViolation.

Definition upsert_claim_metadata (receipt : ClaimMetadataReceipt) : M Db SqlError unit :=
  execute (upsert_receipt receipt).

Definition get_claim_metadata (lease : string) : M Db SqlError (option ClaimMetadataReceipt) :=
  query (fun d => Ok (select_first (fun m => cm_lease_id m =?s lease) (claim_metadata d))).

Record PendingClaimCleanup := mkPendingClaimCleanup {
  pc_issue_repo : string;
  pc_issue_number : Z;
  pc_lease_status : LeaseStatus.t;
  pc_receipt : ClaimMetadataReceipt
}.

Definition cleanup_status (r : LeaseRow) : bool :=
  lease_status_in [LeaseStatus.Pending; LeaseStatus.Claimed; LeaseStatus.Completed;
                   LeaseStatus.Failed; LeaseStatus.Abandoned; LeaseStatus.Stale] r.

(** One row of the join, its number and status converted. *)
Definition pending_cleanup_row (r : LeaseRow) (m : ClaimMetadataReceipt)
    : Res SqlError PendingClaimCleanup :=
  if decide (l_issue_number r < 0)%Z then Err (FromSqlConversionFailure 1)
  else match LeaseStatus.from_str (l_status r) with
       | Ok s => Ok (mkPendingClaimCleanup (issue_repo r) (l_issue_number r) s m)
       | Err _ => Err (FromSqlConversionFailure 8)
       end.

(** The join, in the order of the issue numbers (one repository). *)
Definition pending_join (repo : string) (d : Db) : list (LeaseRow * ClaimMetadataReceipt) :=
  r ← merge_sort issue_order
        (select_where (fun r => (issue_repo r =?s repo) && cleanup_status r) (issue_leases d));
  (fun m => (r, m)) <$>
    select_where (fun m => (cm_lease_id m =?s lease_id r) && cleanup_pending m) (claim_metadata d).

Definition list_pending_claim_cleanups (repo : string) : M Db SqlError (list PendingClaimCleanup) :=
  query (fun d =>
    mapM (M := Res SqlError) (fun '(r, m) => pending_cleanup_row r m) (pending_join repo d)).
End Operations.

(** ** Invariant *)

Definition issue_of (r : LeaseRow) : string * Z := (issue_repo r, l_issue_number r).

(** The table's two uniqueness constraints. *)
Definition leases_ok (d : Db) : Prop :=
  NoDup (lease_id <$> issue_leases d) /\ NoDup (issue_of <$> issue_leases d).

#[global] Instance leases_ok_dec d : Decision (leases_ok d).
Proof. unfold leases_ok. apply _. Defined.

Lemma lease_on_issue repo number r : lease_on repo number r = true <-> issue_of r = (repo, number).
Proof.
  unfold lease_on, issue_of. rewrite andb_true_iff, !bool_decide_eq_true.
  split; [by intros [-> ->]|by intros [=]].
Qed.

Lemma lease_named_id id r : lease_named id r = true <-> lease_id r = id.
Proof. apply bool_decide_eq_true. Qed.

Lemma lease_of_run_id run r : lease_of_run run r = true <-> l_run_id r = Some run.
Proof. apply bool_decide_eq_true. Qed.

Lemma update_leases_ok p f d n d' :
  (forall r, p r = true -> lease_id (f r) = lease_id r /\ issue_of (f r) = issue_of r) ->
  leases_ok d -> update_leases p f d = Ok (n, d') -> leases_ok d'.
Proof.
  intros Hf [Hid Hissue] [= <- <-]. unfold leases_ok. cbn.
  split; rewrite update_where_column; try done; intros r Hr; by destruct (Hf r Hr).
Qed.

Lemma NoDup_fmap_snoc {A K} (key : A -> K) (l : list A) a :
  NoDup (key <$> l) -> (forall x, x ∈ l -> key x <> key a) -> NoDup (key <$> l ++ [a]).
Proof.
  intros Hnd Hne. rewrite fmap_app. apply NoDup_app. split; [done|].
  split; [|apply NoDup_singleton].
  intros k (x & -> & Hx)%list_elem_of_fmap Hk%list_elem_of_singleton. by apply (Hne x).
Qed.

Lemma insert_lease_ok row d d' : leases_ok d -> insert_lease row d = Ok (tt, d') -> leases_ok d'.
Proof.
  intros [Hid Hissue]. unfold insert_lease.
  destruct (_ || _) eqn:E; [done|]. intros [= <-].
  apply orb_false_iff in E as [E1 E2]. rewrite exists_where_false in E1, E2.
  split; apply NoDup_fmap_snoc; try done; intros r Hr Heq; [specialize (E1 r Hr)|specialize (E2 r Hr)].
  - by rewrite (proj2 (lease_named_id _ _) Heq) in E1.
  - by rewrite (proj2 (lease_on_issue _ _ _) Heq) in E2.
Qed.

(** Rewriting the one row of an issue gives it an id no other row has. *)
Lemma reclaim_ids_ok row rows :
  NoDup (lease_id <$> rows) -> NoDup (issue_of <$> rows) ->
  id_taken (lease_id row) (lease_on (issue_repo row) (l_issue_number row)) rows = false ->
  NoDup (lease_id <$>
    update_where (lease_on (issue_repo row) (l_issue_number row)) (reclaim_row row) rows).
Proof.
  set (p := lease_on _ _). unfold id_taken. rewrite exists_where_false.
  unfold update_where. induction rows as [|r rows IH]; csimpl; [done|].
  intros [Hr Hids]%NoDup_cons [Hi His]%NoDup_cons Hfree.
  assert (Hrest : forall r', r' ∈ rows -> lease_named (lease_id row) r' && negb (p r') = false).
  { intros r' ?. apply Hfree. elem_tac. }
  apply NoDup_cons. split; [|by apply IH].
  intros (x & Heq & (y & -> & Hy)%list_elem_of_fmap)%list_elem_of_fmap.
  destruct (p r) eqn:Er, (p y) eqn:Ey; cbn in Heq.
  - destruct Hi. apply lease_on_issue in Er, Ey. rewrite Er, <- Ey. apply list_elem_of_fmap.
    by exists y.
  - specialize (Hrest y Hy). rewrite Ey, (proj2 (lease_named_id _ _) (eq_sym Heq)) in Hrest. done.
  - specialize (Hfree r). rewrite Er, (proj2 (lease_named_id _ _) Heq) in Hfree.
    by discriminate Hfree; elem_tac.
  - destruct Hr. rewrite Heq. apply list_elem_of_fmap. by exists y.
Qed.

Lemma claim_statement_ok row d r d' :
  leases_ok d -> claim_statement row d = Ok (r, d') -> leases_ok d'.
Proof.
  intros [Hid Hissue]. unfold claim_statement.
  destruct (id_taken _ _ _) eqn:Et; [done|].
  destruct (select_first _ _) as [old|] eqn:Es.
  - destruct (lease_status_in _ old); intros [= <- <-]; [|done].
    split; cbn; [by apply reclaim_ids_ok|]. by rewrite update_where_column.
  - intros [= <- <-]. rewrite select_first_None in Es.
    unfold id_taken in Et. rewrite exists_where_false in Et.
    split; apply NoDup_fmap_snoc; try done; intros x Hx Heq.
    + specialize (Et x Hx). rewrite Es, (proj2 (lease_named_id _ _) Heq) in Et by done. done.
    + specialize (Es x Hx). by rewrite (proj2 (lease_on_issue _ _ _) Heq) in Es.
Qed.

Section Invariants.
Context `{Env}.

Lemma keeps_update_leases p f :
  (forall r, p r = true -> lease_id (f r) = lease_id r /\ issue_of (f r) = issue_of r) ->
  keeps leases_ok (execute (update_leases p f)).
Proof. intros Hf. apply keeps_execute. intros d n d'. by apply update_leases_ok. Qed.

Lemma keeps_create_lease l : keeps leases_ok (create_lease l).
Proof.
  unfold create_lease. keeps_auto. apply keeps_execute. intros d [] d'. apply insert_lease_ok.
Qed.

Lemma keeps_try_claim repo number config : keeps leases_ok (try_claim repo number config).
Proof.
  unfold try_claim. keeps_auto. apply keeps_execute. intros d r d'. apply claim_statement_ok.
Qed.

Lemma keeps_update_lease_status lease status run :
  keeps leases_ok (update_lease_status lease status run).
Proof. unfold update_lease_status. keeps_auto; by apply keeps_update_leases. Qed.

Lemma keeps_conditional_update lease status expected new owner :
  keeps leases_ok (conditional_update lease status expected new owner).
Proof. unfold conditional_update. keeps_auto; by apply keeps_update_leases. Qed.

Lemma keeps_conditional_outcome lease status expected new run :
  keeps leases_ok (update_lease_status_conditional_outcome lease status expected new run).
Proof.
  unfold update_lease_status_conditional_outcome. keeps_auto.
  apply keeps_conditional_update.
Qed.

Lemma keeps_touch lease run : keeps leases_ok (touch_owned_running_lease_heartbeat lease run).
Proof. unfold touch_owned_running_lease_heartbeat. keeps_auto. by apply keeps_update_leases. Qed.

Lemma keeps_mark_stale secs : keeps leases_ok (mark_stale_leases secs).
Proof. unfold mark_stale_leases. keeps_auto. by apply keeps_update_leases. Qed.

Lemma keeps_mark_stale_ready secs : keeps leases_ok (mark_stale_ready_to_resume_leases secs).
Proof. unfold mark_stale_ready_to_resume_leases. keeps_auto. by apply keeps_update_leases. Qed.
End Invariants.

#[export] Hint Resolve keeps_create_lease keeps_try_claim keeps_update_lease_status
  keeps_conditional_update keeps_conditional_outcome keeps_touch keeps_mark_stale
  keeps_mark_stale_ready : eff.

(** One operation of any daemon, launcher or poller on the lease table, with
    whatever it returned. *)
Inductive lease_step `{Env} : World Db -> World Db -> Prop :=
| step_create l w : lease_step w (snd (create_lease l w))
| step_claim repo number config w : lease_step w (snd (try_claim repo number config w))
| step_update lease status run w : lease_step w (snd (update_lease_status lease status run w))
| step_conditional lease status expected new run w :
    lease_step w (snd (update_lease_status_conditional lease status expected new run w))
| step_exact_owner lease status expected new run w :
    lease_step w (snd (update_lease_status_conditional_exact_owner lease status expected new run w))
| step_outcome lease status expected new run w :
    lease_step w (snd (update_lease_status_conditional_outcome lease status expected new run w))
| step_touch lease run w : lease_step w (snd (touch_owned_running_lease_heartbeat lease run w))
| step_stale secs w : lease_step w (snd (mark_stale_leases secs w))
| step_stale_ready secs w : lease_step w (snd (mark_stale_ready_to_resume_leases secs w))
| step_receipt receipt w : lease_step w (snd (upsert_claim_metadata receipt w)).

Lemma lease_step_ok `{Env} w w' : lease_step w w' -> leases_ok (w_db w) -> leases_ok (w_db w').
Proof.
  assert (Hreceipt : forall receipt, keeps leases_ok (upsert_claim_metadata receipt)).
  { intros receipt. apply keeps_execute. intros d [] d' Hok. unfold upsert_receipt.
    by destruct (exists_where _ _); intros [= <-]. }
  intros [] Hok;
    [by apply keeps_create_lease|by apply keeps_try_claim|by apply keeps_update_lease_status
    |by apply keeps_conditional_update|by apply keeps_conditional_update
    |by apply keeps_conditional_outcome|by apply keeps_touch|by apply keeps_mark_stale
    |by apply keeps_mark_stale_ready|by apply Hreceipt].
Qed.

Lemma reachable_leases_ok `{Env} w w' :
  rtc lease_step w w' -> leases_ok (w_db w) -> leases_ok (w_db w').
Proof. induction 1; eauto using lease_step_ok. Qed.

(** ** What the operations do *)

(** The row of an issue, the one of a lease id. *)
Definition issue_row (repo : string) (number : Z) (d : Db) : option LeaseRow :=
  select_first (lease_on repo number) (issue_leases d).
Definition lease_row (lease : string) (d : Db) : option LeaseRow :=
  select_first (lease_named lease) (issue_leases d).

(** The conflict guard of the claim and the discovery's eligibility check read
    the same statuses, unknown text included. *)
Lemma reclaimable_not_blocking r :
  lease_status_in LeaseStatus.RECLAIMABLE r =
  negb (LeaseStatus.blocks_duplicate_work (l_status (row_to_lease r))).
Proof.
  unfold lease_status_in, LeaseStatus.blocks_duplicate_work, LeaseStatus.reclaimable. cbn.
  rewrite negb_involutive.
  destruct (LeaseStatus.from_str (l_status r)) as [s|e] eqn:Ep.
  - pose proof (to_from_text (A := LeaseStatus.t) _ _ Ep) as Ht. cbn in Ht.
    rewrite <- Ht. by destruct s.
  - unfold LeaseStatus.from_str in Ep. cbn.
    repeat (case_bool_decide; [discriminate Ep|]).
    by rewrite !bool_decide_eq_false_2.
Qed.

Lemma reclaim_row_on_issue row old :
  lease_on (issue_repo row) (l_issue_number row) old = true -> reclaim_row row old = row.
Proof.
  intros [= Hr Hn]%lease_on_issue. unfold reclaim_row. rewrite Hr, Hn. by destruct row.
Qed.

(** What a successful or refused claiming upsert does to the table. *)
Lemma claim_statement_spec row d res d' :
  claim_statement row d = Ok (res, d') ->
  let on_issue := lease_on (issue_repo row) (l_issue_number row) in
  match select_first on_issue (issue_leases d) with
  | Some old =>
      if lease_status_in LeaseStatus.RECLAIMABLE old
      then res = Some (lease_id row) /\ select_first on_issue (issue_leases d') = Some row
      else res = None /\ d' = d
  | None => res = Some (lease_id row) /\ select_first on_issue (issue_leases d') = Some row
  end /\
  forall repo' number', (repo', number') <> issue_of row ->
    issue_row repo' number' d' = issue_row repo' number' d.
Proof.
  intros Hc on_issue. unfold claim_statement in Hc. fold on_issue in Hc.
  assert (Hself : on_issue row = true) by by apply lease_on_issue.
  assert (Hother : forall repo' number' r, (repo', number') <> issue_of row ->
            on_issue r = true -> lease_on repo' number' r = false).
  { intros repo' number' r Hne Hr. apply lease_on_issue in Hr.
    destruct (lease_on repo' number' r) eqn:E; [|done]. apply lease_on_issue in E.
    destruct Hne. rewrite <- E, Hr. done. }
  destruct (id_taken _ _ _); [done|].
  destruct (select_first on_issue _) as [old|] eqn:Es.
  - apply select_first_Some in Es as Hold. destruct Hold as [_ Hold].
    destruct (lease_status_in _ old) eqn:Er; injection Hc as <- <-; [|done].
    split; [split; [done|]|].
    + cbn. rewrite select_first_update, Es; cbn; [by rewrite reclaim_row_on_issue|].
      intros r Hr. by rewrite reclaim_row_on_issue.
    + intros repo' number' Hne. unfold issue_row. cbn. apply select_first_update_other.
      intros r Hr. rewrite reclaim_row_on_issue by done. split; by eapply Hother.
  - injection Hc as <- <-. split; [split; [done|]|].
    + cbn. rewrite select_first_app, Es. unfold select_first. cbn. by rewrite Hself.
    + intros repo' number' Hne. unfold issue_row. cbn. rewrite select_first_app.
      unfold select_first. cbn. rewrite (Hother _ _ _ Hne Hself).
      by destruct (List.find (lease_on repo' number') _).
Qed.

Lemma lease_named_same id (r r' : LeaseRow) :
  lease_named id r = true -> lease_named id r' = true -> lease_id r = lease_id r'.
Proof. by intros ->%lease_named_id ->%lease_named_id. Qed.

Lemma cas_guard_named lease expected owner status new t r :
  cas_guard lease expected owner r = true ->
  lease_named lease r = true /\ lease_named lease (cas_row status new t r) = true.
Proof. by intros [[? _]%andb_true_iff _]%andb_true_iff. Qed.

(** A conditional update changes the one lease whose status and owner are the
    expected ones, or nothing. *)
Lemma conditional_update_wp `{Env} lease status expected new owner w :
  NoDup (lease_id <$> issue_leases (w_db w)) ->
  wp (conditional_update lease status expected new owner)
     (fun r w' =>
        match r with
        | Ok true =>
            exists old t, lease_row lease (w_db w) = Some old /\
              lease_status_in expected old = true /\ owner old = true /\
              lease_row lease (w_db w') = Some (cas_row status new t old) /\
              w_db w' = (w_db w) <| issue_leases :=
                update_where (cas_guard lease expected owner) (cas_row status new t)
                  (issue_leases (w_db w)) |>
        | Ok false =>
            w_db w' = w_db w /\
            forall old, lease_row lease (w_db w) = Some old ->
              lease_status_in expected old && owner old = false
        | Err e => w_db w' = w_db w /\
            (new = Some "" /\ e = ToSqlConversionFailure \/ e = SqliteFailure)
        end) w.
Proof.
  intros Hid. unfold conditional_update. unfold str_is_empty.
  destruct (from_option _ _ new) eqn:En; wp_run.
  { destruct new; [|done]. apply bool_decide_eq_true in En as ->. by eauto. }
  case_bool_decide as He; wp_run.
  { subst. split; [done|]. intros. cbn. done. }
  - db_eqs. eauto.
  - unfold update_leases in *. done.
  - db_eqs. match goal with H : update_leases _ _ _ = _ |- _ => injection H as <- <- end.
    set (t := env_clock _).
    pose proof (guarded_update (R := LeaseRow) lease_id (lease_named lease) (cas_guard lease expected owner)
                  (cas_row status new t) _ Hid (lease_named_same lease)
                  (cas_guard_named lease expected owner status new t)) as Hg.
    destruct (bool_decide (0 < _)); destruct Hg as (Hg1 & Hg2).
    + destruct Hg2 as (Hold & Hguard & Hnew). exists Hg1, t.
      apply andb_true_iff in Hguard as [[_ ?]%andb_true_iff ?]. by split_and!.
    + rewrite Hg1. split; [by destruct (w_db w)|]. intros old Hrow.
      apply select_first_Some in Hrow as Hn. destruct Hn as [_ Hn].
      specialize (Hg2 old Hrow). unfold cas_guard in Hg2. by rewrite Hn in Hg2.
Qed.

(** A failed or refused claim leaves everything as it was; a won claim installs
    exactly the lease it returns. *)
Lemma try_claim_wp `{Env} repo number config w :
  wp (try_claim repo number config)
     (fun r w' =>
        match r with
        | Ok (Some l) =>
            (number <= i64_max)%Z /\
            l_status l = LeaseStatus.Claimed /\ l_run_id l = None /\ l_config_id l = config /\
            lease_id l = claim_lease_id repo number (env_clock (w_clock w)) /\
            issue_row repo number (w_db w') = Some (lease_to_row number l) /\
            (forall old, issue_row repo number (w_db w) = Some old ->
               LeaseStatus.blocks_duplicate_work (l_status (row_to_lease old)) = false) /\
            forall repo' number', (repo', number') <> (repo, number) ->
              issue_row repo' number' (w_db w') = issue_row repo' number' (w_db w)
        | Ok None =>
            w_db w' = w_db w /\
            exists old, issue_row repo number (w_db w) = Some old /\
              LeaseStatus.blocks_duplicate_work (l_status (row_to_lease old)) = true
        | Err e =>
            w_db w' = w_db w /\
            (e = ToSqlConversionFailure <-> (i64_max < number)%Z)
        end) w.
Proof.
  unfold try_claim. unfold issue_number_to_sql_i64. wp_run.
  case_decide as Hn; wp_run; [db_eqs; split; [done|split; [intros [=]|lia]]|..].
  3:{ db_eqs. split; [done|split; [lia|done]]. }
  { db_eqs. split; [done|]. split; [|lia]. intros ->.
    unfold claim_statement in *. repeat case_match; done. }
  set (l := mkLease _ _ _ _ _ _ _ _ _) in *.
  db_eqs. match goal with H : claim_statement _ _ = _ |- _ => apply claim_statement_spec in H end.
  cbn -[select_first lease_on lease_status_in] in *.
  match goal with H : _ /\ _ |- _ => destruct H as [Hc Hother] end.
  unfold issue_row. destruct (select_first (lease_on repo number) _) as [old|] eqn:Es.
  - rewrite reclaimable_not_blocking in Hc.
    destruct (LeaseStatus.blocks_duplicate_work _) eqn:Eb; cbn in Hc; destruct Hc as [-> Hc].
    + subst. eauto.
    + rewrite bool_decide_eq_true_2 by done. split_and!; try done. by intros ? [= <-].
  - destruct Hc as [-> Hc]. rewrite bool_decide_eq_true_2 by done. by split_and!.
Qed.

(** The classified transition, with the very update that was applied. *)
Lemma conditional_outcome_wp `{Env} lease status expected new_run_id expected_run_id w :
  NoDup (lease_id <$> issue_leases (w_db w)) ->
  let may old := lease_status_in expected old && owner_guard expected_run_id old in
  wp (update_lease_status_conditional_outcome lease status expected new_run_id expected_run_id)
     (fun r w' =>
        match r with
        | Ok Applied =>
            exists old t, lease_row lease (w_db w) = Some old /\ may old = true /\
              lease_row lease (w_db w') = Some (cas_row status new_run_id t old) /\
              w_db w' = (w_db w) <| issue_leases :=
                update_where (cas_guard lease expected (owner_guard expected_run_id))
                  (cas_row status new_run_id t) (issue_leases (w_db w)) |>
        | Ok (Rejected s run) =>
            w_db w' = w_db w /\
            exists old, lease_row lease (w_db w) = Some old /\ may old = false /\
              l_status old = LeaseStatus.as_str s /\ l_run_id old = run
        | Ok Missing => w_db w' = w_db w /\ lease_row lease (w_db w) = None
        | Err _ => w_db w' = w_db w
        end) w.
Proof.
  intros Hok may. unfold update_lease_status_conditional_outcome.
  apply wp_transaction; [done|]. intros w1 Hw1. apply wp_bind.
  eapply wp_consequence.
  { apply conditional_update_wp. by rewrite Hw1. }
  rewrite Hw1. intros [[]|e] w2; [..|done].
  - intros (old & t & Hold & Hs & Ho & Hnew & Hdb). apply wp_ret. intros w3 Hw3.
    exists old, t. rewrite Hw3. split_and!; try done. unfold may. by rewrite Hs, Ho.
  - intros [Hdb Hno]. wp_run; [done|]. unfold current_owner.
    assert (Hw' : w_db w' = w_db w) by by db_eqs.
    rewrite Hdb. unfold lease_row in *. destruct (select_first _ _) as [old|] eqn:E; wp_run.
    + destruct (LeaseStatus.from_str (l_status old)) as [s|] eqn:Ep; wp_run; [|done].
      pose proof (to_from_text (A := LeaseStatus.t) _ _ Ep) as Ht.
      db_eqs. split; [done|]. exists old. split_and!; try done. by apply Hno.
    + by db_eqs.
Qed.

(** Leases of other ids are out of reach of a conditional update. *)
Lemma cas_other lease expected owner status new t other rows :
  other <> lease ->
  select_first (lease_named other)
    (update_where (cas_guard lease expected owner) (cas_row status new t) rows) =
  select_first (lease_named other) rows.
Proof.
  intros Hne. apply select_first_update_other. intros r [[Hr _]%andb_true_iff _]%andb_true_iff.
  apply lease_named_id in Hr. split; apply bool_decide_eq_false; cbn; congruence.
Qed.

(** What other daemons do to an issue they do not own: claims, heartbeats of
    whatever they think they own, receipts. *)
Inductive claim_traffic `{Env} : World Db -> World Db -> Prop :=
| traffic_claim repo number config w : claim_traffic w (snd (try_claim repo number config w))
| traffic_touch lease run w : claim_traffic w (snd (touch_owned_running_lease_heartbeat lease run w))
| traffic_receipt receipt w : claim_traffic w (snd (upsert_claim_metadata receipt w)).

(** The issue is held by that lease, in that status, for that run. *)
Definition held (repo : string) (number : Z) (lease status : string) (run : option string) (d : Db)
    : Prop :=
  exists r, issue_row repo number d = Some r /\ lease_id r = lease /\ l_status r = status /\
    l_run_id r = run.

Definition blocking_text (status : string) : Prop :=
  lease_status_in LeaseStatus.RECLAIMABLE
    (mkLease "" "" 0 "" None status 0 0 0) = false.

Lemma blocking_text_blocks r :
  blocking_text (l_status r) ->
  LeaseStatus.blocks_duplicate_work (l_status (row_to_lease r)) = true.
Proof.
  intros Hb. apply negb_false_iff. rewrite <- reclaimable_not_blocking. exact Hb.
Qed.

Lemma held_claim `{Env} repo number lease status run repo' number' config w :
  blocking_text status -> held repo number lease status run (w_db w) ->
  held repo number lease status run (w_db (snd (try_claim repo' number' config w))).
Proof.
  intros Hb (r & Hr & Hid & Hst & Hrun). pose proof (try_claim_wp repo' number' config w) as Hw.
  unfold wp in Hw. destruct (try_claim repo' number' config w) as [[[l|]|e] w1]; cbn [fst snd] in *.
  - destruct Hw as (_ & _ & _ & _ & _ & _ & Hold & Hother).
    destruct (decide ((repo, number) = (repo', number'))) as [[= <- <-]|Hne].
    + specialize (Hold r Hr). subst status. pose proof (blocking_text_blocks r Hb). congruence.
    + exists r. by rewrite Hother.
  - destruct Hw as [-> _]. by exists r.
  - destruct Hw as [-> _]. by exists r.
Qed.

Lemma held_touch `{Env} repo number lease status run lease' run' w :
  held repo number lease status run (w_db w) ->
  held repo number lease status run
    (w_db (snd (touch_owned_running_lease_heartbeat lease' run' w))).
Proof.
  revert w. change (keeps (held repo number lease status run)
                      (touch_owned_running_lease_heartbeat lease' run')).
  unfold touch_owned_running_lease_heartbeat. keeps_auto. apply keeps_execute.
  intros d n d' (r & Hr & Hid & Hst & Hrun) [= <- <-]. unfold held, issue_row in *. cbn.
  rewrite select_first_update_key, Hr by done. cbn. eexists. split; [done|]. by destruct (_ && _).
Qed.

Lemma held_traffic `{Env} repo number lease status run w w' :
  blocking_text status -> claim_traffic w w' -> held repo number lease status run (w_db w) ->
  held repo number lease status run (w_db w').
Proof.
  intros Hb [] Hheld; [by apply held_claim|by apply held_touch|].
  revert w0 Hheld. change (keeps (held repo number lease status run) (upsert_claim_metadata receipt)).
  apply keeps_execute. intros d [] d' Hh. unfold upsert_receipt.
  by destruct (exists_where _ _); intros [= <-].
Qed.

Lemma held_traffic_rtc `{Env} repo number lease status run w w' :
  blocking_text status -> rtc claim_traffic w w' -> held repo number lease status run (w_db w) ->
  held repo number lease status run (w_db w').
Proof. intros Hb. induction 1; eauto using held_traffic. Qed.

(** ** Main theorems *)

Section Claims.
Context `{Env}.

(** C20: the duplicate-prevention primitive.  In every state any sequence of
    lease operations can reach from the empty database, whatever fails and
    whatever the clock says, an issue has at most one lease and a lease id
    names at most one lease. *)
Theorem reachable_leases_unique (w : World Db) (Hreach : rtc lease_step (start empty_db) w) :
  forall r r', r ∈ issue_leases (w_db w) -> r' ∈ issue_leases (w_db w) ->
    issue_of r = issue_of r' \/ lease_id r = lease_id r' -> r = r'.
Proof.
  assert (Hok : leases_ok (w_db w)).
  { eapply reachable_leases_ok; [exact Hreach|]. split; constructor. }
  destruct Hok as [Hid Hissue]. intros r r' Hr Hr' Heq.
  apply list_elem_of_lookup in Hr as [i Hi], Hr' as [j Hj].
  assert (i = j) as ->; [|congruence].
  assert (Hunique : forall K (key : LeaseRow -> K), NoDup (key <$> issue_leases (w_db w)) ->
            key r = key r' -> i = j).
  { intros K key Hnd Hk. apply (NoDup_lookup _ i j (key r) Hnd); rewrite list_lookup_fmap.
    - exact (f_equal (fmap key) Hi).
    - rewrite Hk. exact (f_equal (fmap key) Hj). }
  destruct Heq; eauto.
Qed.

(** C11: the claim, on every branch and under every fault.  It wins exactly
    when the discovery's own eligibility check would pass (no lease, or one
    that does not block duplicate work): then the issue's row is the returned
    lease, claimed and without a run, and every other issue's row is as
    before.  Refused or failed it changes nothing; the overflow error is
    reported exactly for numbers SQLite cannot store. *)
Theorem try_claim_spec (repo : string) (number : Z) (config : string) (w : World Db) :
  let eligible := match issue_row repo number (w_db w) with
                  | Some old => negb (LeaseStatus.blocks_duplicate_work (l_status (row_to_lease old)))
                  | None => true
                  end in
  wp (try_claim repo number config)
     (fun r w' =>
        match r with
        | Ok (Some l) =>
            eligible = true /\ l_status l = LeaseStatus.Claimed /\ l_run_id l = None /\
            l_config_id l = config /\
            issue_row repo number (w_db w') = Some (lease_to_row number l) /\
            forall repo' number', (repo', number') <> (repo, number) ->
              issue_row repo' number' (w_db w') = issue_row repo' number' (w_db w)
        | Ok None => eligible = false /\ w_db w' = w_db w
        | Err e => w_db w' = w_db w /\ (e = ToSqlConversionFailure <-> (i64_max < number)%Z)
        end) w.
Proof.
  intros eligible. eapply wp_consequence; [apply try_claim_wp|].
  intros [[l|]|e] w'; [..|done].
  - intros (_ & ? & ? & ? & _ & ? & Hold & ?). split_and!; try done.
    unfold eligible. destruct (issue_row _ _ _); [|done]. by rewrite Hold.
  - intros (-> & old & Hold & Hb). unfold eligible. by rewrite Hold, Hb.
Qed.

(** No other daemon can take a held issue.  While an issue's lease is in
    a status that blocks duplicate work, any sequence of claims (of any
    issue, by any config), heartbeats and receipts leaves lease id, status
    and owner as they are, and one more claim of the issue does not win. *)
Theorem held_issue_not_claimed (repo : string) (number : Z) (config lease status : string)
    (run : option string) (w w' : World Db)
    (Hheld : held repo number lease status run (w_db w))
    (Hblocking : blocking_text status)
    (Htraffic : rtc claim_traffic w w') :
  held repo number lease status run (w_db w') /\
  wp (try_claim repo number config)
     (fun r w'' => (r = Ok None \/ is_ok r = false) /\ w_db w'' = w_db w') w'.
Proof.
  pose proof (held_traffic_rtc _ _ _ _ _ _ _ Hblocking Htraffic Hheld) as Hheld'.
  split; [done|]. destruct Hheld' as (r & Hr & _ & Hst & _).
  eapply wp_consequence; [apply try_claim_wp|]. intros [[l|]|e] w''.
  - intros (_ & _ & _ & _ & _ & _ & Hold & _). specialize (Hold r Hr).
    subst status. pose proof (blocking_text_blocks r Hblocking). congruence.
  - intros [? _]. auto.
  - intros [? _]. auto.
Qed.

(** Fencing of the conditional update.  It reports success exactly when
    the lease's status was expected and, when an owner is named, the lease was
    still that run's; then only that lease changed, and only in status, owner
    (kept unless a new one is given) and its two stamps.  Otherwise the table
    is untouched.  An empty new owner is an error before any statement. *)
Theorem conditional_update_fences (lease : string) (status : LeaseStatus.t)
    (expected : list LeaseStatus.t) (new_run_id expected_run_id : option string) (w : World Db)
    (Hok : leases_ok (w_db w)) :
  let may old := lease_status_in expected old && owner_guard expected_run_id old in
  wp (update_lease_status_conditional lease status expected new_run_id expected_run_id)
     (fun r w' =>
        match r with
        | Ok true =>
            exists old new, lease_row lease (w_db w) = Some old /\ may old = true /\
              lease_row lease (w_db w') = Some new /\
              l_status new = LeaseStatus.as_str status /\
              l_run_id new = opt_or new_run_id (l_run_id old) /\ issue_of new = issue_of old /\
              (forall other, other <> lease ->
                 lease_row other (w_db w') = lease_row other (w_db w))
        | Ok false => w_db w' = w_db w /\ from_option may false (lease_row lease (w_db w)) = false
        | Err e => w_db w' = w_db w /\ (new_run_id = Some "" \/ e = SqliteFailure)
        end) w.
Proof.
  intros may. eapply wp_consequence; [apply conditional_update_wp; apply Hok|].
  intros [[]|e] w'.
  - intros (old & t & Hold & Hs & Ho & Hnew & Hdb). exists old, (cas_row status new_run_id t old).
    split_and!; try done; [by unfold may; rewrite Hs, Ho|].
    intros other Hne. unfold lease_row. rewrite Hdb. cbn. apply select_first_update_other.
    intros r Hg. unfold cas_guard in Hg. apply andb_true_iff in Hg as [[Hn _]%andb_true_iff _].
    apply lease_named_id in Hn. split; apply bool_decide_eq_false; cbn; congruence.
  - intros [Hdb Hno]. split; [done|].
    destruct (lease_row lease (w_db w)) as [old|] eqn:E; [|done]. by apply Hno.
  - intros [Hdb [[? _]|?]]; auto.
Qed.

(** An exact-owner update that expects no owner changes only a lease
    whose owner column is NULL: a lease some run owns is refused, untouched. *)
Theorem exact_owner_none_means_null (lease : string) (status : LeaseStatus.t)
    (expected : list LeaseStatus.t) (new_run_id : option string) (w : World Db)
    (Hok : leases_ok (w_db w)) (Hnew : new_run_id <> Some "")
    (Howned : exists old run, lease_row lease (w_db w) = Some old /\ l_run_id old = Some run) :
  wp (update_lease_status_conditional_exact_owner lease status expected new_run_id None)
     (fun r w' => w_db w' = w_db w /\ (r = Ok false \/ r = Err SqliteFailure)) w.
Proof.
  destruct Howned as (old & run & Hold & Hrun).
  eapply wp_consequence; [apply conditional_update_wp; apply Hok|].
  intros [[]|e] w'.
  - intros (old' & t & Hold' & _ & Ho & _). rewrite Hold in Hold'. injection Hold' as <-.
    cbn in Ho. rewrite bool_decide_eq_true, Hrun in Ho. done.
  - intros [? _]. auto.
  - intros [? [[? _]| ->]]; [done|auto].
Qed.
(** The classified transition tells the truth.  [Applied] means the lease
    was in an expected status of the expected owner and now has the new one;
    [Rejected] reports the very status and owner that refused it; [Missing]
    means no such lease; and every answer but [Applied], any error included,
    comes with an unchanged database. *)
Theorem conditional_outcome_exact (lease : string) (status : LeaseStatus.t)
    (expected : list LeaseStatus.t) (new_run_id expected_run_id : option string) (w : World Db)
    (Hok : leases_ok (w_db w)) :
  let may old := lease_status_in expected old && owner_guard expected_run_id old in
  wp (update_lease_status_conditional_outcome lease status expected new_run_id expected_run_id)
     (fun r w' =>
        match r with
        | Ok Applied =>
            exists old new, lease_row lease (w_db w) = Some old /\ may old = true /\
              lease_row lease (w_db w') = Some new /\
              l_status new = LeaseStatus.as_str status /\
              l_run_id new = opt_or new_run_id (l_run_id old)
        | Ok (Rejected s run) =>
            w_db w' = w_db w /\
            exists old, lease_row lease (w_db w) = Some old /\ may old = false /\
              l_status old = LeaseStatus.as_str s /\ l_run_id old = run
        | Ok Missing => w_db w' = w_db w /\ lease_row lease (w_db w) = None
        | Err _ => w_db w' = w_db w
        end) w.
Proof.
  intros may. eapply wp_consequence; [apply conditional_outcome_wp, Hok|].
  intros [[|status' run|]|e] w'; try done.
  intros (old & t & Hold & Hmay & Hnew & _). by exists old, (cas_row status new_run_id t old).
Qed.

(** Start-up recovery.  Afterwards no claimed or running lease has a
    heartbeat older than the timeout; every lease is either exactly as it was
    or was such an overdue lease and is now stale (so its issue can be claimed
    again), its owner and heartbeat kept; a failed statement changes nothing. *)
Theorem mark_stale_leases_spec (timeout_secs : Z) (w : World Db) :
  let limit := cutoff (env_clock (w_clock w)) timeout_secs in
  wp (mark_stale_leases timeout_secs)
     (fun r w' =>
        match r with
        | Ok n =>
            (forall l, l ∈ issue_leases (w_db w') -> lease_active l = true ->
               (limit <= heartbeat_at l)%Z) /\
            (forall lease, lease_row lease (w_db w') = lease_row lease (w_db w) \/
               exists old new, lease_row lease (w_db w) = Some old /\ lease_active old = true /\
                 (heartbeat_at old < limit)%Z /\ lease_row lease (w_db w') = Some new /\
                 LeaseStatus.blocks_duplicate_work (l_status (row_to_lease new)) = false /\
                 l_run_id new = l_run_id old /\ heartbeat_at new = heartbeat_at old) /\
            (n = 0 -> w_db w' = w_db w)
        | Err e => e = SqliteFailure /\ w_db w' = w_db w
        end) w.
Proof.
  intros limit. unfold mark_stale_leases. wp_run; db_eqs; [done|discriminate|].
  match goal with H : update_leases _ _ _ = _ |- _ => injection H as <- <- end.
  fold limit. set (p := lease_overdue limit). split_and!; cbn.
  - intros l (l0 & Hl0 & ->)%elem_of_update_where. destruct (p l0) eqn:Ep; [done|].
    intros Ha. unfold p, lease_overdue in Ep. rewrite Ha in Ep. cbn in Ep.
    apply bool_decide_eq_false in Ep. lia.
  - intros lease. unfold lease_row. cbn. rewrite select_first_update_key by done.
    destruct (select_first _ _) as [old|]; cbn; [|by left].
    destruct (p old) eqn:Ep; [|by left]. right. exists old. eexists.
    apply andb_true_iff in Ep as [? ?%bool_decide_eq_true]. by split_and!.
  - intros Hn. rewrite update_where_none by by apply count_where_0. by destruct (w_db w).
Qed.
End Claims.

(** ** Witnesses *)

#[local] Existing Instance calm.

Definition sample_lease (id : string) (number : Z) (status : string) (run : option string)
    (stamp : Z) : LeaseRow := mkLease id "o/r" number "cfg" run status stamp stamp stamp.
Definition sample_leases : Db :=
  empty_db <| issue_leases :=
    [sample_lease "l1" 1 "running" (Some "run-1") 7; sample_lease "l2" 2 "failed" None 8] |>.

Lemma reachable_leases_unique_witness :
  let w1 := snd (try_claim "o/r" 1 "a" (start empty_db)) in
  let w2 := snd (try_claim "o/r" 1 "b" w1) in
  let w3 := snd (try_claim "o/r" 2 "b" w2) in
  length (issue_leases (w_db w3)) = 2 /\
  forall r r', r ∈ issue_leases (w_db w3) -> r' ∈ issue_leases (w_db w3) ->
    issue_of r = issue_of r' \/ lease_id r = lease_id r' -> r = r'.
Proof.
  intros w1 w2 w3. split; [by vm_compute|].
  apply (reachable_leases_unique w3).
  apply (rtc_l _ _ w1); [constructor|]. apply (rtc_l _ _ w2); [constructor|].
  apply (rtc_l _ _ w3); [constructor|]. constructor.
Defined.

Lemma held_issue_not_claimed_witness :
  let w := start sample_leases in
  let w' := snd (try_claim "o/r" 1 "other" w) in
  held "o/r" 1 "l1" "running" (Some "run-1") (w_db w) /\
  held "o/r" 1 "l1" "running" (Some "run-1") (w_db w') /\
  wp (try_claim "o/r" 1 "third")
     (fun r w'' => (r = Ok None \/ is_ok r = false) /\ w_db w'' = w_db w') w'.
Proof.
  intros w w'.
  assert (Hheld : held "o/r" 1 "l1" "running" (Some "run-1") (w_db w)) by by eexists.
  split; [done|]. apply (held_issue_not_claimed "o/r" 1 "third" "l1" "running" (Some "run-1") w w').
  - done.
  - by vm_compute.
  - apply rtc_once. constructor.
Defined.

Lemma conditional_update_fences_witness :
  let w := start sample_leases in
  let w' := snd (update_lease_status_conditional "l1" LeaseStatus.Completed [LeaseStatus.Running]
                   None (Some "run-1") w) in
  leases_ok (w_db w) /\
  exists old new, lease_row "l1" (w_db w) = Some old /\
    lease_status_in [LeaseStatus.Running] old && owner_guard (Some "run-1") old = true /\
    lease_row "l1" (w_db w') = Some new /\
    l_status new = "completed" /\ l_run_id new = opt_or None (l_run_id old) /\
    issue_of new = issue_of old /\
    (forall other, other <> "l1" -> lease_row other (w_db w') = lease_row other (w_db w)).
Proof.
  intros w w'. split; [by_computation|].
  exact (conditional_update_fences "l1" LeaseStatus.Completed [LeaseStatus.Running] None
           (Some "run-1") w ltac:(by_computation)).
Defined.

Lemma exact_owner_none_means_null_witness :
  let w := start sample_leases in
  wp (update_lease_status_conditional_exact_owner "l1" LeaseStatus.Abandoned [LeaseStatus.Running]
        None None)
     (fun r w' => w_db w' = w_db w /\ (r = Ok false \/ r = Err SqliteFailure)) w.
Proof.
  intros w. apply exact_owner_none_means_null; [by_computation|done|].
  by exists (sample_lease "l1" 1 "running" (Some "run-1") 7), "run-1".
Defined.

Lemma conditional_outcome_exact_witness :
  let w := start sample_leases in
  let w' := snd (update_lease_status_conditional_outcome "l1" LeaseStatus.Completed
                   [LeaseStatus.Running] None (Some "run-9") w) in
  leases_ok (w_db w) /\ w_db w' = w_db w /\
  exists old, lease_row "l1" (w_db w) = Some old /\
    lease_status_in [LeaseStatus.Running] old && owner_guard (Some "run-9") old = false /\
    l_status old = LeaseStatus.as_str LeaseStatus.Running /\ l_run_id old = Some "run-1".
Proof.
  intros w w'. split; [by_computation|].
  exact (conditional_outcome_exact "l1" LeaseStatus.Completed [LeaseStatus.Running] None
           (Some "run-9") w ltac:(by_computation)).
Defined.
