(* ===== verification/RemoteClaim.v ===== *)
(** The remote half of a claim ([daemon/claim.rs]): after the daemon has won an
    issue's lease it assigns the operating user and applies the working label,
    and on failure takes back exactly what it added.  GitHub is behind
    [GithubIssueQuery] ([adapters/github_issues/mod.rs]), whose remote state is a
    parameter; the discovery settings are those of [workflow/schema.rs]. *)
From S2P Require Import Prelude Effects Schema Leases.
From Stdlib Require Import Ascii.

(** ** Data *)

Record GithubIssue := mkGithubIssue {
  i_number : Z;
  i_title : string;
  i_state : string;
  i_labels : list string;
  i_assignees : list string;
  i_milestone : option string;
  i_body : option string
}.

Record DiscoveryConfig := mkDiscoveryConfig {
  enabled : bool;
  dc_repo : option string;
  include_labels : list string;
  exclude_labels : list string;
  active_parent_label : option string;
  issue_states : list string;
  approval_label : option string;
  approval_actor : option string;
  claim_assignee : option string;
  claim_label : option string;
  milestone_order : option string;
  max_concurrent_runs : option Z;
  poll_interval_secs : option Z;
  max_concurrent_active_runs : option Z;
  max_concurrent_runs_per_repository : option Z;
  max_concurrent_runs_per_config : option Z;
  route_parent_issues : bool;
  parent_workflow_type_id : option string;
  parent_config_id : option string;
  skip_children_of_active_parents : bool
}.

Inductive GithubError :=
| CliNotFound
| AuthenticationRequired
| InsufficientScopes (missing : list string)
| RepositoryNotAccessible (repo : string)
| RateLimited (repo : string)
| CommandFailed (argv : list string) (exit_code : option Z) (stderr : string)
| NotFound (resource : string)
| CacheLock (context error : string).

(** The part of the query seam the claim uses; [R] is the remote's state. *)
Class GithubIssueQuery (R : Type) := {
  get_issue : string -> Z -> M R GithubError (option GithubIssue);
  add_label : string -> Z -> string -> M R GithubError unit;
  remove_label : string -> Z -> string -> M R GithubError unit;
  add_assignee : string -> Z -> string -> M R GithubError unit;
  remove_assignee : string -> Z -> string -> M R GithubError unit
}.

(** [u8::to_ascii_lowercase] *)
Definition to_ascii_lowercase (c : ascii) : ascii :=
  let n := nat_of_ascii c in
  if decide (65 <= n <= 90) then ascii_of_nat (n + 32) else c.

(** [str::eq_ignore_ascii_case] *)
Fixpoint eq_ignore_ascii_case (s t : string) : bool :=
  match s, t with
  | "", "" => true
  | String c s', String d t' =>
      bool_decide (to_ascii_lowercase c = to_ascii_lowercase d) && eq_ignore_ascii_case s' t'
  | _, _ => false
  end.

Record ClaimOwnership := mkClaimOwnership {
  own_assignment : bool;
  own_label : bool
}.

Definition no_ownership : ClaimOwnership := mkClaimOwnership false false.

(** ** Operations *)

Section Operations.
Context {R : Type} `{GithubIssueQuery R}.

(** The three settings the remote claim needs, or nothing to do. *)
Definition claim_settings (c : DiscoveryConfig) : option (string * string * string) :=
  match dc_repo c, claim_assignee c, claim_label c with
  | Some repo, Some assignee, Some label => Some (repo, assignee, label)
  | _, _, _ => None
  end.

Definition inspect_remote_claim (config : DiscoveryConfig) (issue : GithubIssue)
    : M R GithubError ClaimOwnership :=
  match claim_settings config with
  | None => mret no_ownership
  | Some (repo, assignee, label) =>
      found ← get_issue repo (i_number issue);
      let current := default issue found in
      mret (mkClaimOwnership
              (negb (existsb (fun login => eq_ignore_ascii_case login assignee) (i_assignees current)))
              (negb (existsb (fun value => eq_ignore_ascii_case value label) (i_labels current))))
  end.

Definition apply_remote_claim (config : DiscoveryConfig) (issue : GithubIssue)
    (ownership : ClaimOwnership) : M R GithubError unit :=
  match claim_settings config with
  | None => mret tt
  | Some (repo, assignee, label) =>
      (if own_assignment ownership then add_assignee repo (i_number issue) assignee else mret tt);;
      (if own_label ownership then add_label repo (i_number issue) label else mret tt)
  end.

Definition issue_name (repo : string) (number : Z) : string := repo +:+ "#" +:+ pretty number.

Definition verify_remote_claim (config : DiscoveryConfig) (number : Z) : M R GithubError unit :=
  match claim_settings config with
  | None => mret tt
  | Some (repo, assignee, label) =>
      found ← get_issue repo number;
      issue ← lift_res (ok_or found (NotFound ("claim metadata for " +:+ issue_name repo number)));
      let assignment_present :=
        existsb (fun login => eq_ignore_ascii_case login assignee) (i_assignees issue) in
      let label_present :=
        existsb (fun value => eq_ignore_ascii_case value label) (i_labels issue) in
      if assignment_present && label_present then mret tt
      else throw (NotFound ("verified claim metadata for " +:+ issue_name repo number))
  end.

(** The error of a step that ran, if any. *)
Definition step_error (r : Res GithubError unit) : option GithubError :=
  match r with Ok _ => None | Err e => Some e end.

(** A removal, when there is something to remove; its error is kept. *)
Definition attempt_if (needed : bool) (m : M R GithubError unit) : M R GithubError (option GithubError) :=
  if needed then r ← try m; mret (step_error r) else mret None.

(** Both removals are tried; the first error is reported. *)
Definition cleanup_remote_claim (repo : string) (number : Z) (receipt : ClaimMetadataReceipt)
    : M R GithubError unit :=
  found ← get_issue repo number;
  match found with
  | None => mret tt
  | Some issue =>
      first_error ← attempt_if
        (label_added receipt
         && existsb (fun l => eq_ignore_ascii_case l (cm_label receipt)) (i_labels issue))
        (remove_label repo number (cm_label receipt));
      error ← attempt_if
        (assignment_added receipt
         && existsb (fun l => eq_ignore_ascii_case l (cm_assignee receipt)) (i_assignees issue))
        (remove_assignee repo number (cm_assignee receipt));
      match opt_or first_error error with
      | None => mret tt
      | Some e => throw e
      end
  end.

Definition reconcile_pending_cleanup (cleanup : PendingClaimCleanup) : M R GithubError unit :=
  cleanup_remote_claim (pc_issue_repo cleanup) (pc_issue_number cleanup) (pc_receipt cleanup).
End Operations.

(** ** What the remote promises *)

(** A list of names, compared as GitHub compares them. *)
Definition named_in (x : string) (l : list string) : bool :=
  existsb (fun y => eq_ignore_ascii_case y x) l.
Definition add_name (x : string) (l : list string) : list string :=
  if named_in x l then l else l ++ [x].
Definition remove_name (x : string) (l : list string) : list string :=
  List.filter (fun y => negb (eq_ignore_ascii_case y x)) l.

Definition on_labels (f : list string -> list string) (i : GithubIssue) : GithubIssue :=
  mkGithubIssue (i_number i) (i_title i) (i_state i) (f (i_labels i)) (i_assignees i)
    (i_milestone i) (i_body i).
Definition on_assignees (f : list string -> list string) (i : GithubIssue) : GithubIssue :=
  mkGithubIssue (i_number i) (i_title i) (i_state i) (i_labels i) (f (i_assignees i))
    (i_milestone i) (i_body i).

(** What a remote state shows of each issue. *)
Abbreviation View := (string -> Z -> option GithubIssue).

Definition edited (repo : string) (number : Z) (f : GithubIssue -> GithubIssue) (v v' : View) : Prop :=
  forall repo' number', v' repo' number' =
    if decide (repo' = repo /\ number' = number) then f <$> v repo' number' else v repo' number'.

(** An edit that reports success happened; one that reports an error may or may
    not have. *)
Definition edits {R} (view : R -> View) (repo : string) (number : Z)
    (f : GithubIssue -> GithubIssue) (m : M R GithubError unit) : Prop :=
  forall w, wp m (fun r w' =>
    edited repo number f (view (w_db w)) (view (w_db w')) \/
    (is_ok r = false /\ forall repo' number', view (w_db w') repo' number' = view (w_db w) repo' number')) w.

(** The documented behaviour of the remote: reading shows the state and changes
    nothing, labels and assignees are sets up to case. *)
Class GithubLaws {R} (Q : GithubIssueQuery R) (view : R -> View) := {
  get_issue_law repo number w :
    wp (get_issue repo number) (fun r w' =>
      (forall repo' number', view (w_db w') repo' number' = view (w_db w) repo' number') /\
      forall i, r = Ok i -> i = view (w_db w) repo number) w;
  add_label_law repo number x : edits view repo number (on_labels (add_name x)) (add_label repo number x);
  remove_label_law repo number x :
    edits view repo number (on_labels (remove_name x)) (remove_label repo number x);
  add_assignee_law repo number x :
    edits view repo number (on_assignees (add_name x)) (add_assignee repo number x);
  remove_assignee_law repo number x :
    edits view repo number (on_assignees (remove_name x)) (remove_assignee repo number x)
}.

(** ** Lemmas *)

Lemma eq_ignore_ascii_case_refl s : eq_ignore_ascii_case s s = true.
Proof. induction s as [|c s IH]; cbn; [done|]. by rewrite bool_decide_eq_true_2, IH. Qed.

Lemma remove_name_absent x l : named_in x l = false -> remove_name x l = l.
Proof.
  unfold named_in, remove_name. induction l as [|y l IH]; cbn; [done|].
  intros [Hy Hl]%orb_false_iff. rewrite Hy. cbn. by rewrite IH.
Qed.

(** Adding an absent name and removing it again gives the list back. *)
Lemma remove_add_name x l : named_in x l = false -> remove_name x (add_name x l) = l.
Proof.
  intros Hx. unfold add_name. rewrite Hx. unfold remove_name.
  rewrite List.filter_app. cbn. rewrite eq_ignore_ascii_case_refl. cbn.
  rewrite app_nil_r. by apply remove_name_absent.
Qed.

(** A view in which one issue has been claimed in part. *)
Definition claim_part (assignee label : string) (ba bl : bool) (i : GithubIssue) : GithubIssue :=
  on_labels (if bl then add_name label else id) (on_assignees (if ba then add_name assignee else id) i).

Definition residue (repo : string) (number : Z) (assignee label : string) (own : ClaimOwnership)
    (v0 v : View) : Prop :=
  exists ba bl : bool, (ba = true -> own_assignment own = true) /\
    (bl = true -> own_label own = true) /\
    edited repo number (claim_part assignee label ba bl) v0 v.

(** The ownership is what was missing on the issue. *)
Definition owns_missing (assignee label : string) (own : ClaimOwnership) (i : GithubIssue) : Prop :=
  own_assignment own = negb (named_in assignee (i_assignees i)) /\
  own_label own = negb (named_in label (i_labels i)).

Lemma edited_trans repo number f g (v0 v1 v2 : View) :
  edited repo number f v0 v1 -> edited repo number g v1 v2 ->
  edited repo number (fun i => g (f i)) v0 v2.
Proof.
  intros H1 H2 repo' number'. rewrite H2, H1. case_decide; [|done].
  by destruct (v0 repo' number').
Qed.

Lemma edited_same repo number f (v0 v1 v2 : View) :
  edited repo number f v0 v1 -> (forall repo' number', v2 repo' number' = v1 repo' number') ->
  edited repo number f v0 v2.
Proof. intros H1 H2 repo' number'. by rewrite H2. Qed.

Lemma claim_part_none assignee label i : claim_part assignee label false false i = i.
Proof. by destruct i. Qed.

Section Protocol.
Context {R : Type} `{Q : GithubIssueQuery R} (view : R -> View) `{!GithubLaws Q view}.

Lemma inspect_wp config repo assignee label issue w :
  claim_settings config = Some (repo, assignee, label) ->
  wp (inspect_remote_claim config issue) (fun r w' =>
    (forall repo' number', view (w_db w') repo' number' = view (w_db w) repo' number') /\
    forall own i, r = Ok own -> view (w_db w) repo (i_number issue) = Some i ->
      owns_missing assignee label own i) w.
Proof.
  intros Hs. unfold inspect_remote_claim. rewrite Hs. apply wp_bind.
  eapply wp_consequence; [apply get_issue_law|]. intros [found|e] w' [Hview Hfound].
  - apply wp_ret. split; [done|]. intros own i [= <-] Hi.
    rewrite (Hfound found eq_refl), Hi. by split.
  - by split.
Qed.

Lemma apply_wp config repo assignee label issue own w :
  claim_settings config = Some (repo, assignee, label) ->
  wp (apply_remote_claim config issue own) (fun _ w' =>
    residue repo (i_number issue) assignee label own (view (w_db w)) (view (w_db w'))) w.
Proof.
  intros Hs. unfold apply_remote_claim. rewrite Hs. set (number := i_number issue).
  apply wp_bind. eapply (wp_consequence _ (fun r w' => exists ba : bool,
    (ba = true -> own_assignment own = true) /\
    edited repo number (claim_part assignee label ba false) (view (w_db w)) (view (w_db w')))).
  { destruct (own_assignment own) eqn:Eo.
    - eapply wp_consequence; [apply add_assignee_law|]. intros r w' [He|[_ He]].
      + by exists true.
      + exists false. split; [done|]. intros repo' number'. rewrite He.
        case_decide; [|done]. destruct (view _ _ _); [|done]. cbn. by rewrite claim_part_none.
    - apply wp_ret. exists false. split; [done|]. intros repo' number'.
      case_decide; [|done]. destruct (view _ _ _); [|done]. cbn. by rewrite claim_part_none. }
  intros [[]|e] w1 (ba & Hba & He); [|by exists ba, false].
  destruct (own_label own) eqn:El; [|apply wp_ret; by exists ba, false].
  eapply wp_consequence; [apply add_label_law|]. intros r w' [He2|[_ He2]].
  - exists ba, true. split_and!; [done|done|].
    exact (edited_trans _ _ _ _ _ _ _ He He2).
  - exists ba, false. split_and!; [done|done|]. by eapply edited_same.
Qed.

Lemma attempt_if_wp repo number f needed m w :
  edits view repo number f m ->
  wp (attempt_if needed m) (fun r w' => exists e, r = Ok e /\
    (e = None -> edited repo number (if needed then f else id) (view (w_db w)) (view (w_db w')))) w.
Proof.
  intros Hm. unfold attempt_if. destruct needed.
  - apply wp_bind, wp_try. eapply wp_consequence; [apply Hm|]. intros r w' Hr. apply wp_ret.
    exists (step_error r). split; [done|]. intros Hn. destruct Hr as [Hr|[Hr _]]; [done|].
    by destruct r.
  - apply wp_ret. exists None. split; [done|]. intros _ repo' number'.
    case_decide; [|done]. by destruct (view _ _ _).
Qed.
End Protocol.

(** Taking back what a claim added, on one issue. *)
Lemma add_then_clean (own b : bool) x l :
  own = negb (named_in x l) -> (b = true -> own = true) ->
  let l' := (if b then add_name x else id) l in
  (if own && named_in x l' then remove_name x else id) l' = l.
Proof.
  intros Hown Hb l'. subst l'. destruct (named_in x l) eqn:Ex; cbn in Hown; subst own.
  - destruct b; [by specialize (Hb eq_refl)|done].
  - destruct b; cbn -[named_in add_name remove_name].
    + pose proof (remove_add_name x l Ex) as Hr. destruct (named_in x (add_name x l)) eqn:Ea; [done|].
      by rewrite remove_name_absent in Hr.
    + change (id l) with l. by rewrite Ex.
Qed.

Definition cleaned (own : ClaimOwnership) (assignee label : string) (i : GithubIssue) : GithubIssue :=
  on_assignees
    (if own_assignment own && named_in assignee (i_assignees i) then remove_name assignee else id)
    (on_labels (if own_label own && named_in label (i_labels i) then remove_name label else id) i).

Lemma cleaned_claim_part assignee label own ba bl i :
  owns_missing assignee label own i -> (ba = true -> own_assignment own = true) ->
  (bl = true -> own_label own = true) ->
  cleaned own assignee label (claim_part assignee label ba bl i) = i.
Proof.
  intros [Ha Hl] Hba Hbl.
  pose proof (add_then_clean _ ba assignee _ Ha Hba) as Hca.
  pose proof (add_then_clean _ bl label _ Hl Hbl) as Hcl.
  unfold cleaned, claim_part, on_labels, on_assignees. destruct i.
  cbn -[named_in add_name remove_name] in *. by rewrite Hca, Hcl.
Qed.

(** A residue cleaned is no trace. *)
Lemma residue_cleaned repo number assignee label own (v0 v v' : View) :
  residue repo number assignee label own v0 v ->
  (forall i, v0 repo number = Some i -> owns_missing assignee label own i) ->
  edited repo number (cleaned own assignee label) v v' ->
  forall repo' number', v' repo' number' = v0 repo' number'.
Proof.
  intros (ba & bl & Hba & Hbl & He) Hown Hc repo' number'. rewrite Hc, He.
  destruct (decide (repo' = repo /\ number' = number)) as [Hd|]; [|done]. destruct Hd as [-> ->].
  destruct (v0 repo number) as [i|] eqn:Ei; [|done]. cbn. f_equal. by apply cleaned_claim_part; [apply Hown|..].
Qed.

Section Cleanup.
Context {R : Type} `{Q : GithubIssueQuery R} (view : R -> View) `{!GithubLaws Q view}.

Lemma cleanup_wp repo number receipt w :
  let own := mkClaimOwnership (assignment_added receipt) (label_added receipt) in
  wp (cleanup_remote_claim repo number receipt) (fun r w' => r = Ok tt ->
    edited repo number (cleaned own (cm_assignee receipt) (cm_label receipt))
      (view (w_db w)) (view (w_db w'))) w.
Proof.
  intros own. unfold cleanup_remote_claim. apply wp_bind.
  eapply wp_consequence; [apply get_issue_law|]. intros [found|e] w1 [Hv Hfound]; [|done].
  specialize (Hfound found eq_refl). destruct found as [i|].
  2:{ apply wp_ret. intros _ repo' number'. rewrite Hv. case_decide as Hd; [|done].
      destruct Hd as [-> ->]. by rewrite <- Hfound. }
  apply wp_bind. eapply wp_consequence; [apply attempt_if_wp, remove_label_law|].
  intros r w2 (e1 & -> & He1). apply wp_bind.
  eapply wp_consequence; [apply attempt_if_wp, remove_assignee_law|].
  intros r w3 (e2 & -> & He2). destruct e1 as [e1|]; [done|]. cbn [opt_or].
  destruct e2 as [e2|]; [done|]. apply wp_ret. intros _.
  specialize (He1 eq_refl). specialize (He2 eq_refl).
  intros repo' number'. rewrite (edited_trans _ _ _ _ _ _ _ He1 He2), Hv.
  case_decide as Hd; [|done]. destruct Hd as [-> ->]. rewrite <- Hfound. cbn. f_equal.
  unfold cleaned, own. cbn. fold (named_in (cm_label receipt) (i_labels i)).
  fold (named_in (cm_assignee receipt) (i_assignees i)).
  destruct i; by destruct (label_added receipt && _), (assignment_added receipt && _).
Qed.

(** What the inspection tells of the issue: nothing is owned without settings,
    and otherwise what was missing. *)
Definition inspected (config : DiscoveryConfig) (number : Z) (own : ClaimOwnership) (v : View) : Prop :=
  match claim_settings config with
  | None => own = no_ownership
  | Some (repo, assignee, label) => forall i, v repo number = Some i -> owns_missing assignee label own i
  end.

(** What a verified claim shows. *)
Definition verified (config : DiscoveryConfig) (number : Z) (v : View) : Prop :=
  match claim_settings config with
  | None => True
  | Some (repo, assignee, label) =>
      exists i, v repo number = Some i /\ named_in assignee (i_assignees i) = true /\
        named_in label (i_labels i) = true
  end.

(** The claim, applied and verified, with any outcome: a cleanup that succeeds
    next takes it back whole. *)
Definition undone_by_cleanup (config : DiscoveryConfig) (number : Z) (own : ClaimOwnership) (v0 v : View) : Prop :=
  forall v', edited (default "" (dc_repo config)) number
      (cleaned own (default "" (claim_assignee config)) (default "" (claim_label config))) v v' ->
    forall repo' number', v' repo' number' = v0 repo' number'.

Lemma inspected_wp config issue w :
  wp (inspect_remote_claim config issue) (fun r w' =>
    (forall repo' number', view (w_db w') repo' number' = view (w_db w) repo' number') /\
    forall own, r = Ok own -> inspected config (i_number issue) own (view (w_db w))) w.
Proof.
  unfold inspected. destruct (claim_settings config) as [[[repo assignee] label]|] eqn:Es.
  - eapply wp_consequence; [by eapply inspect_wp|]. intros r w' [Hv Hown]. split; [done|].
    intros own Hr i. by apply Hown.
  - unfold inspect_remote_claim. rewrite Es. apply wp_ret. split; [done|]. by intros own [= <-].
Qed.

Lemma settings_defaults config repo assignee label :
  claim_settings config = Some (repo, assignee, label) ->
  default "" (dc_repo config) = repo /\ default "" (claim_assignee config) = assignee /\
  default "" (claim_label config) = label.
Proof. unfold claim_settings. repeat case_match; try done. by intros [= <- <- <-]. Qed.

Lemma cleaned_nothing assignee label i : cleaned no_ownership assignee label i = i.
Proof. by destruct i. Qed.

Lemma undone_untouched config number own (v : View) :
  inspected config number own v -> undone_by_cleanup config number own v v.
Proof.
  unfold inspected, undone_by_cleanup. destruct (claim_settings config) as [[[repo assignee] label]|] eqn:Es.
  - intros Hown v' Hv'. destruct (settings_defaults _ _ _ _ Es) as (Er & Ea & El). rewrite Er, Ea, El in Hv'.
    eapply residue_cleaned; [|exact Hown|exact Hv']. exists false, false. split_and!; [intros [=]..|].
    intros repo' number'. case_decide as Hd; [|done]. destruct Hd as [-> ->].
    destruct (v _ _); [|done]. cbn. by rewrite claim_part_none.
  - intros -> v' Hv' repo' number'. rewrite Hv'. case_decide as Hd; [|done].
    destruct Hd as [-> ->]. destruct (v _ _); [|done].
    cbn. by rewrite cleaned_nothing.
Qed.

Lemma apply_undone_wp config issue own w :
  inspected config (i_number issue) own (view (w_db w)) ->
  wp (apply_remote_claim config issue own) (fun _ w' =>
    undone_by_cleanup config (i_number issue) own (view (w_db w)) (view (w_db w'))) w.
Proof.
  intros Hown. pose proof (undone_untouched _ _ _ _ Hown) as Hnone. revert Hown. unfold inspected.
  destruct (claim_settings config) as [[[repo assignee] label]|] eqn:Es.
  - intros Hown. eapply wp_consequence; [by eapply apply_wp|]. cbn. intros _ w' Hr v' Hv'.
    destruct (settings_defaults _ _ _ _ Es) as (Er & Ea & El). rewrite Er, Ea, El in Hv'.
    by eapply residue_cleaned.
  - intros _. unfold apply_remote_claim. rewrite Es. by apply wp_ret.
Qed.

Lemma undone_same config number own (v0 v v' : View) :
  undone_by_cleanup config number own v0 v -> (forall repo' number', v' repo' number' = v repo' number') ->
  undone_by_cleanup config number own v0 v'.
Proof.
  intros Hu Hv v'' Hc. apply Hu. intros repo' number'. rewrite Hc. case_decide; by rewrite Hv.
Qed.

Lemma verified_wp config number w :
  wp (verify_remote_claim config number) (fun r w' => r = Ok tt -> verified config number (view (w_db w'))) w.
Proof.
  unfold verify_remote_claim, verified. destruct (claim_settings config) as [[[repo assignee] label]|]; wp_steps; [|done].
  eapply wp_consequence; [apply get_issue_law|]. intros [[i|]|e] w1 [Hv Hi]; wp_steps; cbn [ok_or]; [|discriminate..].
  wp_if E; [|discriminate]. intros _. exists i. apply andb_true_iff in E as [Ea El]. split_and!; [|exact Ea|exact El].
  rewrite Hv. symmetry. by apply Hi.
Qed.

Lemma verify_wp config number w :
  wp (verify_remote_claim config number) (fun _ w' =>
    forall repo' number', view (w_db w') repo' number' = view (w_db w) repo' number') w.
Proof.
  unfold verify_remote_claim. destruct (claim_settings config) as [[[repo assignee] label]|]; wp_steps; [|done].
  eapply wp_consequence; [apply get_issue_law|]. intros [[i|]|e] w1 [Hv _]; wp_steps; cbn [ok_or]; [|done..].
  by wp_if E.
Qed.

(** ** Main theorem *)

(** C19: a failed claim takes back exactly what it added.  Inspect an issue,
    apply and verify the claim with any outcome (each edit may fail, before or
    after it took effect), then clean up from the receipt of that inspection:
    when the cleanup reports success every issue of the remote is as it was
    before, assignees and labels someone else had put there included. *)
Theorem remote_claim_undone (config : DiscoveryConfig) (issue : GithubIssue)
    (repo assignee label lease : string) (own : ClaimOwnership) (w w1 w4 : World R)
    (Hsettings : claim_settings config = Some (repo, assignee, label))
    (Hinspect : inspect_remote_claim config issue w = (Ok own, w1))
    (Hcleanup :
       let w2 := snd (apply_remote_claim config issue own w1) in
       let w3 := snd (verify_remote_claim config (i_number issue) w2) in
       let receipt := mkClaimMetadataReceipt lease assignee label (own_assignment own)
                        (own_label own) true in
       cleanup_remote_claim repo (i_number issue) receipt w3 = (Ok tt, w4)) :
  forall repo' number', view (w_db w4) repo' number' = view (w_db w) repo' number'.
Proof.
  pose proof (inspect_wp view config repo assignee label issue w Hsettings) as Hi.
  unfold wp in Hi. rewrite Hinspect in Hi. destruct Hi as [Hv1 Hown]. cbn in Hv1.
  set (number := i_number issue) in *.
  pose proof (apply_wp view config repo assignee label issue own w1 Hsettings) as Ha.
  unfold wp in Ha. fold number in Ha. cbn zeta in Hcleanup. set (w2 := snd (apply_remote_claim _ _ _ _)) in *.
  pose proof (verify_wp config number w2) as Hv3. unfold wp in Hv3.
  match type of Hcleanup with cleanup_remote_claim _ _ ?receipt ?w3 = _ =>
    pose proof (cleanup_wp repo number receipt w3) as Hc end.
  unfold wp in Hc. rewrite Hcleanup in Hc. specialize (Hc eq_refl). cbn in Hc.
  cbn in Ha. assert (Hr : residue repo number assignee label own (view (w_db w)) (view (w_db w2))).
  { destruct Ha as (ba & bl & ? & ? & He). exists ba, bl. split_and!; [done|done|].
    intros repo' number'. by rewrite He, Hv1. }
  eapply residue_cleaned; [exact Hr|by intros i; apply Hown|]. destruct own.
  intros repo' number'. by rewrite Hc, !Hv3.
Qed.
End Cleanup.

(** ** Witness *)

#[local] Existing Instance calm.

(** A remote with one issue. *)
Definition sample_view (i : GithubIssue) : View := fun repo number =>
  if decide (repo = "o/r" /\ number = 42%Z) then Some i else None.

Definition sample_edit (f : GithubIssue -> GithubIssue) (repo : string) (number : Z)
    : M GithubIssue GithubError unit := fun w =>
  if decide (repo = "o/r" /\ number = 42%Z) then (Ok tt, set_db (f (w_db w)) w)
  else (Err (NotFound repo), w).

#[local] Instance sample_query : GithubIssueQuery GithubIssue := {
  get_issue repo number := fun w => (Ok (sample_view (w_db w) repo number), w);
  add_label repo number x := sample_edit (on_labels (add_name x)) repo number;
  remove_label repo number x := sample_edit (on_labels (remove_name x)) repo number;
  add_assignee repo number x := sample_edit (on_assignees (add_name x)) repo number;
  remove_assignee repo number x := sample_edit (on_assignees (remove_name x)) repo number
}.

Lemma sample_edits repo number f : edits sample_view repo number f (sample_edit f repo number).
Proof.
  intros w. unfold wp, sample_edit, sample_view. destruct (decide _) as [[-> ->]|Hne]; cbn.
  - left. intros repo' number'. by destruct (decide _).
  - by right.
Qed.

#[local] Instance sample_laws : GithubLaws sample_query sample_view.
Proof. split; intros; [split; [done|by intros i [= <-]]|apply sample_edits..]. Qed.

Definition candidate : GithubIssue :=
  mkGithubIssue 42 "approved" "open" ["approved"] ["reviewer"] None None.

Definition claiming_config : DiscoveryConfig :=
  mkDiscoveryConfig true (Some "o/r") [] [] None [] None None (Some "acoliver")
    (Some "Luther working") None None None None None None false None None false.

Lemma remote_claim_undone_witness :
  let w := start candidate in
  let own := mkClaimOwnership true true in
  let w2 := snd (apply_remote_claim claiming_config candidate own w) in
  let w4 := snd (cleanup_remote_claim "o/r" 42
                   (mkClaimMetadataReceipt "lease" "acoliver" "Luther working" true true true)
                   (snd (verify_remote_claim claiming_config 42 w2))) in
  i_labels (w_db w2) = ["approved"; "Luther working"] /\
  i_assignees (w_db w2) = ["reviewer"; "acoliver"] /\
  forall repo' number', sample_view (w_db w4) repo' number' = sample_view (w_db w) repo' number'.
Proof.
  intros w own w2 w4. split; [by vm_compute|]. split; [by vm_compute|].
  apply (remote_claim_undone sample_view claiming_config candidate "o/r" "acoliver" "Luther working"
           "lease" own w w w4); by vm_compute.
Defined.
