(* ===== verification/Runs.v ===== *)
(** Run metadata ([persistence/run_metadata.rs]) and the [runs] table
    ([persistence/sqlite/]): the record of a run, its upsert and its fail-closed
    insert, the readers, and the status updates guarded in one statement.

    The columns the code stores as JSON text (the step candidates, the child
    pids, the failure provenance, the launch provenance) hold their value here:
    [serde_json] prints and parses those derived types. *)
From S2P Require Import Prelude Effects Sql Status Schema.

(** ** The record *)

Module FailureCleanup.
Definition SCHEMA_VERSION : Z := 1.

Definition is_complete (f : FailureCleanupState) : bool :=
  bool_decide (fc_schema_version f = SCHEMA_VERSION)
  && negb (str_is_empty (failed_step f)) && negb (str_is_empty (failure_outcome f))
  && negb (str_is_empty (failure_reason f)) && negb (str_is_empty (failed_checkpoint_id f))
  && negb (str_is_empty (cleanup_step f)) && cleanup_succeeded f
  && bool_decide (is_Some (cleanup_completed_at f)).

Definition recovery_is_available (f : FailureCleanupState) : bool :=
  is_complete f && bool_decide (recovery_consumed_at f = None).
End FailureCleanup.

Module RunMeta.
Definition new (run workflow_type config : string) (now : Z) : RunMetadata :=
  mkRun run workflow_type config RunStatus.Initialized now None None None None [] None None None
    None None None None None [] None None None.

Definition is_cleanup_failure_abandonment (m : RunMetadata) : bool :=
  bool_decide (status m = RunStatus.Abandoned)
  && from_option FailureCleanup.is_complete false (failure_cleanup m).

Definition is_ownership_denied_terminal (m : RunMetadata) : bool :=
  from_option (fun f => ownership_denied f && negb (cleanup_succeeded f)) false (failure_cleanup m).

(** [u64::try_from] of the recorded issue number, which is an [i64]. *)
Definition issue_lease_number (m : RunMetadata) : option Z :=
  issue_number m ≫= fun n => if decide (0 <= n)%Z then Some n else None.

Definition mark (s : RunStatus.t) (now : Z) (m : RunMetadata) : RunMetadata :=
  m <| status := s |> <| updated_at := Some now |>.
Definition mark_started (now : Z) (m : RunMetadata) : RunMetadata := mark RunStatus.Running now m.
Definition mark_completed (now : Z) (m : RunMetadata) : RunMetadata :=
  mark RunStatus.Completed now m.
Definition mark_failed (now : Z) (m : RunMetadata) : RunMetadata := mark RunStatus.Failed now m.

Definition reopen (own_pid now : Z) (m : RunMetadata) : RunMetadata :=
  m <| status := RunStatus.Running |> <| process_pid := Some own_pid |> <| updated_at := Some now |>.

Definition set_current_step (step : string) (now : Z) (m : RunMetadata) : RunMetadata :=
  m <| current_step := Some step |> <| updated_at := Some now |>.

Definition set_previous_step_and_outcome (step outcome : string) (now : Z) (m : RunMetadata)
    : RunMetadata :=
  m <| previous_step := Some step |> <| previous_outcome := Some outcome |>
    <| updated_at := Some now |>.

Definition set_next_step_candidates (candidates : list string) (now : Z) (m : RunMetadata)
    : RunMetadata :=
  m <| next_step_candidates := candidates |> <| updated_at := Some now |>.

Definition add_child_pid (pid now : Z) (m : RunMetadata) : RunMetadata :=
  let pids := if bool_decide (pid ∈ child_pids m) then child_pids m else child_pids m ++ [pid] in
  m <| child_pids := pids |> <| updated_at := Some now |>.

Definition clear_child_pids (now : Z) (m : RunMetadata) : RunMetadata :=
  m <| child_pids := [] |> <| updated_at := Some now |>.

(** Which processes are alive is the operating system's answer to
    [kill(pid, 0)]. *)
Section Liveness.
Variable is_pid_alive : Z -> bool.

Definition is_pid_stale (pid : Z) : bool := negb (is_pid_alive pid).

Definition live_workflow_pid (m : RunMetadata) : option Z :=
  process_pid m ≫= fun pid => if is_pid_stale pid then None else Some pid.

Definition live_child_pid (m : RunMetadata) : option Z :=
  List.find (fun pid => negb (is_pid_stale pid)) (child_pids m).

Definition is_process_stale (m : RunMetadata) : bool :=
  match process_pid m with Some pid => is_pid_stale pid | None => false end.

Definition are_child_pids_stale (m : RunMetadata) : list Z :=
  List.filter is_pid_stale (child_pids m).
End Liveness.
End RunMeta.

(** ** Rows *)

(** The status column replaced. *)
Definition with_status {A B} (s : B) (r : RunOf A) : RunOf B :=
  mkRun (run_id r) (workflow_type_id r) (config_id r) s (created_at r) (updated_at r)
    (current_step r) (previous_step r) (previous_outcome r) (next_step_candidates r)
    (log_path r) (artifact_root r) (workspace_path r) (repository r) (issue_number r)
    (pr_number r) (head_sha r) (process_pid r) (child_pids r)
    (continuation_rearm_checkpoint_id r) (failure_cleanup r) (launch_provenance r).

Definition bind_run_metadata_params (m : RunMetadata) : RunRow :=
  with_status (RunStatus.to_string (status m)) m.

Definition parse_run_status (column : nat) (s : string) : Res SqlError RunStatus.t :=
  res_map_err (fun _ => FromSqlConversionFailure column) (RunStatus.from_str s).

Definition map_run_row (r : RunRow) : Res SqlError RunMetadata :=
  s ← parse_run_status 3 (status r);
  let m : RunMetadata := with_status s r in
  mret (m <| process_pid := as_u32 <$> process_pid r |>).

Definition run_named (run : string) (r : RunRow) : bool := run_id r =?s run.
Definition same_run (r r' : RunRow) : bool := run_id r =?s run_id r'.

(** [ORDER BY created_at DESC] *)
Definition newer_run {St} (a b : RunOf St) : Prop := (created_at b <= created_at a)%Z.
#[global] Instance newer_run_dec {St} : RelDecision (@newer_run St).
Proof. intros a b. unfold newer_run. apply _. Defined.

Definition unique_run_ids (ids : list string) : list string :=
  fold_left (fun seen id => if bool_decide (id ∈ seen) then seen else seen ++ [id]) ids [].

(** [slice::chunks] *)
Fixpoint chunks_fuel {A} (fuel n : nat) (l : list A) : list (list A) :=
  match fuel, l with
  | _, [] => []
  | 0, _ => []
  | S fuel', _ => take n l :: chunks_fuel fuel' n (drop n l)
  end.
Definition chunks {A} (n : nat) (l : list A) : list (list A) := chunks_fuel (length l) n l.

Definition RUN_ID_QUERY_CHUNK_SIZE : nat := 500.

(** ** Statements *)

Inductive InitialRunInsert := Inserted | Collision.

Inductive ConditionalStatusOutcome :=
| Updated
| AlreadyTerminal (s : RunStatus.t)
| RunMissing.

Module Expected.
Inductive ExpectedRunStatusOutcome := Updated | StatusMismatch | RunMissing.
End Expected.

Definition upsert_run (row : RunRow) (d : Db) : Res SqlError (unit * Db) :=
  Ok (tt, d <| runs := upsert_by same_run (fun new _ => new) row (runs d) |>).

(** [INSERT OR FAIL] *)
Definition insert_run (row : RunRow) (d : Db) : Res SqlError (unit * Db) :=
  if exists_where (run_named (run_id row)) (runs d) then Err ConstraintViolation
  else Ok (tt, d <| runs := runs d ++ [row] |>).

Definition update_runs (p : RunRow -> bool) (f : RunRow -> RunRow) (d : Db) : Res SqlError (nat * Db) :=
  Ok (count_where p (runs d), d <| runs := update_where p f (runs d) |>).

(** [current_step = CASE WHEN ? IS NULL THEN current_step ELSE ? END] *)
Definition status_row (s : RunStatus.t) (step : option string) (now : Z) (r : RunRow) : RunRow :=
  r <| status := RunStatus.to_string s |> <| current_step := opt_or step (current_step r) |>
    <| updated_at := Some now |>.

(** [WHERE run_id = ? AND status NOT IN (terminal)] *)
Definition not_terminal_guard (run : string) (r : RunRow) : bool :=
  run_named run r && negb (existsb (fun t => status r =?s t) RunStatus.TERMINAL_SQL).

(** [WHERE run_id = ? AND status IN (..)] *)
Definition expected_guard (run : string) (expected : list RunStatus.t) (r : RunRow) : bool :=
  run_named run r && existsb (fun s => status r =?s RunStatus.to_string s) expected.

(** ** Operations *)

Section Operations.
Context `{Env}.

Definition persist_run_with_conn (m : RunMetadata) : M Db SqlError unit :=
  execute (upsert_run (bind_run_metadata_params m)).

Definition classify_collision (e : SqlError) : M Db SqlError InitialRunInsert :=
  match e with ConstraintViolation => mret Collision | _ => throw e end.

Definition insert_initial_run_with_conn (m : RunMetadata) : M Db SqlError InitialRunInsert :=
  r ← try (execute (insert_run (bind_run_metadata_params m)));
  match r with
  | Ok _ => mret Inserted
  | Err e => classify_collision e
  end.

Definition get_run_with_conn (run : string) : M Db SqlError (option RunMetadata) :=
  query (fun d =>
    match select_first (run_named run) (runs d) with
    | Some r => Some <$> map_run_row r
    | None => Ok None
    end).

Definition list_runs_with_conn : M Db SqlError (list RunMetadata) :=
  query (fun d => mapM (M := Res SqlError) map_run_row (merge_sort newer_run (runs d))).

Definition list_runs_by_id_chunk (ids : list string) : M Db SqlError (list RunMetadata) :=
  query (fun d => mapM (M := Res SqlError) map_run_row
    (merge_sort newer_run (select_where (fun r => bool_decide (run_id r ∈ ids)) (runs d)))).

(** The loop over the chunks, extending the result. *)
Fixpoint list_chunks (cs : list (list string)) (acc : list RunMetadata)
    : M Db SqlError (list RunMetadata) :=
  match cs with
  | [] => mret acc
  | c :: cs' => found ← list_runs_by_id_chunk c; list_chunks cs' (acc ++ found)
  end.

Definition list_runs_by_ids_with_conn (ids : list string) : M Db SqlError (list RunMetadata) :=
  let ids := unique_run_ids ids in
  if bool_decide (ids = []) then mret []
  else
    found ← list_chunks (chunks RUN_ID_QUERY_CHUNK_SIZE ids) [];
    mret (merge_sort newer_run found).

Definition list_runs_by_status (s : RunStatus.t) : M Db SqlError (list RunMetadata) :=
  all ← list_runs_with_conn; mret (List.filter (fun r => bool_decide (status r = s)) all).

Definition get_active_runs : M Db SqlError (list RunMetadata) :=
  all ← list_runs_with_conn;
  mret (List.filter (fun r => negb (RunStatus.is_terminal (status r))) all).

Definition get_runs_for_repository (repo : string) : M Db SqlError (list RunMetadata) :=
  all ← list_runs_with_conn; mret (List.filter (fun r => bool_decide (repository r = Some repo)) all).

Definition update_status (run : string) (s : RunStatus.t) : M Db SqlError unit :=
  t ← now;
  execute (update_runs (run_named run)
    (fun r => r <| status := RunStatus.to_string s |> <| updated_at := Some t |>));;
  mret tt.

Definition get_run_status_with_conn (run : string) : M Db SqlError (option RunStatus.t) :=
  query (fun d =>
    match select_first (run_named run) (runs d) with
    | Some r => Some <$> parse_run_status 0 (status r)
    | None => Ok None
    end).

Definition persist_run_status_conditional_with_conn (run : string) (s : RunStatus.t)
    (step : option string) : M Db SqlError bool :=
  t ← now;
  updated ← execute (update_runs (not_terminal_guard run) (status_row s step t));
  mret (bool_decide (0 < updated)).

Definition persist_run_status_conditional_outcome_in_transaction (run : string) (s : RunStatus.t)
    (step : option string) : M Db SqlError ConditionalStatusOutcome :=
  applied ← persist_run_status_conditional_with_conn run s step;
  if (applied : bool) then mret Updated
  else
    current ← get_run_status_with_conn run;
    mret (match current with None => RunMissing | Some c => AlreadyTerminal c end).

Definition persist_run_status_conditional_outcome_with_conn (run : string) (s : RunStatus.t)
    (step : option string) : M Db SqlError ConditionalStatusOutcome :=
  transaction id (persist_run_status_conditional_outcome_in_transaction run s step).

Definition classify_expected_status_rejection (run : string)
    : M Db SqlError Expected.ExpectedRunStatusOutcome :=
  current ← get_run_status_with_conn run;
  mret (match current with Some _ => Expected.StatusMismatch | None => Expected.RunMissing end).

Definition persist_run_status_from_expected_in_transaction (run : string) (s : RunStatus.t)
    (step : option string) (expected : list RunStatus.t)
    : M Db SqlError Expected.ExpectedRunStatusOutcome :=
  if bool_decide (expected = []) then classify_expected_status_rejection run
  else
    t ← now;
    updated ← execute (update_runs (expected_guard run expected) (status_row s step t));
    if bool_decide (0 < updated) then mret Expected.Updated
    else classify_expected_status_rejection run.
End Operations.

(** ** Invariant and lemmas *)

(** The table's primary key. *)
Definition runs_ok (d : Db) : Prop := NoDup (run_id <$> runs d).
#[global] Instance runs_ok_dec d : Decision (runs_ok d).
Proof. unfold runs_ok. apply _. Defined.

Definition run_row (run : string) (d : Db) : option RunRow := select_first (run_named run) (runs d).

Lemma run_named_id run r : run_named run r = true <-> run_id r = run.
Proof. apply bool_decide_eq_true. Qed.

Lemma run_named_same run (r r' : RunRow) :
  run_named run r = true -> run_named run r' = true -> run_id r = run_id r'.
Proof. by intros ->%run_named_id ->%run_named_id. Qed.

(** What a reader recovers from a bound row: everything, for [u32] pids. *)
Lemma map_bound_row (m : RunMetadata) :
  from_option is_u32 True (process_pid m) -> map_run_row (bind_run_metadata_params m) = Ok m.
Proof.
  intros Hpid. unfold map_run_row, parse_run_status. cbn.
  pose proof (from_to_text (A := RunStatus.t) (status m)) as Ht. cbn in Ht. rewrite Ht. cbn.
  destruct m as [? ? ? ? ? ? ? ? ? ? ? ? ? ? ? ? ? [pid|] ? ? ? ?]; cbn in *; by rewrite ?as_u32_id.
Qed.

Lemma map_run_row_status r m : map_run_row r = Ok m -> RunStatus.to_string (status m) = status r.
Proof.
  unfold map_run_row, parse_run_status.
  destruct (RunStatus.from_str (status r)) as [s|] eqn:E; cbn; [|done]. intros [= <-]. cbn.
  exact (to_from_text (A := RunStatus.t) _ _ E).
Qed.

(** A row whose text is not a terminal status parses to a status that is not
    terminal, and the other way round. *)
Lemma terminal_text c (s : RunStatus.t) (text : string) :
  parse_run_status c text = Ok s ->
  existsb (fun t => text =?s t) RunStatus.TERMINAL_SQL = RunStatus.is_terminal s.
Proof.
  unfold parse_run_status. destruct (RunStatus.from_str text) as [s'|] eqn:E; cbn; [|done].
  intros [= ->]. pose proof (to_from_text (A := RunStatus.t) _ _ E) as Ht. cbn in Ht.
  rewrite <- Ht. apply RunStatus.terminal_sql_is_terminal.
Qed.

(** *** The chunked reader *)

Lemma unique_run_ids_spec (ids acc : list string) :
  NoDup acc ->
  let u := fold_left (fun seen id => if bool_decide (id ∈ seen) then seen else seen ++ [id]) ids acc in
  NoDup u /\ forall id, id ∈ u <-> id ∈ acc \/ id ∈ ids.
Proof.
  cbn. revert acc. induction ids as [|i ids IH]; intros acc Hnd; cbn.
  { split; [done|]. intros id. rewrite elem_of_nil. tauto. }
  case_bool_decide as Hi.
  - destruct (IH acc Hnd) as [Hu Hin]. split; [done|]. intros id.
    rewrite Hin, elem_of_cons. split; [intros [|]; auto|intros [|[->|]]; auto].
  - destruct (IH (acc ++ [i])) as [Hu Hin].
    { apply NoDup_app. split; [done|]. split; [|apply NoDup_singleton].
      by intros x Hx ->%list_elem_of_singleton. }
    split; [done|]. intros id. rewrite Hin, elem_of_app, list_elem_of_singleton, elem_of_cons. tauto.
Qed.

Lemma concat_chunks {A} n (l : list A) : 0 < n -> concat (chunks n l) = l.
Proof.
  intros Hn. unfold chunks. remember (length l) as fuel eqn:Hf.
  assert (Hle : length l <= fuel) by lia. clear Hf. revert l Hle.
  induction fuel as [|fuel IH]; intros l Hle; cbn.
  { destruct l; cbn in *; [done|lia]. }
  destruct l as [|a l]; [done|]. cbn [concat].
  rewrite IH; [apply take_drop|]. rewrite length_drop. cbn in *. lia.
Qed.

(** What the reader makes of the rows. *)
Definition readable (r : RunRow) : option RunMetadata := res_ok (map_run_row r).
Definition asked (ids : list string) (rows : list RunRow) : list RunRow :=
  select_where (fun r => bool_decide (run_id r ∈ ids)) rows.

Lemma asked_app ids ids' rows :
  NoDup (ids ++ ids') -> asked (ids ++ ids') rows ≡ₚ asked ids rows ++ asked ids' rows.
Proof.
  intros (_ & Hd & _)%NoDup_app. unfold asked.
  rewrite <- (select_where_disjoint (R := RunRow)).
  - apply reflexive_eq. unfold select_where. apply filter_ext. intros r.
    destruct (bool_decide_reflect (run_id r ∈ ids)) as [Hi|Hi], (bool_decide_reflect (run_id r ∈ ids'))
      as [Hi'|Hi']; cbn; rewrite ?bool_decide_eq_true, ?bool_decide_eq_false, elem_of_app; tauto.
  - intros r Hr%bool_decide_eq_true. apply bool_decide_eq_false. by apply Hd.
Qed.

Section Lemmas.
Context `{Env}.

(** The loop over chunks reads what one query for all the ids would. *)
Lemma list_chunks_wp cs acc w :
  NoDup (concat cs) ->
  wp (list_chunks cs acc)
     (fun r w' =>
        w_db w' = w_db w /\
        match r with
        | Ok found =>
            found ≡ₚ acc ++ omap readable (asked (concat cs) (runs (w_db w))) /\
            Forall (fun r => is_ok (map_run_row r) = true) (asked (concat cs) (runs (w_db w)))
        | Err _ => True
        end) w.
Proof.
  revert acc w. induction cs as [|c cs IH]; intros acc w Hnd; cbn [list_chunks concat].
  { apply wp_ret. unfold asked, select_where. rewrite (filter_ext _ (fun _ => false)).
    - split; [done|]. induction (runs (w_db w)); cbn; [|done]. by rewrite app_nil_r.
    - intros r. apply bool_decide_eq_false, not_elem_of_nil. }
  apply wp_bind. unfold list_runs_by_id_chunk. apply wp_query; [by intros|].
  intros w1 Hw1. fold (asked c (runs (w_db w))).
  destruct (mapM map_run_row _) as [found|e] eqn:Em; [|done].
  apply mapM_Ok in Em as [-> Hall].
  assert (Hnd' := Hnd). apply NoDup_app in Hnd' as (_ & _ & Hcs).
  eapply wp_consequence; [by apply IH|]. rewrite Hw1.
  intros [found|e] w2 [Hw2 Hr]; [|done]. destruct Hr as [Hp Hf]. split; [done|].
  rewrite (merge_sort_Permutation newer_run) in Hall. split.
  - rewrite Hp. fold readable. rewrite (merge_sort_Permutation newer_run (asked _ _)).
    by rewrite (asked_app c (concat cs)), omap_app, (assoc_L (++)).
  - rewrite (asked_app c (concat cs)) by done. by apply Forall_app.
Qed.

(** The whole record written, and what it reads back as. *)
Definition run_saved (m : RunMetadata) (d : Db) : Db :=
  d <| runs := upsert_by same_run (fun new _ => new) (bind_run_metadata_params m) (runs d) |>.

Lemma persist_run_wp m w :
  wp (persist_run_with_conn m)
     (fun r w' =>
        match r with
        | Ok _ => w_db w' = run_saved m (w_db w)
        | Err e => w_db w' = w_db w /\ e = SqliteFailure
        end) w.
Proof. unfold persist_run_with_conn, upsert_run. wp_run; by db_eqs. Qed.

Lemma run_saved_row m d : run_row (run_id m) (run_saved m d) = Some (bind_run_metadata_params m).
Proof.
  unfold run_row, run_saved. cbn. apply select_first_upsert; [|by apply run_named_id].
  intros r'. apply bool_decide_ext. cbn. split; congruence.
Qed.

(** The reader, and what it says of the row it read. *)
Lemma get_run_wp run w :
  wp (get_run_with_conn run)
     (fun r w' =>
        w_db w' = w_db w /\
        match r with
        | Ok None => run_row run (w_db w) = None
        | Ok (Some m) =>
            run_id m = run /\ from_option is_u32 True (process_pid m) /\
            exists row, run_row run (w_db w) = Some row /\ map_run_row row = Ok m
        | Err _ => True
        end) w.
Proof.
  unfold get_run_with_conn, run_row. wp_run; split; auto.
  destruct (select_first _ _) as [row|] eqn:Erow; [|done].
  destruct (map_run_row row) as [m|e] eqn:Em; cbn; [|done].
  apply select_first_Some in Erow as [_ Hid%run_named_id].
  unfold map_run_row in Em. destruct (parse_run_status 3 (status row)) as [s|] eqn:Es; cbn in Em; [|done].
  injection Em as <-. split; [done|]. split; [|exists row; split; [done|]; unfold map_run_row; by rewrite Es].
  cbn. destruct (process_pid row) as [pid|]; cbn; [|done].
  unfold is_u32, as_u32, u32_max. pose proof (Z.mod_pos_bound pid (2 ^ 32)). lia.
Qed.

(** One guarded update of the table, for any guard on one run. *)
Lemma guarded_run_update run g f w :
  runs_ok (w_db w) ->
  (forall r, g r = true -> run_named run r = true /\ run_named run (f r) = true) ->
  wp (execute (update_runs g f))
     (fun r w' =>
        match r with
        | Ok n =>
            w_db w' = (w_db w) <| runs := update_where g f (runs (w_db w)) |> /\
            if bool_decide (0 < n)
            then exists old, run_row run (w_db w) = Some old /\ g old = true /\
                   run_row run (w_db w') = Some (f old) /\
                   forall other, other <> run ->
                     run_row other (w_db w') = run_row other (w_db w)
            else w_db w' = w_db w /\
                 forall old, run_row run (w_db w) = Some old -> g old = false
        | Err e => e = SqliteFailure /\ w_db w' = w_db w
        end) w.
Proof.
  intros Hok Hg. wp_run; [done|done|].
  match goal with H : update_runs _ _ _ = _ |- _ => injection H as <- <- end.
  db_eqs. split; [done|].
  pose proof (guarded_update (R := RunRow) run_id (run_named run) g f _ Hok (run_named_same run) Hg) as Hu.
  destruct (bool_decide (0 < _)).
  - destruct Hu as (old & Hold & Hgo & Hnew). exists old. split_and!; try done.
    intros other Hne. unfold run_row. cbn. apply select_first_update_other.
    intros r [Hr Hfr]%Hg. apply run_named_id in Hr, Hfr.
    split; apply bool_decide_eq_false; congruence.
  - destruct Hu as [Hu Hno]. split; [|done]. rewrite Hu. by destruct (w_db w).
Qed.

Lemma not_terminal_named run s step t r :
  not_terminal_guard run r = true ->
  run_named run r = true /\ run_named run (status_row s step t r) = true.
Proof. by intros [? _]%andb_true_iff. Qed.

Lemma expected_named run expected s step t r :
  expected_guard run expected r = true ->
  run_named run r = true /\ run_named run (status_row s step t r) = true.
Proof. by intros [? _]%andb_true_iff. Qed.

(** The strict status reader. *)
Lemma get_run_status_wp run w :
  wp (get_run_status_with_conn run)
     (fun r w' =>
        w_db w' = w_db w /\
        match r with
        | Ok None => run_row run (w_db w) = None
        | Ok (Some s) =>
            exists old, run_row run (w_db w) = Some old /\ parse_run_status 0 (status old) = Ok s
        | Err e => e = SqliteFailure \/ e = FromSqlConversionFailure 0
        end) w.
Proof.
  unfold get_run_status_with_conn, run_row. wp_run; split; auto.
  destruct (select_first _ _) as [old|]; [|done].
  destruct (parse_run_status 0 (status old)) as [s|e] eqn:E; cbn; [eauto|].
  right. unfold parse_run_status in E. destruct (RunStatus.from_str _); cbn in E; congruence.
Qed.

(** What an update from expected statuses does. *)
Lemma expected_status_wp run s step expected w :
  runs_ok (w_db w) ->
  wp (persist_run_status_from_expected_in_transaction run s step expected)
     (fun r w' =>
        match r with
        | Ok Expected.Updated =>
            exists old t, run_row run (w_db w) = Some old /\ expected_guard run expected old = true /\
              run_row run (w_db w') = Some (status_row s step t old) /\
              w_db w' = (w_db w) <| runs :=
                update_where (expected_guard run expected) (status_row s step t) (runs (w_db w)) |>
        | Ok Expected.StatusMismatch =>
            w_db w' = w_db w /\
            exists old, run_row run (w_db w) = Some old /\ expected_guard run expected old = false
        | Ok Expected.RunMissing => w_db w' = w_db w /\ run_row run (w_db w) = None
        | Err _ => w_db w' = w_db w
        end) w.
Proof.
  intros Hok. unfold persist_run_status_from_expected_in_transaction.
  assert (Hclassify : forall w', w_db w' = w_db w ->
    (forall old, run_row run (w_db w) = Some old -> expected_guard run expected old = false) ->
    wp (classify_expected_status_rejection run)
       (fun r w' =>
          match r with
          | Ok Expected.Updated => False
          | Ok Expected.StatusMismatch =>
              w_db w' = w_db w /\
              exists old, run_row run (w_db w) = Some old /\ expected_guard run expected old = false
          | Ok Expected.RunMissing => w_db w' = w_db w /\ run_row run (w_db w) = None
          | Err _ => w_db w' = w_db w
          end) w').
  { intros w' Hw' Hno. unfold classify_expected_status_rejection. apply wp_bind.
    eapply wp_consequence; [apply get_run_status_wp|]. rewrite Hw'.
    intros [[s'|]|e] w2 [Hw2 Hr]; wp_run; [|done|done].
    destruct Hr as (old & Hold & _). eauto. }
  case_bool_decide as He.
  - eapply wp_consequence; [apply (Hclassify w)|]; [done| |by intros [[]|] ?].
    intros old _. subst. unfold expected_guard. cbn. apply andb_false_r.
  - wp_steps. eapply wp_consequence;
      [apply (guarded_run_update run); [congruence|apply expected_named]|].
    intros [n|e] w2; [|intros [_ ?]; congruence].
    intros [Hdb Hn]. destruct (bool_decide (0 < n)); wp_run.
    + destruct Hn as (old & Hold & Hg & Hnew & _). exists old. eexists. db_eqs. by split_and!.
    + destruct Hn as [Hw2 Hno].
      eapply wp_consequence; [apply (Hclassify w2)|]; [congruence| |by intros [[]|] ?].
      intros old Hold. apply Hno. congruence.
Qed.
(** The guarded status update, inside whatever transaction the caller has: it
    also says exactly what the row becomes and that nothing else changes. *)
Lemma conditional_status_tx_wp run s step w :
  runs_ok (w_db w) ->
  wp (persist_run_status_conditional_outcome_in_transaction run s step)
     (fun r w' =>
        match r with
        | Ok Updated =>
            exists old t, run_row run (w_db w) = Some old /\
              existsb (fun t => status old =?s t) RunStatus.TERMINAL_SQL = false /\
              run_row run (w_db w') = Some (status_row s step t old) /\
              w_db w' = (w_db w) <| runs :=
                update_where (not_terminal_guard run) (status_row s step t) (runs (w_db w)) |> /\
              forall other, other <> run -> run_row other (w_db w') = run_row other (w_db w)
        | Ok (AlreadyTerminal t) =>
            w_db w' = w_db w /\ RunStatus.is_terminal t = true /\
            exists old, run_row run (w_db w) = Some old /\ status old = RunStatus.to_string t
        | Ok RunMissing => w_db w' = w_db w /\ run_row run (w_db w) = None
        | Err e => w_db w' = w_db w /\ (e = SqliteFailure \/ e = FromSqlConversionFailure 0)
        end) w.
Proof.
  intros Hok. unfold persist_run_status_conditional_outcome_in_transaction,
    persist_run_status_conditional_with_conn.
  wp_steps.
  eapply wp_consequence;
    [apply (guarded_run_update run); [congruence|apply not_terminal_named]|].
  intros [n|e] w2; [|intros [-> ?]; split; [congruence|auto]]. intros [Hdb Hn].
  destruct (bool_decide (0 < n)); wp_steps.
  - destruct Hn as (old & Hold & Hg & Hnew & Hother). db_eqs.
    apply andb_true_iff in Hg as [_ Hg%negb_true_iff]. by exists old; eexists; split_and!.
  - destruct Hn as [Hw2 Hno].
    eapply wp_consequence; [apply get_run_status_wp|].
    intros [[t|]|e] w3 [Hw3 Hr]; wp_steps; [|split; congruence|split; [congruence|done]].
    destruct Hr as (old & Hold & Hp). assert (Hw : w_db w2 = w_db w) by congruence.
    rewrite Hw in Hold. split_and!; [congruence| |].
    + rewrite <- (terminal_text _ _ _ Hp).
      assert (not_terminal_guard run old = false) as Hno' by (apply Hno; congruence).
      apply select_first_Some in Hold as [_ Hn]. unfold not_terminal_guard in Hno'.
      rewrite Hn in Hno'. by apply negb_false_iff in Hno'.
    + exists old. split; [done|].
      unfold parse_run_status in Hp. destruct (RunStatus.from_str _) eqn:E; [|done].
      injection Hp as <-. symmetry. exact (to_from_text (A := RunStatus.t) _ _ E).
Qed.
End Lemmas.

(** ** Main theorems *)

Section Claims.
Context `{Env}.

(** A finished run is never resurrected.  The guarded status update
    answers [Updated] exactly when the run exists and its stored status is not
    terminal; then it has the new status and keeps its step unless one is
    given, and no other run changed.  [AlreadyTerminal] reports a status that
    is terminal indeed, [RunMissing] a run that does not exist, and every
    answer but [Updated] leaves the database as it was. *)
Theorem conditional_status_never_resurrects (run : string) (s : RunStatus.t)
    (step : option string) (w : World Db) (Hok : runs_ok (w_db w)) :
  wp (persist_run_status_conditional_outcome_with_conn run s step)
     (fun r w' =>
        match r with
        | Ok Updated =>
            exists old new, run_row run (w_db w) = Some old /\
              existsb (fun t => status old =?s t) RunStatus.TERMINAL_SQL = false /\
              run_row run (w_db w') = Some new /\ status new = RunStatus.to_string s /\
              current_step new = opt_or step (current_step old) /\
              forall other, other <> run -> run_row other (w_db w') = run_row other (w_db w)
        | Ok (AlreadyTerminal t) =>
            w_db w' = w_db w /\ RunStatus.is_terminal t = true /\
            exists old, run_row run (w_db w) = Some old /\ status old = RunStatus.to_string t
        | Ok RunMissing => w_db w' = w_db w /\ run_row run (w_db w) = None
        | Err _ => w_db w' = w_db w
        end) w.
Proof.
  unfold persist_run_status_conditional_outcome_with_conn.
  apply wp_transaction; [done|]. intros w1 Hw1.
  eapply wp_consequence; [apply conditional_status_tx_wp; congruence|]. rewrite Hw1.
  intros [[|t|]|e] w2; [..|done].
  - intros (old & t & ? & ? & ? & _ & Hother) w3 Hw3. exists old. eexists. rewrite Hw3.
    by split_and!.
  - intros [? ?] w3 Hw3. by rewrite Hw3.
  - intros [? ?] w3 Hw3. by rewrite Hw3.
Qed.

(** Reading selected runs in chunks of 500 ids is one query: the result is,
    newest first, every run whose id was asked (repeated ids counted once), each
    exactly once; and nothing is written. *)
Theorem list_runs_by_ids_chunks (ids : list string) (w : World Db) :
  wp (list_runs_by_ids_with_conn ids)
     (fun r w' =>
        w_db w' = w_db w /\
        match r with
        | Ok found =>
            found ≡ₚ omap readable (asked ids (runs (w_db w))) /\
            Forall (fun r => is_ok (map_run_row r) = true) (asked ids (runs (w_db w))) /\
            Sorted newer_run found
        | Err _ => True
        end) w.
Proof.
  destruct (unique_run_ids_spec ids [] (NoDup_nil_2)) as [Hnd Hin].
  fold (unique_run_ids ids) in Hnd, Hin.
  assert (Hasked : forall rows, asked (unique_run_ids ids) rows = asked ids rows).
  { intros rows. unfold asked, select_where. apply filter_ext. intros r.
    apply bool_decide_ext. rewrite Hin, elem_of_nil. tauto. }
  unfold list_runs_by_ids_with_conn. case_bool_decide as He.
  - apply wp_ret. rewrite <- Hasked, He. split; [done|]. unfold asked, select_where.
    rewrite (filter_ext _ (fun _ => false)); [|intros; by apply bool_decide_eq_false, not_elem_of_nil].
    induction (runs (w_db w)); cbn; [|done]. split_and!; constructor.
  - apply wp_bind. eapply wp_consequence.
    { apply list_chunks_wp. rewrite concat_chunks; [done|unfold RUN_ID_QUERY_CHUNK_SIZE; lia]. }
    rewrite concat_chunks by (unfold RUN_ID_QUERY_CHUNK_SIZE; lia). rewrite Hasked.
    intros [found|e] w1 [Hw1 Hr]; [|done]. destruct Hr as [Hp Hf]. apply wp_ret.
    split_and!; [done| |done|].
    + by rewrite (merge_sort_Permutation newer_run), Hp.
    + apply Sorted_merge_sort. intros a b. unfold newer_run. lia.
Qed.

(** A persisted run reads back as it was, over whatever row had its id
    before, and the other runs' rows are as before. *)
Theorem persist_run_roundtrip (m : RunMetadata) (w : World Db)
    (Hok : runs_ok (w_db w)) (Hpid : from_option is_u32 True (process_pid m)) :
  wp (persist_run_with_conn m;; get_run_with_conn (run_id m))
     (fun r w' =>
        r = Err SqliteFailure \/
        r = Ok (Some m) /\ runs_ok (w_db w') /\
        forall other, other <> run_id m -> run_row other (w_db w') = run_row other (w_db w)) w.
Proof.
  unfold persist_run_with_conn, get_run_with_conn, upsert_run. wp_run; auto.
  set (row := bind_run_metadata_params m).
  assert (Hdb : w_db w' = (w_db w) <| runs := upsert_by same_run (fun new _ => new) row (runs (w_db w)) |>)
    by by db_eqs.
  assert (Hw0 : w_db w'0 = w_db w') by by db_eqs.
  right. rewrite Hw0, Hdb. split_and!.
  - cbn. rewrite select_first_upsert; [unfold row; by rewrite map_bound_row| |by apply run_named_id].
    intros r'. apply bool_decide_ext. cbn. split; congruence.
  - unfold runs_ok. cbn. apply upsert_by_keys; [|by intros r' ?%bool_decide_eq_true|done].
    intros r'. apply bool_decide_eq_true.
  - intros other Hne. unfold run_row. cbn. apply select_first_upsert_other.
    + intros r' Hs%bool_decide_eq_true. apply bool_decide_eq_false. cbn in Hs. congruence.
    + apply bool_decide_eq_false. cbn. congruence.
Qed.

(** The initial row of a launch is inserted fail closed.  [Inserted] means
    there was no run of that id and now there is exactly this row; [Collision]
    means there was one, and it is untouched; any other error changes nothing. *)
Theorem insert_initial_run_fail_closed (m : RunMetadata) (w : World Db) :
  wp (insert_initial_run_with_conn m)
     (fun r w' =>
        match r with
        | Ok Inserted =>
            run_row (run_id m) (w_db w) = None /\
            w_db w' = (w_db w) <| runs := runs (w_db w) ++ [bind_run_metadata_params m] |>
        | Ok Collision => w_db w' = w_db w /\ is_Some (run_row (run_id m) (w_db w))
        | Err e => e = SqliteFailure /\ w_db w' = w_db w
        end) w.
Proof.
  unfold insert_initial_run_with_conn, run_row. wp_run; unfold classify_collision; wp_run.
  - done.
  - match goal with H : insert_run _ _ = _ |- _ => unfold insert_run in H end.
    destruct (exists_where _ _) eqn:Ex; [|done].
    match goal with H : Err _ = Err _ |- _ => injection H as <- end. wp_run. split; [done|].
    apply exists_where_true in Ex as (r & Hr & Hn).
    destruct (select_first _ _) eqn:Es; [by eexists|].
    rewrite select_first_None in Es. cbn in Hn. by rewrite Es in Hn.
  - match goal with H : insert_run _ _ = _ |- _ => unfold insert_run in H end.
    destruct (exists_where _ _) eqn:Ex; [done|].
    match goal with H : Ok _ = Ok _ |- _ => injection H as <- end.
    split; [|by db_eqs]. apply select_first_None. by apply exists_where_false.
Qed.
End Claims.

(** ** Witnesses *)

#[local] Existing Instance calm.

Definition sample_run (run : string) (s : RunStatus.t) : RunMetadata :=
  (RunMeta.new run "wf" "cfg" 5) <| status := s |> <| current_step := Some "plan" |>.
Definition sample_runs : Db :=
  empty_db <| runs := bind_run_metadata_params <$>
    [sample_run "run-1" RunStatus.Running; sample_run "run-2" RunStatus.Completed] |>.

Lemma conditional_status_never_resurrects_witness :
  let w := start sample_runs in
  let w' := snd (persist_run_status_conditional_outcome_with_conn "run-2" RunStatus.WaitingExternal
                   None w) in
  runs_ok (w_db w) /\
  w_db w' = w_db w /\ RunStatus.is_terminal RunStatus.Completed = true /\
  exists old, run_row "run-2" (w_db w) = Some old /\ status old = "completed".
Proof.
  intros w w'. split; [by_computation|].
  exact (conditional_status_never_resurrects "run-2" RunStatus.WaitingExternal None w
           ltac:(by_computation)).
Defined.

Lemma persist_run_roundtrip_witness :
  let w := start sample_runs in
  let m := sample_run "run-1" RunStatus.Failed in
  wp (persist_run_with_conn m;; get_run_with_conn "run-1")
     (fun r w' =>
        r = Err SqliteFailure \/
        r = Ok (Some m) /\ runs_ok (w_db w') /\
        forall other, other <> "run-1" -> run_row other (w_db w') = run_row other (w_db w)) w.
Proof. intros w m. apply (persist_run_roundtrip m w); [by_computation|done]. Defined.
