(* ===== verification/WaitStates.v ===== *)
(** External waits ([persistence/wait_state.rs]): suspending a run, its
    checkpoint, its wait record and its lease in one transaction, and the
    readers and guarded writers the poller uses. *)
From S2P Require Import Prelude Effects Sql Status Schema Checkpoints Leases Runs.

(** ** Errors *)

Inductive WaitStateWriteError :=
| EmptySuspensionId (run : string)
| WriteSqlite (e : SqlError).

Inductive ExternalWaitError :=
| WaitRunMissing (run : string)
| RunAlreadyTerminal (run : string) (current : RunStatus.t)
| LeaseTransitionRejected (run : string)
| IdentityIncomplete (run field : string)
| WaitState (e : WaitStateWriteError)
| WaitCheckpoint (e : PersistenceError)
| WaitSqlite (e : SqlError).

(** ** Rows *)

Definition to_sql_i64 (value : Z) : Res SqlError Z :=
  if decide (value <= i64_max)%Z then Ok value else Err ToSqlConversionFailure.

Definition opt_to_sql (value : option Z) : Res SqlError (option Z) :=
  match value with Some v => Some <$> to_sql_i64 v | None => Ok None end.

(** [record_params]: the numbers are converted in the order they are bound. *)
Definition record_params (r : WaitStateRecord) : Res SqlError WaitRow :=
  issue ← to_sql_i64 (ws_issue_number r);
  pr ← opt_to_sql (ws_pr_number r);
  interval ← to_sql_i64 (poll_interval_seconds r);
  max_wait ← opt_to_sql (max_wait_seconds r);
  polls ← to_sql_i64 (poll_count r);
  mret (mkWait (ws_run_id r) (suspension_id r) (ws_lease_id r) (ws_workflow_type r)
          (ws_config_id r) (ws_repository r) issue pr (ws_head_sha r)
          (WaitKind.to_string (wait_kind r)) (wait_condition r) (last_observed_state r)
          (next_poll_at r) interval max_wait (resume_step r) (checkpoint_id r) polls
          (ws_created_at r) (ws_updated_at r)).

Definition nonnegative_i64_to_u64 (value : Z) (col : nat) : Res SqlError Z :=
  if decide (0 <= value)%Z then Ok value else Err (FromSqlConversionFailure col).

Definition optional_nonnegative_i64_to_u64 (value : option Z) (col : nat)
    : Res SqlError (option Z) :=
  match value with Some v => Some <$> nonnegative_i64_to_u64 v col | None => Ok None end.

Definition parse_wait_kind (s : string) (col : nat) : Res SqlError WaitKind.t :=
  res_map_err (fun _ => FromSqlConversionFailure col) (WaitKind.from_str s).

Definition row_to_wait_state (r : WaitRow) : Res SqlError WaitStateRecord :=
  issue ← nonnegative_i64_to_u64 (ws_issue_number r) 6;
  pr ← optional_nonnegative_i64_to_u64 (ws_pr_number r) 7;
  kind ← parse_wait_kind (wait_kind r) 9;
  interval ← nonnegative_i64_to_u64 (poll_interval_seconds r) 13;
  max_wait ← optional_nonnegative_i64_to_u64 (max_wait_seconds r) 14;
  polls ← nonnegative_i64_to_u64 (poll_count r) 17;
  mret (mkWait (ws_run_id r) (suspension_id r) (ws_lease_id r) (ws_workflow_type r)
          (ws_config_id r) (ws_repository r) issue pr (ws_head_sha r) kind (wait_condition r)
          (last_observed_state r) (next_poll_at r) interval max_wait (resume_step r)
          (checkpoint_id r) polls (ws_created_at r) (ws_updated_at r)).

Definition wait_of_run (run : string) (r : WaitRow) : bool := ws_run_id r =?s run.
Definition same_wait (a b : WaitRow) : bool := ws_run_id a =?s ws_run_id b.

(** [DO UPDATE SET]: every column but the run and the creation stamp. *)
Definition merge_wait (new old : WaitRow) : WaitRow := new <| ws_created_at := ws_created_at old |>.

(** [ORDER BY next_poll_at, repository, issue_number] *)
Definition poll_order (a b : WaitRow) : Prop :=
  (next_poll_at a < next_poll_at b)%Z \/
  (next_poll_at a = next_poll_at b /\
   (String.ltb (ws_repository a) (ws_repository b) = true \/
    (ws_repository a = ws_repository b /\ (ws_issue_number a <= ws_issue_number b)%Z))).
#[global] Instance poll_order_dec : RelDecision poll_order.
Proof. intros a b. unfold poll_order. apply _. Defined.

(** ** Statements *)

Definition upsert_wait (row : WaitRow) (d : Db) : Res SqlError (unit * Db) :=
  Ok (tt, d <| wait_states := upsert_by same_wait merge_wait row (wait_states d) |>).

Definition delete_waits (p : WaitRow -> bool) (d : Db) : Res SqlError (nat * Db) :=
  Ok (count_where p (wait_states d), d <| wait_states := delete_where p (wait_states d) |>).

Definition lease_waits_for (run lease : string) (l : LeaseRow) : bool :=
  lease_named lease l && (l_status l =?s LeaseStatus.as_str LeaseStatus.WaitingExternal)
  && lease_of_run run l.

(** The [EXISTS] of [has_pollable_external_wait]: the run, its wait record and
    its lease, joined. *)
Definition pollable_external_wait (run : string) (d : Db) : bool :=
  exists_where (fun r =>
    run_named run r && (status r =?s RunStatus.to_string RunStatus.WaitingExternal)
    && exists_where (fun ws =>
         (ws_run_id ws =?s run_id r)
         && match ws_lease_id ws with
            | None => false
            | Some lease =>
                negb (str_is_empty lease) && negb (str_is_empty (resume_step ws))
                && negb (str_is_empty (suspension_id ws))
                && exists_where (lease_waits_for (ws_run_id ws) lease) (issue_leases d)
            end) (wait_states d)) (runs d).

(** The [WHERE] of [list_pollable_wait_states]. *)
Definition due_wait (d : Db) (now : Z) (ws : WaitRow) : bool :=
  bool_decide (next_poll_at ws <= now)%Z && negb (str_is_empty (suspension_id ws))
  && match ws_lease_id ws with
     | None => false
     | Some lease => exists_where (lease_waits_for (ws_run_id ws) lease) (issue_leases d)
     end.

(** The optimistic guard of a poll's write. *)
Definition poll_guard (run : string) (polls : Z) (suspension : string) (ws : WaitRow) : bool :=
  wait_of_run run ws && bool_decide (poll_count ws = polls) && (suspension_id ws =?s suspension).

Definition polled_row (observed : Json) (next now : Z) (ws : WaitRow) : WaitRow :=
  ws <| last_observed_state := observed |> <| next_poll_at := next |>
     <| poll_count := (poll_count ws + 1)%Z |> <| ws_updated_at := now |>.

(** ** Operations *)

(** [WaitStateRecord::new], the suspension id drawn by the caller's generator. *)
Definition new_wait (suspension run config : string) (now : Z) : WaitStateRecord :=
  mkWait run suspension None "" config "" 0 None None WaitKind.PrChecks JNull JNull now 300 None ""
    "" 0 now now.

Section Operations.
Context `{Env}.

Definition upsert_wait_state (r : WaitStateRecord) : M Db WaitStateWriteError unit :=
  if str_is_empty (suspension_id r) then throw (EmptySuspensionId (ws_run_id r))
  else
    row ← map_err WriteSqlite (lift_res (record_params r));
    map_err WriteSqlite (execute (upsert_wait row)).

Definition mark_run_waiting_external (run step : string) : M Db ExternalWaitError unit :=
  outcome ← map_err WaitSqlite
    (persist_run_status_conditional_outcome_in_transaction run RunStatus.WaitingExternal (Some step));
  match outcome with
  | Updated => mret tt
  | RunMissing => throw (WaitRunMissing run)
  | AlreadyTerminal current => throw (RunAlreadyTerminal run current)
  end.

(** The record's lease id when it is present and not empty. *)
Definition wait_lease_id (r : WaitStateRecord) : option string :=
  ws_lease_id r ≫= fun l => if str_is_empty l then None else Some l.

(** The writes of the transaction. *)
Definition external_wait_body (lease : string) (r : WaitStateRecord) : M Db ExternalWaitError unit :=
  map_err WaitCheckpoint (set_resume_point (ws_run_id r) (resume_step r));;
  mark_run_waiting_external (ws_run_id r) (resume_step r);;
  map_err WaitState (upsert_wait_state r);;
  applied ← map_err WaitSqlite
    (update_lease_status_conditional lease LeaseStatus.WaitingExternal
       [LeaseStatus.Running; LeaseStatus.WaitingExternal] None (Some (ws_run_id r)));
  if (applied : bool) then mret tt else throw (LeaseTransitionRejected (ws_run_id r)).

Definition persist_external_wait (r : WaitStateRecord) : M Db ExternalWaitError unit :=
  match wait_lease_id r with
  | None => throw (IdentityIncomplete (ws_run_id r) "lease_id")
  | Some lease =>
      if str_is_empty (ws_run_id r) then throw (IdentityIncomplete (ws_run_id r) "run_id")
      else if str_is_empty (resume_step r) then
        throw (IdentityIncomplete (ws_run_id r) "resume_step")
      else if str_is_empty (suspension_id r) then
        throw (IdentityIncomplete (ws_run_id r) "suspension_id")
      else transaction WaitSqlite (external_wait_body lease r)
  end.

Definition has_pollable_external_wait (run : string) : M Db SqlError bool :=
  query (fun d => Ok (pollable_external_wait run d)).

Definition get_wait_state (run : string) : M Db SqlError (option WaitStateRecord) :=
  query (fun d =>
    match select_first (wait_of_run run) (wait_states d) with
    | Some row => Some <$> row_to_wait_state row
    | None => Ok None
    end).

Definition list_wait_states : M Db SqlError (list WaitStateRecord) :=
  query (fun d => mapM (M := Res SqlError) row_to_wait_state (merge_sort poll_order (wait_states d))).

Definition list_pollable_wait_states (at_time : Z) : M Db SqlError (list WaitStateRecord) :=
  query (fun d => mapM (M := Res SqlError) row_to_wait_state
    (merge_sort poll_order (select_where (due_wait d at_time) (wait_states d)))).

Definition update_wait_state_after_poll (run : string) (observed : Json) (next expected_polls : Z)
    (expected_suspension : string) : M Db SqlError bool :=
  t ← now;
  polls ← lift_res (to_sql_i64 expected_polls);
  rows ← execute (fun d =>
    let g := poll_guard run polls expected_suspension in
    Ok (count_where g (wait_states d),
        d <| wait_states := update_where g (polled_row observed next t) (wait_states d) |>));
  mret (bool_decide (0 < rows)).

Definition delete_wait_state (run : string) : M Db SqlError bool :=
  deleted ← execute (delete_waits (wait_of_run run));
  mret (bool_decide (0 < deleted)).

Definition delete_wait_state_for_suspension (run suspension : string) : M Db SqlError bool :=
  deleted ← execute (delete_waits (fun ws => wait_of_run run ws && (suspension_id ws =?s suspension)));
  mret (bool_decide (0 < deleted)).
End Operations.

(** ** Invariants and lemmas *)

Definition waits_ok (d : Db) : Prop := NoDup (ws_run_id <$> wait_states d).
#[global] Instance waits_ok_dec d : Decision (waits_ok d).
Proof. unfold waits_ok. apply _. Defined.

(** The uniqueness constraints of the tables a suspension touches. *)
Definition tables_ok (d : Db) : Prop := leases_ok d /\ runs_ok d /\ waits_ok d.
#[global] Instance tables_ok_dec d : Decision (tables_ok d).
Proof. unfold tables_ok. apply _. Defined.

Definition wait_row (run : string) (d : Db) : option WaitRow :=
  select_first (wait_of_run run) (wait_states d).

Lemma record_params_columns r row :
  record_params r = Ok row ->
  ws_run_id row = ws_run_id r /\ suspension_id row = suspension_id r /\
  ws_lease_id row = ws_lease_id r /\ resume_step row = resume_step r /\
  poll_count row = poll_count r.
Proof.
  unfold record_params, opt_to_sql, to_sql_i64, mbind, Res_bind, fmap, Res_fmap, mret,
    Res_ret.
  intros Hr. repeat (case_match; simplify_eq/=; try by split_and!).
Qed.

Lemma record_params_created r row :
  record_params r = Ok row -> ws_created_at row = ws_created_at r.
Proof.
  unfold record_params, opt_to_sql, to_sql_i64, mbind, Res_bind, fmap, Res_fmap, mret, Res_ret.
  intros Hr. repeat (case_match; simplify_eq/=; try done).
Qed.

(** The bound row of a record of [u64]s parses back to the record. *)
Lemma row_roundtrip r row c :
  Forall (fun z => 0 <= z)%Z
    [ws_issue_number r; default 0%Z (ws_pr_number r); poll_interval_seconds r;
     default 0%Z (max_wait_seconds r); poll_count r] ->
  record_params r = Ok row ->
  row_to_wait_state (row <| ws_created_at := c |>) = Ok (r <| ws_created_at := c |>).
Proof.
  intros Hall. repeat rewrite Forall_cons in Hall. destruct Hall as (H1 & H2 & H3 & H4 & H5 & _).
  unfold record_params, opt_to_sql, to_sql_i64, mbind, Res_bind, fmap, Res_fmap, mret, Res_ret.
  intros Hr. unfold row_to_wait_state, optional_nonnegative_i64_to_u64, nonnegative_i64_to_u64,
    parse_wait_kind, mbind, Res_bind, fmap, Res_fmap, mret, Res_ret.
  pose proof (from_to_text (A := WaitKind.t) (wait_kind r)) as Hk. cbn in Hk.
  destruct r as [? ? ? ? ? ? issue [pr|] ? kind ? ? ? interval [mw|] ? ? polls ? ?]; cbn in *;
    repeat (case_decide; [|done]); injection Hr as <-; cbn; rewrite Hk, !decide_True by done; cbn;
    rewrite ?decide_True by done; reflexivity.
Qed.

Section Lemmas.
Context `{Env}.

Lemma upsert_wait_state_wp r w :
  wp (upsert_wait_state r)
     (fun res w' =>
        match res with
        | Ok _ =>
            exists row, record_params r = Ok row /\ str_is_empty (suspension_id r) = false /\
              w_db w' = (w_db w) <| wait_states :=
                upsert_by same_wait merge_wait row (wait_states (w_db w)) |>
        | Err _ => w_db w' = w_db w
        end) w.
Proof.
  unfold upsert_wait_state, upsert_wait. destruct (str_is_empty (suspension_id r)) eqn:E; wp_run; [done|].
  destruct (record_params r) as [row|e]; wp_run; try done; db_eqs; eauto.
Qed.

(** The run, wait and lease a suspension leaves make the pollable predicate
    true. *)
Lemma pollable_intro run lease d rr ws l :
  run_row run d = Some rr -> status rr = RunStatus.to_string RunStatus.WaitingExternal ->
  wait_row run d = Some ws -> ws_lease_id ws = Some lease -> str_is_empty lease = false ->
  str_is_empty (resume_step ws) = false -> str_is_empty (suspension_id ws) = false ->
  lease_row lease d = Some l -> l_status l = LeaseStatus.as_str LeaseStatus.WaitingExternal ->
  l_run_id l = Some run ->
  pollable_external_wait run d = true.
Proof.
  intros Hrr Hst Hws Hlease Hl Hrs Hsus Hrow Hls Hlr.
  apply select_first_Some in Hrr as [Hrr Hrun]. apply run_named_id in Hrun as Hrid.
  apply select_first_Some in Hws as [Hws Hwrun%bool_decide_eq_true].
  apply exists_where_true. exists rr. split; [done|].
  rewrite Hrun, Hst, bool_decide_eq_true_2 by done. cbn [andb].
  apply exists_where_true. exists ws. split; [done|].
  rewrite Hlease, Hl, Hrs, Hsus, bool_decide_eq_true_2 by congruence. cbn [andb negb].
  apply (exists_where_select _ _ _ _ Hrow).
  apply select_first_Some in Hrow as [_ Hn]. unfold lease_waits_for.
  rewrite Hn, Hls, bool_decide_eq_true_2 by done. cbn [andb].
  apply lease_of_run_id. congruence.
Qed.
End Lemmas.

Lemma wait_of_run_same run (a b : WaitRow) :
  wait_of_run run a = true -> wait_of_run run b = true -> ws_run_id a = ws_run_id b.
Proof. intros ->%bool_decide_eq_true Hb%bool_decide_eq_true. done. Qed.

(** One guarded write of a poll. *)
Lemma update_after_poll_wp `{Env} run observed next polls suspension w :
  waits_ok (w_db w) ->
  wp (update_wait_state_after_poll run observed next polls suspension)
     (fun r w' =>
        match r with
        | Ok true =>
            exists old t, wait_row run (w_db w) = Some old /\
              poll_guard run polls suspension old = true /\
              wait_row run (w_db w') = Some (polled_row observed next t old) /\
              w_db w' = (w_db w) <| wait_states :=
                update_where (poll_guard run polls suspension) (polled_row observed next t)
                  (wait_states (w_db w)) |>
        | Ok false =>
            w_db w' = w_db w /\
            forall old, wait_row run (w_db w) = Some old -> poll_guard run polls suspension old = false
        | Err e => w_db w' = w_db w /\ (e = SqliteFailure \/ (i64_max < polls)%Z)
        end) w.
Proof.
  intros Hok. unfold update_wait_state_after_poll, to_sql_i64. wp_run.
  case_decide; wp_run; db_eqs; [auto| |split; [done|right; lia]].
  set (t := env_clock _). set (g := poll_guard run polls suspension).
  pose proof (guarded_update (R := WaitRow) ws_run_id (wait_of_run run) g (polled_row observed next t)
                _ Hok (wait_of_run_same run)) as Hg.
  destruct (bool_decide (0 < _)).
  - destruct Hg as (old & Hold & Hgo & Hnew).
    { by intros x [[? _]%andb_true_iff _]%andb_true_iff. }
    exists old, t. by split_and!.
  - destruct Hg as [Hg Hno].
    { by intros x [[? _]%andb_true_iff _]%andb_true_iff. }
    split; [|done]. rewrite Hg. by destruct (w_db w).
Qed.

(** ** Main theorems *)

Section Claims.
Context `{Env}.

(** C8: suspending a run on an external wait is all or nothing, whatever
    statement fails.  Success means a complete pollable wait: the run was not
    terminal and is now waiting at the resume step, its lease was running (or
    already waiting) for that run and is now waiting for it, and the wait
    record carries this suspension; any error leaves every table as it was. *)
Theorem persist_external_wait_atomic (r : WaitStateRecord) (w : World Db)
    (Hok : tables_ok (w_db w)) :
  let run := ws_run_id r in
  wp (persist_external_wait r)
     (fun res w' =>
        match res with
        | Ok _ =>
            pollable_external_wait run (w_db w') = true /\
            (exists old new, run_row run (w_db w) = Some old /\
               existsb (fun t => status old =?s t) RunStatus.TERMINAL_SQL = false /\
               run_row run (w_db w') = Some new /\ current_step new = Some (resume_step r)) /\
            (exists lease old, ws_lease_id r = Some lease /\ lease_row lease (w_db w) = Some old /\
               l_run_id old = Some run /\
               lease_status_in [LeaseStatus.Running; LeaseStatus.WaitingExternal] old = true) /\
            (exists ws, wait_row run (w_db w') = Some ws /\ suspension_id ws = suspension_id r /\
               poll_count ws = poll_count r)
        | Err _ => w_db w' = w_db w
        end) w.
Proof.
  intros run. unfold persist_external_wait, wait_lease_id.
  destruct (ws_lease_id r) as [lease|] eqn:El; cbn [mbind option_bind]; [|done].
  destruct (str_is_empty lease) eqn:Elease; [done|].
  destruct (str_is_empty (ws_run_id r)); [done|].
  destruct (str_is_empty (resume_step r)) eqn:Ers; [done|].
  destruct (str_is_empty (suspension_id r)) eqn:Esus; [done|].
  apply wp_transaction; [done|]. intros w1 Hw1. unfold external_wait_body. wp_steps.
  eapply wp_consequence; [apply set_resume_point_wp|]. intros [t0|e] w2; cbn [res_map_err]; [|done].
  rewrite Hw1. intros [Hw2 _]. unfold mark_run_waiting_external. wp_steps.
  destruct Hok as (Hleases & Hruns & Hwaits).
  eapply wp_consequence; [apply conditional_status_tx_wp; by rewrite Hw2|].
  intros [[|t|]|e] w3; wp_steps; try done.
  intros (old & t & Hold & Hnt & Hnew & Hw3 & _). wp_steps.
  eapply wp_consequence; [apply upsert_wait_state_wp|].
  intros [[]|e] w4; wp_steps; [|done]. intros (row & Hrow & _ & Hw4).
  unfold update_lease_status_conditional. wp_steps.
  eapply wp_consequence; [apply conditional_update_wp; rewrite Hw4, Hw3, Hw2; apply Hleases|].
  intros [[]|e] w5; wp_steps; try done.
  intros (l & t' & Hl & Hls & Hlo & Hlnew & Hw5). wp_steps. intros w6 Hw6.
  assert (Hl0 : lease_row lease (w_db w) = Some l) by by rewrite Hw4, Hw3, Hw2 in Hl.
  apply lease_of_run_id in Hlo.
  destruct (record_params_columns r row Hrow) as (Hr1 & Hr2 & Hr3 & Hr4 & Hr5).
  assert (Hrun6 : run_row run (w_db w6) =
            Some (status_row RunStatus.WaitingExternal (Some (resume_step r)) t old))
    by (by rewrite Hw6, Hw5, Hw4).
  set (prev := select_first (wait_of_run run) (wait_states (w_db w))).
  assert (Hwait6 : wait_row run (w_db w6) = Some (from_option (merge_wait row) row prev)).
  { rewrite Hw6, Hw5, Hw4, Hw3, Hw2. unfold wait_row. cbn.
    apply select_first_upsert_merge.
    - intros x. apply bool_decide_ext. rewrite Hr1. split; intros Hx; symmetry; exact Hx.
    - by apply bool_decide_eq_true.
    - intros x _. by apply bool_decide_eq_true. }
  split_and!.
  - eapply (pollable_intro run lease); [exact Hrun6|done|exact Hwait6|..];
      [by destruct prev; cbn; rewrite Hr3|done|by destruct prev; cbn; rewrite Hr4
      |by destruct prev; cbn; rewrite Hr2|by rewrite Hw6; exact Hlnew|done|done].
  - exists old. eexists. split_and!; [|done|exact Hrun6|done].
    by rewrite Hw2 in Hold.
  - exists lease, l. by split_and!.
  - eexists. split; [exact Hwait6|]. destruct prev; cbn; by rewrite Hr2, Hr5.
Qed.

(** The poll's optimistic guard.  A poll refreshes a wait record only while
    it is the suspension and the poll count the poller read: then the count goes
    up by one and the identity stays.  A poller that read the same snapshot and
    comes second (or reads a record whose run was resumed and suspended again,
    its count reset) changes nothing. *)
Theorem poll_update_guarded (run : string) (observed observed2 : Json) (next next2 polls : Z)
    (suspension : string) (w : World Db) (Hok : waits_ok (w_db w)) :
  wp (first ← update_wait_state_after_poll run observed next polls suspension;
      second ← update_wait_state_after_poll run observed2 next2 polls suspension;
      mret (first, second))
     (fun r w' =>
        match r with
        | Ok (first, second) =>
            second = false /\
            if first : bool then
              exists old new, wait_row run (w_db w) = Some old /\
                suspension_id old = suspension /\ poll_count old = polls /\
                wait_row run (w_db w') = Some new /\ poll_count new = (polls + 1)%Z /\
                suspension_id new = suspension /\ last_observed_state new = observed
            else w_db w' = w_db w /\
                 from_option (poll_guard run polls suspension) false (wait_row run (w_db w)) = false
        | Err _ => True
        end) w.
Proof.
  wp_steps. eapply wp_consequence; [by apply update_after_poll_wp|].
  intros [[]|e] w1; wp_steps; [..|done].
  - intros (old & t & Hold & Hg & Hnew & Hdb). wp_steps.
    apply andb_true_iff in Hg as [[Hn Hp%bool_decide_eq_true]%andb_true_iff Hs%bool_decide_eq_true].
    eapply wp_consequence; [apply update_after_poll_wp|].
    { unfold waits_ok. rewrite Hdb. cbn. by rewrite update_where_column. }
    intros [[]|e] w2; wp_steps; [|intros [Hw2 _]|done].
    + intros (old' & t' & Hold' & Hg' & _). rewrite Hnew in Hold'. injection Hold' as <-.
      apply andb_true_iff in Hg' as [[_ Hp'%bool_decide_eq_true]%andb_true_iff _]. cbn in Hp'. lia.
    + wp_steps. split; [done|]. exists old. eexists. rewrite Hw2. split_and!; try done. cbn. lia.
  - intros [Hdb Hno]. wp_steps. eapply wp_consequence; [apply update_after_poll_wp; congruence|].
    intros [[]|e] w2; wp_steps; [|intros [Hw2 _]; wp_steps|done].
    + intros (old' & t' & Hold' & Hg' & _). rewrite Hdb in Hold'. specialize (Hno old' Hold').
      congruence.
    + split; [done|]. split; [congruence|].
      destruct (wait_row run (w_db w)) as [old|]; [by apply Hno|done].
Qed.

(** A wait record reads back as it was written, except that replacing a
    run's record keeps the creation stamp of the first. *)
Theorem wait_state_roundtrip (r : WaitStateRecord) (w : World Db)
    (Hu64 : Forall (fun z => 0 <= z)%Z
              [ws_issue_number r; default 0%Z (ws_pr_number r); poll_interval_seconds r;
               default 0%Z (max_wait_seconds r); poll_count r]) :
  wp (upsert_wait_state r;; map_err WriteSqlite (get_wait_state (ws_run_id r)))
     (fun res w' =>
        match res with
        | Ok found =>
            exists c, found = Some (r <| ws_created_at := c |>) /\
              c = from_option ws_created_at (ws_created_at r) (wait_row (ws_run_id r) (w_db w))
        | Err (EmptySuspensionId _) => suspension_id r = "" /\ w_db w' = w_db w
        | Err (WriteSqlite ToSqlConversionFailure) =>
            w_db w' = w_db w /\ is_ok (record_params r) = false
        | Err (WriteSqlite e) => e = SqliteFailure
        end) w.
Proof.
  unfold upsert_wait_state, get_wait_state, upsert_wait.
  destruct (str_is_empty (suspension_id r)) eqn:E; wp_run.
  { apply bool_decide_eq_true in E. done. }
  destruct (record_params r) as [row|e] eqn:Erow; wp_run; try done.
  2:{ unfold record_params, opt_to_sql, to_sql_i64, mbind, Res_bind, fmap, Res_fmap, mret, Res_ret
        in Erow. repeat (case_match; simplify_eq/=; try done). }
  db_eqs. cbn [wait_states upd].
  destruct (record_params_columns r row Erow) as (Hr1 & _).
  rewrite select_first_upsert_merge.
  - fold (wait_row (ws_run_id r) (w_db w)).
    pose proof (row_roundtrip r row) as Hrt.
    destruct (wait_row (ws_run_id r) (w_db w)) as [old|]; cbn [from_option].
    + unfold merge_wait. rewrite (Hrt (ws_created_at old)) by done. cbn. eauto.
    + assert (Hrow : row = row <| ws_created_at := ws_created_at row |>) by by destruct row.
      rewrite Hrow, Hrt by done. cbn. eexists. split; [done|].
      by apply record_params_created in Erow.
  - intros x. apply bool_decide_ext. rewrite Hr1. split; intros Hx; symmetry; exact Hx.
  - by apply bool_decide_eq_true.
  - intros x _. by apply bool_decide_eq_true.
Qed.
End Claims.

(** ** Witnesses *)

#[local] Existing Instance calm.

(** A running run with its lease and a checkpoint, and a wait record for it. *)
Definition suspending_db : Db :=
  sample_runs <| checkpoints := sample_rows |>
              <| issue_leases := [sample_lease "l1" 1 "running" (Some "run-1") 7] |>.
Definition sample_wait : WaitStateRecord :=
  (new_wait "s-1" "run-1" "cfg" 50) <| ws_lease_id := Some "l1" |> <| resume_step := "review" |>.

Lemma persist_external_wait_atomic_witness :
  let w := start suspending_db in
  let w' := snd (persist_external_wait sample_wait w) in
  tables_ok (w_db w) /\
  pollable_external_wait "run-1" (w_db w') = true /\
  (exists old new, run_row "run-1" (w_db w) = Some old /\
     existsb (fun t => status old =?s t) RunStatus.TERMINAL_SQL = false /\
     run_row "run-1" (w_db w') = Some new /\ current_step new = Some "review") /\
  (exists lease old, Some "l1" = Some lease /\ lease_row lease (w_db w) = Some old /\
     l_run_id old = Some "run-1" /\
     lease_status_in [LeaseStatus.Running; LeaseStatus.WaitingExternal] old = true) /\
  (exists ws, wait_row "run-1" (w_db w') = Some ws /\ suspension_id ws = "s-1" /\
     poll_count ws = 0%Z).
Proof.
  intros w w'. split; [by_computation|].
  exact (persist_external_wait_atomic sample_wait w ltac:(by_computation)).
Defined.

(** The same database once the run waits. *)
Definition waiting_db : Db := w_db (snd (persist_external_wait sample_wait (start suspending_db))).

Lemma poll_update_guarded_witness :
  let w := start waiting_db in
  let both := first ← update_wait_state_after_poll "run-1" JNull 60 0 "s-1";
              second ← update_wait_state_after_poll "run-1" (JInt 1) 70 0 "s-1";
              mret (first, second) in
  let w' := snd (both w) in
  waits_ok (w_db w) /\
  false = false /\
  exists old new, wait_row "run-1" (w_db w) = Some old /\
    suspension_id old = "s-1" /\ poll_count old = 0%Z /\
    wait_row "run-1" (w_db w') = Some new /\ poll_count new = (0 + 1)%Z /\
    suspension_id new = "s-1" /\ last_observed_state new = JNull.
Proof.
  intros w both w'. split; [by_computation|].
  exact (poll_update_guarded "run-1" JNull (JInt 1) 60 70 0 "s-1" w ltac:(by_computation)).
Defined.

Lemma wait_state_roundtrip_witness :
  let w := start suspending_db in
  exists c, fst ((upsert_wait_state sample_wait;; map_err WriteSqlite (get_wait_state "run-1")) w) =
            Ok (Some (sample_wait <| ws_created_at := c |>)) /\ c = 50%Z.
Proof.
  intros w.
  destruct (wait_state_roundtrip sample_wait w ltac:(by_computation)) as (c & Hfound & Hc).
  exists c. split; [|exact Hc]. exact (f_equal Ok Hfound).
Defined.
