(* ===== verification/PollApply.v ===== *)
(** Applying what a poll decided ([daemon/poller.rs], [daemon/poller/apply.rs],
    [polling.rs]): one transaction over the run, its wait record, its checkpoint
    and its lease, then best-effort artifacts. *)
From S2P Require Import Prelude Effects Sql Status Schema Checkpoints Leases Runs WaitStates.

(** ** Decisions *)

Inductive PollClassification :=
| StillWaiting | ReadyToResume | TerminalFailure | TransientFailure | TimedOut.

#[global] Instance PollClassification_eq_dec : EqDecision PollClassification.
Proof. solve_decision. Defined.

Record PollDecision := mkPollDecision {
  pd_run_id : string;
  classification : PollClassification;
  pd_next_poll_at : option Z;
  observed_state : Json
}.

(** *** Poll times ([polling.rs]) *)

Definition MAX_POLL_INTERVAL_SECONDS : Z := 86400.

Definition bounded_poll_interval_seconds (seconds : Z) : Z :=
  if decide (seconds <= i64_max)%Z then Z.max 1 (Z.min seconds MAX_POLL_INTERVAL_SECONDS)
  else MAX_POLL_INTERVAL_SECONDS.

Definition next_poll_time_at (seconds now : Z) : Z :=
  (now + bounded_poll_interval_seconds seconds * NANOS)%Z.

Definition next_poll_time (r : WaitStateRecord) (now : Z) : Z :=
  next_poll_time_at (poll_interval_seconds r) now.

Definition validated_next_poll_time (r : WaitStateRecord) (candidate : option Z) (now : Z) : Z :=
  match candidate with
  | Some next => if bool_decide (now < next)%Z then next else next_poll_time r now
  | None => next_poll_time r now
  end.

(** *** Constructors of decisions *)

Definition still_waiting_with_state (r : WaitStateRecord) (state : Json) (now : Z) : PollDecision :=
  mkPollDecision (ws_run_id r) StillWaiting (Some (next_poll_time r now)) state.
Definition still_waiting (r : WaitStateRecord) (now : Z) : PollDecision :=
  still_waiting_with_state r (last_observed_state r) now.
Definition ready (r : WaitStateRecord) (state : Json) : PollDecision :=
  mkPollDecision (ws_run_id r) ReadyToResume None state.
Definition transient (r : WaitStateRecord) (state : Json) (now : Z) : PollDecision :=
  mkPollDecision (ws_run_id r) TransientFailure (Some (next_poll_time r now)) state.

(** *** Timeouts *)

Definition DEFAULT_MAX_CHILD_MERGE_WAIT_SECONDS : Z := 86400.

Definition effective_max_wait_seconds (r : WaitStateRecord) : option Z :=
  opt_or (max_wait_seconds r)
    match wait_kind r with
    | WaitKind.DependencyChildWorkflow | WaitKind.DependencyChildMerge =>
        Some DEFAULT_MAX_CHILD_MERGE_WAIT_SECONDS
    | _ => None
    end.

Definition json_opt_int (o : option Z) : Json := from_option JInt JNull o.

(** [signed_duration_since(..).num_seconds()] truncates toward zero. *)
Definition timeout_decision (r : WaitStateRecord) (now : Z) : option PollDecision :=
  max_wait ← effective_max_wait_seconds r;
  let max_wait := if decide (max_wait <= i64_max)%Z then max_wait else i64_max in
  if decide (Z.quot (now - ws_created_at r) NANOS <= max_wait)%Z then None
  else Some (mkPollDecision (ws_run_id r) TimedOut None (JObject (list_to_map
    [("classification", JString "timed_out");
     ("wait_kind", JString (WaitKind.to_string (wait_kind r)));
     ("max_wait_seconds", json_opt_int (max_wait_seconds r));
     ("effective_max_wait_seconds", JInt max_wait)]))).

(** *** Waiting for a child run *)

Definition child_workflow_status_ready (s : RunStatus.t) : bool :=
  RunStatus.is_terminal s || bool_decide (s = RunStatus.ReadyToResume).

Definition terminal_failure (r : WaitStateRecord) (state : Json) : PollDecision :=
  mkPollDecision (ws_run_id r) TerminalFailure None state.

Definition missing_identity_state (r : WaitStateRecord) : Json := JObject (list_to_map
  [("classification", JString "still_waiting");
   ("reason", JString "missing_poll_identity");
   ("wait_kind", JString (WaitKind.to_string (wait_kind r)));
   ("has_pr_number", JBool (bool_decide (is_Some (ws_pr_number r))));
   ("has_head_sha", JBool (bool_decide (is_Some (ws_head_sha r))))]).

Definition json_opt_string (o : option string) : Json := from_option JString JNull o.

Section ChildWorkflow.
Context `{Env}.

(** How [rusqlite] renders an error; only shown, never inspected. *)
Variable sql_error_text : SqlError -> string.

Definition transient_error (r : WaitStateRecord) (text : string) (now : Z) : PollDecision :=
  transient r (JObject (list_to_map
    [("classification", JString "transient_failure"); ("error", JString text)])) now.

(** The record's [head_sha] holds the child's run id.  [connected] is how
    opening the database went. *)
Definition poll_child_workflow (connected : Res string unit) (r : WaitStateRecord)
    : M Db SqlError PollDecision :=
  match ws_head_sha r with
  | None => mret (terminal_failure r (missing_identity_state r))
  | Some child =>
      match connected with
      | Err text => t ← now; mret (transient_error r text t)
      | Ok _ =>
          metadata ← try (get_run_with_conn child);
          match metadata with
          | Err e => t ← now; mret (transient_error r (sql_error_text e) t)
          | Ok None =>
              t ← now;
              mret (transient r (JObject (list_to_map
                [("classification", JString "transient_failure");
                 ("wait_kind", JString (WaitKind.to_string (wait_kind r)));
                 ("child_run_id", JString child);
                 ("reason", JString "child_run_metadata_missing")])) t)
          | Ok (Some m) =>
              let state := JObject (list_to_map
                [("classification", JString "observed");
                 ("wait_kind", JString (WaitKind.to_string (wait_kind r)));
                 ("child_run_id", JString child);
                 ("child_status", JString (RunStatus.to_string (status m)));
                 ("child_current_step", json_opt_string (current_step m))]) in
              if child_workflow_status_ready (status m) then mret (ready r state)
              else t ← now; mret (still_waiting_with_state r state t)
          end
      end
  end.
End ChildWorkflow.

(** ** Applying a decision *)

Definition READY_TRANSITION_REJECTED : string :=
  "lease_ready_transition_rejected: lease status not in [WaitingExternal, ReadyToResume] or run_id mismatch".
Definition TERMINAL_TRANSITION_REJECTED : string :=
  "lease_terminal_transition_rejected: lease status not in [WaitingExternal, ReadyToResume, Running, Claimed] or run_id mismatch".
Definition STILL_WAITING_TRANSITION_REJECTED : string :=
  "lease_still_waiting_transition_rejected: lease has advanced past waiting or owned by another run".

Inductive PollApplyError :=
| PollLeaseTransitionRejected (run lease reason : string)
| WaitStateConcurrentTransition (run : string)
| PollRunMissing (run step : string)
| RunStatusConcurrentTransition (run step : string)
| PollSqlite (e : SqlError)
| PollPersistence (e : PersistenceError).

Inductive ArtifactPhase := PrCheckSnapshot | PollResult | WaitStateArtifact | ResumeDecision.

Record ArtifactWarning := mkArtifactWarning { phase : ArtifactPhase; warning_error : string }.

Inductive PollApplyOutcome :=
| Committed
| CommittedWithArtifactWarnings (first : ArtifactWarning) (rest : list ArtifactWarning).

(** [NonEmptyArtifactWarnings::new] and the outcome it decides. *)
Definition outcome_of_warnings (warnings : list ArtifactWarning) : PollApplyOutcome :=
  match warnings with
  | [] => Committed
  | w :: rest => CommittedWithArtifactWarnings w rest
  end.

Definition annotate_artifact_error (state : Json) (text : string) : Json :=
  match state with
  | JObject m => JObject (<["artifact_error" := JString text]> m)
  | JNull => JObject {["artifact_error" := JString text]}
  | _ => state
  end.

Section Apply.
Context `{Env}.

Definition mark_run_status (run : string) (s : RunStatus.t) (step : string)
    (expected : list RunStatus.t) : M Db PollApplyError unit :=
  outcome ← map_err PollSqlite
    (persist_run_status_from_expected_in_transaction run s (Some step) expected);
  match outcome with
  | Expected.Updated => mret tt
  | Expected.StatusMismatch => throw (RunStatusConcurrentTransition run step)
  | Expected.RunMissing => throw (PollRunMissing run step)
  end.

(** The lease half of every branch, for a record that names a lease. *)
Definition transition_lease (r : WaitStateRecord) (s : LeaseStatus.t)
    (expected : list LeaseStatus.t) (reason : string) : M Db PollApplyError unit :=
  match ws_lease_id r with
  | None => mret tt
  | Some lease =>
      applied ← map_err PollSqlite
        (update_lease_status_conditional lease s expected None (Some (ws_run_id r)));
      if (applied : bool) then mret tt
      else throw (PollLeaseTransitionRejected (ws_run_id r) lease reason)
  end.

(** The wait record of this suspension is consumed. *)
Definition consume_wait (r : WaitStateRecord) : M Db PollApplyError unit :=
  deleted ← map_err PollSqlite (delete_wait_state_for_suspension (ws_run_id r) (suspension_id r));
  if (deleted : bool) then mret tt else throw (WaitStateConcurrentTransition (ws_run_id r)).

Definition apply_ready_to_resume (r : WaitStateRecord) : M Db PollApplyError unit :=
  consume_wait r;;
  map_err PollPersistence (set_resume_point (ws_run_id r) (resume_step r));;
  mark_run_status (ws_run_id r) RunStatus.ReadyToResume (resume_step r) [RunStatus.WaitingExternal];;
  transition_lease r LeaseStatus.ReadyToResume
    [LeaseStatus.WaitingExternal; LeaseStatus.ReadyToResume] READY_TRANSITION_REJECTED.

Definition apply_terminal_failure (r : WaitStateRecord) : M Db PollApplyError unit :=
  consume_wait r;;
  mark_run_status (ws_run_id r) RunStatus.Failed (resume_step r) [RunStatus.WaitingExternal];;
  transition_lease r LeaseStatus.Failed
    [LeaseStatus.WaitingExternal; LeaseStatus.ReadyToResume; LeaseStatus.Running;
     LeaseStatus.Claimed] TERMINAL_TRANSITION_REJECTED.

Definition apply_still_waiting (r : WaitStateRecord) (d : PollDecision) (at_time : Z)
    : M Db PollApplyError unit :=
  mark_run_status (ws_run_id r) RunStatus.WaitingExternal (resume_step r)
    [RunStatus.WaitingExternal];;
  let next := validated_next_poll_time r (pd_next_poll_at d) at_time in
  refreshed ← map_err PollSqlite
    (update_wait_state_after_poll (ws_run_id r) (observed_state d) next (poll_count r)
       (suspension_id r));
  (if (refreshed : bool) then mret tt else throw (WaitStateConcurrentTransition (ws_run_id r)));;
  transition_lease r LeaseStatus.WaitingExternal [LeaseStatus.WaitingExternal]
    STILL_WAITING_TRANSITION_REJECTED.

(** The transaction of a decision. *)
Definition apply_transition (r : WaitStateRecord) (d : PollDecision) (at_time : Z)
    : M Db PollApplyError unit :=
  match classification d with
  | ReadyToResume => apply_ready_to_resume r
  | TerminalFailure | TimedOut => apply_terminal_failure r
  | StillWaiting | TransientFailure => apply_still_waiting r d at_time
  end.

(** What writing a phase's artifact file reports, given the decision it
    records: the files are outside the database. *)
Variable artifact_error : ArtifactPhase -> PollDecision -> option string.

Definition attempt (p : ArtifactPhase) (d : PollDecision) : list ArtifactWarning :=
  match artifact_error p d with Some text => [mkArtifactWarning p text] | None => [] end.

Definition persist_poll_artifacts (d : PollDecision) : list ArtifactWarning :=
  attempt PollResult d ++
  (if bool_decide (classification d = ReadyToResume)
   then attempt WaitStateArtifact d ++ attempt ResumeDecision d else []).

Definition write_committed_pr_check_snapshot (r : WaitStateRecord) (d : PollDecision)
    : option string :=
  if bool_decide (wait_kind r = WaitKind.PrChecks) then artifact_error PrCheckSnapshot d else None.

Definition post_commit (r : WaitStateRecord) (d : PollDecision) : PollApplyOutcome :=
  let '(warnings, effective) :=
    match write_committed_pr_check_snapshot r d with
    | Some text =>
        ([mkArtifactWarning PrCheckSnapshot text],
         mkPollDecision (pd_run_id d) (classification d) (pd_next_poll_at d)
           (annotate_artifact_error (observed_state d) text))
    | None => ([], d)
    end in
  outcome_of_warnings (warnings ++ persist_poll_artifacts effective).

Definition apply_poll_decision_at (r : WaitStateRecord) (d : PollDecision) (at_time : Z)
    : M Db PollApplyError PollApplyOutcome :=
  transaction PollSqlite (apply_transition r d at_time);;
  mret (post_commit r d).

Definition apply_poll_decision (r : WaitStateRecord) (d : PollDecision)
    : M Db PollApplyError PollApplyOutcome :=
  t ← now; apply_poll_decision_at r d t.
End Apply.

(** ** What a committed decision means *)

(** The run's stored status. *)
Definition run_is (run : string) (s : RunStatus.t) (d : Db) : Prop :=
  exists row, run_row run d = Some row /\ status row = RunStatus.to_string s.

(** The record's lease, when it names one, is owned by its run in one of the
    statuses. *)
Definition lease_in (r : WaitStateRecord) (l : list LeaseStatus.t) (d : Db) : Prop :=
  match ws_lease_id r with
  | None => True
  | Some lease =>
      exists row, lease_row lease d = Some row /\ l_run_id row = Some (ws_run_id r) /\
        lease_status_in l row = true
  end.

(** The source statuses of the lease and the targets of a classification. *)
Definition lease_sources (c : PollClassification) : list LeaseStatus.t :=
  match c with
  | ReadyToResume => [LeaseStatus.WaitingExternal; LeaseStatus.ReadyToResume]
  | TerminalFailure | TimedOut =>
      [LeaseStatus.WaitingExternal; LeaseStatus.ReadyToResume; LeaseStatus.Running;
       LeaseStatus.Claimed]
  | StillWaiting | TransientFailure => [LeaseStatus.WaitingExternal]
  end.
Definition targets (c : PollClassification) : RunStatus.t * LeaseStatus.t :=
  match c with
  | ReadyToResume => (RunStatus.ReadyToResume, LeaseStatus.ReadyToResume)
  | TerminalFailure | TimedOut => (RunStatus.Failed, LeaseStatus.Failed)
  | StillWaiting | TransientFailure => (RunStatus.WaitingExternal, LeaseStatus.WaitingExternal)
  end.

Definition consumes (c : PollClassification) : bool :=
  match c with ReadyToResume | TerminalFailure | TimedOut => true | _ => false end.

(** The tables a step of the transaction leaves alone. *)
Definition same_except_waits (d d' : Db) : Prop :=
  runs d' = runs d /\ issue_leases d' = issue_leases d /\ checkpoints d' = checkpoints d.
Definition same_except_runs (d d' : Db) : Prop :=
  wait_states d' = wait_states d /\ issue_leases d' = issue_leases d /\ checkpoints d' = checkpoints d.
Definition same_except_leases (d d' : Db) : Prop :=
  wait_states d' = wait_states d /\ runs d' = runs d /\ checkpoints d' = checkpoints d.

Section Lemmas.
Context `{Env}.

Lemma consume_wait_wp r w :
  waits_ok (w_db w) ->
  wp (consume_wait r)
     (fun res w' =>
        match res with
        | Ok _ =>
            same_except_waits (w_db w) (w_db w') /\
            (exists ws, wait_row (ws_run_id r) (w_db w) = Some ws /\
               suspension_id ws = suspension_id r) /\
            wait_row (ws_run_id r) (w_db w') = None
        | Err _ => True
        end) w.
Proof.
  intros Hok. unfold consume_wait, delete_wait_state_for_suspension, delete_waits. wp_run; try done.
  set (g := fun ws : WaitRow => _). set (t := wait_states (w_db w)).
  destruct (bool_decide_reflect (0 < count_where g t)) as [Hc|]; wp_run; [|done].
  destruct (guarded_delete (R := WaitRow) ws_run_id (wait_of_run (ws_run_id r)) g t Hok
              (wait_of_run_same _)) as ((old & Hold & Hg) & Hnone); [|done|].
  { by intros x [? _]%andb_true_iff. }
  db_eqs. split_and!; [done| |exact Hnone]. exists old. split; [done|].
  by apply andb_true_iff in Hg as [_ ?%bool_decide_eq_true].
Qed.

Lemma mark_run_status_wp run s step w :
  runs_ok (w_db w) ->
  wp (mark_run_status run s step [RunStatus.WaitingExternal])
     (fun res w' =>
        match res with
        | Ok _ =>
            same_except_runs (w_db w) (w_db w') /\ run_is run RunStatus.WaitingExternal (w_db w) /\
            exists row, run_row run (w_db w') = Some row /\
              status row = RunStatus.to_string s /\ current_step row = Some step
        | Err _ => True
        end) w.
Proof.
  intros Hok. unfold mark_run_status. wp_steps.
  eapply wp_consequence; [by apply expected_status_wp|].
  intros [[]|e] w1; wp_steps; try done. intros (old & t & Hold & Hg & Hnew & Hdb). wp_steps.
  apply andb_true_iff in Hg as [_ Hst]. cbn in Hst. rewrite orb_false_r in Hst.
  apply bool_decide_eq_true in Hst.
  split_and!; [by rewrite Hdb| |by eexists]. by exists old.
Qed.

Lemma transition_lease_wp r s expected reason w :
  leases_ok (w_db w) ->
  wp (transition_lease r s expected reason)
     (fun res w' =>
        match res with
        | Ok _ =>
            same_except_leases (w_db w) (w_db w') /\ lease_in r expected (w_db w) /\
            lease_in r [s] (w_db w')
        | Err _ => True
        end) w.
Proof.
  intros Hok. unfold transition_lease, lease_in. destruct (ws_lease_id r) as [lease|]; [|done].
  unfold update_lease_status_conditional. wp_steps.
  eapply wp_consequence; [apply conditional_update_wp, Hok|].
  intros [[]|e] w1; wp_steps; try done. intros (old & t & Hold & Hs & Ho & Hnew & Hdb). wp_steps.
  apply lease_of_run_id in Ho. split_and!; [by rewrite Hdb|by exists old|].
  eexists. split; [exact Hnew|]. split; [done|]. cbn. by rewrite bool_decide_eq_true_2.
Qed.

(** A run that was set keeps what it was set to through the lease's step. *)
Lemma same_except_leases_run d d' run : same_except_leases d d' -> run_row run d' = run_row run d.
Proof. unfold run_row. by intros (_ & -> & _). Qed.
Lemma same_except_leases_wait d d' run : same_except_leases d d' -> wait_row run d' = wait_row run d.
Proof. unfold wait_row. by intros (-> & _ & _). Qed.
End Lemmas.

(** The next poll of a live wait lies in the future, at most the bounded
    interval away when the decision gives no later time. *)
Lemma validated_next_poll_future r candidate at_time :
  (at_time < validated_next_poll_time r candidate at_time)%Z.
Proof.
  unfold validated_next_poll_time, next_poll_time, next_poll_time_at,
    bounded_poll_interval_seconds, MAX_POLL_INTERVAL_SECONDS, NANOS.
  destruct candidate as [c|]; [case_bool_decide; [done|]|]; case_decide; lia.
Qed.

Section Transitions.
Context `{Env}.

Definition applied (r : WaitStateRecord) (d : PollDecision) (at_time : Z) (before after : Db)
    : Prop :=
  let run := ws_run_id r in
  run_is run RunStatus.WaitingExternal before /\
  lease_in r (lease_sources (classification d)) before /\
  (exists ws, wait_row run before = Some ws /\ suspension_id ws = suspension_id r /\
     (consumes (classification d) = false -> poll_count ws = poll_count r)) /\
  (exists row, run_row run after = Some row /\
     status row = RunStatus.to_string (fst (targets (classification d))) /\
     current_step row = Some (resume_step r)) /\
  lease_in r [snd (targets (classification d))] after /\
  (if consumes (classification d) then wait_row run after = None
   else exists ws, wait_row run after = Some ws /\ suspension_id ws = suspension_id r /\
          poll_count ws = (poll_count r + 1)%Z /\ (at_time < next_poll_at ws)%Z).

(** The last two steps of a branch that consumed the wait. *)
Lemma settle_wp r d at_time before s ls expected reason w :
  runs_ok (w_db w) -> leases_ok (w_db w) ->
  consumes (classification d) = true ->
  s = fst (targets (classification d)) -> ls = snd (targets (classification d)) ->
  expected = lease_sources (classification d) ->
  runs (w_db w) = runs before -> issue_leases (w_db w) = issue_leases before ->
  (exists ws, wait_row (ws_run_id r) before = Some ws /\ suspension_id ws = suspension_id r) ->
  wait_row (ws_run_id r) (w_db w) = None ->
  wp (mark_run_status (ws_run_id r) s (resume_step r) [RunStatus.WaitingExternal];;
      transition_lease r ls expected reason)
     (fun res w' => match res with Ok _ => applied r d at_time before (w_db w') | Err _ => True end) w.
Proof.
  intros Hruns Hleases Hc -> -> -> Hr Hl Hws Hnone. wp_steps.
  eapply wp_consequence; [by apply mark_run_status_wp|].
  intros [[]|e] w1; [|done]. intros (Hsame & Hwas & Hnow).
  destruct Hsame as (Hw1 & Hl1 & _).
  eapply wp_consequence; [apply transition_lease_wp; unfold leases_ok; by rewrite Hl1|].
  intros [[]|e] w2; [|done]. intros (Hsame2 & Hlwas & Hlnow).
  unfold applied. rewrite Hc. split_and!.
  - unfold run_is, run_row in *. by rewrite <- Hr.
  - unfold lease_in, lease_row in *. by rewrite <- Hl, <- Hl1.
  - destruct Hws as (ws & ? & ?). exists ws. split_and!; [done|done|done].
  - by rewrite (same_except_leases_run _ _ _ Hsame2).
  - done.
  - rewrite (same_except_leases_wait _ _ _ Hsame2). unfold wait_row in *. by rewrite Hw1.
Qed.

Lemma apply_transition_wp r d at_time w :
  tables_ok (w_db w) ->
  wp (apply_transition r d at_time)
     (fun res w' =>
        match res with
        | Ok _ => applied r d at_time (w_db w) (w_db w')
        | Err _ => True
        end) w.
Proof.
  intros (Hleases & Hruns & Hwaits). unfold apply_transition.
  assert (Hterminal : consumes (classification d) = true ->
    fst (targets (classification d)) = RunStatus.Failed ->
    snd (targets (classification d)) = LeaseStatus.Failed ->
    lease_sources (classification d) =
      [LeaseStatus.WaitingExternal; LeaseStatus.ReadyToResume; LeaseStatus.Running;
       LeaseStatus.Claimed] ->
    wp (apply_terminal_failure r)
       (fun res w' => match res with Ok _ => applied r d at_time (w_db w) (w_db w')
                                   | Err _ => True end) w).
  { intros Hc Ht Hlt Hls. unfold apply_terminal_failure. apply wp_bind.
    eapply wp_consequence; [by apply consume_wait_wp|].
    intros [[]|e] w1; [|done]. intros ((Hr & Hl & _) & Hws & Hnone).
    apply settle_wp; try congruence; try done; unfold runs_ok, leases_ok; by rewrite ?Hr, ?Hl. }
  assert (Hstill : consumes (classification d) = false ->
    targets (classification d) = (RunStatus.WaitingExternal, LeaseStatus.WaitingExternal) ->
    lease_sources (classification d) = [LeaseStatus.WaitingExternal] ->
    wp (apply_still_waiting r d at_time)
       (fun res w' => match res with Ok _ => applied r d at_time (w_db w) (w_db w')
                                   | Err _ => True end) w).
  { intros Hc Ht Hls. unfold apply_still_waiting. wp_steps.
    eapply wp_consequence; [by apply mark_run_status_wp|].
    intros [[]|e] w1; [|done]. intros ((Hw1 & Hl1 & _) & Hwas & Hnow). wp_steps.
    eapply wp_consequence; [apply update_after_poll_wp; unfold waits_ok; by rewrite Hw1|].
    intros [[]|e] w2; wp_steps; try done. intros (old & t & Hold & Hg & Hnew & Hdb). wp_steps.
    apply andb_true_iff in Hg as [[_ Hp%bool_decide_eq_true]%andb_true_iff Hs%bool_decide_eq_true].
    eapply wp_consequence; [apply transition_lease_wp; unfold leases_ok; rewrite Hdb; cbn; by rewrite Hl1|].
    intros [[]|e] w3; [|done]. intros (Hsame3 & Hlwas & Hlnow).
    unfold applied. rewrite Hc, Ht, Hls. split_and!; [done| | | |done|].
    - unfold lease_in, lease_row in *. rewrite Hdb in Hlwas. cbn in Hlwas. by rewrite Hl1 in Hlwas.
    - exists old. unfold wait_row in *. by rewrite <- Hw1.
    - rewrite (same_except_leases_run _ _ _ Hsame3). unfold run_row in *. by rewrite Hdb.
    - rewrite (same_except_leases_wait _ _ _ Hsame3). eexists. split; [exact Hnew|].
      split_and!; [done|cbn; lia|]. cbn. apply validated_next_poll_future. }
  destruct (classification d) eqn:Ed; [by apply Hstill| |by apply Hterminal|by apply Hstill
                                      |by apply Hterminal].
  unfold apply_ready_to_resume. wp_steps.
  eapply wp_consequence; [by apply consume_wait_wp|].
  intros [[]|e] w1; [|done]. intros ((Hr & Hl & _) & Hws & Hnone).
  wp_steps. eapply wp_consequence; [apply set_resume_point_wp|].
  intros [t|e] w2; wp_steps; [|done]. intros [Hdb _].
  apply settle_wp; rewrite ?Ed, ?Hdb; try done; unfold runs_ok, leases_ok; cbn; by rewrite ?Hr, ?Hl.
Qed.
Lemma apply_poll_wp artifact_error r d at_time w :
  tables_ok (w_db w) ->
  wp (apply_poll_decision_at artifact_error r d at_time)
     (fun res w' =>
        match res with
        | Ok _ => applied r d at_time (w_db w) (w_db w')
        | Err _ => w_db w' = w_db w
        end) w.
Proof.
  intros Hok. unfold apply_poll_decision_at. apply wp_bind. apply wp_transaction; [done|].
  intros w1 Hw1. eapply wp_consequence; [apply apply_transition_wp; by rewrite Hw1|].
  rewrite Hw1. intros [[]|e] w2; [|done]. intros Happ w3 Hw3. wp_steps. by rewrite Hw3.
Qed.

(** *** The tables' constraints survive *)

Lemma keeps_tables_runs p f :
  (forall r, p r = true -> run_id (f r) = run_id r) -> keeps tables_ok (execute (update_runs p f)).
Proof.
  intros Hf. apply keeps_execute. intros d n d' (Hl & Hr & Hw) [= <- <-].
  split_and!; [done| |done]. unfold runs_ok. cbn. by rewrite update_where_column.
Qed.

Lemma keeps_tables_leases lease s expected new owner :
  keeps tables_ok (conditional_update lease s expected new owner).
Proof.
  unfold conditional_update. keeps_auto. apply keeps_execute. intros d n d' (Hl & Hr & Hw) Hu.
  split_and!; [eapply update_leases_ok; [|exact Hl|exact Hu]; done|by injection Hu as <- <-|by injection Hu as <- <-].
Qed.

Lemma keeps_tables_resume run step : keeps tables_ok (set_resume_point run step).
Proof.
  unfold set_resume_point. keeps_auto. apply keeps_execute.
  by intros d n d' Hok [= <- <-].
Qed.

Lemma keeps_apply_poll artifact_error r d at_time :
  keeps tables_ok (apply_poll_decision_at artifact_error r d at_time).
Proof.
  assert (Hmark : forall run s step, keeps tables_ok (mark_run_status run s step [RunStatus.WaitingExternal])).
  { intros. unfold mark_run_status, persist_run_status_from_expected_in_transaction,
      classify_expected_status_rejection, get_run_status_with_conn.
    keeps_auto. by apply keeps_tables_runs. }
  assert (Hlease : forall s expected reason, keeps tables_ok (transition_lease r s expected reason)).
  { intros. unfold transition_lease. keeps_auto. apply keeps_tables_leases. }
  assert (Hconsume : keeps tables_ok (consume_wait r)).
  { unfold consume_wait, delete_wait_state_for_suspension. keeps_auto. apply keeps_execute.
    intros d0 n d' (Hl & Hr & Hw) [= <- <-]. split_and!; [done|done|].
    by apply delete_where_keys. }
  unfold apply_poll_decision_at, apply_transition, apply_ready_to_resume, apply_terminal_failure,
    apply_still_waiting, update_wait_state_after_poll.
  keeps_auto; try apply keeps_tables_resume; try apply Hmark; try apply Hlease; try done.
  all: apply keeps_execute; intros d0 n d' (Hl & Hr & Hw) [= <- <-]; split_and!; [done|done|];
    unfold waits_ok; cbn; by rewrite update_where_column.
Qed.
End Transitions.

(** ** Main theorems *)

Section Claims.
Context `{Env}.

(** What the artifact files report. *)
Variable artifact_error : ArtifactPhase -> PollDecision -> option string.

(** C9: a poll decision is applied in full or not at all.  If any statement
    fails or any guard rejects, the database is exactly as before.  If it
    commits, the run was waiting, its wait record was this suspension (for a
    refresh, at the poll count that was read) and its lease, when named, was the
    run's own in one of the expected statuses; afterwards run and lease have the
    classification's statuses, the run is at the resume step, and the record is
    gone, or refreshed with its count one up and its next poll in the future.
    Failing artifact files never undo a commit. *)
Theorem apply_poll_decision_transaction (r : WaitStateRecord) (d : PollDecision) (at_time : Z)
    (w : World Db) (Hok : tables_ok (w_db w)) :
  wp (apply_poll_decision_at artifact_error r d at_time)
     (fun res w' =>
        match res with
        | Ok _ => applied r d at_time (w_db w) (w_db w')
        | Err _ => w_db w' = w_db w
        end) w.
Proof. by apply apply_poll_wp. Qed.

(** Of two pollers that read the same wait record, the second loses.  Once
    a decision that ends the wait is committed, no decision whatever made from
    that snapshot commits; once a refresh is committed, no second refresh from
    that snapshot does. *)
Theorem stale_poller_rejected (r : WaitStateRecord) (d1 d2 : PollDecision) (t1 t2 : Z)
    (w : World Db) (Hok : tables_ok (w_db w))
    (Hkind : consumes (classification d1) = true \/ consumes (classification d2) = false) :
  wp (apply_poll_decision_at artifact_error r d1 t1;;
      try (E := PollApplyError) (apply_poll_decision_at artifact_error r d2 t2))
     (fun res w' =>
        match res with
        | Ok second => is_ok second = false
        | Err _ => w_db w' = w_db w
        end) w.
Proof.
  apply wp_bind. eapply wp_consequence.
  { apply (wp_keeps tables_ok); [apply keeps_apply_poll|done|by apply apply_poll_wp]. }
  intros [o|e] w1 [Hr Hok1]; [|done]. apply wp_try.
  eapply wp_consequence; [by apply apply_poll_wp|].
  intros [o2|e] w2 Hr2; cbn; [|done]. exfalso.
  destruct Hr as (_ & _ & _ & _ & _ & Hafter).
  destruct Hr2 as (_ & _ & (ws & Hws & _ & Hpolls) & _).
  destruct (consumes (classification d1)); [congruence|].
  destruct Hafter as (ws' & Hws' & _ & Hcount & _). rewrite Hws in Hws'. injection Hws' as <-.
  destruct Hkind as [|Hk]; [done|]. specialize (Hpolls Hk). lia.
Qed.

(** A live wait is always polled again, and not too late.  Whatever the
    record's interval (any [u64], zero and the largest included) and whatever
    the decision proposes, the next poll is strictly in the future, and never
    later than both a day from now and the proposal. *)
Theorem next_poll_bounds (r : WaitStateRecord) (candidate : option Z) (at_time : Z) :
  let next := validated_next_poll_time r candidate at_time in
  (at_time < next)%Z /\
  ((next <= at_time + 86400 * NANOS)%Z \/ candidate = Some next) /\
  ((at_time + NANOS <= next)%Z \/ candidate = Some next).
Proof.
  intros next. split; [apply validated_next_poll_future|].
  unfold next, validated_next_poll_time, next_poll_time, next_poll_time_at,
    bounded_poll_interval_seconds, MAX_POLL_INTERVAL_SECONDS, NANOS.
  destruct candidate as [c|]; [case_bool_decide; [auto|]|]; case_decide; split; left; lia.
Qed.
End Claims.

(** ** Witnesses *)

#[local] Existing Instance calm.

Definition ready_decision : PollDecision := ready sample_wait JNull.
Definition quiet : ArtifactPhase -> PollDecision -> option string := fun _ _ => None.

Lemma apply_poll_decision_transaction_witness :
  let w := start waiting_db in
  let after := w_db (snd (apply_poll_decision_at quiet sample_wait ready_decision 100 w)) in
  tables_ok (w_db w) /\ applied sample_wait ready_decision 100 (w_db w) after.
Proof.
  intros w after. split; [by_computation|].
  exact (apply_poll_decision_transaction quiet sample_wait ready_decision 100 w
           ltac:(by_computation)).
Defined.

Lemma stale_poller_rejected_witness :
  let w := start waiting_db in
  let run := apply_poll_decision_at quiet sample_wait ready_decision 100;;
             try (E := PollApplyError)
               (apply_poll_decision_at quiet sample_wait (transient sample_wait JNull 100) 100) in
  match fst (run w) with Ok second => is_ok second = false | Err _ => False end.
Proof.
  intros w run.
  exact (stale_poller_rejected quiet sample_wait ready_decision (transient sample_wait JNull 100)
           100 100 w ltac:(by_computation) (or_introl eq_refl)).
Defined.
