(* ===== verification/Launcher.v ===== *)
(** Launching a claimed issue and settling its lease ([daemon/launcher.rs],
    [daemon/launcher/lease_finalization.rs], the local half of
    [daemon/claim.rs]): claim the lease with its receipt, check the capacity of
    the config, run the workflow, and move the lease by what the run reported,
    fenced so that a launcher that lost its lease changes nothing. *)
From S2P Require Import Prelude Effects Sql Status Schema RunPaths Leases RemoteClaim Runs WaitStates.

(** ** Data *)

(** [daemon/discovery.rs] *)
Inductive SkipReason :=
| MissingRequiredLabel (label : string)
| HasExcludedLabel (label : string)
| WrongState (state : string)
| MissingApprovalProvenance
| UnauthorizedApprovalActor (actor : string)
| HasActiveLease
| HasOpenPr
| ChildOfActiveParent
| ConcurrencyLimitReached
| InvalidLeaseState
| InvalidPath (detail : string)
| RoutingFailed (detail : string).

Definition skip_code (r : SkipReason) : string :=
  match r with
  | MissingRequiredLabel _ => "missing_required_label"
  | HasExcludedLabel _ => "has_excluded_label"
  | WrongState _ => "wrong_state"
  | ChildOfActiveParent => "child_of_active_parent"
  | MissingApprovalProvenance => "missing_approval_provenance"
  | UnauthorizedApprovalActor _ => "unauthorized_approval_actor"
  | HasActiveLease => "has_active_lease"
  | HasOpenPr => "has_open_pr"
  | ConcurrencyLimitReached => "concurrency_limit_reached"
  | InvalidLeaseState => "invalid_lease_state"
  | InvalidPath _ => "invalid_path"
  | RoutingFailed _ => "routing_failed"
  end.

Inductive LaunchOutcome :=
| Launched (run : string) (success : bool)
| LaunchWaiting (run : string)
| LeaseStatePreserved (run : string) (current_status : option LeaseStatus.t)
    (current_run_id : option string)
| Skipped (reason : SkipReason).

Inductive WorkflowLaunchResult :=
| CompletedSuccess
| CompletedFailure
| CleanupAbandonedResult
| SuspendedExternalWait
| OwnershipDenied.

Record LaunchRequest := mkLaunchRequest {
  lr_config_id : string;
  lr_workflow_type_id : option string;
  lr_run_id : string;
  lr_repo : string;
  lr_issue_number : Z;
  lr_daemon_managed_claim : bool;
  lr_claim_assignment_added : bool;
  lr_claim_label_added : bool;
  lr_work_dir : option string;
  lr_artifact_dir : option string;
  lr_config_root : string
}.

Record ClaimedLaunch := mkClaimedLaunch {
  cl_lease_id : string;
  cl_request : LaunchRequest
}.

Record PreparedResume := mkPreparedResume {
  pr_run_id : string;
  pr_workflow_type_id : string;
  pr_config_id : string;
  pr_config_root : string;
  pr_claim_assignment_added : bool;
  pr_claim_label_added : bool
}.

(** The seam that runs the engine: it may do anything to the database. *)
Class WorkflowLauncher := {
  launch : LaunchRequest -> M Db string WorkflowLaunchResult
}.

Definition into_claimed_launch (p : PreparedResume) (lease : IssueLease) : ClaimedLaunch :=
  mkClaimedLaunch (lease_id lease)
    (mkLaunchRequest (l_config_id lease) (Some (pr_workflow_type_id p)) (pr_run_id p)
       (issue_repo lease) (l_issue_number lease) true (pr_claim_assignment_added p)
       (pr_claim_label_added p) None None (pr_config_root p)).

(** ** Settling a lease *)

Section Finalization.
Context `{Env}.

Definition launched (run : string) (success : bool) : LaunchOutcome := Launched run success.

Definition finalize_exact_owner_lease (lease run : string) (target : LeaseStatus.t)
    (expected : list LeaseStatus.t) (applied_outcome : LaunchOutcome) : M Db SqlError LaunchOutcome :=
  outcome ← update_lease_status_conditional_outcome lease target expected (Some run) (Some run);
  mret (match outcome with
        | Applied => applied_outcome
        | Rejected status owner => LeaseStatePreserved run (Some status) owner
        | Missing => LeaseStatePreserved run None None
        end).

Definition finalize_terminal_lease (lease run : string) (target : LeaseStatus.t) (success : bool)
    : M Db SqlError LaunchOutcome :=
  outcome ← update_lease_status_conditional_outcome lease target [LeaseStatus.Running] (Some run)
              (Some run);
  mret (match outcome with
        | Applied => launched run success
        | Rejected status owner => LeaseStatePreserved run (Some status) owner
        | Missing => LeaseStatePreserved run None None
        end).

Definition classify_ownership_denied_rejection (run : string) (status : LeaseStatus.t)
    (owner : option string) : Res SqlError LaunchOutcome :=
  if bool_decide (status = LeaseStatus.Failed) && bool_decide (owner = Some run)
  then Ok (launched run false)
  else Err ConstraintViolation.

Definition finalize_ownership_denied_lease (lease run : string) : M Db SqlError LaunchOutcome :=
  outcome ← update_lease_status_conditional_outcome lease LeaseStatus.Failed [LeaseStatus.Running]
              (Some run) (Some run);
  match outcome with
  | Applied => mret (launched run false)
  | Rejected status owner => lift_res (classify_ownership_denied_rejection run status owner)
  | Missing => throw ConstraintViolation
  end.

Definition classify_rejected_or_missing (lease run : string) : M Db SqlError LaunchOutcome :=
  current ← query (current_owner lease);
  mret (match current with
        | Some (status, owner) => LeaseStatePreserved run (Some status) owner
        | None => LeaseStatePreserved run None None
        end).

Definition compensate_lease_after_launch_error (lease run : string) : M Db SqlError LaunchOutcome :=
  transaction id
    (check ← try (has_pollable_external_wait run);
     let target := match check with
                   | Ok true => LeaseStatus.WaitingExternal
                   | Ok false | Err _ => LeaseStatus.Failed
                   end in
     applied ← update_lease_status_conditional lease target
                 [LeaseStatus.Running; LeaseStatus.WaitingExternal] (Some run) (Some run);
     if (applied : bool) then
       mret (match target with
             | LeaseStatus.WaitingExternal => LaunchWaiting run
             | _ => launched run false
             end)
     else classify_rejected_or_missing lease run).

Definition finish_lease_after_result (lease run : string) (result : Res string WorkflowLaunchResult)
    : M Db SqlError LaunchOutcome :=
  match result with
  | Ok CompletedSuccess => finalize_terminal_lease lease run LeaseStatus.Completed true
  | Ok CompletedFailure => finalize_terminal_lease lease run LeaseStatus.Failed false
  | Ok OwnershipDenied => finalize_ownership_denied_lease lease run
  | Ok CleanupAbandonedResult =>
      finalize_exact_owner_lease lease run LeaseStatus.CleanupAbandoned
        [LeaseStatus.Running; LeaseStatus.CleanupAbandoned] (launched run false)
  | Ok SuspendedExternalWait =>
      finalize_exact_owner_lease lease run LeaseStatus.WaitingExternal
        [LeaseStatus.Running; LeaseStatus.WaitingExternal] (LaunchWaiting run)
  | Err _ => compensate_lease_after_launch_error lease run
  end.

(** The compare-and-set a resume acquires its lease with. *)
Definition acquire_resume_lease (lease run : string) : M Db SqlError bool :=
  acquired ← update_lease_status_conditional_outcome lease LeaseStatus.Running
               [LeaseStatus.ReadyToResume] (Some run) (Some run);
  mret (match acquired with Applied => true | _ => false end).
End Finalization.

(** ** Claiming *)

Section Claiming.
Context `{Env}.

(** [BEGIN IMMEDIATE] and [COMMIT] written out.  The database is what this
    connection sees: an error of the body is followed by a best-effort
    [ROLLBACK]; a failing [COMMIT] is returned as it is, and like a failing
    [ROLLBACK] it leaves the transaction open, its writes still in view. *)
Definition explicit_transaction {A} (body : M Db SqlError A) : M Db SqlError A := fun w =>
  match query (fun _ => Ok tt) w with
  | (Err e, w1) => (Err e, w1)
  | (Ok _, w1) =>
      match body w1 with
      | (Ok a, w2) =>
          match query (fun _ => Ok tt) w2 with
          | (Ok _, w3) => (Ok a, w3)
          | (Err e, w3) => (Err e, w3)
          end
      | (Err e, w2) =>
          match query (fun _ => Ok tt) w2 with
          | (Ok _, w3) => (Err e, set_db (w_db w1) w3)
          | (Err _, w3) => (Err e, w3)
          end
      end
  end.

Definition first_receipt (lease : string) (config : DiscoveryConfig) : ClaimMetadataReceipt :=
  mkClaimMetadataReceipt lease (default "" (claim_assignee config)) (default "" (claim_label config))
    false false false.

Definition acquire_lease_with_receipt (repo : string) (number : Z) (config_id : string)
    (config : DiscoveryConfig) : M Db SqlError (option IssueLease) :=
  explicit_transaction
    (lease ← try_claim repo number config_id;
     match lease with
     | Some l => upsert_claim_metadata (first_receipt (lease_id l) config);; mret (Some l)
     | None => mret None
     end).

Definition max_runs (cfg : DiscoveryConfig) : Z :=
  default 1%Z (opt_or (max_concurrent_runs_per_config cfg) (max_concurrent_runs cfg)).

(** [uuid] is what the generator draws. *)
Definition claim_for_launch_with_state (issue : GithubIssue) (cfg : DiscoveryConfig)
    (config_id : string) (bases : DaemonPathBases) (mark_running : bool)
    (config_root uuid : string) : M Db SqlError (Res SkipReason ClaimedLaunch) :=
  let repo := default "" (dc_repo cfg) in
  acquired ← acquire_lease_with_receipt repo (i_number issue) config_id cfg;
  match acquired with
  | None => mret (Err HasActiveLease)
  | Some lease =>
      active ← count_active_leases_for_config config_id;
      if decide (max_runs cfg < Z.of_nat active)%Z then
        update_lease_status (lease_id lease) LeaseStatus.Abandoned None;;
        mret (Err ConcurrencyLimitReached)
      else
        let run := "run-" +:+ uuid in
        match per_run_paths bases (i_number issue) run with
        | Err error =>
            update_lease_status (lease_id lease) LeaseStatus.Abandoned None;;
            mret (Err (InvalidPath error))
        | Ok paths =>
            (if mark_running
             then update_lease_status (lease_id lease) LeaseStatus.Running (Some run)
             else mret tt);;
            mret (Ok (mkClaimedLaunch (lease_id lease)
              (mkLaunchRequest config_id None run repo (i_number issue) false false false
                 (work_dir paths) (artifact_dir paths) config_root)))
        end
  end.

Definition claim_for_launch (issue : GithubIssue) (cfg : DiscoveryConfig) (config_id : string)
    (bases : DaemonPathBases) (config_root uuid : string)
    : M Db SqlError (Res SkipReason ClaimedLaunch) :=
  claim_for_launch_with_state issue cfg config_id bases true config_root uuid.

Definition claim_for_launch_pending (issue : GithubIssue) (cfg : DiscoveryConfig) (config_id : string)
    (bases : DaemonPathBases) (config_root uuid : string)
    : M Db SqlError (Res SkipReason ClaimedLaunch) :=
  claim_for_launch_with_state issue cfg config_id bases false config_root uuid.

Definition claim_and_launch `{WorkflowLauncher} (issue : GithubIssue) (cfg : DiscoveryConfig)
    (config_id : string) (bases : DaemonPathBases) (config_root uuid : string)
    : M Db SqlError LaunchOutcome :=
  claimed ← claim_for_launch issue cfg config_id bases config_root uuid;
  match claimed with
  | Err reason => mret (Skipped reason)
  | Ok c =>
      result ← try (launch (cl_request c));
      finish_lease_after_result (cl_lease_id c) (lr_run_id (cl_request c)) result
  end.
End Claiming.

(** ** What settling a lease does *)

(** The statuses a result moves the lease from. *)
Definition sources (result : Res string WorkflowLaunchResult) : list LeaseStatus.t :=
  match result with
  | Ok CleanupAbandonedResult => [LeaseStatus.Running; LeaseStatus.CleanupAbandoned]
  | Ok SuspendedExternalWait | Err _ => [LeaseStatus.Running; LeaseStatus.WaitingExternal]
  | Ok _ => [LeaseStatus.Running]
  end.

(** Where a result may move it: after a launch error to the wait the engine had
    committed in full, if it did, and to failure otherwise. *)
Definition destination (run : string) (d : Db) (result : Res string WorkflowLaunchResult)
    (target : LeaseStatus.t) : Prop :=
  match result with
  | Ok CompletedSuccess => target = LeaseStatus.Completed
  | Ok CompletedFailure | Ok OwnershipDenied => target = LeaseStatus.Failed
  | Ok CleanupAbandonedResult => target = LeaseStatus.CleanupAbandoned
  | Ok SuspendedExternalWait => target = LeaseStatus.WaitingExternal
  | Err _ => target = LeaseStatus.Failed \/
             target = LeaseStatus.WaitingExternal /\ pollable_external_wait run d = true
  end.

Definition outcome_of (run : string) (target : LeaseStatus.t) : LaunchOutcome :=
  match target with
  | LeaseStatus.WaitingExternal => LaunchWaiting run
  | LeaseStatus.Completed => Launched run true
  | _ => Launched run false
  end.

(** The run's lease, in one of the expected statuses, moved; nothing else did. *)
Definition moved (lease run : string) (expected : list LeaseStatus.t) (target : LeaseStatus.t)
    (d d' : Db) : Prop :=
  exists old new, lease_row lease d = Some old /\ lease_status_in expected old = true /\
    l_run_id old = Some run /\ lease_row lease d' = Some new /\
    l_status new = LeaseStatus.as_str target /\ l_run_id new = Some run /\
    issue_of new = issue_of old /\
    (forall other, other <> lease -> lease_row other d' = lease_row other d) /\
    exists rows, d' = d <| issue_leases := rows |>.

(** The lease was not the run's to move, and the outcome says what it is. *)
Definition preserved (lease run : string) (expected : list LeaseStatus.t) (d : Db)
    (outcome : LaunchOutcome) : Prop :=
  match lease_row lease d with
  | None => outcome = LeaseStatePreserved run None None
  | Some old =>
      lease_status_in expected old && lease_of_run run old = false /\
      exists s, l_status old = LeaseStatus.as_str s /\
        outcome = LeaseStatePreserved run (Some s) (l_run_id old)
  end.

(** The runner had already failed the lease itself. *)
Definition already_denied (lease run : string) (d : Db) (outcome : LaunchOutcome) : Prop :=
  outcome = Launched run false /\
  exists old, lease_row lease d = Some old /\ l_status old = "failed" /\ l_run_id old = Some run.

Section FinalizationLemmas.
Context `{Env}.

Lemma moved_intro lease run expected target old t d d' :
  lease_row lease d = Some old ->
  lease_status_in expected old && owner_guard (Some run) old = true ->
  lease_row lease d' = Some (cas_row target (Some run) t old) ->
  d' = d <| issue_leases := update_where (cas_guard lease expected (owner_guard (Some run)))
                              (cas_row target (Some run) t) (issue_leases d) |> ->
  moved lease run expected target d d'.
Proof.
  intros Hold [Hs Ho]%andb_true_iff Hnew Hd'. apply lease_of_run_id in Ho.
  exists old, (cas_row target (Some run) t old). split_and!; try done.
  - intros other Hne. rewrite Hd'. by apply cas_other.
  - eauto.
Qed.

(** The classified transition of a lease, in these words. *)
Lemma transition_wp lease run target expected w :
  NoDup (lease_id <$> issue_leases (w_db w)) ->
  wp (update_lease_status_conditional_outcome lease target expected (Some run) (Some run))
     (fun r w' =>
        match r with
        | Ok Applied => moved lease run expected target (w_db w) (w_db w')
        | Ok (Rejected s owner) =>
            w_db w' = w_db w /\
            preserved lease run expected (w_db w) (LeaseStatePreserved run (Some s) owner)
        | Ok Missing =>
            w_db w' = w_db w /\ preserved lease run expected (w_db w) (LeaseStatePreserved run None None)
        | Err _ => w_db w' = w_db w
        end) w.
Proof.
  intros Hid. eapply wp_consequence; [by apply conditional_outcome_wp|].
  intros [[|s owner|]|e] w'; [..|done].
  - intros (old & t & Hold & Hmay & Hnew & Hd). by eapply moved_intro.
  - intros (Hd & old & Hold & Hmay & Hs & Ho). split; [done|]. unfold preserved. rewrite Hold.
    split; [done|]. exists s. by rewrite Ho.
  - intros [Hd Hnone]. split; [done|]. unfold preserved. by rewrite Hnone.
Qed.

Lemma finalize_wp lease run target expected applied_outcome w :
  NoDup (lease_id <$> issue_leases (w_db w)) ->
  wp (finalize_exact_owner_lease lease run target expected applied_outcome)
     (fun r w' =>
        match r with
        | Ok o => moved lease run expected target (w_db w) (w_db w') /\ o = applied_outcome \/
                  w_db w' = w_db w /\ preserved lease run expected (w_db w) o
        | Err _ => w_db w' = w_db w
        end) w.
Proof.
  intros Hid. unfold finalize_exact_owner_lease. apply wp_bind.
  eapply wp_consequence; [by apply transition_wp|].
  intros [[|s owner|]|e] w' Hw; [..|done]; apply wp_ret; auto.
Qed.

Lemma finalize_denied_wp lease run w :
  NoDup (lease_id <$> issue_leases (w_db w)) ->
  wp (finalize_ownership_denied_lease lease run)
     (fun r w' =>
        match r with
        | Ok o => moved lease run [LeaseStatus.Running] LeaseStatus.Failed (w_db w) (w_db w') /\
                    o = Launched run false \/
                  w_db w' = w_db w /\ already_denied lease run (w_db w) o
        | Err _ => w_db w' = w_db w
        end) w.
Proof.
  intros Hid. unfold finalize_ownership_denied_lease. apply wp_bind.
  eapply wp_consequence; [by apply transition_wp|].
  intros [[|s owner|]|e] w' Hw; [..|done]; wp_steps; [by left| |by apply Hw].
  destruct Hw as [Hd Hp]. unfold classify_ownership_denied_rejection.
  destruct (_ && _) eqn:E; [|done]. right. split; [done|]. split; [done|].
  apply andb_true_iff in E as [->%bool_decide_eq_true ->%bool_decide_eq_true].
  unfold preserved in Hp. destruct (lease_row lease (w_db w)) as [old|]; [|done].
  destruct Hp as (_ & s & Hs & [= <- Ho]). by exists old.
Qed.

Lemma conditional_move_wp lease run target expected w :
  NoDup (lease_id <$> issue_leases (w_db w)) ->
  wp (update_lease_status_conditional lease target expected (Some run) (Some run))
     (fun r w' =>
        match r with
        | Ok true => moved lease run expected target (w_db w) (w_db w')
        | Ok false => w_db w' = w_db w /\ forall old, lease_row lease (w_db w) = Some old ->
                        lease_status_in expected old && lease_of_run run old = false
        | Err _ => w_db w' = w_db w
        end) w.
Proof.
  intros Hid. eapply wp_consequence; [by apply conditional_update_wp|].
  intros [[]|e] w'; [|done|by intros [? _]].
  intros (old & t & Hold & Hs & Ho & Hnew & Hd). eapply moved_intro; try done.
  by rewrite Hs, Ho.
Qed.

Lemma compensate_wp lease run error w :
  NoDup (lease_id <$> issue_leases (w_db w)) ->
  wp (compensate_lease_after_launch_error lease run)
     (fun r w' =>
        let expected := sources (Err error) in
        match r with
        | Ok o =>
            (exists target, destination run (w_db w) (Err error) target /\
               moved lease run expected target (w_db w) (w_db w') /\ o = outcome_of run target) \/
            w_db w' = w_db w /\ preserved lease run expected (w_db w) o
        | Err _ => w_db w' = w_db w
        end) w.
Proof.
  intros Hid. unfold compensate_lease_after_launch_error.
  apply wp_transaction; [done|]. intros w1 Hw1. apply wp_bind, wp_try.
  eapply (wp_consequence _ (fun r w2 => w_db w2 = w_db w /\
            (r = Ok (pollable_external_wait run (w_db w)) \/ is_ok r = false))).
  { unfold has_pollable_external_wait. apply wp_query; intros w2 Hw2; rewrite Hw2, Hw1; auto. }
  intros check w2 [Hw2 Hcheck]. set (target := match check with Ok true => _ | _ => _ end).
  assert (Hdest : destination run (w_db w) (Err error) target /\
            (target = LeaseStatus.WaitingExternal \/ target = LeaseStatus.Failed)).
  { subst target. cbn. destruct Hcheck as [->|Hc]; [destruct (pollable_external_wait _ _)|destruct check];
      auto; done. }
  destruct Hdest as [Hdest Htarget]. apply wp_bind.
  eapply wp_consequence; [apply conditional_move_wp; by rewrite Hw2|]. rewrite Hw2.
  intros [[]|e] w3 Hw3; [..|done].
  - apply wp_ret. intros w4 Hw4. left. exists target. rewrite Hw4. split_and!; try done.
    by destruct Htarget as [->| ->].
  - destruct Hw3 as [Hw3 Hno]. unfold classify_rejected_or_missing.
    apply wp_bind, wp_query; [done|]. intros w4 Hw4. unfold current_owner, preserved, lease_row in *.
    rewrite Hw3. destruct (select_first _ _) as [old|] eqn:E.
    + destruct (LeaseStatus.from_str (l_status old)) as [s|] eqn:Ep; [|done].
      pose proof (to_from_text (A := LeaseStatus.t) _ _ Ep) as Ht. apply wp_ret. intros w5 Hw5. right.
      split; [congruence|]. split; [by apply Hno|]. by exists s.
    + apply wp_ret. intros w5 Hw5. right. split; [congruence|done].
Qed.
End FinalizationLemmas.

(** Whatever the result, a lease settled is not left running for the run. *)
Lemma settled_not_running (lease run : string) result target d d' o :
  destination run d result target ->
  (moved lease run (sources result) target d d' \/
   d' = d /\ (preserved lease run (sources result) d o \/ already_denied lease run d o)) ->
  forall row, lease_row lease d' = Some row -> l_run_id row = Some run -> l_status row <> "running".
Proof.
  intros Hdest [Hm|[-> [Hp|Hp]]] row Hrow Hrun Hst.
  - destruct Hm as (old & new & _ & _ & _ & Hnew & Hs & _). rewrite Hrow in Hnew.
    injection Hnew as <-. rewrite Hst in Hs.
    destruct result as [[]|]; cbn in Hdest; try subst target; try done.
    by destruct Hdest as [->|[-> _]].
  - unfold preserved in Hp. rewrite Hrow in Hp. destruct Hp as [Hp _].
    apply andb_false_iff in Hp as [Hp|Hp].
    + unfold lease_status_in in Hp. rewrite Hst in Hp. by destruct result as [[]|].
    + by rewrite (proj2 (lease_of_run_id _ _) Hrun) in Hp.
  - destruct Hp as (_ & old & Hold & Hf & _). rewrite Hrow in Hold. injection Hold as <-.
    rewrite Hst in Hf. done.
Qed.

Section Settling.
Context `{Env}.

(** Everything there is to say about one settling, result by result. *)
Lemma finish_wp lease run result w :
  NoDup (lease_id <$> issue_leases (w_db w)) ->
  wp (finish_lease_after_result lease run result)
     (fun r w' =>
        match r with
        | Ok o => exists target, destination run (w_db w) result target /\
            (moved lease run (sources result) target (w_db w) (w_db w') /\ o = outcome_of run target \/
             w_db w' = w_db w /\
               (preserved lease run (sources result) (w_db w) o \/
                result = Ok OwnershipDenied /\ already_denied lease run (w_db w) o))
        | Err _ => w_db w' = w_db w
        end) w.
Proof.
  intros Hid.
  assert (Hexact : forall target applied, destination run (w_db w) result target ->
    applied = outcome_of run target ->
    wp (finalize_exact_owner_lease lease run target (sources result) applied)
     (fun r w' =>
        match r with
        | Ok o => exists target, destination run (w_db w) result target /\
            (moved lease run (sources result) target (w_db w) (w_db w') /\ o = outcome_of run target \/
             w_db w' = w_db w /\
               (preserved lease run (sources result) (w_db w) o \/
                result = Ok OwnershipDenied /\ already_denied lease run (w_db w) o))
        | Err _ => w_db w' = w_db w
        end) w).
  { intros target applied Hdest ->. eapply wp_consequence; [by apply finalize_wp|].
    intros [o|e] w'; [|done]. intros [[Hm ->]|[Hd Hp]]; exists target; auto. }
  destruct result as [[]|error].
  - by apply (Hexact LeaseStatus.Completed).
  - by apply (Hexact LeaseStatus.Failed).
  - by apply (Hexact LeaseStatus.CleanupAbandoned).
  - by apply (Hexact LeaseStatus.WaitingExternal).
  - eapply wp_consequence; [by apply finalize_denied_wp|]. intros [o|e] w'; [|done].
    intros [[Hm ->]|[Hd Hp]]; exists LeaseStatus.Failed; (split; [done|]); [by left|right; auto].
  - eapply wp_consequence; [by apply (compensate_wp lease run error)|]. intros [o|e] w'; [|done].
    intros [(target & Hdest & Hm & ->)|[Hd Hp]]; [exists target; auto 10|].
    exists LeaseStatus.Failed. split; [by left|]. auto.
Qed.

(** C10: settling a lease is fenced, truthful and complete.  Whatever the
    workflow runner reported: if settling succeeds, either the lease was the
    run's own, in a status the result may move, and it alone moved to the
    result's status, as the outcome says; or nothing changed and the outcome
    reports what the lease is (or that the runner had failed it already).  In
    every such case the run no longer holds a running lease, so no capacity is
    stranded; after a launch error the lease waits only if the engine had
    committed a complete pollable wait.  If settling fails nothing changed. *)
Theorem finish_lease_settles (lease run : string) (result : Res string WorkflowLaunchResult)
    (w : World Db) (Hok : leases_ok (w_db w)) :
  wp (finish_lease_after_result lease run result)
     (fun r w' =>
        match r with
        | Ok o =>
            (exists target, destination run (w_db w) result target /\
               (moved lease run (sources result) target (w_db w) (w_db w') /\ o = outcome_of run target \/
                w_db w' = w_db w /\
                  (preserved lease run (sources result) (w_db w) o \/
                   result = Ok OwnershipDenied /\ already_denied lease run (w_db w) o))) /\
            (forall row, lease_row lease (w_db w') = Some row -> l_run_id row = Some run ->
               l_status row <> "running")
        | Err _ => w_db w' = w_db w
        end) w.
Proof.
  eapply wp_consequence; [apply finish_wp; apply Hok|].
  intros [o|e] w'; [|done]. intros (target & Hdest & Hcase). split; [by exists target|].
  eapply (settled_not_running lease run result target (w_db w) (w_db w') o); [done|].
  destruct Hcase as [[Hm _]|[Hd [Hp|[_ Hp]]]]; auto.
Qed.
End Settling.

(** ** What claiming does *)

(** The leases that count against a config. *)
Definition counts_for (config : string) (r : LeaseRow) : bool := (l_config_id r =?s config) && lease_active r.
Definition active_leases (config : string) (d : Db) : nat :=
  count_where (counts_for config) (issue_leases d).

(** The receipt of a lease. *)
Definition receipt_of (lease : string) (d : Db) : option ClaimMetadataReceipt :=
  select_first (fun m => cm_lease_id m =?s lease) (claim_metadata d).

(** A claim taken: the issue's lease, where it was free before. *)
Definition claimed_row (repo : string) (number : Z) (config lease status : string)
    (run : option string) (d : Db) : Prop :=
  exists row, issue_row repo number d = Some row /\ lease_id row = lease /\
    l_config_id row = config /\ l_status row = status /\ l_run_id row = run.

Definition free_issue (repo : string) (number : Z) (d : Db) : Prop :=
  forall old, issue_row repo number d = Some old ->
    LeaseStatus.blocks_duplicate_work (l_status (row_to_lease old)) = false.

Definition other_issues_kept (repo : string) (number : Z) (d d' : Db) : Prop :=
  forall repo' number', (repo', number') <> (repo, number) ->
    issue_row repo' number' d' = issue_row repo' number' d.

Lemma claim_statement_counted p row d r d' :
  leases_ok d -> claim_statement row d = Ok (r, d') ->
  count_where p (issue_leases d') <= S (count_where p (issue_leases d)).
Proof.
  intros [_ Hissue]. unfold claim_statement. destruct (id_taken _ _ _); [done|].
  destruct (select_first _ _) as [old|].
  - destruct (lease_status_in _ old); intros [= <- <-]; [|lia]. cbn.
    apply (count_where_update_one issue_of); [done|].
    by intros x y ->%lease_on_issue ->%lease_on_issue.
  - intros [= <- <-]. cbn. unfold count_where, select_where. rewrite List.filter_app, length_app.
    cbn. destruct (p row); cbn; lia.
Qed.

Lemma upsert_receipt_spec receipt d d' :
  upsert_receipt receipt d = Ok (tt, d') ->
  issue_leases d' = issue_leases d /\ receipt_of (cm_lease_id receipt) d' = Some receipt.
Proof.
  unfold upsert_receipt. destruct (exists_where _ _); [|done]. intros [= <-]. split; [done|].
  unfold receipt_of. cbn. apply select_first_upsert; [|by apply bool_decide_eq_true].
  intros r'. by apply bool_decide_ext.
Qed.

Section ClaimingLemmas.
Context `{Env}.

Lemma wp_explicit_transaction {A} (body : M Db SqlError A) (Q : Res SqlError A -> World Db -> Prop) w :
  (forall e w', w_db w' = w_db w -> Q (Err e) w') ->
  (forall w1, w_db w1 = w_db w ->
     wp body (fun r w2 => forall w3, w_db w3 = w_db w2 ->
       (forall e, Q (Err e) w3) /\ match r with Ok a => Q (Ok a) w3 | Err _ => True end) w1) ->
  wp (explicit_transaction body) Q w.
Proof.
  intros Herr Hbody. unfold wp, explicit_transaction, query.
  destruct (env_fault (w_stmt w)); cbn; [by apply Herr|].
  specialize (Hbody (next_stmt w) eq_refl). unfold wp in Hbody.
  destruct (body (next_stmt w)) as [[a|e] w2]; cbn in *.
  - destruct (env_fault (w_stmt w2)); cbn; by apply Hbody.
  - destruct (env_fault (w_stmt w2)); cbn; [by apply Hbody|by apply Herr].
Qed.

Lemma try_claim_counted p repo number config w :
  leases_ok (w_db w) ->
  wp (try_claim repo number config) (fun _ w' =>
    count_where p (issue_leases (w_db w')) <= S (count_where p (issue_leases (w_db w)))) w.
Proof.
  intros Hok. unfold try_claim, issue_number_to_sql_i64. wp_run.
  case_decide; wp_run; db_eqs; try lia. by eapply claim_statement_counted.
Qed.

(** A lease is acquired with its receipt or not at all; whatever happens, one
    more lease at most counts against any config. *)
Lemma acquire_wp repo number config_id cfg config w :
  leases_ok (w_db w) ->
  wp (acquire_lease_with_receipt repo number config_id cfg)
     (fun r w' =>
        leases_ok (w_db w') /\ active_leases config (w_db w') <= S (active_leases config (w_db w)) /\
        match r with
        | Ok (Some l) =>
            issue_row repo number (w_db w') = Some (lease_to_row number l) /\
            l_status l = LeaseStatus.Claimed /\ l_run_id l = None /\ l_config_id l = config_id /\
            free_issue repo number (w_db w) /\ other_issues_kept repo number (w_db w) (w_db w') /\
            receipt_of (lease_id l) (w_db w') = Some (first_receipt (lease_id l) cfg)
        | Ok None =>
            w_db w' = w_db w /\
            exists old, issue_row repo number (w_db w) = Some old /\
              LeaseStatus.blocks_duplicate_work (l_status (row_to_lease old)) = true
        | Err _ => True
        end) w.
Proof.
  intros Hok. apply wp_explicit_transaction; [intros e w' ->; auto|].
  intros w1 Hw1. apply wp_bind.
  eapply (wp_consequence _ _ _ _ (wp_and _ _ _ _
           (wp_keeps leases_ok _ _ _ (keeps_try_claim repo number config_id) (eq_ind_r leases_ok Hok Hw1)
              (try_claim_wp repo number config_id w1))
           (try_claim_counted (counts_for config) repo number config_id w1 (eq_ind_r leases_ok Hok Hw1)))).
  rewrite Hw1. intros [[l|]|e] w2 [[Hr Hok2] Hact].
  - destruct Hr as (_ & Hst & Hrun & Hcfg & _ & Hrow & Hfree & Hother).
    apply wp_bind. unfold upsert_claim_metadata. apply wp_execute.
    + intros w3 Hw3 w4 Hw4. rewrite Hw4, Hw3. auto.
    + intros e w3 _ Hw3 w4 Hw4. rewrite Hw4, Hw3. auto.
    + intros [] d w3 [Hl Hreceipt]%upsert_receipt_spec <-. apply wp_ret. intros w4 Hw4.
      unfold leases_ok, active_leases, other_issues_kept, issue_row in *.
      rewrite Hw4, Hl. split_and!; try done; apply Hok2.
  - apply wp_ret. destruct Hr as [Hd Hold]. intros w3 Hw3. rewrite Hw3, Hd. auto.
  - intros w3 Hw3. rewrite Hw3. auto.
Qed.

(** Rewriting a claimed lease: its issue, and what counts. *)
Lemma status_written lease f row d :
  leases_ok d -> issue_row (issue_repo row) (l_issue_number row) d = Some row -> lease_id row = lease ->
  (forall r, lease_id (f r) = lease_id r /\ issue_of (f r) = issue_of r) ->
  let d' := d <| issue_leases := update_where (lease_named lease) f (issue_leases d) |> in
  issue_row (issue_repo row) (l_issue_number row) d' = Some (f row) /\
  other_issues_kept (issue_repo row) (l_issue_number row) d d' /\
  forall config, counts_for config row = true ->
    (counts_for config (f row) = true -> active_leases config d' = active_leases config d) /\
    (counts_for config (f row) = false -> S (active_leases config d') <= active_leases config d).
Proof.
  intros [Hid Hissue] Hrow Hlease Hf d'.
  apply select_first_Some in Hrow as Hin. destruct Hin as [Hin Hon].
  assert (Hkey : forall r, r ∈ issue_leases d -> lease_id r = lease ->
            select_first (lease_named lease) (issue_leases d) = Some r).
  { intros r Hr Hn. apply (select_first_key lease_id); try done; [by apply lease_named_id|].
    intros x Hx%lease_named_id. congruence. }
  assert (Honly : forall r, r ∈ issue_leases d -> lease_named lease r = true -> r = row).
  { intros r Hr Hn%lease_named_id. pose proof (Hkey r Hr Hn). pose proof (Hkey row Hin Hlease).
    congruence. }
  assert (Hsame : forall repo number r, lease_on repo number (f r) = lease_on repo number r).
  { intros repo number r. destruct (Hf r) as [_ Hr]. injection Hr as Hr1 Hr2. unfold lease_on.
    by rewrite Hr1, Hr2. }
  split_and!.
  - unfold issue_row in *. cbn. rewrite select_first_update_key by (intros; apply Hsame).
    rewrite Hrow. cbn. by rewrite (proj2 (lease_named_id _ _) Hlease).
  - intros repo number Hne. unfold issue_row in *. cbn.
    rewrite select_first_update_key by (intros; apply Hsame).
    destruct (select_first (lease_on repo number) _) as [r|] eqn:Er; [|done]. cbn.
    destruct (lease_named lease r) eqn:En; [|done]. apply select_first_Some in Er as [Hr Hr'].
    rewrite (Honly r Hr En) in Hr'. apply lease_on_issue in Hr'. by destruct Hne.
  - intros config Hc. unfold active_leases. cbn. split; intros Hfc.
    + apply count_where_update. intros r Hr Hn. rewrite (Honly r Hr Hn). congruence.
    + apply count_where_update_drop; [|by exists row; rewrite (proj2 (lease_named_id _ _) Hlease)].
      intros r Hr Hn. by rewrite (Honly r Hr Hn).
Qed.

(** The unconditional status write, on the lease of an issue. *)
Lemma update_status_wp row lease status run w :
  leases_ok (w_db w) -> issue_row (issue_repo row) (l_issue_number row) (w_db w) = Some row ->
  lease_id row = lease ->
  wp (update_lease_status lease status run)
     (fun r w' =>
        match r with
        | Ok _ => exists t,
            let row' := row <| l_status := LeaseStatus.as_str status |>
                            <| l_run_id := opt_or run (l_run_id row) |> <| l_updated_at := t |> in
            issue_row (issue_repo row) (l_issue_number row) (w_db w') = Some row' /\
            other_issues_kept (issue_repo row) (l_issue_number row) (w_db w) (w_db w') /\
            claim_metadata (w_db w') = claim_metadata (w_db w) /\
            forall config, counts_for config row = true ->
              (counts_for config row' = true ->
                 active_leases config (w_db w') = active_leases config (w_db w)) /\
              (counts_for config row' = false ->
                 S (active_leases config (w_db w')) <= active_leases config (w_db w))
        | Err _ => w_db w' = w_db w
        end) w.
Proof.
  intros Hok Hrow Hlease. unfold update_lease_status. apply wp_bind, wp_now. intros w1 Hw1 _.
  set (t := env_clock _).
  apply wp_bind. set (stmt := match run with Some _ => _ | None => _ end).
  assert (Hstmt : exists f, stmt = execute (update_leases (lease_named lease) f) /\
            (forall r, lease_id (f r) = lease_id r /\ issue_of (f r) = issue_of r) /\
            f row = row <| l_status := LeaseStatus.as_str status |>
                            <| l_run_id := opt_or run (l_run_id row) |> <| l_updated_at := t |>).
  { subst stmt. destruct run as [rid|]; eexists; (split; [done|]); split; done. }
  destruct Hstmt as (f & -> & Hf & Hfrow). apply wp_execute; [congruence|done|].
  intros n d w2 [= <- <-] Hw2. apply wp_ret. exists t. cbn zeta. rewrite <- Hfrow, Hw2, Hw1.
  destruct (status_written lease f row (w_db w) Hok Hrow Hlease Hf) as (? & ? & ?). split_and!; done.
Qed.
End ClaimingLemmas.

Section Capacity.
Context `{Env}.

(** What a claim for a launch may answer. *)
Definition claim_result (issue : GithubIssue) (cfg : DiscoveryConfig) (config_id : string)
    (bases : DaemonPathBases) (mark_running : bool) (uuid : string) (d d' : Db)
    (r : Res SqlError (Res SkipReason ClaimedLaunch)) : Prop :=
  let repo := default "" (dc_repo cfg) in
  let number := i_number issue in
  let run := "run-" +:+ uuid in
  let before := active_leases config_id d in
  let after := active_leases config_id d' in
  match r with
  | Ok (Ok c) =>
      (Z.of_nat after <= max_runs cfg)%Z /\ free_issue repo number d /\
      claimed_row repo number config_id (cl_lease_id c)
        (if mark_running then "running" else "claimed") (if mark_running then Some run else None) d' /\
      receipt_of (cl_lease_id c) d' = Some (first_receipt (cl_lease_id c) cfg) /\
      other_issues_kept repo number d d' /\ lr_run_id (cl_request c) = run /\
      lr_repo (cl_request c) = repo /\ lr_issue_number (cl_request c) = number /\
      per_run_paths bases number run =
        Ok (mkPerRunPaths (lr_work_dir (cl_request c)) (lr_artifact_dir (cl_request c)))
  | Ok (Err HasActiveLease) => d' = d /\ ~ free_issue repo number d
  | Ok (Err reason) =>
      after <= before /\ free_issue repo number d /\ other_issues_kept repo number d d' /\
      (exists lease, claimed_row repo number config_id lease "abandoned" None d') /\
      match reason with
      | ConcurrencyLimitReached => (max_runs cfg < Z.of_nat (S before))%Z
      | InvalidPath e => per_run_paths bases number run = Err e
      | _ => False
      end
  | Err _ => after <= S before
  end.

(** The claim is given up: the lease just won becomes abandoned. *)
Lemma give_up_wp row config w :
  leases_ok (w_db w) -> issue_row (issue_repo row) (l_issue_number row) (w_db w) = Some row ->
  counts_for config row = true -> l_config_id row = config -> l_run_id row = None ->
  wp (update_lease_status (lease_id row) LeaseStatus.Abandoned None)
     (fun r w' =>
        match r with
        | Ok _ => S (active_leases config (w_db w')) <= active_leases config (w_db w) /\
            other_issues_kept (issue_repo row) (l_issue_number row) (w_db w) (w_db w') /\
            claimed_row (issue_repo row) (l_issue_number row) config (lease_id row) "abandoned" None
              (w_db w')
        | Err _ => w_db w' = w_db w
        end) w.
Proof.
  intros Hok Hrow Hc Hcfg Hrun. eapply wp_consequence; [by apply update_status_wp|].
  intros [_|e] w'; [|done]. intros (t & Hrow' & Hother & _ & Hact). split_and!; [|done|].
  - apply (Hact config Hc). unfold counts_for, lease_active. cbn. by rewrite andb_false_r.
  - eexists. split; [exact Hrow'|]. cbn. by rewrite Hrun.
Qed.

Lemma other_issues_trans repo number d d1 d2 :
  other_issues_kept repo number d d1 -> other_issues_kept repo number d1 d2 ->
  other_issues_kept repo number d d2.
Proof. intros H1 H2 repo' number' Hne. by rewrite H2, H1. Qed.

Lemma claim_wp issue cfg config_id bases mark_running config_root uuid w :
  leases_ok (w_db w) ->
  wp (claim_for_launch_with_state issue cfg config_id bases mark_running config_root uuid)
     (fun r w' => claim_result issue cfg config_id bases mark_running uuid (w_db w) (w_db w') r) w.
Proof.
  intros Hok. unfold claim_for_launch_with_state, claim_result. set (repo := default "" _).
  set (number := i_number issue). set (run := "run-" +:+ uuid). apply wp_bind.
  eapply wp_consequence; [by apply (acquire_wp repo number config_id cfg config_id)|].
  intros [[l|]|e] w1 (Hok1 & Hact1 & Hr); [..|done].
  2:{ apply wp_ret. destruct Hr as (Hd & old & Hold & Hb). split; [done|]. intros Hfree.
      specialize (Hfree old Hold). congruence. }
  destruct Hr as (Hrow & Hst & Hrun & Hcfg & Hfree & Hother & Hreceipt).
  set (row := lease_to_row number l) in *.
  assert (Hon : issue_of row = (repo, number)).
  { apply lease_on_issue. by apply select_first_Some in Hrow as [_ ?]. }
  pose proof (f_equal fst Hon : issue_repo row = repo) as Hrepo. clear Hon.
  assert (Hcount : counts_for config_id row = true).
  { unfold counts_for, row, lease_active. cbn. rewrite Hst, Hcfg. by rewrite bool_decide_eq_true_2. }
  clearbody repo. subst repo. apply wp_bind. unfold count_active_leases_for_config.
  apply wp_query; intros w2 Hw2; [by rewrite Hw2|]. rewrite <- Hw2 in *.
  change (count_where _ (issue_leases (w_db w2))) with (active_leases config_id (w_db w2)).
  pose proof (give_up_wp row config_id w2 Hok1 Hrow Hcount Hcfg Hrun) as Hgive.
  destruct (decide _) as [Hover|Hunder].
  - apply wp_bind. eapply wp_consequence; [exact Hgive|]. intros [[]|e] w3; [|by intros ->].
    intros (Hact & Hother' & Hrow'). apply wp_ret. split_and!; [lia|done| | |lia].
    + by eapply other_issues_trans.
    + by exists (lease_id row).
  - destruct (per_run_paths bases number run) as [paths|error] eqn:Ep.
    2:{ apply wp_bind. eapply wp_consequence; [exact Hgive|]. intros [[]|e] w3; [|by intros ->].
        intros (Hact & Hother' & Hrow'). apply wp_ret. split_and!; [lia|done| | |done].
        - by eapply other_issues_trans.
        - by exists (lease_id row). }
    apply wp_bind. destruct mark_running.
    + eapply wp_consequence; [by apply (update_status_wp row)|].
      intros [[]|e] w3; [|by intros ->]. intros (t & Hrow' & Hother' & Hmeta & Hact).
      apply wp_ret. specialize (Hact config_id Hcount) as [Hact _].
      rewrite Hact; [|unfold counts_for; cbn; by rewrite Hcfg, bool_decide_eq_true_2].
      split_and!; try done; [lia| |unfold receipt_of; by rewrite Hmeta| |by destruct paths].
      * by eexists.
      * by eapply other_issues_trans.
    + apply wp_ret, wp_ret. split_and!; try done; [lia| |by destruct paths].
      exists row. split_and!; try done. unfold row. cbn. by rewrite Hst.
Qed.
(** Claiming for a launch keeps the capacity of its config and is all or
    nothing.  A claim it returns was of a free issue, left at most the config's
    maximum of active leases, and is recorded with its receipt, its status and
    the run the request names, in directories confined to the bases.  A skipped
    claim either changed nothing, because the issue was taken, or handed the
    issue back as abandoned, for a true reason, with no more leases active than
    before.  Other issues' leases are untouched.  An error leaves at most one
    more active lease. *)
Theorem claim_for_launch_capacity (issue : GithubIssue) (cfg : DiscoveryConfig) (config_id : string)
    (bases : DaemonPathBases) (mark_running : bool) (config_root uuid : string) (w : World Db)
    (Hok : leases_ok (w_db w)) :
  wp (claim_for_launch_with_state issue cfg config_id bases mark_running config_root uuid)
     (fun r w' => claim_result issue cfg config_id bases mark_running uuid (w_db w) (w_db w') r) w.
Proof. by apply claim_wp. Qed.
End Capacity.

(** ** Claim, launch, settle *)

Section Launching.
Context `{Env}.

Lemma keeps_explicit_transaction {A} (P : Db -> Prop) (body : M Db SqlError A) :
  keeps P body -> keeps P (explicit_transaction body).
Proof.
  intros Hbody w HP. unfold explicit_transaction, query.
  destruct (env_fault (w_stmt w)); cbn; [done|]. specialize (Hbody (next_stmt w) HP).
  destruct (body (next_stmt w)) as [[a|e] w2]; cbn in *; by destruct (env_fault (w_stmt w2)).
Qed.

Lemma keeps_claim_for_launch issue cfg config_id bases mark_running config_root uuid :
  keeps leases_ok
    (claim_for_launch_with_state issue cfg config_id bases mark_running config_root uuid).
Proof.
  assert (Hreceipt : forall receipt, keeps leases_ok (upsert_claim_metadata receipt)).
  { intros receipt. apply keeps_execute. intros d [] d' Hd [Hl _]%upsert_receipt_spec.
    unfold leases_ok. by rewrite Hl. }
  unfold claim_for_launch_with_state, count_active_leases_for_config. keeps_auto.
  apply keeps_explicit_transaction. keeps_auto.
Qed.

Definition about_run (run : string) (o : LaunchOutcome) : bool :=
  match o with
  | Launched r _ | LaunchWaiting r | LeaseStatePreserved r _ _ => r =?s run
  | Skipped _ => false
  end.

Lemma settled_about_run lease run expected d o target :
  o = outcome_of run target \/ preserved lease run expected d o \/ already_denied lease run d o ->
  about_run run o = true.
Proof.
  intros [->|[Hp|[-> _]]]; [by destruct target; apply bool_decide_eq_true| |by apply bool_decide_eq_true].
  unfold preserved in Hp. destruct (lease_row _ _); [destruct Hp as (_ & s & _ & ->)|subst];
    by apply bool_decide_eq_true.
Qed.

(** From claim to settled lease.  With any launcher (it may run a whole
    engine over the database, as long as it keeps the uniqueness of leases), a
    [claim_and_launch] that returns either skipped the issue, as the claim
    says, or launched the run it claimed for, within capacity at that moment,
    and the claimed lease is no longer running for that run when it returns. *)
Theorem claim_and_launch_settled `{L : WorkflowLauncher} (issue : GithubIssue)
    (cfg : DiscoveryConfig) (config_id : string) (bases : DaemonPathBases)
    (config_root uuid : string) (w : World Db)
    (Hok : leases_ok (w_db w)) (Hlauncher : forall request, keeps leases_ok (launch request)) :
  wp (claim_and_launch issue cfg config_id bases config_root uuid)
     (fun r w' =>
        let claims := claim_result issue cfg config_id bases true uuid (w_db w) in
        match r with
        | Ok (Skipped reason) => claims (w_db w') (Ok (Err reason))
        | Ok o => exists c d, claims d (Ok (Ok c)) /\
            about_run (lr_run_id (cl_request c)) o = true /\
            forall row, lease_row (cl_lease_id c) (w_db w') = Some row ->
              l_run_id row = Some (lr_run_id (cl_request c)) -> l_status row <> "running"
        | Err _ => True
        end) w.
Proof.
  unfold claim_and_launch, claim_for_launch. apply wp_bind.
  eapply wp_consequence.
  { eapply wp_keeps; [apply keeps_claim_for_launch|exact Hok|].
    by apply claim_wp. }
  intros [[c|reason]|e] w1 [Hc Hok1]; [|by apply wp_ret|done].
  apply wp_bind, wp_try. unfold wp at 1.
  pose proof (Hlauncher (cl_request c) w1 Hok1) as Hok2.
  destruct (launch (cl_request c) w1) as [result w2]. cbn in *.
  eapply wp_consequence; [apply finish_wp; apply Hok2|]. intros [o|e] w3; [|done].
  intros (target & Hdest & Hcase).
  assert (Hrun : about_run (lr_run_id (cl_request c)) o = true).
  { eapply (settled_about_run (cl_lease_id c)). destruct Hcase as [[_ Ho]|[_ [Hp|[_ Hp]]]]; eauto. }
  assert (Hsettled : forall row, lease_row (cl_lease_id c) (w_db w3) = Some row ->
            l_run_id row = Some (lr_run_id (cl_request c)) -> l_status row <> "running").
  { eapply (settled_not_running _ _ result target (w_db w2) _ o); [done|].
    destruct Hcase as [[Hm _]|[Hd [Hp|[_ Hp]]]]; auto. }
  destruct o; try done; by exists c, (w_db w1).
Qed.
End Launching.

(** ** Witnesses *)

#[local] Existing Instance calm.

Lemma finish_lease_settles_witness :
  let w := start sample_leases in
  let w' := snd (finish_lease_after_result "l1" "run-1" (Err "engine crashed") w) in
  leases_ok (w_db w) /\
  fst (finish_lease_after_result "l1" "run-1" (Err "engine crashed") w) = Ok (Launched "run-1" false) /\
  forall row, lease_row "l1" (w_db w') = Some row -> l_run_id row = Some "run-1" ->
    l_status row <> "running".
Proof.
  intros w w'. split; [by_computation|]. split; [by vm_compute|].
  exact (proj2 (finish_lease_settles "l1" "run-1" (Err "engine crashed") w ltac:(by_computation))).
Defined.

Definition wanted : GithubIssue := mkGithubIssue 2 "wanted" "open" [] [] None None.

Lemma claim_for_launch_capacity_witness :
  let w := start sample_leases in
  let claim := claim_for_launch_with_state wanted claiming_config "cfg" sample_bases true "config" "u" w in
  leases_ok (w_db w) /\
  claim_result wanted claiming_config "cfg" sample_bases true "u" (w_db w) (w_db (snd claim)) (fst claim).
Proof.
  intros w claim. split; [by_computation|].
  exact (claim_for_launch_capacity wanted claiming_config "cfg" sample_bases true "config" "u" w
           ltac:(by_computation)).
Defined.

(** The config has a running lease and room for one: the claim is handed back. *)
Example over_capacity_skips :
  fst (claim_for_launch wanted claiming_config "cfg" sample_bases "config" "u" (start sample_leases))
  = Ok (Err ConcurrencyLimitReached).
Proof. by vm_compute. Qed.

#[local] Instance prompt_launcher : WorkflowLauncher := { launch _ := mret CompletedSuccess }.

Lemma claim_and_launch_settled_witness :
  let w := start empty_db in
  let run := claim_and_launch wanted claiming_config "cfg" sample_bases "config" "u" w in
  leases_ok (w_db w) /\ (forall request, keeps leases_ok (launch request)) /\
  fst run = Ok (Launched "run-u" true) /\
  exists c d, claim_result wanted claiming_config "cfg" sample_bases true "u" (w_db w) d (Ok (Ok c)) /\
    about_run (lr_run_id (cl_request c)) (Launched "run-u" true) = true /\
    forall row, lease_row (cl_lease_id c) (w_db (snd run)) = Some row ->
      l_run_id row = Some (lr_run_id (cl_request c)) -> l_status row <> "running".
Proof.
  intros w run. assert (Hl : forall request, keeps leases_ok (launch request)) by by intros r w1.
  split; [by_computation|]. split; [done|]. split; [by vm_compute|].
  exact (claim_and_launch_settled wanted claiming_config "cfg" sample_bases "config" "u" w
           ltac:(by_computation) Hl).
Defined.

(** An environment whose fourth statement, the [COMMIT] of the claim, fails. *)
Definition failing_commit : Env := {|
  env_clock n := (100 + Z.of_nat n)%Z;
  env_fault n := bool_decide (n = 3);
  env_interrupt _ := false
|}.

(** The claim reports an error, and this connection still sees it taken: no
    [ROLLBACK] follows a failing [COMMIT]. *)
Lemma failed_commit_keeps_claim :
  let claim := @acquire_lease_with_receipt failing_commit "o/r" 7 "cfg" claiming_config (start empty_db) in
  fst claim = Err SqliteFailure /\
  exists lease, claimed_row "o/r" 7 "cfg" lease "claimed" None (w_db (snd claim)).
Proof.
  intros claim. split; [by vm_compute|]. exists (claim_lease_id "o/r" 7 100). eexists.
  split; [by vm_compute|]. by vm_compute.
Qed.
