(* ===== verification/Discovery.v ===== *)
(** Issue discovery ([daemon/discovery.rs], [daemon/discovery/approval.rs]):
    which of a repository's issues may be launched now, in which order, and why
    the others may not.  GitHub's answers are [IssueQuery]; they may differ from
    one call to the next and fail; a pass runs over the local database and the
    remote's state side by side. *)
From S2P Require Import Prelude Text Effects Sql Status Schema Leases RemoteClaim Launcher.
From Stdlib Require Import Ascii.

(** ** Data *)

Inductive SubIssueSource := Native | FallbackChecklist.

Record GithubSubIssue := mkGithubSubIssue {
  si_issue : GithubIssue;
  si_position : option Z;
  si_source : SubIssueSource
}.

Record GithubParentIssue := mkGithubParentIssue { gp_issue : GithubIssue }.

(** The reading half of the query seam ([adapters/github_issues/mod.rs]). *)
Class IssueQuery (R : Type) := {
  list_issues : string -> list string -> list string -> M R GithubError (list GithubIssue);
  latest_label_actor : string -> Z -> string -> M R GithubError (option string);
  has_open_pr_for_issue : string -> Z -> M R GithubError bool;
  get_parent_issue : string -> Z -> M R GithubError (option GithubParentIssue);
  list_sub_issues : string -> Z -> M R GithubError (list GithubSubIssue)
}.

Inductive DiscoveryError :=
| DGithub (e : GithubError)
| DDatabase (e : SqlError).

Record RoutedIssue := mkRoutedIssue {
  ri_issue : GithubIssue;
  ri_workflow_type_id : option string;
  ri_config_id : option string
}.

Definition ordinary (issue : GithubIssue) : RoutedIssue := mkRoutedIssue issue None None.
Definition parent (issue : GithubIssue) (cfg : DiscoveryConfig) : RoutedIssue :=
  mkRoutedIssue issue (parent_workflow_type_id cfg) (parent_config_id cfg).

Record DiscoveryResult := mkDiscoveryResult {
  eligible : list RoutedIssue;
  skipped : list (GithubIssue * SkipReason)
}.
#[global] Instance eta_DiscoveryResult : Eta DiscoveryResult := fun r =>
  mkDiscoveryResult (eligible r) (skipped r).

(** What the standard library prints for [{:?}] of a list of strings. *)
Class StringsDebug := strings_debug : list string -> string.

Definition exit_code_debug (code : option Z) : string :=
  match code with Some n => "Some(" +:+ pretty n +:+ ")" | None => "None" end.

(** [Display] of [adapters::github::GithubError] *)
Definition github_error_display `{StringsDebug} (e : GithubError) : string :=
  match e with
  | CliNotFound =>
      "GitHub CLI not found on PATH; install gh (https://cli.github.com) and run `gh auth login`"
  | AuthenticationRequired => "GitHub CLI is not authenticated; run `gh auth login`"
  | InsufficientScopes missing =>
      "GitHub token is missing required scope(s): " +:+ join_with ", " missing
      +:+ "; run `gh auth refresh -s " +:+ join_with "," missing +:+ "`"
  | RepositoryNotAccessible repo =>
      "GitHub repository `" +:+ repo +:+ "` is not accessible; verify the name and your permissions"
  | RateLimited repo =>
      "GitHub API rate limit exhausted while checking `" +:+ repo
      +:+ "`; the repository and credentials are not at fault. Check `gh api rate_limit` and retry after the reset"
  | CommandFailed argv exit_code stderr =>
      "GitHub command " +:+ strings_debug argv +:+ " failed with exit code "
      +:+ exit_code_debug exit_code +:+ ": " +:+ stderr
  | NotFound resource => "GitHub resource not found: " +:+ resource
  | CacheLock context error => "GitHub adapter cache lock failed while " +:+ context +:+ ": " +:+ error
  end.

(** [Display] of [SkipReason] *)
Definition skip_display (r : SkipReason) : string :=
  match r with
  | MissingRequiredLabel l => "missing required label '" +:+ l +:+ "'"
  | HasExcludedLabel l => "has excluded label '" +:+ l +:+ "'"
  | WrongState s => "wrong state '" +:+ s +:+ "'"
  | MissingApprovalProvenance => "approval label provenance is missing"
  | UnauthorizedApprovalActor actor =>
      "approval label was applied by unauthorized actor '" +:+ actor +:+ "'"
  | HasActiveLease => "issue already has an in-progress lease"
  | HasOpenPr => "issue already has an open PR"
  | ChildOfActiveParent => "child issue is owned by an active parent orchestrator"
  | ConcurrencyLimitReached => "per-config concurrency limit reached"
  | InvalidLeaseState => "invalid lease state"
  | InvalidPath detail => "invalid launch path: " +:+ detail
  | RoutingFailed detail => "parent issue routing failed: " +:+ detail
  end.

(** ** Filters *)

Definition issue_has_label (issue : GithubIssue) (expected : string) : bool :=
  existsb (fun label => eq_ignore_ascii_case label expected) (i_labels issue).

Definition static_filter (cfg : DiscoveryConfig) (issue : GithubIssue) : option SkipReason :=
  match List.find (fun required => negb (issue_has_label issue required)) (include_labels cfg) with
  | Some required => Some (MissingRequiredLabel required)
  | None =>
      match List.find (issue_has_label issue) (exclude_labels cfg) with
      | Some excluded => Some (HasExcludedLabel excluded)
      | None =>
          if negb (bool_decide (issue_states cfg = []))
             && negb (existsb (fun state => eq_ignore_ascii_case state (i_state issue)) (issue_states cfg))
          then Some (WrongState (i_state issue))
          else None
      end
  end.

Inductive ApprovalStatus :=
| Authorized
| MissingProvenance
| UnauthorizedActor (actual : string).

Definition evaluate_approval_actor (approval_actor : option string) (expected_actor : string)
    : ApprovalStatus :=
  match approval_actor with
  | Some actual => if eq_ignore_ascii_case actual expected_actor then Authorized else UnauthorizedActor actual
  | None => MissingProvenance
  end.

Definition parent_has_active_label (cfg : DiscoveryConfig) (parent : GithubIssue) : bool :=
  match active_parent_label cfg with
  | Some label => negb (str_is_empty label) && issue_has_label parent label
  | None => false
  end.

(** ** Order *)

(** [(u8, u64, u64, u64)] *)
Definition SemverKey : Type := Z * Z * Z * Z.

Definition semver_key (milestone : option string) : SemverKey :=
  match milestone with
  | None => (1, 0, 0, 0)%Z
  | Some raw =>
      let trimmed := trim_start_char "V" (trim_start_char "v" raw) in
      match parse_u64 <$> split_char "." trimmed with
      | Some a :: rest =>
          (0%Z, a, default 0%Z (rest !! 0 ≫= id), default 0%Z (rest !! 1 ≫= id))
      | _ => (1, 0, 0, 0)%Z
      end
  end.

(** The lexicographic order of tuples. *)
Definition semver_compare (k k' : SemverKey) : comparison :=
  let '(t, a, b, c) := k in
  let '(t', a', b', c') := k' in
  match (t ?= t')%Z with
  | Eq => match (a ?= a')%Z with
          | Eq => match (b ?= b')%Z with Eq => (c ?= c')%Z | o => o end
          | o => o
          end
  | o => o
  end.

Definition issue_compare (cfg : DiscoveryConfig) (a b : GithubIssue) : comparison :=
  if bool_decide (milestone_order cfg = Some "none") then (i_number a ?= i_number b)%Z
  else match semver_compare (semver_key (i_milestone a)) (semver_key (i_milestone b)) with
       | Eq => (i_number a ?= i_number b)%Z
       | o => o
       end.

(** [a] need not come after [b]. *)
Definition issue_le (cfg : DiscoveryConfig) (a b : GithubIssue) : Prop := issue_compare cfg a b <> Gt.
#[global] Instance issue_le_dec cfg : RelDecision (issue_le cfg).
Proof. intros a b. unfold issue_le. apply _. Defined.

(** [sort_by], a stable sort. *)
Definition order_issues (cfg : DiscoveryConfig) (issues : list GithubIssue) : list GithubIssue :=
  merge_sort (issue_le cfg) issues.

(** ** The lookup cache *)

Record DiscoveryLookupCache := mkDiscoveryLookupCache {
  parents : gmap (string * Z) (option GithubIssue);
  sub_issues : gmap (string * Z) (list GithubSubIssue)
}.
#[global] Instance eta_DiscoveryLookupCache : Eta DiscoveryLookupCache := fun c =>
  mkDiscoveryLookupCache (parents c) (sub_issues c).

Definition empty_cache : DiscoveryLookupCache := mkDiscoveryLookupCache ∅ ∅.

(** How a discovery pass finds the parent and the children of an issue, with
    what it remembers of them. *)
Class Lookups (R : Type) := {
  cache_parent_issue : DiscoveryLookupCache -> string -> Z ->
    M R GithubError (DiscoveryLookupCache * option GithubIssue);
  cache_sub_issues : DiscoveryLookupCache -> string -> Z ->
    M R GithubError (DiscoveryLookupCache * list GithubSubIssue)
}.

(** [DiscoveryLookupCache]: an answer is remembered, an error is not. *)
Definition cached_lookups {R} `{IssueQuery R} : Lookups R := {|
  cache_parent_issue cache repo number :=
    match parents cache !! (repo, number) with
    | Some found => mret (cache, found)
    | None =>
        answer ← get_parent_issue repo number;
        let found := gp_issue <$> answer in
        mret (cache <| parents := <[(repo, number) := found]> (parents cache) |>, found)
    end;
  cache_sub_issues cache repo number :=
    match sub_issues cache !! (repo, number) with
    | Some children => mret (cache, children)
    | None =>
        children ← list_sub_issues repo number;
        mret (cache <| sub_issues := <[(repo, number) := children]> (sub_issues cache) |>, children)
    end
|}.

(** ** The pipeline *)

Section Pipeline.
Context `{Env} `{StringsDebug} {R : Type} `{IssueQuery R} `{Lookups R}.

Definition approval_skip (cfg : DiscoveryConfig) (repo : string) (issue : GithubIssue)
    : M R GithubError (option SkipReason) :=
  match approval_label cfg, approval_actor cfg with
  | Some label, Some expected_actor =>
      actual ← latest_label_actor repo (i_number issue) label;
      mret (match evaluate_approval_actor actual expected_actor with
            | Authorized => None
            | MissingProvenance => Some MissingApprovalProvenance
            | UnauthorizedActor actual => Some (UnauthorizedApprovalActor actual)
            end)
  | None, None => mret None
  | _, _ => mret (Some MissingApprovalProvenance)
  end.

Definition local_dynamic_skip (issue : GithubIssue) (repo : string)
    : M Db DiscoveryError (option SkipReason) :=
  lease ← map_err DDatabase (get_lease_for_issue repo (i_number issue));
  mret (match lease with
        | Some l => if LeaseStatus.blocks_duplicate_work (l_status l) then Some HasActiveLease else None
        | None => None
        end).

Definition has_active_parent (cfg : DiscoveryConfig) (cache : DiscoveryLookupCache) (repo : string)
    (issue : GithubIssue) : M (Db * R) DiscoveryError (DiscoveryLookupCache * bool) :=
  '(cache, found) ← map_err DGithub (on_remote (cache_parent_issue cache repo (i_number issue)));
  match found with
  | None => mret (cache, false)
  | Some parent =>
      if parent_has_active_label cfg parent then mret (cache, true)
      else
        lease ← try (on_local (get_lease_for_issue repo (i_number parent)));
        mret (cache, match lease with
                     | Ok (Some l) => LeaseStatus.blocks_duplicate_work (l_status l)
                     | Ok None | Err _ => false
                     end)
  end.

Definition remote_dynamic_skip (cfg : DiscoveryConfig) (cache : DiscoveryLookupCache)
    (issue : GithubIssue) (repo : string)
    : M (Db * R) DiscoveryError (DiscoveryLookupCache * option SkipReason) :=
  '(cache, child) ←
    (if skip_children_of_active_parents cfg then has_active_parent cfg cache repo issue
     else mret (cache, false));
  if (child : bool) then mret (cache, Some ChildOfActiveParent)
  else
    open_pr ← map_err DGithub (on_remote (has_open_pr_for_issue repo (i_number issue)));
    mret (cache, if (open_pr : bool) then Some HasOpenPr else None).

(** The cache outlives a failing lookup, unchanged. *)
Definition route_issue (cfg : DiscoveryConfig) (cache : DiscoveryLookupCache) (issue : GithubIssue)
    (repo : string) : M R DiscoveryError (DiscoveryLookupCache * Res GithubError RoutedIssue) :=
  answer ← try (cache_sub_issues cache repo (i_number issue));
  mret (match answer with
        | Ok (cache, children) =>
            (cache, Ok (if bool_decide (children = []) then ordinary issue else parent issue cfg))
        | Err source => (cache, Err source)
        end).

Definition skip (st : DiscoveryResult) (issue : GithubIssue) (reason : SkipReason) : DiscoveryResult :=
  st <| skipped := skipped st ++ [(issue, reason)] |>.
Definition admit_issue (st : DiscoveryResult) (routed : RoutedIssue) : DiscoveryResult :=
  st <| eligible := eligible st ++ [routed] |>.

(** The body of the loop. *)
Definition visit (cfg : DiscoveryConfig) (repo : string) (active_count : Z)
    (acc : DiscoveryLookupCache * DiscoveryResult) (issue : GithubIssue)
    : M (Db * R) DiscoveryError (DiscoveryLookupCache * DiscoveryResult) :=
  let '(cache, result) := acc in
  match static_filter cfg issue with
  | Some reason => mret (cache, skip result issue reason)
  | None =>
      approval ← map_err DGithub (on_remote (approval_skip cfg repo issue));
      match approval with
      | Some reason => mret (cache, skip result issue reason)
      | None =>
          local ← try (on_local (local_dynamic_skip issue repo));
          match local with
          | Err (DDatabase _) => mret (cache, skip result issue InvalidLeaseState)
          | Err error => throw error
          | Ok (Some reason) => mret (cache, skip result issue reason)
          | Ok None =>
              '(cache, remote) ← remote_dynamic_skip cfg cache issue repo;
              match remote with
              | Some reason => mret (cache, skip result issue reason)
              | None =>
                  if decide (max_runs cfg <= Z.of_nat (length (eligible result)) + active_count)%Z
                  then mret (cache, skip result issue ConcurrencyLimitReached)
                  else if route_parent_issues cfg then
                    '(cache, routed) ← on_remote (route_issue cfg cache issue repo);
                    mret (cache, match routed with
                                 | Ok routed => admit_issue result routed
                                 | Err source =>
                                     skip result issue (RoutingFailed (github_error_display source))
                                 end)
                  else mret (cache, admit_issue result (ordinary issue))
              end
          end
      end
  end.

Fixpoint visit_all (cfg : DiscoveryConfig) (repo : string) (active_count : Z)
    (acc : DiscoveryLookupCache * DiscoveryResult) (issues : list GithubIssue)
    : M (Db * R) DiscoveryError (DiscoveryLookupCache * DiscoveryResult) :=
  match issues with
  | [] => mret acc
  | issue :: rest => acc ← visit cfg repo active_count acc issue; visit_all cfg repo active_count acc rest
  end.

Definition discover_with (cfg : DiscoveryConfig) (active_count : Z) : M (Db * R) DiscoveryError DiscoveryResult :=
  let repo := default "" (dc_repo cfg) in
  issues ← map_err DGithub (on_remote (list_issues repo (include_labels cfg) (issue_states cfg)));
  '(_, result) ← visit_all cfg repo active_count (empty_cache, mkDiscoveryResult [] [])
                   (order_issues cfg issues);
  mret result.
End Pipeline.

Definition discover `{Env} `{StringsDebug} {R} `{IssueQuery R} (cfg : DiscoveryConfig) (active_count : Z)
    : M (Db * R) DiscoveryError DiscoveryResult :=
  discover_with (H2 := cached_lookups) cfg active_count.

(** ** The order of issues *)

Lemma compare_then (x y : Z) (o : comparison) :
  match (x ?= y)%Z with Eq => o | c => c end <> Gt <-> (x < y)%Z \/ x = y /\ o <> Gt.
Proof.
  destruct (Z.compare_spec x y) as [->|Hlt|Hgt]; split; intros Hc; try tauto; try (left; lia).
  - by destruct Hc as [Hc|[_ Hc]]; [lia|].
  - done.
  - destruct Hc as [Hc|[Hc _]]; lia.
Qed.

(** Everything an issue is ordered by. *)
Definition sort_key (cfg : DiscoveryConfig) (i : GithubIssue) : Z * Z * Z * Z * Z :=
  if bool_decide (milestone_order cfg = Some "none") then (0, 0, 0, 0, i_number i)%Z
  else (semver_key (i_milestone i), i_number i).

Definition key_le (k k' : Z * Z * Z * Z * Z) : Prop :=
  let '(t, a, b, c, n) := k in
  let '(t', a', b', c', n') := k' in
  (t < t' \/ t = t' /\ (a < a' \/ a = a' /\ (b < b' \/ b = b' /\ (c < c' \/ c = c' /\ n <= n'))))%Z.

Lemma issue_le_key cfg a b : issue_le cfg a b <-> key_le (sort_key cfg a) (sort_key cfg b).
Proof.
  unfold issue_le, issue_compare, sort_key, key_le.
  case_bool_decide.
  - rewrite Z.compare_le_iff. lia.
  - destruct (semver_key (i_milestone a)) as [[[t x] y] z], (semver_key (i_milestone b)) as [[[t' x'] y'] z'].
    unfold semver_compare.
    rewrite <- (Z.compare_le_iff (i_number a)), <- !compare_then.
    destruct (t ?= t')%Z, (x ?= x')%Z, (y ?= y')%Z, (z ?= z')%Z; done.
Qed.

#[global] Instance issue_le_trans cfg : Transitive (issue_le cfg).
Proof.
  intros a b c. rewrite !issue_le_key.
  destruct (sort_key cfg a) as [[[[? ?] ?] ?] ?], (sort_key cfg b) as [[[[? ?] ?] ?] ?],
    (sort_key cfg c) as [[[[? ?] ?] ?] ?]. unfold key_le. lia.
Qed.

#[global] Instance issue_le_total cfg : Total (issue_le cfg).
Proof.
  intros a b. rewrite !issue_le_key.
  destruct (sort_key cfg a) as [[[[? ?] ?] ?] ?], (sort_key cfg b) as [[[[? ?] ?] ?] ?].
  unfold key_le. lia.
Qed.

Lemma order_issues_sorted cfg issues : StronglySorted (issue_le cfg) (order_issues cfg issues).
Proof. apply StronglySorted_merge_sort; apply _. Qed.

Lemma order_issues_perm cfg issues : order_issues cfg issues ≡ₚ issues.
Proof. apply merge_sort_Permutation. Qed.

Lemma order_issues_by_key cfg issues :
  StronglySorted (fun i j => key_le (sort_key cfg i) (sort_key cfg j)) (order_issues cfg issues).
Proof.
  pose proof (order_issues_sorted cfg issues) as Hs. induction Hs as [|i l _ IH Hi]; constructor; [done|].
  eapply Forall_impl; [exact Hi|]. intros j. apply issue_le_key.
Qed.

(** The title of a release's milestone. *)
Definition release_title (a b c : Z) : string :=
  "v" +:+ pretty a +:+ "." +:+ pretty b +:+ "." +:+ pretty c.

Lemma semver_key_release a b c :
  is_u64 a -> is_u64 b -> is_u64 c -> semver_key (Some (release_title a b c)) = (0, a, b, c)%Z.
Proof.
  intros Ha Hb Hc.
  assert (Hd : forall z, is_u64 z -> all_digits (pretty z) = true /\ (pretty z : string) <> "").
  { intros z [? _]. split; [by apply all_digits_pretty|by apply pretty_not_empty]. }
  destruct (Hd a Ha) as [Da Ea], (Hd b Hb) as [Db _], (Hd c Hc) as [Dc _].
  unfold semver_key, release_title.
  rewrite !char_app, trim_start_step, decide_True by done.
  rewrite !trim_start_digits by done.
  rewrite !split_char_digits, split_char_digits_end by done.
  cbn [fmap list_fmap]. by rewrite !parse_u64_pretty.
Qed.

(** An issue of an earlier release never comes after an issue of a later
    one, nor after one without a release. *)
Theorem release_order (cfg : DiscoveryConfig) (issues : list GithubIssue) (x y : GithubIssue)
    (a b c : Z) (l1 l2 : list GithubIssue)
    (Hsemver : milestone_order cfg <> Some "none")
    (Ha : is_u64 a) (Hb : is_u64 b) (Hc : is_u64 c)
    (Hx : i_milestone x = Some (release_title a b c))
    (Hy : i_milestone y = None \/ exists a' b' c', is_u64 a' /\ is_u64 b' /\ is_u64 c' /\
            i_milestone y = Some (release_title a' b' c') /\
            (a < a' \/ a = a' /\ (b < b' \/ b = b' /\ c < c'))%Z)
    (Hsplit : order_issues cfg issues = l1 ++ y :: l2) :
  x ∉ l2.
Proof.
  intros Hin. pose proof (order_issues_sorted cfg issues) as Hs.
  rewrite Hsplit, StronglySorted_app, StronglySorted_cons in Hs.
  destruct Hs as (_ & _ & [Hall _]). rewrite Forall_forall in Hall.
  specialize (Hall x Hin). apply issue_le_key in Hall.
  unfold sort_key in Hall. rewrite bool_decide_eq_false_2, Hx, semver_key_release in Hall by done.
  destruct Hy as [Hy|(a' & b' & c' & ? & ? & ? & Hy & Hlt)]; rewrite Hy in Hall.
  - cbn in Hall. lia.
  - rewrite semver_key_release in Hall by done. cbn in Hall. lia.
Qed.

(** ** What a pass returns *)

(** What became of an issue. *)
Inductive Verdict :=
| Chosen (routed : RoutedIssue)
| Refused (reason : SkipReason).

Definition chosen_of (o : GithubIssue * Verdict) : option RoutedIssue :=
  match o.2 with Chosen r => Some r | Refused _ => None end.
Definition refused_of (o : GithubIssue * Verdict) : option (GithubIssue * SkipReason) :=
  match o.2 with Chosen _ => None | Refused reason => Some (o.1, reason) end.

(** No lease that blocks a launch. *)
Definition unleased (repo : string) (number : Z) (d : Db) : Prop :=
  (number <= i64_max)%Z /\ free_issue repo number d.

(** An issue that may be launched, as far as this process can tell by itself. *)
Definition ready (cfg : DiscoveryConfig) (d : Db) (i : GithubIssue) : Prop :=
  static_filter cfg i = None /\ unleased (default "" (dc_repo cfg)) (i_number i) d /\
  (approval_label cfg = None <-> approval_actor cfg = None).

Definition routed_as (cfg : DiscoveryConfig) (i : GithubIssue) (r : RoutedIssue) : Prop :=
  r = ordinary i \/ route_parent_issues cfg = true /\ r = parent i cfg.

(** The issues are accounted for one by one, in their order. *)
Definition accounts (issues : list GithubIssue) (from to : DiscoveryResult)
    (outs : list (GithubIssue * Verdict)) : Prop :=
  outs.*1 = issues /\
  eligible to = eligible from ++ omap chosen_of outs /\
  skipped to = skipped from ++ omap refused_of outs.

(** No issue is refused for capacity before another is chosen. *)
Definition capacity_last (outs : list (GithubIssue * Verdict)) : Prop :=
  forall before after i i' r, outs = before ++ (i, Refused ConcurrencyLimitReached) :: after ->
    (i', Chosen r) ∉ after.

Section Soundness.
Context `{Env} `{StringsDebug} {R : Type} {Q : IssueQuery R}.
#[local] Existing Instance cached_lookups.

(** The database of this process. *)
Definition local_db (w : World (Db * R)) : Db := fst (w_db w).

Lemma get_lease_for_issue_wp repo number (w : World Db) :
  wp (get_lease_for_issue repo number) (fun r w' =>
    w_db w' = w_db w /\
    forall found, r = Ok found ->
      (number <= i64_max)%Z /\ found = row_to_lease <$> issue_row repo number (w_db w)) w.
Proof.
  unfold get_lease_for_issue, issue_number_to_sql_i64. case_decide; wp_run; db_eqs; split; try done.
  by intros found [= <-].
Qed.

Lemma local_dynamic_skip_wp issue repo (w : World Db) :
  wp (local_dynamic_skip issue repo) (fun r w' =>
    w_db w' = w_db w /\ r <> Ok (Some ConcurrencyLimitReached) /\
    (r = Ok None -> unleased repo (i_number issue) (w_db w))) w.
Proof.
  unfold local_dynamic_skip. wp_steps.
  eapply wp_consequence; [apply get_lease_for_issue_wp|]. intros [found|e] w' [Hw Hf]; cbn.
  - wp_steps. destruct (Hf _ eq_refl) as [Hn ->]. split; [done|].
    split; [by repeat case_match|]. intros Hr. split; [done|].
    intros old Hold. rewrite Hold in Hr. cbn in Hr. by case_match.
  - done.
Qed.

Lemma remote_dynamic_skip_reads cfg cache issue repo (w : World (Db * R)) :
  wp (remote_dynamic_skip cfg cache issue repo) (fun _ w' => local_db w' = local_db w) w.
Proof.
  assert (Hk : keeps (fun d => fst d = local_db w) (remote_dynamic_skip cfg cache issue repo)); [|by apply Hk].
  unfold remote_dynamic_skip, has_active_parent. keeps_auto.
  - apply (keeps_on_remote (fun d => d = local_db w)).
  - apply (keeps_on_local (fun d => d = local_db w)), read_only_keeps. intros w'.
    apply get_lease_for_issue_wp.
  - apply (keeps_on_remote (fun d => d = local_db w)).
Qed.

(** The later checks never speak of capacity. *)
Lemma remote_dynamic_skip_reason cfg cache issue repo (w : World (Db * R)) :
  wp (remote_dynamic_skip cfg cache issue repo)
    (fun r _ => forall c, r <> Ok (c, Some ConcurrencyLimitReached)) w.
Proof.
  intros c. destruct (remote_dynamic_skip cfg cache issue repo w) as [r w'] eqn:E. cbn. intros ->.
  unfold remote_dynamic_skip in E. run_inv; by case_match.
Qed.

Lemma approval_skip_wp cfg repo issue (w : World R) :
  wp (approval_skip cfg repo issue) (fun r w' =>
    r <> Ok (Some ConcurrencyLimitReached) /\
    (r = Ok None -> approval_label cfg = None <-> approval_actor cfg = None)) w.
Proof.
  unfold approval_skip. destruct (approval_label cfg), (approval_actor cfg); wp_steps; try done.
  eapply wp_consequence; [apply (wp_result _ w)|].
  intros [actual|e] w' _; [wp_steps|]; repeat split; try done. by destruct (evaluate_approval_actor _ _).
Qed.

Lemma route_issue_wp cfg cache issue repo (w : World R) :
  wp (route_issue cfg cache issue repo) (fun r w' =>
    exists cache' routed, r = Ok (cache', routed) /\
      forall x, routed = Ok x -> x = ordinary issue \/ x = parent issue cfg) w.
Proof.
  unfold route_issue. wp_steps. eapply wp_consequence; [apply (wp_result _ w)|].
  intros [[cache' children]|e] w' _; wp_steps.
  - exists cache'. eexists. split; [done|]. intros x [= <-]. case_bool_decide; auto.
  - exists cache. eexists. split; [done|]. discriminate.
Qed.

(** One turn of the loop: the issue gets a verdict, and nothing else happens. *)
Definition turn (cfg : DiscoveryConfig) (active : Z) (d : Db) (issue : GithubIssue)
    (from to : DiscoveryResult) : Prop :=
  let room := (Z.of_nat (length (eligible from)) + active < max_runs cfg)%Z in
  (exists r, to = admit_issue from r /\ routed_as cfg issue r /\ ready cfg d issue /\ room) \/
  (exists reason, to = skip from issue reason /\ (reason = ConcurrencyLimitReached -> ~ room)).

Lemma visit_wp cfg active cache from issue (w : World (Db * R)) :
  wp (visit cfg (default "" (dc_repo cfg)) active (cache, from) issue)
    (fun r w' => local_db w' = local_db w /\
       forall cache' to, r = Ok (cache', to) -> turn cfg active (local_db w) issue from to) w.
Proof.
  unfold visit.
  assert (Hskip : forall reason (w' : World (Db * R)) (cache0 : DiscoveryLookupCache),
    reason <> ConcurrencyLimitReached -> local_db w' = local_db w ->
    wp (mret (cache0, skip from issue reason) : M (Db * R) DiscoveryError _)
      (fun r w' => local_db w' = local_db w /\
         forall cache' to, r = Ok (cache', to) -> turn cfg active (local_db w) issue from to) w').
  { intros reason w' cache0 Hr Hw. split; [done|]. intros ? ? [= <- <-]. right. by exists reason. }
  destruct (static_filter cfg issue) as [reason|] eqn:Hstatic.
  { apply Hskip; [|done]. unfold static_filter in Hstatic. intros ->. split_matches. }
  wp_steps. apply wp_on_remote. eapply wp_consequence; [apply approval_skip_wp|].
  intros [[reason|]|e] w1' (Hnot & Happ) w1 _ Hw1; cbn; [apply Hskip; [congruence|done]| |by split].
  wp_steps. apply wp_on_local. eapply wp_consequence; [apply local_dynamic_skip_wp|].
  intros [[reason|]|[e|e]] w2' (Hw2' & Hnot2 & Hlocal) w2 Hw2 _;
    assert (Hdb : local_db w2 = local_db w) by (change (local_db w2) with (w_db (local_of w2)); by rewrite Hw2, Hw2');
    [apply Hskip; congruence| |by wp_steps|by apply Hskip].
  wp_steps. eapply wp_consequence.
  { apply wp_and; [apply remote_dynamic_skip_reads|apply remote_dynamic_skip_reason]. }
  intros [[cache' [reason|]]|e] w3 [Hw3 Hnot3]; cbn;
    [apply Hskip; [intros ->; by apply (Hnot3 cache')|congruence]| |by split; [congruence|]].
  assert (Hw : local_db w3 = local_db w) by congruence.
  destruct (decide (max_runs cfg <= _)%Z) as [Hroom|Hroom].
  { split; [done|]. intros ? ? [= <- <-]. right. exists ConcurrencyLimitReached. split; [done|lia]. }
  assert (Hready : ready cfg (local_db w) issue).
  { split; [done|]. split; [|by apply Happ]. specialize (Hlocal eq_refl). unfold local_db. by rewrite <- Hw1. }
  destruct (route_parent_issues cfg) eqn:Hroute; wp_steps.
  - apply wp_on_remote. eapply wp_consequence; [apply route_issue_wp|].
    intros r w4' (cache4 & [x|e] & -> & Hx) w4 _ Hw4; cbn; [|apply Hskip; [done|by etransitivity]].
    split; [by etransitivity|]. intros ? ? [= <- <-]. left. exists x. split; [done|].
    split; [|split; [done|lia]]. destruct (Hx x eq_refl) as [->| ->]; [by left|by right].
  - split; [done|]. intros ? ? [= <- <-]. left. exists (ordinary issue).
    split; [done|]. split; [by left|]. split; [done|lia].
Qed.

(** The passes over the rest of the issues. *)
Definition passed (cfg : DiscoveryConfig) (active : Z) (d : Db) (issues : list GithubIssue)
    (from to : DiscoveryResult) : Prop :=
  exists outs, accounts issues from to outs /\ capacity_last outs /\
    (forall i r, (i, Chosen r) ∈ outs ->
       routed_as cfg i r /\ ready cfg d i /\
       (Z.of_nat (length (eligible to)) + active <= max_runs cfg)%Z /\
       (Z.of_nat (length (eligible from)) + active < max_runs cfg)%Z).

Lemma passed_cons cfg active d issue issues from mid to :
  turn cfg active d issue from mid -> passed cfg active d issues mid to ->
  passed cfg active d (issue :: issues) from to.
Proof.
  intros Hturn (outs & (Hi & He & Hs) & Hlast & Hall).
  destruct Hturn as [(r & -> & Hr & Hready & Hroom)|(reason & -> & Hreason)].
  - exists ((issue, Chosen r) :: outs). split; [|split].
    + split; [by cbn; rewrite Hi|]. cbn in *. by rewrite He, Hs, <- app_assoc.
    + intros before after i i' r' Heq. destruct before as [|o before]; [done|].
      injection Heq as _ Heq. by eapply Hlast.
    + cbn in *. rewrite length_app in *. cbn in *.
      assert (Hlen : (Z.of_nat (length (eligible to)) + active <= max_runs cfg)%Z).
      { destruct (omap chosen_of outs) as [|x l] eqn:El; [rewrite He, !length_app; cbn; lia|].
        assert (Hx : x ∈ omap chosen_of outs) by (rewrite El; elem_tac).
        apply list_elem_of_omap in Hx as ([i [r'|?]] & Hin & Heq); [|done].
        by destruct (Hall i r' Hin) as (_ & _ & Hb & _). }
      intros i r' [[= -> ->]|Hin]%elem_of_cons; [done|].
      destruct (Hall i r' Hin) as (? & ? & ? & ?). split; [done|]. split; [done|]. split; [done|lia].
  - exists ((issue, Refused reason) :: outs). split; [|split].
    + split; [by cbn; rewrite Hi|]. cbn in *. by rewrite He, Hs, <- app_assoc.
    + intros before after i i' r' Heq. destruct before as [|o before].
      * injection Heq as _ -> <-. intros Hin.
        destruct (Hall _ _ Hin) as (_ & _ & _ & Hroom). by apply Hreason.
      * injection Heq as _ Heq. by eapply Hlast.
    + intros i r' [?|Hin]%elem_of_cons; [done|]. by apply Hall.
Qed.

Lemma visit_all_wp cfg active issues cache from (w : World (Db * R)) :
  wp (visit_all cfg (default "" (dc_repo cfg)) active (cache, from) issues)
    (fun r w' => local_db w' = local_db w /\
       forall cache' to, r = Ok (cache', to) -> passed cfg active (local_db w) issues from to) w.
Proof.
  revert cache from w. induction issues as [|issue issues IH]; intros cache from w; cbn [visit_all].
  - split; [done|]. intros ? ? [= <- <-]. exists []. split; [|split].
    + unfold accounts. cbn. by rewrite !app_nil_r.
    + by intros [] ? ? ? ?.
    + by intros i r ?%not_elem_of_nil.
  - apply wp_bind. eapply wp_consequence; [apply visit_wp|].
    intros [[cache1 mid]|e] w1 [Hw1 Hturn]; [|by split].
    eapply wp_consequence; [apply IH|]. intros r w2 [Hw2 Hrest].
    split; [congruence|]. intros cache2 to ->. rewrite Hw1 in Hrest.
    eapply passed_cons; eauto.
Qed.

End Soundness.

(** ** The cache is invisible *)

(** Asking GitHub every time. *)
Definition uncached_lookups {R} `{IssueQuery R} : Lookups R := {|
  cache_parent_issue cache repo number :=
    answer ← get_parent_issue repo number; mret (cache, gp_issue <$> answer);
  cache_sub_issues cache repo number :=
    children ← list_sub_issues repo number; mret (cache, children)
|}.

(** Two computations that end in the same world with related results. *)
Definition agree {D E A B} (R : A -> B -> Prop) (m : M D E A) (m' : M D E B) : Prop :=
  forall w, snd (m w) = snd (m' w) /\
    match fst (m w), fst (m' w) with
    | Ok a, Ok b => R a b
    | Err e, Err e' => e = e'
    | _, _ => False
    end.

Lemma agree_refl {D E A} (R : A -> A -> Prop) `{!Reflexive R} (m : M D E A) : agree R m m.
Proof. intros w. split; [done|]. by destruct (fst (m w)). Qed.

Lemma agree_ret {D E A B} (R : A -> B -> Prop) a b : R a b -> agree R (mret a : M D E A) (mret b : M D E B).
Proof. by intros HR w. Qed.

Lemma agree_bind {D E A A' B B'} (R : A -> A' -> Prop) (S : B -> B' -> Prop) (m : M D E A) m' f f' :
  agree R m m' -> (forall a a', R a a' -> agree S (f a) (f' a')) ->
  agree S (mbind f m) (mbind (M := M D E) f' m').
Proof.
  intros Hm Hf w. specialize (Hm w). unfold mbind, M_bind.
  destruct (m w) as [[a|e] w1], (m' w) as [[a'|e'] w1']; cbn in *; destruct Hm as [-> Hr]; try done.
  by apply Hf.
Qed.

Lemma agree_map_err {D E F A B} (R : A -> B -> Prop) (g : E -> F) (m : M D E A) (m' : M D E B) :
  agree R m m' -> agree R (map_err g m) (map_err g m').
Proof.
  intros Hm w. specialize (Hm w). unfold map_err.
  destruct (m w) as [[a|e] w1], (m' w) as [[a'|e'] w1']; cbn in *; destruct Hm as [-> Hr]; try done.
  by rewrite Hr.
Qed.

Lemma agree_on_remote {D R E A B} (S : A -> B -> Prop) (m : M R E A) (m' : M R E B) :
  agree S m m' -> agree S (on_remote m : M (D * R) E A) (on_remote m').
Proof.
  intros Hm w. destruct (Hm (remote_of w)) as [Hw Hr]. unfold on_remote.
  destruct (m (remote_of w)) as [r w1], (m' (remote_of w)) as [r' w1']. cbn in *. by subst w1'.
Qed.

(** The caches agree where the answers do. *)
Definition same_answer {A} (faithful : DiscoveryLookupCache -> Prop)
    (x y : DiscoveryLookupCache * A) : Prop :=
  faithful x.1 /\ x.2 = y.2.

Section Transparency.
Context `{Env} `{StringsDebug} {R : Type} {Q : IssueQuery R}.
Context (parent_answer : string -> Z -> Res GithubError (option GithubParentIssue)).
Context (children_answer : string -> Z -> Res GithubError (list GithubSubIssue)).
Context (parents_stable : forall repo number w, get_parent_issue repo number w = (parent_answer repo number, w)).
Context (children_stable : forall repo number w, list_sub_issues repo number w = (children_answer repo number, w)).

Definition faithful (cache : DiscoveryLookupCache) : Prop :=
  (forall repo number found, parents cache !! (repo, number) = Some found ->
     exists answer, parent_answer repo number = Ok answer /\ found = gp_issue <$> answer) /\
  (forall repo number children, sub_issues cache !! (repo, number) = Some children ->
     children_answer repo number = Ok children).

Lemma cached_parent_agrees cache cache0 repo number :
  faithful cache ->
  agree (same_answer faithful)
    (cache_parent_issue (Lookups := cached_lookups) cache repo number)
    (cache_parent_issue (Lookups := uncached_lookups) cache0 repo number).
Proof.
  intros [Hp Hs] w. cbn. unfold mbind, M_bind. rewrite parents_stable.
  destruct (parents cache !! (repo, number)) as [found|] eqn:E.
  - destruct (Hp _ _ _ E) as (a & -> & ->). by split; [|split].
  - rewrite parents_stable. destruct (parent_answer repo number) as [a|e] eqn:Ea; [|done].
    split; [done|]. split; [|done]. split; [|done]. cbn. intros repo' number' found.
    destruct (decide ((repo', number') = (repo, number))) as [[= -> ->]|Hne].
    + rewrite lookup_insert_eq. intros [= <-]. eauto.
    + rewrite lookup_insert_ne by done. apply Hp.
Qed.

Lemma cached_children_agree cache cache0 repo number :
  faithful cache ->
  agree (same_answer faithful)
    (cache_sub_issues (Lookups := cached_lookups) cache repo number)
    (cache_sub_issues (Lookups := uncached_lookups) cache0 repo number).
Proof.
  intros [Hp Hs] w. cbn. unfold mbind, M_bind. rewrite children_stable.
  destruct (sub_issues cache !! (repo, number)) as [found|] eqn:E.
  - rewrite (Hs _ _ _ E). by split; [|split].
  - rewrite children_stable. destruct (children_answer repo number) as [a|e] eqn:Ea; [|done].
    split; [done|]. split; [|done]. split; [done|]. cbn. intros repo' number' found.
    destruct (decide ((repo', number') = (repo, number))) as [[= -> ->]|Hne].
    + rewrite lookup_insert_eq. by intros [= <-].
    + rewrite lookup_insert_ne by done. apply Hs.
Qed.

Lemma route_agrees cfg cache cache0 issue repo :
  faithful cache ->
  agree (same_answer faithful)
    (route_issue (H2 := cached_lookups) cfg cache issue repo)
    (route_issue (H2 := uncached_lookups) cfg cache0 issue repo).
Proof.
  intros Hf w. destruct (cached_children_agree cache cache0 repo (i_number issue) Hf w) as [Hw Hr].
  unfold route_issue, mbind, M_bind, try.
  destruct (cache_sub_issues (Lookups := cached_lookups) _ _ _ w) as [[[c x]|e] w1],
    (cache_sub_issues (Lookups := uncached_lookups) _ _ _ w) as [[[c' x']|e'] w1']; cbn in *; try done.
  - destruct Hr as [Hc Hx]. cbn in *. by rewrite Hx.
  - by rewrite Hr.
Qed.

Lemma remote_agrees cfg cache cache0 issue repo :
  faithful cache ->
  agree (same_answer faithful)
    (remote_dynamic_skip (H2 := cached_lookups) cfg cache issue repo)
    (remote_dynamic_skip (H2 := uncached_lookups) cfg cache0 issue repo).
Proof.
  intros Hf. unfold remote_dynamic_skip.
  apply (agree_bind (same_answer faithful)).
  - destruct (skip_children_of_active_parents cfg); [|by apply agree_ret].
    unfold has_active_parent. apply (agree_bind (same_answer faithful)).
    { by apply agree_map_err, agree_on_remote, cached_parent_agrees. }
    intros [c x] [c' x'] [Hc Hx]. cbn in *. subst x'. destruct x as [p|]; [|by apply agree_ret].
    destruct (parent_has_active_label cfg p); [by apply agree_ret|].
    apply (agree_bind eq); [by apply agree_refl|]. intros r ? <-. by apply agree_ret.
  - intros [c x] [c' x'] [Hc Hx]. cbn in *. subst x'. destruct x; [by apply agree_ret|].
    apply (agree_bind eq); [by apply agree_refl|]. intros r ? <-. by apply agree_ret.
Qed.

Lemma visit_agrees cfg repo active cache cache0 result issue :
  faithful cache ->
  agree (same_answer faithful)
    (visit (H2 := cached_lookups) cfg repo active (cache, result) issue)
    (visit (H2 := uncached_lookups) cfg repo active (cache0, result) issue).
Proof.
  intros Hf. unfold visit.
  destruct (static_filter cfg issue); [by apply agree_ret|].
  apply (agree_bind eq); [by apply agree_refl|]. intros [?|] ? <-; [by apply agree_ret|].
  apply (agree_bind eq); [by apply agree_refl|].
  intros [[?|]|[?|?]] ? <-; [by apply agree_ret| |by intros w|by apply agree_ret].
  apply (agree_bind (same_answer faithful)); [by apply remote_agrees|].
  intros [c x] [c' x'] [Hc Hx]. cbn in *. subst x'. destruct x; [by apply agree_ret|].
  case_decide; [by apply agree_ret|]. destruct (route_parent_issues cfg); [|by apply agree_ret].
  apply (agree_bind (same_answer faithful)); [by apply agree_on_remote, route_agrees|].
  intros [c1 x] [c1' x'] [Hc1 Hx]. cbn in *. subst x'. by apply agree_ret.
Qed.

Lemma visit_all_agrees cfg repo active issues cache cache0 result :
  faithful cache ->
  agree (same_answer faithful)
    (visit_all (H2 := cached_lookups) cfg repo active (cache, result) issues)
    (visit_all (H2 := uncached_lookups) cfg repo active (cache0, result) issues).
Proof.
  revert cache cache0 result. induction issues as [|i issues IH]; intros cache cache0 result Hf;
    cbn [visit_all]; [by apply agree_ret|].
  apply (agree_bind (same_answer faithful)); [by apply visit_agrees|].
  intros [c x] [c' x'] [Hc Hx]. cbn in *. subst x'. by apply IH.
Qed.

Lemma discover_agrees cfg active :
  agree eq (discover cfg active) (discover_with (H2 := uncached_lookups) cfg active).
Proof.
  unfold discover, discover_with. apply (agree_bind eq); [by apply agree_refl|].
  intros listed ? <-. apply (agree_bind (same_answer faithful)).
  - apply visit_all_agrees. split; intros ? ? ?; cbn; by rewrite lookup_empty.
  - intros [c x] [c' x'] [_ Hx]. cbn in *. subst x'. by apply agree_ret.
Qed.

Lemma agree_eq {D E A} (m m' : M D E A) w : agree eq m m' -> m w = m' w.
Proof.
  intros Ha. specialize (Ha w). destruct (m w) as [[a|e] w1], (m' w) as [[a'|e'] w1']; cbn in Ha;
    by destruct Ha as [-> ?]; subst.
Qed.

(** While GitHub's answers about parents and children do not change, the
    lookup cache is invisible: a discovery pass is the pass that asks every
    time. *)
Theorem cache_transparent (cfg : DiscoveryConfig) (active : Z) (w : World (Db * R)) :
  discover cfg active w = discover_with (H2 := uncached_lookups) cfg active w.
Proof. apply agree_eq, discover_agrees. Qed.
End Transparency.

(** ** What is eligible *)

(** GitHub's answers while nothing fails and nothing changes. *)
Record Answers := mkAnswers {
  listed_issues : list GithubIssue;
  actor_of : Z -> string -> option string;
  open_pr_of : Z -> bool;
  parent_of : Z -> option GithubParentIssue;
  children_of : Z -> list GithubSubIssue
}.

Class Answering {R} (Q : IssueQuery R) (a : Answers) : Prop := {
  answers_list repo labels states w : list_issues repo labels states w = (Ok (listed_issues a), w);
  answers_actor repo number label w : latest_label_actor repo number label w = (Ok (actor_of a number label), w);
  answers_pr repo number w : has_open_pr_for_issue repo number w = (Ok (open_pr_of a number), w);
  answers_parent repo number w : get_parent_issue repo number w = (Ok (parent_of a number), w);
  answers_children repo number w : list_sub_issues repo number w = (Ok (children_of a number), w)
}.

Section Selection.
Context (a : Answers) (cfg : DiscoveryConfig) (d : Db).

Definition repo_of : string := default "" (dc_repo cfg).

(** A lease that blocks a launch. *)
Definition leased (number : Z) : bool :=
  match issue_row repo_of number d with
  | Some row => LeaseStatus.blocks_duplicate_work (l_status (row_to_lease row))
  | None => false
  end.

(** A name among an issue's labels, up to case. *)
Definition carries (i : GithubIssue) (name : string) : bool :=
  existsb (fun label => eq_ignore_ascii_case label name) (i_labels i).

(** What an issue's own labels and state say against it. *)
Definition label_reason (i : GithubIssue) : option SkipReason :=
  match List.filter (fun l => negb (carries i l)) (include_labels cfg), List.filter (carries i) (exclude_labels cfg) with
  | required :: _, _ => Some (MissingRequiredLabel required)
  | [], excluded :: _ => Some (HasExcludedLabel excluded)
  | [], [] =>
      if bool_decide (issue_states cfg = []) || existsb (fun state => eq_ignore_ascii_case state (i_state i)) (issue_states cfg)
      then None else Some (WrongState (i_state i))
  end.

(** The approval label must have been set last by the actor who may. *)
Definition approval_reason (i : GithubIssue) : option SkipReason :=
  match approval_label cfg, approval_actor cfg with
  | Some label, Some expected =>
      match actor_of a (i_number i) label with
      | Some actual => if eq_ignore_ascii_case actual expected then None else Some (UnauthorizedApprovalActor actual)
      | None => Some MissingApprovalProvenance
      end
  | None, None => None
  | _, _ => Some MissingApprovalProvenance
  end.

(** The parent of an issue is worked on: it carries the label that says so, or
    its lease does. *)
Definition child_of_active (i : GithubIssue) : bool :=
  match gp_issue <$> parent_of a (i_number i) with
  | Some p =>
      match active_parent_label cfg with
      | Some label => bool_decide (label <> "") && carries p label
      | None => false
      end || (bool_decide (i_number p <= i64_max)%Z && leased (i_number p))
  | None => false
  end.

(** The first thing that speaks against an issue, capacity apart. *)
Definition against (i : GithubIssue) : option SkipReason :=
  match label_reason i with
  | Some reason => Some reason
  | None =>
      match approval_reason i with
      | Some reason => Some reason
      | None =>
          if negb (bool_decide (i_number i <= i64_max)%Z) then Some InvalidLeaseState
          else if leased (i_number i) then Some HasActiveLease
          else if skip_children_of_active_parents cfg && child_of_active i then Some ChildOfActiveParent
          else if open_pr_of a (i_number i) then Some HasOpenPr
          else None
      end
  end.

(** An issue with children runs as a parent, where the config routes them. *)
Definition routing (i : GithubIssue) : RoutedIssue :=
  if route_parent_issues cfg && negb (bool_decide (children_of a (i_number i) = []))
  then parent i cfg else ordinary i.

(** The reference: with room for [n], the issues one after the other. *)
Fixpoint selection (n : nat) (issues : list GithubIssue) : DiscoveryResult :=
  match issues with
  | [] => mkDiscoveryResult [] []
  | i :: rest =>
      let refuse s reason := mkDiscoveryResult (eligible s) ((i, reason) :: skipped s) in
      match against i, n with
      | Some reason, _ => refuse (selection n rest) reason
      | None, 0 => refuse (selection 0 rest) ConcurrencyLimitReached
      | None, S n => let s := selection n rest in mkDiscoveryResult (routing i :: eligible s) (skipped s)
      end
  end.

(** How many may still run. *)
Definition room (active : Z) : nat := Z.to_nat (max_runs cfg - active).
End Selection.

Section Completeness.
Context {env : Env} `{!FaultFree env} `{StringsDebug} {R : Type} {Q : IssueQuery R} (a : Answers) `{!Answering Q a}.
#[local] Existing Instance uncached_lookups.
Context (cfg : DiscoveryConfig) (active : Z).

Lemma get_lease_live repo number (w : World Db) :
  wp (get_lease_for_issue repo number) (fun r w' =>
    w_db w' = w_db w /\
    r = if decide (number <= i64_max)%Z then Ok (row_to_lease <$> issue_row repo number (w_db w))
        else Err ToSqlConversionFailure) w.
Proof.
  unfold get_lease_for_issue, issue_number_to_sql_i64. case_decide; wp_steps; [|done].
  apply wp_query_live. done.
Qed.

Lemma find_filter {A} (f : A -> bool) l : List.find f l = head (List.filter f l).
Proof. induction l as [|x l IH]; cbn; [done|]. by destruct (f x). Qed.

Lemma static_live i : static_filter cfg i = label_reason cfg i.
Proof.
  unfold static_filter, label_reason. rewrite !find_filter.
  change (issue_has_label i) with (carries i).
  destruct (List.filter _ (include_labels cfg)); cbn; [|done].
  destruct (List.filter _ (exclude_labels cfg)); cbn; [|done]. by rewrite <- negb_orb, negb_if.
Qed.

Lemma approval_live i (w : World R) :
  wp (approval_skip cfg (repo_of cfg) i) (fun r w' => w' = w /\ r = Ok (approval_reason a cfg i)) w.
Proof.
  unfold approval_skip, approval_reason. destruct (approval_label cfg), (approval_actor cfg); try (by wp_steps).
  unfold wp, mbind, M_bind. rewrite answers_actor. cbn. split; [done|].
  destruct (actor_of a (i_number i) s) as [actual|]; cbn; [|done].
  by destruct (eq_ignore_ascii_case actual s0).
Qed.

Lemma local_live i (w : World Db) :
  wp (local_dynamic_skip i (repo_of cfg)) (fun r w' =>
    w_db w' = w_db w /\
    (r = Ok None /\ (i_number i <= i64_max)%Z /\ leased cfg (w_db w) (i_number i) = false \/
     r = Ok (Some HasActiveLease) /\ (i_number i <= i64_max)%Z /\ leased cfg (w_db w) (i_number i) = true \/
     (exists e, r = Err (DDatabase e)) /\ ~ (i_number i <= i64_max)%Z)) w.
Proof.
  unfold local_dynamic_skip. wp_steps. eapply wp_consequence; [apply get_lease_live|].
  intros r w' [Hw ->]. unfold leased, repo_of. case_decide; cbn; wp_steps; (split; [done|]).
  - destruct (issue_row _ _ _); cbn; [|by auto]. case_match; by auto.
  - right. right. by split; [eexists|].
Qed.

Definition remote_reason (d : Db) (i : GithubIssue) : option SkipReason :=
  if skip_children_of_active_parents cfg && child_of_active a cfg d i then Some ChildOfActiveParent
  else if open_pr_of a (i_number i) then Some HasOpenPr else None.

Lemma remote_live cache i (w : World (Db * R)) :
  wp (remote_dynamic_skip cfg cache i (repo_of cfg)) (fun r w' =>
    local_db w' = local_db w /\ exists cache', r = Ok (cache', remote_reason (local_db w) i)) w.
Proof.
  unfold remote_dynamic_skip, remote_reason. wp_steps.
  eapply (wp_consequence _ (fun r w' => local_db w' = local_db w /\
    exists cache', r = Ok (cache', skip_children_of_active_parents cfg && child_of_active a cfg (local_db w) i))).
  - destruct (skip_children_of_active_parents cfg); [|wp_steps; cbn; eauto].
    unfold has_active_parent, child_of_active. cbn. wp_steps. apply wp_on_remote.
    wp_steps. eapply wp_ends; [apply answers_parent|]. cbn. wp_steps. intros w1 _ Hw1. cbn.
    destruct (parent_of a (i_number i)) as [p|]; cbn; [|wp_steps; eauto].
    assert (Hlabel : parent_has_active_label cfg (gp_issue p) =
      match active_parent_label cfg with
      | Some label => bool_decide (label <> "") && carries (gp_issue p) label | None => false end).
    { unfold parent_has_active_label. destruct (active_parent_label cfg) as [label|]; [|done].
      unfold str_is_empty. by rewrite bool_decide_not. }
    rewrite <- Hlabel. destruct (parent_has_active_label cfg (gp_issue p)); cbn; [wp_steps; eauto|].
    wp_steps. apply wp_on_local. eapply wp_consequence; [apply get_lease_live|]. intros r w2' [Hw2' ->] w2 Hw2 _.
    wp_steps. split; [change (local_db w2) with (w_db (local_of w2)); by rewrite Hw2, Hw2'|].
    eexists. do 2 f_equal. unfold leased, local_db. rewrite <- Hw1. cbn [w_db local_of].
    case_decide; [rewrite bool_decide_eq_true_2 by done|by rewrite bool_decide_eq_false_2].
    by destruct (issue_row _ _ _).
  - intros r w' (Hw & cache' & ->). cbn. destruct (_ && _); cbn; wp_steps; [by eauto|].
    apply wp_on_remote. unfold wp. rewrite answers_pr. cbn. intros w2 _ Hw2.
    split; [by etransitivity|]. eexists. by destruct (open_pr_of a (i_number i)).
Qed.

(** What a turn of the loop makes of an issue. *)
Definition after_turn (d : Db) (from : DiscoveryResult) (i : GithubIssue) : DiscoveryResult :=
  match against a cfg d i with
  | Some reason => skip from i reason
  | None =>
      if decide (Z.of_nat (length (eligible from)) + active < max_runs cfg)%Z
      then admit_issue from (routing a cfg i) else skip from i ConcurrencyLimitReached
  end.

Lemma visit_live cache from i (w : World (Db * R)) :
  wp (visit cfg (repo_of cfg) active (cache, from) i) (fun r w' =>
    local_db w' = local_db w /\ exists cache', r = Ok (cache', after_turn (local_db w) from i)) w.
Proof.
  unfold visit, after_turn, against. rewrite static_live.
  destruct (label_reason cfg i); [wp_steps; eauto|]. wp_steps. apply wp_on_remote.
  eapply wp_consequence; [apply approval_live|]. intros ? w1' [-> ->] w1 _ Hw1. change (local_db w1 = local_db w) in Hw1.
  cbn. destruct (approval_reason a cfg i); [wp_steps; eauto|]. wp_steps.
  apply wp_on_local. eapply wp_consequence; [apply local_live|]. intros r w2' (Hw2' & Hr) w2 Hw2 _.
  assert (Hdb : local_db w2 = local_db w) by (change (local_db w2) with (w_db (local_of w2)); by rewrite Hw2, Hw2').
  change (w_db (local_of w1)) with (local_db w1) in Hr. rewrite Hw1 in Hr. cbn.
  destruct Hr as [(-> & Hn & Hl)|[(-> & Hn & Hl)|[[e ->] Hn]]].
  2: { rewrite bool_decide_eq_true_2, Hl by done. wp_steps. eauto. }
  2: { rewrite bool_decide_eq_false_2 by done. wp_steps. eauto. }
  rewrite Hl, bool_decide_eq_true_2 by done. wp_steps.
  eapply wp_consequence; [apply remote_live|]. rewrite Hdb. intros ? w3 (Hw3 & cache' & ->). cbn.
  fold (remote_reason (local_db w) i). destruct (remote_reason (local_db w) i); [wp_steps; eauto|].
  destruct (decide (max_runs cfg <= _)%Z) as [Hroom|Hroom].
  { rewrite decide_False by lia. wp_steps. eauto. }
  rewrite decide_True by lia. unfold routing. destruct (route_parent_issues cfg); cbn [andb]; wp_steps; [|by eauto].
  apply wp_on_remote. unfold route_issue. wp_steps. cbn. wp_steps.
  eapply wp_ends; [apply answers_children|]. cbn. wp_steps. intros w4 _ Hw4. cbn. wp_steps.
  split; [by etransitivity|]. eexists. by case_bool_decide.
Qed.

(** With what was found before, in front. *)
Definition joined (s t : DiscoveryResult) : DiscoveryResult :=
  mkDiscoveryResult (eligible s ++ eligible t) (skipped s ++ skipped t).

Lemma selection_turn d from i issues :
  let left s := Z.to_nat (max_runs cfg - active - Z.of_nat (length (eligible s))) in
  joined from (selection a cfg d (left from) (i :: issues)) =
  let mid := after_turn d from i in joined mid (selection a cfg d (left mid) issues).
Proof.
  cbn zeta. unfold after_turn, joined. cbn [selection]. destruct (against a cfg d i); cbn; [by rewrite <- app_assoc|].
  case_decide as Hroom; cbn.
  - rewrite length_app. cbn.
    replace (Z.to_nat (max_runs cfg - active - Z.of_nat (length (eligible from))))
      with (S (Z.to_nat (max_runs cfg - active - Z.of_nat (length (eligible from) + 1)))) by lia.
    cbn. by rewrite <- app_assoc.
  - replace (Z.to_nat (max_runs cfg - active - Z.of_nat (length (eligible from)))) with 0 by lia.
    cbn. by rewrite <- app_assoc.
Qed.

Lemma visit_all_live issues cache from (w : World (Db * R)) :
  wp (visit_all cfg (repo_of cfg) active (cache, from) issues) (fun r w' =>
    local_db w' = local_db w /\
    exists cache', r = Ok (cache', joined from (selection a cfg (local_db w)
      (Z.to_nat (max_runs cfg - active - Z.of_nat (length (eligible from)))) issues))) w.
Proof.
  revert cache from w. induction issues as [|i issues IH]; intros cache from w; cbn [visit_all].
  { split; [done|]. eexists. unfold joined. cbn. rewrite !app_nil_r. by destruct from. }
  apply wp_bind. eapply wp_consequence; [apply visit_live|]. intros ? w1 (Hw1 & cache1 & ->).
  eapply wp_consequence; [apply IH|]. rewrite Hw1. intros ? w2 (Hw2 & cache2 & ->).
  split; [congruence|]. eexists. by rewrite selection_turn.
Qed.
End Completeness.

(** C26: discovery is exact.  While no statement fails and GitHub's answers do
    not change, a pass writes nothing and returns the reference selection over the
    listed issues, all of them, in the order of releases and numbers: an issue is
    skipped for the first thing that speaks against it - a label that is missing
    or excluded, its state, an approval label that was not set last by the actor
    who may, a lease that blocks it, a parent that is worked on, an open pull
    request - or, when nothing does, for capacity once no room is left; the others
    are eligible, those with children routed as parents where the config says so. *)
Theorem discover_selects {env : Env} `{!FaultFree env} `{StringsDebug} {R} {Q : IssueQuery R} (a : Answers)
    (Ha : Answering Q a) (cfg : DiscoveryConfig) (active : Z) (w : World (Db * R)) :
  wp (discover cfg active) (fun r w' =>
    local_db w' = local_db w /\
    exists ordered, ordered ≡ₚ listed_issues a /\
      StronglySorted (fun i j => key_le (sort_key cfg i) (sort_key cfg j)) ordered /\
      r = Ok (selection a cfg (local_db w) (room cfg active) ordered)) w.
Proof.
  set (P := fun (r : Res DiscoveryError DiscoveryResult) (w' : World (Db * R)) => _ /\ _).
  unfold wp. rewrite (agree_eq _ _ w (discover_agrees (fun _ n => Ok (parent_of a n)) (fun _ n => Ok (children_of a n))
    answers_parent answers_children cfg active)).
  change (wp (discover_with (H2 := uncached_lookups) cfg active) P w). unfold P. clear P.
  unfold discover_with. wp_steps. apply wp_on_remote. unfold wp at 1. rewrite answers_list. cbn.
  intros w0 _ Hw0. change (local_db w0 = local_db w) in Hw0. wp_steps.
  eapply wp_consequence; [apply (visit_all_live a)|]. intros ? w1 (Hw1 & cache & ->).
  cbn. wp_steps. split; [congruence|]. exists (order_issues cfg (listed_issues a)).
  split; [apply order_issues_perm|]. split.
  { apply order_issues_by_key. }
  rewrite Hw0. unfold room. cbn. rewrite Z.sub_0_r. by destruct (selection _ _ _ _ _).
Qed.

(** ** Witnesses *)

(** A remote that answers from a table. *)
Definition answering (a : Answers) : IssueQuery unit := {|
  list_issues _ _ _ := mret (listed_issues a);
  latest_label_actor _ number label := mret (actor_of a number label);
  has_open_pr_for_issue _ number := mret (open_pr_of a number);
  get_parent_issue _ number := mret (parent_of a number);
  list_sub_issues _ number := mret (children_of a number)
|}.
#[global] Instance answering_answers a : Answering (answering a) a.
Proof. by split. Qed.
Definition sample_issue (n : Z) (milestone : option string) (labels : list string) : GithubIssue :=
  mkGithubIssue n "t" "open" labels [] milestone None.
Definition sample_discovery : DiscoveryConfig :=
  mkDiscoveryConfig true (Some "o/r") ["OK for Luther"] ["blocked"] (Some "Luther working") ["OPEN"] (Some "OK")
    (Some "acoliver") None None (Some "semver") (Some 2%Z) None None None None true (Some "parent-v1")
    (Some "parent-cfg") true.

(** Seven issues of which the second release's come later, one is leased, one
    blocked, one approved by somebody else, one a child of a working parent. *)
Definition sample_answers : Answers := {|
  listed_issues :=
    [sample_issue 10 (Some "v2.0.0") ["ok for luther"]; sample_issue 5 (Some "v1.10.0") ["OK for Luther"];
     sample_issue 20 (Some "v1.9.0") ["OK for Luther"]; sample_issue 1 None ["OK for Luther"];
     sample_issue 2 (Some "v0.1.0") ["OK for Luther"]; sample_issue 3 None ["OK for Luther"; "Blocked"];
     sample_issue 4 (Some "v1.9.0") ["OK for Luther"]];
  actor_of n _ := if decide (n = 4)%Z then Some "mallory" else Some "AColiver";
  open_pr_of _ := false;
  parent_of n := if decide (n = 10)%Z then None else None;
  children_of n := if decide (n = 20)%Z then [mkGithubSubIssue (sample_issue 99 None []) (Some 0%Z) Native] else []
|}.

(** Issue 2 is held. *)
Definition sample_leased : Db :=
  empty_db <| issue_leases := [mkLease "l" "o/r" 2%Z "c" (Some "run") "running" 1%Z 1%Z 1%Z] |>.

#[local] Instance sample_debug : StringsDebug := fun l => "[" +:+ join_with ", " l +:+ "]".

Lemma release_order_witness :
  order_issues sample_discovery (listed_issues sample_answers) =
    [sample_issue 2 (Some "v0.1.0") ["OK for Luther"]; sample_issue 4 (Some "v1.9.0") ["OK for Luther"];
     sample_issue 20 (Some "v1.9.0") ["OK for Luther"]] ++
    sample_issue 5 (Some "v1.10.0") ["OK for Luther"] ::
    [sample_issue 10 (Some "v2.0.0") ["ok for luther"]; sample_issue 1 None ["OK for Luther"];
     sample_issue 3 None ["OK for Luther"; "Blocked"]] /\
  sample_issue 20 (Some "v1.9.0") ["OK for Luther"] ∉
    [sample_issue 10 (Some "v2.0.0") ["ok for luther"]; sample_issue 1 None ["OK for Luther"];
     sample_issue 3 None ["OK for Luther"; "Blocked"]].
Proof.
  split; [vm_compute; reflexivity|].
  apply (release_order sample_discovery (listed_issues sample_answers)
    (sample_issue 20 (Some "v1.9.0") ["OK for Luther"]) (sample_issue 5 (Some "v1.10.0") ["OK for Luther"])
    1 9 0 [sample_issue 2 (Some "v0.1.0") ["OK for Luther"]; sample_issue 4 (Some "v1.9.0") ["OK for Luther"];
     sample_issue 20 (Some "v1.9.0") ["OK for Luther"]]);
    [discriminate|by_computation|by_computation|by_computation|reflexivity| |vm_compute; reflexivity].
  right. exists 1%Z, 10%Z, 0%Z. split; [by_computation|]. split; [by_computation|]. split; [by_computation|].
  split; [reflexivity|]. lia.
Defined.


Lemma cache_transparent_witness :
  @discover calm _ unit (answering sample_answers) sample_discovery 0 (start (sample_leased, tt)) =
  @discover_with calm _ unit (answering sample_answers) (@uncached_lookups unit (answering sample_answers))
    sample_discovery 0 (start (sample_leased, tt)).
Proof.
  by apply (cache_transparent (fun _ n => Ok (parent_of sample_answers n))
              (fun _ n => Ok (children_of sample_answers n))).
Defined.

(** The same issues, for the fifth of which a pull request is open. *)
Definition answers_with_pr : Answers := {|
  listed_issues := listed_issues sample_answers;
  actor_of := actor_of sample_answers;
  open_pr_of n := bool_decide (n = 5)%Z;
  parent_of := parent_of sample_answers;
  children_of := children_of sample_answers
|}.

Lemma discover_selects_witness :
  (exists result w', @discover calm _ unit (answering answers_with_pr) sample_discovery 0 (start (sample_leased, tt)) = (Ok result, w') /\
    i_number ∘ ri_issue <$> eligible result = [20; 10]%Z /\
    (fun p => (i_number p.1, skip_code p.2)) <$> skipped result =
      [(2%Z, "has_active_lease"); (4%Z, "unauthorized_approval_actor"); (5%Z, "has_open_pr");
       (1%Z, "concurrency_limit_reached"); (3%Z, "has_excluded_label")]) /\
  wp (@discover calm _ unit (answering answers_with_pr) sample_discovery 0) (fun r w' =>
    local_db w' = sample_leased /\ exists ordered, ordered ≡ₚ listed_issues sample_answers /\
    r = Ok (selection answers_with_pr sample_discovery sample_leased 2 ordered)) (start (sample_leased, tt)).
Proof.
  split.
  - do 2 eexists. do 2 (split; [vm_compute; reflexivity|]). vm_compute. reflexivity.
  - eapply wp_consequence; [apply (discover_selects answers_with_pr); apply _|].
    intros r w' (Hw & ordered & Hp & _ & ->). eauto.
Defined.
