(* ===== verification/Provenance.v ===== *)
(** Launch provenance ([persistence/launch_provenance.rs]): the encoding of the
    config root a run was launched from, the digests of the resolved workflow
    and config, and the check a resume makes before it touches anything.

    [serde_json]'s printing of a value is a [JsonPrinter].  The canonical value
    of a workflow type is built here field by field, as the code builds it; the
    canonical bytes of a config are the printer's [config_bytes], because the
    model of a config leaves out fields those bytes cover. *)
From Stdlib Require Import Ascii String.
From S2P Require Import Prelude Digest Schema.

Abbreviation Path := string.

Inductive LaunchProvenanceError :=
| Canonicalize (config_root : Path)
| InvalidEncoding (encoded reason : string).

Definition LAUNCH_PROVENANCE_SCHEMA_VERSION : Z := 1.

(** ** The config root as text *)

Definition encode_config_root (config_root : Path) : string := hex_lower config_root.

(** [hex_nibble_checked], a table lookup: the value of a digit of either
    case. *)
Definition hex_nibble_checked (c : ascii) : option N := nibble_value c.

Fixpoint all_hex (s : string) : bool :=
  match s with
  | EmptyString => true
  | String c s' => bool_decide (is_Some (hex_nibble_checked c)) && all_hex s'
  end.

Definition validate_even_hex (encoded : string) : Res LaunchProvenanceError unit :=
  if str_is_empty encoded then Err (InvalidEncoding encoded "encoding is empty")
  else if negb (Nat.even (String.length encoded)) then
    Err (InvalidEncoding encoded "encoding has odd length (not even hex)")
  else if negb (all_hex encoded) then
    Err (InvalidEncoding encoded "encoding contains a non-hex character")
  else Ok tt.

(** The pairs of digits, decoded.  [None] where [hex_nibble] would panic. *)
Definition decode_pairs (encoded : string) : option Path := unhex encoded.

Definition decode_config_root (encoded : string) : Res LaunchProvenanceError (option Path) :=
  validate_even_hex encoded;;
  mret (decode_pairs encoded).

(** ** Canonical bytes and digests *)

Class JsonPrinter := {
  json_to_vec : Json -> Bytes;           (** [serde_json::to_vec] *)
  config_bytes : WorkflowConfig -> Bytes (** [canonicalize_workflow_config] *)
}.

Definition opt_json {A} (f : A -> Json) (o : option A) : Json :=
  match o with Some a => f a | None => JNull end.

(** [#[serde(rename_all = "snake_case")]] *)
Definition policy_name (p : StepRecoveryPolicy) : string :=
  match p with
  | PureReenter => "pure_reenter"
  | Idempotent => "idempotent"
  | ReconcileThenReenter => "reconcile_then_reenter"
  | ContinueWorkspace => "continue_workspace"
  | CompensateThenRetry => "compensate_then_retry"
  | NonRecoverable => "non_recoverable"
  end.

Definition step_json (s : StepDef) : Json :=
  JObject (list_to_map
    [("step_id", JString (sd_step_id s)); ("step_type", JString (sd_step_type s));
     ("description", opt_json JString (sd_description s));
     ("parameters", default JNull (sd_parameters s));
     ("produces", opt_json (fun l => JArray (JString <$> l)) (sd_produces s));
     ("consumes", opt_json (fun l => JArray (JString <$> l)) (sd_consumes s));
     ("terminal", opt_json JBool (sd_terminal s));
     ("recovery_policy", opt_json (fun p => JString (policy_name p)) (sd_recovery_policy s))]).

Definition transition_json (t : TransitionDef) : Json :=
  JObject (list_to_map
    [("from", JString (from t)); ("to", JString (to t));
     ("condition", opt_json JString (condition t));
     ("max_iterations", opt_json JInt (max_iterations t))]).

Definition canonicalize_guard_config (g : GuardConfig) : Json :=
  JObject (list_to_map
    [("max_retries", opt_json JInt (gc_max_retries g));
     ("timeout_seconds", opt_json JInt (gc_timeout_seconds g));
     ("require_approval", opt_json JBool (gc_require_approval g))]).

(** The keys of an object are a map here: sorting them is the identity. *)
Definition workflow_value (wt : WorkflowType) : Json :=
  JObject (list_to_map
    [("workflow_type_id", JString (wt_workflow_type_id wt));
     ("steps", JArray (step_json <$> steps wt));
     ("transitions", JArray (transition_json <$> transitions wt));
     ("guards", canonicalize_guard_config (wt_guards wt))]).

Section Digests.
Context `{Sha256} `{JsonPrinter}.

Definition canonicalize_workflow_type (wt : WorkflowType) : Bytes := json_to_vec (workflow_value wt).
Definition canonicalize_workflow_config (c : WorkflowConfig) : Bytes := config_bytes c.

Definition compute_workflow_digest (wt : WorkflowType) : string :=
  sha256_hex (canonicalize_workflow_type wt).
Definition compute_config_digest (c : WorkflowConfig) : string :=
  sha256_hex (canonicalize_workflow_config c).

Definition write_provenance_field (buf bytes : Bytes) : Bytes := push_prefixed 4 buf bytes.

Definition byte_string (z : Z) : Bytes := String (byte_of z) EmptyString.

Definition migration_tag (s : MigrationSource) : string :=
  match s with LegacyOwnershipMigration => "legacy_ownership_migration" end.

Definition provenance_frame (p : LaunchProvenance) : Bytes :=
  let buf := u32_to_be_bytes (lp_schema_version p) in
  let buf := write_provenance_field buf (canonical_config_root p) in
  let buf := write_provenance_field buf (workflow_digest p) in
  let buf := write_provenance_field buf (config_digest p) in
  match migration_source p with
  | Some source => write_provenance_field (buf +:+ byte_string 1) (migration_tag source)
  | None => buf +:+ byte_string 0
  end.

Definition compute_provenance_digest (p : LaunchProvenance) : string :=
  sha256_hex (provenance_frame p).

(** ** Building and verifying *)

(** [Path::canonicalize], the file system's answer; [None] when it fails. *)
Variable canonicalize : Path -> option Path.

Definition from_resolved (wt : WorkflowType) (c : WorkflowConfig) (config_root : Path)
    : Res LaunchProvenanceError LaunchProvenance :=
  canonical ← ok_or (canonicalize config_root) (Canonicalize config_root);
  mret (mkLaunchProvenance LAUNCH_PROVENANCE_SCHEMA_VERSION (encode_config_root canonical)
          (compute_workflow_digest wt) (compute_config_digest c) None).

Definition schema_is_current (p : LaunchProvenance) : bool :=
  bool_decide (lp_schema_version p = LAUNCH_PROVENANCE_SCHEMA_VERSION).

Definition SENTINEL : string := "legacy-migration-sentinel".

Definition migrated (source : MigrationSource) (canonical_config_root : string) : LaunchProvenance :=
  mkLaunchProvenance LAUNCH_PROVENANCE_SCHEMA_VERSION canonical_config_root SENTINEL SENTINEL
    (Some source).

Definition is_migrated (p : LaunchProvenance) : bool := bool_decide (is_Some (migration_source p)).

(** What a mismatch names; the code renders it into a message. *)
Inductive MismatchReason :=
| SchemaVersion (persisted : Z)
| ConfigRoot (migrated : bool) (persisted recomputed : string)
| WorkflowDigest (persisted recomputed : string)
| ConfigDigest (persisted recomputed : string)
| LegacyDenied.

Inductive ProvenanceVerification :=
| Match
| Legacy
| Mismatch (reason : MismatchReason).

Inductive LegacyAllowed := Denied | Allowed.

Definition recomputed_root (config_root : Path) : string :=
  encode_config_root (default config_root (canonicalize config_root)).

Definition verify_some_provenance (p : LaunchProvenance) (wt : WorkflowType) (c : WorkflowConfig)
    (config_root : Path) : ProvenanceVerification :=
  if negb (schema_is_current p) then Mismatch (SchemaVersion (lp_schema_version p))
  else if is_migrated p then
    if negb (recomputed_root config_root =?s canonical_config_root p)
    then Mismatch (ConfigRoot true (canonical_config_root p) (recomputed_root config_root))
    else Match
  else if negb (recomputed_root config_root =?s canonical_config_root p)
  then Mismatch (ConfigRoot false (canonical_config_root p) (recomputed_root config_root))
  else if negb (compute_workflow_digest wt =?s workflow_digest p)
  then Mismatch (WorkflowDigest (workflow_digest p) (compute_workflow_digest wt))
  else if negb (compute_config_digest c =?s config_digest p)
  then Mismatch (ConfigDigest (config_digest p) (compute_config_digest c))
  else Match.

Definition verify_provenance (persisted : option LaunchProvenance) (wt : WorkflowType)
    (c : WorkflowConfig) (config_root : Path) (legacy : LegacyAllowed) : ProvenanceVerification :=
  match persisted with
  | Some p => verify_some_provenance p wt c config_root
  | None => match legacy with Allowed => Legacy | Denied => Mismatch LegacyDenied end
  end.
End Digests.

(** ** Lemmas *)

(** Induction on a string two characters at a time. *)
Lemma string_ind2 (P : string -> Prop) :
  P EmptyString -> (forall c, P (String c EmptyString)) ->
  (forall c1 c2 s, P s -> P (String c1 (String c2 s))) -> forall s, P s.
Proof.
  intros H0 H1 H2 s. enough (P s /\ forall c, P (String c s)) by tauto.
  induction s as [|c s [IH1 IH2]]; [by split|]. split; [apply IH2|]. intros c'. by apply H2.
Qed.

Lemma unhex_total s : Nat.even (String.length s) = true -> all_hex s = true -> is_Some (unhex s).
Proof.
  induction s as [| |h l s IH] using string_ind2; cbn; [by eexists|done|].
  intros Heven [[a Ha]%bool_decide_eq_true [[b Hb]%bool_decide_eq_true Hs]%andb_true_iff]%andb_true_iff.
  unfold hex_nibble_checked in *. rewrite Ha, Hb. cbn.
  destruct (IH Heven Hs) as [t ->]. by eexists.
Qed.

Lemma all_hex_lower s : all_hex (hex_lower s) = true.
Proof.
  induction s as [|c s IH]; [done|]. unfold hex_lower. fold hex_lower. cbn [all_hex].
  unfold hex_nibble_checked. destruct (nibbles_back c) as (-> & -> & _).
  by rewrite !bool_decide_eq_true_2 by eauto.
Qed.

Lemma provenance_frame_inj p q :
  is_u32 (lp_schema_version p) -> is_u32 (lp_schema_version q) ->
  fits 4 [canonical_config_root p; workflow_digest p; config_digest p] ->
  fits 4 [canonical_config_root q; workflow_digest q; config_digest q] ->
  provenance_frame p = provenance_frame q -> p = q.
Proof.
  destruct p as [vp rp wp cp sp], q as [vq rq wq cq sq]; cbn [lp_schema_version canonical_config_root
    workflow_digest config_digest]. intros Hvp Hvq Hp Hq.
  assert (Hform : forall v r w c s,
    provenance_frame (mkLaunchProvenance v r w c s) =
    u32_to_be_bytes v +:+ frame 4 [r; w; c] +:+
      match s with
      | Some m => byte_string 1 +:+ push_prefixed 4 "" (migration_tag m)
      | None => byte_string 0
      end).
  { intros v r w c s. unfold provenance_frame, write_provenance_field, frame.
    cbn [lp_schema_version canonical_config_root workflow_digest config_digest migration_source fold_left].
    destruct s as [m|]; rewrite ?(push_prefixed_buf _ (_ +:+ _)).
    - rewrite !(push_prefixed_buf 4 (push_prefixed _ _ _)), (push_prefixed_buf 4 (u32_to_be_bytes v)).
      by rewrite !append_assoc.
    - rewrite !(push_prefixed_buf 4 (push_prefixed _ _ _)), (push_prefixed_buf 4 (u32_to_be_bytes v)).
      by rewrite !append_assoc. }
  rewrite !Hform. intros Heq.
  apply append_length_inj in Heq as [Hv Heq]; [|unfold u32_to_be_bytes; by rewrite !length_be_bytes].
  apply be_bytes_inj in Hv. change (8 * Z.of_nat 4)%Z with 32%Z in Hv.
  unfold is_u32, u32_max in *. rewrite !Z.mod_small in Hv by lia. subst vq.
  apply frame_inj in Heq as [[= -> -> ->] Hs]; [|done..].
  destruct sp as [[]|], sq as [[]|]; try done.
Qed.

(** ** Theorems *)

(** A config root survives its text encoding.  Decoding the encoding of a
    non-empty path gives the path back, the text decodes to nothing else, and
    no text makes the decoder panic: what passes the validation has a digit at
    every place the decoder looks. *)
Theorem config_root_roundtrip :
  (forall root, root <> EmptyString ->
     decode_config_root (encode_config_root root) = Ok (Some root)) /\
  (forall root root', encode_config_root root = encode_config_root root' -> root = root') /\
  (forall encoded, decode_config_root encoded <> Ok None).
Proof.
  split_and!.
  - intros root Hne. unfold decode_config_root, validate_even_hex, encode_config_root, str_is_empty.
    rewrite bool_decide_eq_false_2 by (destruct root; [done|]; discriminate).
    rewrite length_hex_lower, all_hex_lower.
    replace (Nat.even (2 * String.length root)) with true
      by (symmetry; apply Nat.even_spec; by eexists).
    cbn. unfold decode_pairs. by rewrite unhex_hex_lower.
  - intros root root'. apply hex_lower_inj.
  - intros encoded. unfold decode_config_root, validate_even_hex. cbn.
    destruct (str_is_empty encoded); [done|].
    destruct (Nat.even _) eqn:Ee; [|done]. destruct (all_hex encoded) eqn:Eh; [|done].
    destruct (unhex_total encoded Ee Eh) as [p Hp]. cbn. unfold decode_pairs. by rewrite Hp.
Qed.

Section Resume.
Context `{Sha256} `{JsonPrinter}.
Variable canonicalize : Path -> option Path.

Lemma sha256_hex_eqb a b : (sha256_hex a =?s sha256_hex b) = bool_decide (sha256 a = sha256 b).
Proof.
  apply bool_decide_ext. unfold sha256_hex. split; [apply hex_lower_inj|by intros ->].
Qed.

(** A resume is admitted exactly for what was launched.  Against the
    provenance recorded at launch, the check says [Match] if and only if the
    config root resolves to the path of the launch and the canonical bytes of
    the workflow and of the config have the digests of the launched ones,
    whatever the caller's policy on legacy rows; a row without provenance never
    matches. *)
Theorem resume_admits_launched launched_wt launched_c launched_root p wt c root legacy :
  from_resolved canonicalize launched_wt launched_c launched_root = Ok p ->
  (verify_provenance canonicalize (Some p) wt c root legacy = Match <->
   Some (default root (canonicalize root)) = canonicalize launched_root /\
   sha256 (canonicalize_workflow_type wt) = sha256 (canonicalize_workflow_type launched_wt) /\
   sha256 (canonicalize_workflow_config c) = sha256 (canonicalize_workflow_config launched_c)) /\
  verify_provenance canonicalize None wt c root legacy <> Match.
Proof.
  intros Hp. split; [|by destruct legacy].
  unfold from_resolved in Hp. destruct (canonicalize launched_root) as [path|]; cbn in Hp; [|done].
  injection Hp as <-. unfold verify_provenance, verify_some_provenance.
  cbn [schema_is_current lp_schema_version is_migrated migration_source canonical_config_root
       workflow_digest config_digest].
  replace (schema_is_current _) with true by (symmetry; by apply bool_decide_eq_true).
  unfold is_migrated. cbn [migration_source negb]. rewrite bool_decide_eq_false_2 by (by intros [? ?]).
  unfold compute_workflow_digest, compute_config_digest. rewrite !sha256_hex_eqb.
  unfold recomputed_root. set (r := default root (canonicalize root)).
  assert (Hroot : (encode_config_root r =?s encode_config_root path) = bool_decide (r = path)).
  { apply bool_decide_ext. split; [apply hex_lower_inj|by intros ->]. }
  rewrite Hroot. repeat case_bool_decide; cbn;
    (split; [intros ?|intros (? & ? & ?)]); try congruence; split_and!; congruence.
Qed.
End Resume.

(** ** Witnesses *)

Section Samples.
(** Any function will do for the digest. *)
#[local] Instance first_bytes : Sha256 := fun s => substring 0 4 s.
#[local] Instance plain_printer : JsonPrinter := {|
  json_to_vec j := match j with JObject m => if m !! "steps" is Some (JArray l) then pretty (length l) else "" | _ => "" end;
  config_bytes := wc_config_id
|}.

Definition sample_type (n : nat) : WorkflowType :=
  mkWorkflowType "wf" (replicate n (mkStepDef "s" "noop" None None None None None None)) []
    (mkGuardConfig None None None).
Definition sample_config (id : string) : WorkflowConfig :=
  mkWorkflowConfig id "wf" (mkRuntimeConfig 60 1) None ∅
    (mkParentOrchestrationConfig false true 60 None "child" "child-cfg") false None None.
Definition sample_fs (p : Path) : option Path := if p =?s "." then Some "/etc/wf" else Some p.

Definition sample_provenance : LaunchProvenance :=
  mkLaunchProvenance 1 (encode_config_root "/etc/wf") (compute_workflow_digest (sample_type 2))
    (compute_config_digest (sample_config "cfg")) None.

(** The launch is admitted again from its canonical root, another workflow is
    not. *)
Example resume_admits_launched_witness :
  from_resolved sample_fs (sample_type 2) (sample_config "cfg") "." = Ok sample_provenance /\
  verify_provenance sample_fs (Some sample_provenance) (sample_type 2) (sample_config "cfg")
    "/etc/wf" Denied = Match /\
  verify_provenance sample_fs (Some sample_provenance) (sample_type 3) (sample_config "cfg")
    "/etc/wf" Denied <> Match.
Proof.
  assert (Hp : from_resolved sample_fs (sample_type 2) (sample_config "cfg") "." =
               Ok sample_provenance) by (vm_compute; reflexivity).
  split; [exact Hp|]. split.
  - apply (proj2 (proj1 (resume_admits_launched sample_fs _ _ _ _ (sample_type 2)
      (sample_config "cfg") "/etc/wf" Denied Hp))). split_and!; vm_compute; reflexivity.
  - intros Hm. apply (proj1 (proj1 (resume_admits_launched sample_fs _ _ _ _ (sample_type 3)
      (sample_config "cfg") "/etc/wf" Denied Hp))) in Hm. destruct Hm as (_ & Hm & _).
    vm_compute in Hm. discriminate Hm.
Defined.
End Samples.
