(* ===== verification/RecoveryStores.v ===== *)
(** The durable stores of the recovery protocol: the epoch of a run
    ([recovery_epoch.rs] of the core crate), the ledger of recovery operations
    ([persistence/recovery_operations.rs]) and the append-only attempts
    ([persistence/attempts.rs]).

    The first part says what every statement of these stores, and of the
    effect intents, capsules and merge artifacts of later files, keeps true:
    keys stay unique ([ledger_wf]) and history is never rewritten
    ([ledger_le]): no row disappears, a row's bindings never change, and a row
    that reached a terminal state is final. *)
From S2P Require Import Prelude Effects Digest Sql Status Schema Checkpoints.

(** ** Tables that only grow *)

(** [t'] is [t] with its rows evolved by [R] and new rows after them. *)
Definition grows {A} (R : relation A) (t t' : list A) : Prop :=
  exists old new, t' = old ++ new /\ Forall2 R t old.

Section Grows.
Context {A : Type} (R : relation A) `{!PreOrder R}.

Lemma Forall2_same t : Forall2 R t t.
Proof. induction t; constructor; [reflexivity|done]. Qed.

#[global] Instance grows_preorder : PreOrder (grows R).
Proof.
  split.
  - intros t. exists t, []. split; [by rewrite app_nil_r|]. apply Forall2_same.
  - intros t1 t2 t3 (o1 & n1 & -> & H1) (o2 & n2 & -> & H2).
    apply Forall2_app_inv_l in H2 as (o & n & Ho & Hn & ->).
    exists o, (n ++ n2). split; [by rewrite app_assoc|].
    by transitivity o1.
Qed.

Lemma grows_append t new : grows R t (t ++ new).
Proof. exists t, new. split; [done|]. apply Forall2_same. Qed.

Lemma grows_update p f t :
  (forall r, r ∈ t -> p r = true -> R r (f r)) -> grows R t (update_where p f t).
Proof.
  intros Hf. exists (update_where p f t), []. split; [by rewrite app_nil_r|].
  unfold update_where. induction t as [|r t IH]; csimpl; constructor.
  - destruct (p r) eqn:Ep; [apply Hf; elem_tac|reflexivity].
  - apply IH. intros; apply Hf; elem_tac; done.
Qed.

Lemma grows_elem t t' r : grows R t t' -> r ∈ t -> exists r', r' ∈ t' /\ R r r'.
Proof.
  intros (old & new & -> & Hall) Hr. apply list_elem_of_lookup in Hr as [i Hi].
  destruct (Forall2_lookup_l _ _ _ _ _ Hall Hi) as (r' & Hr' & HR).
  exists r'. split; [|done]. apply elem_of_app. left. by eapply list_elem_of_lookup_2.
Qed.
End Grows.

(** ** The invariant and the history of the recovery tables *)

(** A value is among a table's keys. *)
Definition unique {A K} (key : A -> K) (t : list A) : Prop := NoDup (key <$> t).

Definition row_operation_id (r : OperationRow) : string := op_operation_id (or_operation r).
Definition row_request_key (r : OperationRow) : string := op_logical_request_key (or_operation r).
Definition row_effect_key (r : EffectRow) : string := ef_effect_key (er_effect r).

Record ledger_wf (d : Db) : Prop := mkLedgerWf {
  wf_epochs : unique ep_run_id (recovery_epochs d);
  wf_operation_ids : unique row_operation_id (recovery_operations d);
  wf_request_keys : unique row_request_key (recovery_operations d);
  wf_attempts : unique at_attempt_id (recovery_attempts d);
  wf_attempts_seq : Forall (fun a => (0 < at_attempt_id a <= attempts_seq d)%Z) (recovery_attempts d);
  wf_seq : (0 <= attempts_seq d)%Z;
  wf_effects : unique row_effect_key (effect_intents d);
  wf_capsules : unique cx_run_id (execution_capsules d);
  wf_artifacts : unique mr_run_id (merge_artifacts d)
}.

(** What a row may become.  A ledger row keeps its bindings, and is final once
    it left [pending]; an attempt keeps its bindings, and is final once
    finalized; an effect intent keeps its bindings, and is final once it left
    [prepared]. *)
Definition epoch_le (r r' : EpochRow) : Prop :=
  ep_run_id r' = ep_run_id r /\ (ep_epoch r <= ep_epoch r')%Z.

Definition operation_bindings {St} (o : OperationOf St) :=
  (op_operation_id o, op_run_id o, op_epoch o, op_step_id o, op_capsule_envelope_digest o,
   op_source_attempt_id o, op_logical_request_key o, op_intent_digest o, op_execution_attempt_id o).

Definition operation_le (r r' : OperationRow) : Prop :=
  operation_bindings (or_operation r') = operation_bindings (or_operation r) /\
  or_created_at r' = or_created_at r /\
  (op_status (or_operation r) <> "pending" -> r' = r).

Definition attempt_bindings (a : AttemptRecord) :=
  (at_attempt_id a, at_run_id a, at_epoch a, at_source_attempt_id a, at_operation_id a,
   at_step_id a, at_capsule_schema_version a, at_capsule_envelope_digest a, at_started_at a).

Definition attempt_le (a a' : AttemptRecord) : Prop :=
  attempt_bindings a' = attempt_bindings a /\ (is_Some (at_finalized_at a) -> a' = a).

Definition effect_bindings {K} (e : EffectOf K) :=
  (ef_effect_key e, ef_operation_id e, ef_attempt_id e, ef_sequence e, ef_effect_kind e,
   ef_canonical_payload e, ef_payload_digest e, ef_payload_version e, ef_expected_target e,
   ef_expected_predecessor e).

Definition effect_le (r r' : EffectRow) : Prop :=
  effect_bindings (er_effect r') = effect_bindings (er_effect r) /\
  er_created_at r' = er_created_at r /\
  (ef_status (er_effect r) <> "prepared" -> r' = r).

Record ledger_le (d d' : Db) : Prop := mkLedgerLe {
  le_epochs : grows epoch_le (recovery_epochs d) (recovery_epochs d');
  le_operations : grows operation_le (recovery_operations d) (recovery_operations d');
  le_attempts : grows attempt_le (recovery_attempts d) (recovery_attempts d');
  le_effects : grows effect_le (effect_intents d) (effect_intents d');
  le_capsules : grows eq (execution_capsules d) (execution_capsules d');
  le_salvage : grows eq (salvage_lineage d) (salvage_lineage d');
  le_artifacts : grows eq (merge_artifacts d) (merge_artifacts d')
}.

#[global] Instance epoch_le_preorder : PreOrder epoch_le.
Proof.
  unfold epoch_le. split; [done|]. intros ??? [-> ?] [-> ?]. split; [done|lia].
Qed.

#[global] Instance operation_le_preorder : PreOrder operation_le.
Proof.
  unfold operation_le. split; [done|]. intros a b c (Hb & Hc & Ht) (Hb' & Hc' & Ht').
  split_and!; [congruence|congruence|]. intros Hs. rewrite (Ht Hs) in *. by apply Ht'.
Qed.

#[global] Instance attempt_le_preorder : PreOrder attempt_le.
Proof.
  unfold attempt_le. split; [done|]. intros a b c (Hb & Ht) (Hb' & Ht').
  split; [congruence|]. intros Hs. rewrite (Ht Hs) in *. by apply Ht'.
Qed.

#[global] Instance effect_le_preorder : PreOrder effect_le.
Proof.
  unfold effect_le. split; [done|]. intros a b c (Hb & Hc & Ht) (Hb' & Hc' & Ht').
  split_and!; [congruence|congruence|]. intros Hs. rewrite (Ht Hs) in *. by apply Ht'.
Qed.

#[global] Instance ledger_le_preorder : PreOrder ledger_le.
Proof.
  split.
  - intros d. constructor; reflexivity.
  - intros d1 d2 d3 [] []. constructor; etransitivity; eauto.
Qed.

(** A computation that keeps the tables well formed and their history. *)
Definition evolves {E A} (m : M Db E A) : Prop :=
  forall d0, keeps (fun d => ledger_wf d /\ ledger_le d0 d) m.

Lemma evolves_elim {E A} (m : M Db E A) w :
  evolves m -> ledger_wf (w_db w) ->
  ledger_wf (w_db (snd (m w))) /\ ledger_le (w_db w) (w_db (snd (m w))).
Proof. intros Hm Hwf. by apply (Hm (w_db w)). Qed.

Lemma evolves_execute `{Env} {A} (f : Db -> Res SqlError (A * Db)) :
  (forall d a d', ledger_wf d -> f d = Ok (a, d') -> ledger_wf d' /\ ledger_le d d') ->
  evolves (execute f).
Proof.
  intros Hf d0. apply keeps_execute. intros d a d' [Hwf Hle] Hd.
  destruct (Hf d a d' Hwf Hd). split; [done|by transitivity d].
Qed.

Lemma evolves_keeps `{Env} {E A} (m : M Db E A) d0 :
  evolves m -> keeps (fun d => ledger_wf d /\ ledger_le d0 d) m.
Proof. by intros Hm. Qed.

(** A statement on other tables changes nothing here. *)
Lemma ledger_same d d' :
  recovery_epochs d' = recovery_epochs d -> recovery_operations d' = recovery_operations d ->
  recovery_attempts d' = recovery_attempts d -> attempts_seq d' = attempts_seq d ->
  effect_intents d' = effect_intents d -> execution_capsules d' = execution_capsules d ->
  salvage_lineage d' = salvage_lineage d -> merge_artifacts d' = merge_artifacts d ->
  ledger_wf d -> ledger_wf d' /\ ledger_le d d'.
Proof.
  intros E1 E2 E3 E4 E5 E6 E7 E8 []. split; constructor; rewrite ?E1, ?E2, ?E3, ?E4, ?E5, ?E6, ?E7, ?E8;
    first [done|reflexivity].
Qed.

Ltac evolves_auto := intros d0; keeps_auto.
#[export] Hint Resolve evolves_keeps : eff.

Lemma unique_snoc {A K} (key : A -> K) t r :
  unique key t -> (forall r', r' ∈ t -> key r' <> key r) -> unique key (t ++ [r]).
Proof.
  unfold unique. intros Hnd Hfresh. rewrite fmap_app. apply NoDup_app. split; [done|].
  split; [|apply NoDup_singleton]. intros k (r' & -> & Hr')%list_elem_of_fmap Hk.
  apply list_elem_of_singleton in Hk. by destruct (Hfresh r' Hr').
Qed.

Lemma unique_update {A K} (key : A -> K) p f t :
  (forall r, p r = true -> key (f r) = key r) -> unique key t -> unique key (update_where p f t).
Proof. unfold unique. intros Hk. by rewrite update_where_column. Qed.

(** ** Integers in columns *)

(** [i64::try_from(n).unwrap_or(i64::MAX)] of a [u64] or [u32]. *)
Definition i64_saturating (n : Z) : Z := Z.min n i64_max.

(** [row.get::<_, i64>(column)] *)
Definition get_i64 (column : nat) (z : Z) : Res SqlError Z :=
  if (z <=? i64_max)%Z then Ok z else Err (InvalidColumnType column).

(** [u64::try_from(z).unwrap_or(0)], [u32::try_from(z).unwrap_or(0)]. *)
Definition u64_or_zero (z : Z) : Z := if (z <? 0)%Z then 0%Z else z.
Definition u32_or_zero (z : Z) : Z := if decide (is_u32 z) then z else 0%Z.

(** ** The epoch *)

Module Epoch.

Inductive CasOutcome :=
| Advanced (from to : Z)
| Stale (persisted expected : Z).

Definition epoch_of (run : string) (r : EpochRow) : bool := ep_run_id r =?s run.
Definition epoch_at (run : string) (epoch : Z) (r : EpochRow) : bool :=
  epoch_of run r && (ep_epoch r =? epoch)%Z.

(** [INSERT .. ON CONFLICT(run_id) DO UPDATE SET epoch = epoch + 1 WHERE epoch
    = expected], with the number of rows it changed. *)
Definition cas_statement (run : string) (next expected now : Z) (d : Db) : Res SqlError (nat * Db) :=
  if exists_where (epoch_of run) (recovery_epochs d) then
    Ok (count_where (epoch_at run expected) (recovery_epochs d),
        d <| recovery_epochs :=
          update_where (epoch_at run expected)
            (fun r => r <| ep_epoch := (ep_epoch r + 1)%Z |> <| ep_updated_at := now |>)
            (recovery_epochs d) |>)
  else Ok (1, d <| recovery_epochs := recovery_epochs d ++ [mkEpochRow run next now] |>).

Section Operations.
Context `{Env}.

Definition read_epoch (run : string) : M Db SqlError Z :=
  query (fun d =>
    match select_first (epoch_of run) (recovery_epochs d) with
    | Some r => u64_or_zero <$> get_i64 0 (ep_epoch r)
    | None => Ok 0%Z
    end).

Definition cas_advance_epoch (run : string) (expected_epoch : Z) : M Db SqlError CasOutcome :=
  let next_epoch := if (expected_epoch =? u64_max)%Z then expected_epoch else (expected_epoch + 1)%Z in
  t ← now;
  let expected_i64 := i64_saturating expected_epoch in
  let next_i64 := i64_saturating next_epoch in
  affected ← execute (cas_statement run next_i64 expected_i64 t);
  if decide (affected = 0) then
    persisted ← read_epoch run;
    mret (Stale persisted expected_epoch)
  else mret (Advanced expected_epoch next_epoch).
End Operations.

(** What a reader of the table sees. *)
Definition current (d : Db) (run : string) : option Z :=
  ep_epoch <$> select_first (epoch_of run) (recovery_epochs d).
Definition persisted (d : Db) (run : string) : Z :=
  match current d run with Some e => u64_or_zero e | None => 0%Z end.
End Epoch.

(** ** The ledger of operations *)

Module OperationStatus.
Inductive t := Pending | Completed | Refused | Conflict.

Global Instance eq_dec : EqDecision t.
Proof. solve_decision. Defined.

Definition as_str (s : t) : string :=
  match s with
  | Pending => "pending"
  | Completed => "completed"
  | Refused => "refused"
  | Conflict => "conflict"
  end.

Definition parse_str (s : string) : option t :=
  if s =?s "pending" then Some Pending
  else if s =?s "completed" then Some Completed
  else if s =?s "refused" then Some Refused
  else if s =?s "conflict" then Some Conflict
  else None.

Global Program Instance text : TextEnum unit t := {|
  to_text := as_str; from_text s := ok_or (parse_str s) tt
|}.
Next Obligation. parse_print. Qed.
Next Obligation.
  intros s a. unfold ok_or, parse_str.
  repeat (case_bool_decide; [intros [= <-]; subst; reflexivity|]). intros [=].
Qed.
End OperationStatus.

Definition RecoveryOperation := OperationOf OperationStatus.t.

(** What [serde_json] does with the values these stores hold as text, and the
    snapshot bytes it produces; [json_from_str] reports an error as its
    rendering. *)
Class RecoveryCodec := {
  snapshot_to_vec : StateSnapshot -> Res string Bytes;
  snapshot_from_str : string -> Res string StateSnapshot;
  json_to_string : Json -> string;
  json_from_str : string -> Res string Json
}.

(** [json!({ "attempt_id": .., "step_status": .., "status": "completed" })] *)
Definition completed_outcome (attempt_id : Z) (step_status : string) : Json :=
  JObject {["attempt_id" := JInt attempt_id; "step_status" := JString step_status;
            "status" := JString "completed"]}.

(** Printing then parsing that object gives it back; a snapshot prints as
    UTF-8 text. *)
Class RecoveryCodecLaws (C : RecoveryCodec) := {
  outcome_roundtrip a s :
    (- 2 ^ 63 <= a <= i64_max)%Z ->
    json_from_str (json_to_string (completed_outcome a s)) = Ok (completed_outcome a s);
  snapshot_prints s : exists bytes, snapshot_to_vec s = Ok bytes /\ utf8_valid bytes = true
}.

Module Operations.
Import OperationStatus.

Inductive AdoptOutcome := Adopted | StillOwned.

Record PendingOperationInsert := mkPendingOperationInsert {
  pi_operation_id : string;
  pi_run_id : string;
  pi_epoch : Z;
  pi_step_id : string;
  pi_capsule_envelope_digest : string;
  pi_source_attempt_id : option Z;
  pi_logical_request_key : string;
  pi_intent_digest : string;
  pi_owner_pid : Z;
  pi_lease_expires_at : Z;
  pi_execution_attempt_id : Z
}.

(** *** Keys *)

(** The bytes of an optional attempt id: eight zero bytes when there is none. *)
Definition source_bytes (source_attempt_id : option Z) : Bytes :=
  match source_attempt_id with
  | Some id => i64_to_be_bytes id
  | None => be_bytes 8 0
  end.

Definition operation_frame (run step capsule_digest : string) (source : option Z) (intent : string)
    : Bytes :=
  let buf := EmptyString in
  let buf := push_len_prefixed buf run in
  let buf := push_len_prefixed buf step in
  let buf := push_len_prefixed buf capsule_digest in
  let buf := push_len_prefixed buf (source_bytes source) in
  push_len_prefixed buf intent.

Definition request_frame (run : string) (source : option Z) (intent : string) : Bytes :=
  let buf := EmptyString in
  let buf := push_len_prefixed buf run in
  let buf := push_len_prefixed buf (source_bytes source) in
  push_len_prefixed buf intent.

Section Keys.
Context `{Sha256}.

Definition compute_operation_id (run step capsule_digest : string) (source : option Z)
    (intent : string) : string :=
  sha256_hex (operation_frame run step capsule_digest source intent).

Definition compute_logical_request_key (run : string) (source : option Z) (intent : string) : string :=
  sha256_hex (request_frame run source intent).

Definition compute_intent_digest (intent : string) : string := sha256_hex intent.
End Keys.

(** *** Rows *)

Definition with_status {A B} (s : B) (o : OperationOf A) : OperationOf B :=
  mkOperation (op_operation_id o) (op_run_id o) (op_epoch o) (op_step_id o)
    (op_capsule_envelope_digest o) (op_source_attempt_id o) (op_logical_request_key o)
    (op_intent_digest o) s (op_owner_pid o) (op_lease_expires_at o) (op_execution_attempt_id o)
    (op_serialized_outcome o).

Definition map_operation_row (r : OperationRow) : Res SqlError RecoveryOperation :=
  let o := or_operation r in
  status ← ok_or (parse_str (op_status o)) (FromSqlConversionFailure 8);
  let op : RecoveryOperation := with_status status o in
  mret (op <| op_owner_pid := u32_or_zero <$> op_owner_pid o |>
           <| op_epoch := u64_or_zero (op_epoch o) |>).

Definition has_key (key : string) (r : OperationRow) : bool := row_request_key r =?s key.
Definition has_id (id : string) (r : OperationRow) : bool := row_operation_id r =?s id.
Definition is_pending (r : OperationRow) : bool := op_status (or_operation r) =?s as_str Pending.

(** [lease_expires_at IS NULL OR lease_expires_at < now] *)
Definition lease_expired (now : Z) (r : OperationRow) : bool :=
  match op_lease_expires_at (or_operation r) with
  | None => true
  | Some t => (t <? now)%Z
  end.

Definition pending_row (p : PendingOperationInsert) (now : Z) : OperationRow :=
  mkOperationRow
    (mkOperation (pi_operation_id p) (pi_run_id p) (i64_saturating (pi_epoch p)) (pi_step_id p)
       (pi_capsule_envelope_digest p) (pi_source_attempt_id p) (pi_logical_request_key p)
       (pi_intent_digest p) (as_str Pending) (Some (pi_owner_pid p)) (Some (pi_lease_expires_at p))
       (Some (pi_execution_attempt_id p)) None)
    now None.

(** The primary key and the unique request key. *)
Definition insert_operation (row : OperationRow) (d : Db) : Res SqlError (unit * Db) :=
  if exists_where (has_id (row_operation_id row)) (recovery_operations d)
     || exists_where (has_key (row_request_key row)) (recovery_operations d)
  then Err ConstraintViolation
  else Ok (tt, d <| recovery_operations := recovery_operations d ++ [row] |>).

Definition update_operations (p : OperationRow -> bool) (f : OperationRow -> OperationRow) (d : Db)
    : Res SqlError (nat * Db) :=
  Ok (count_where p (recovery_operations d),
      d <| recovery_operations := update_where p f (recovery_operations d) |>).

Definition adoptable (id : string) (now : Z) (r : OperationRow) : bool :=
  has_id id r && is_pending r && lease_expired now r.

Definition adopt_row (pid lease : Z) (r : OperationRow) : OperationRow :=
  r <| or_operation := (or_operation r) <| op_owner_pid := Some pid |>
                                        <| op_lease_expires_at := Some lease |> |>.

Definition finalizable (id : string) (r : OperationRow) : bool := has_id id r && is_pending r.

Definition finalize_row (s : t) (detail : string) (now : Z) (r : OperationRow) : OperationRow :=
  r <| or_operation := (or_operation r) <| op_status := as_str s |>
                                        <| op_serialized_outcome := Some detail |> |>
    <| or_finalized_at := Some now |>.

(** [value.get("attempt_id").and_then(Value::as_i64)] *)
Definition json_i64_member (name : string) (j : Json) : option Z :=
  match j with
  | JObject m =>
      match m !! name with
      | Some (JInt z) => if decide (- 2 ^ 63 <= z <= i64_max)%Z then Some z else None
      | _ => None
      end
  | _ => None
  end.

Section Operations.
Context `{Env} `{RecoveryCodec}.

Definition attempt_id_from_outcome (serialized_outcome : string) : Res SqlError Z :=
  value ← res_map_err (fun _ => FromSqlConversionFailure 0) (json_from_str serialized_outcome);
  ok_or (json_i64_member "attempt_id" value) (FromSqlConversionFailure 0).

Definition lookup_logical_operation (key : string) : M Db SqlError (option RecoveryOperation) :=
  query (fun d =>
    match select_first (has_key key) (recovery_operations d) with
    | Some r => Some <$> map_operation_row r
    | None => Ok None
    end).

(** [ORDER BY created_at ASC LIMIT 1] *)
Definition find_adoptable_pending (key : string) (now : Z) : M Db SqlError (option RecoveryOperation) :=
  query (fun d =>
    match newest_by (fun r => (- or_created_at r)%Z)
            (select_where (fun r => has_key key r && is_pending r && lease_expired now r)
               (recovery_operations d)) with
    | Some r => Some <$> map_operation_row r
    | None => Ok None
    end).

Definition insert_pending (p : PendingOperationInsert) : M Db SqlError unit :=
  t ← now;
  execute (insert_operation (pending_row p t)).

Definition try_adopt_pending (id : string) (new_owner_pid new_lease now : Z)
    : M Db SqlError AdoptOutcome :=
  affected ← execute (update_operations (adoptable id now) (adopt_row new_owner_pid new_lease));
  mret (if decide (affected = 1) then Adopted else StillOwned).

Definition finalize_completed (id serialized_outcome : string) : M Db SqlError Z :=
  t ← now;
  affected ← execute (update_operations (finalizable id) (finalize_row Completed serialized_outcome t));
  if decide (affected = 1) then lift_res (attempt_id_from_outcome serialized_outcome)
  else throw ConstraintViolation.

Definition finalize_guarded (id : string) (terminal : t) (detail : string) : M Db SqlError unit :=
  t ← now;
  affected ← execute (update_operations (finalizable id) (finalize_row terminal detail t));
  if decide (affected = 1) then mret tt else throw ConstraintViolation.

Definition finalize_refused (id reason : string) : M Db SqlError unit :=
  finalize_guarded id Refused reason.
Definition finalize_conflict (id detail : string) : M Db SqlError unit :=
  finalize_guarded id Conflict detail.

Definition count_operations_for_run (run : string) : M Db SqlError Z :=
  query (fun d => Ok (Z.of_nat (count_where (fun r => op_run_id (or_operation r) =?s run)
                                  (recovery_operations d)))).
End Operations.
End Operations.

(** ** The attempts *)

Module Attempts.

Record AttemptRow := mkAttemptRow {
  attempt_id : Z;
  ar_run_id : string;
  ar_epoch : Z;
  ar_source_attempt_id : option Z;
  ar_operation_id : string;
  ar_step_id : string;
  ar_step_status : string;
  ar_capsule_schema_version : Z;
  ar_capsule_envelope_digest : string;
  ar_state_snapshot : StateSnapshot;
  ar_state_snapshot_json : Bytes;
  ar_snapshot_digest : string;
  ar_checkpoint_digest : option string;
  ar_runner_result_json : option Json;
  ar_started_at : Z;
  ar_finalized_at : option Z
}.

Record AttemptStart := mkAttemptStart {
  as_run_id : string;
  as_epoch : Z;
  as_source_attempt_id : option Z;
  as_operation_id : string;
  as_step_id : string;
  as_capsule_schema_version : Z;
  as_capsule_envelope_digest : string;
  as_state_snapshot : StateSnapshot
}.

(** [INTEGER PRIMARY KEY AUTOINCREMENT]: the next id is one above every id the
    table ever had; [SQLITE_FULL] when there is none left. *)
Definition insert_attempt (row : Z -> AttemptRecord) (d : Db) : Res SqlError (Z * Db) :=
  if (attempts_seq d <? i64_max)%Z then
    let id := (attempts_seq d + 1)%Z in
    Ok (id, d <| recovery_attempts := recovery_attempts d ++ [row id] |> <| attempts_seq := id |>)
  else Err SqliteFailure.

Definition started_row (a : AttemptStart) (snapshot digest : string) (now id : Z) : AttemptRecord :=
  mkAttemptRecord id (as_run_id a) (i64_saturating (as_epoch a)) (as_source_attempt_id a)
    (as_operation_id a) (as_step_id a) "started" (as_capsule_schema_version a)
    (as_capsule_envelope_digest a) snapshot digest None None now None.

Definition unfinalized (id : Z) (r : AttemptRecord) : bool :=
  (at_attempt_id r =? id)%Z && bool_decide (at_finalized_at r = None).

Definition outcome_row (step_status snapshot digest : string) (runner checkpoint : option string)
    (now : Z) (r : AttemptRecord) : AttemptRecord :=
  r <| at_step_status := step_status |> <| at_state_snapshot_json := snapshot |>
    <| at_snapshot_digest := digest |> <| at_runner_result_json := runner |>
    <| at_checkpoint_digest := checkpoint |> <| at_finalized_at := Some now |>.

Definition finalized_of_step (run step : string) (r : AttemptRecord) : bool :=
  (at_run_id r =?s run) && (at_step_id r =?s step) && bool_decide (is_Some (at_finalized_at r)).

Definition unfinalized_of_operation (id : string) (r : AttemptRecord) : bool :=
  (at_operation_id r =?s id) && bool_decide (at_finalized_at r = None).

Section Operations.
Context `{Env} `{RecoveryCodec} `{Sha256}.

Definition canonical_snapshot_bytes (s : StateSnapshot) : Res SqlError Bytes :=
  res_map_err (fun _ => ToSqlConversionFailure) (snapshot_to_vec s).

(** [String::from_utf8] *)
Definition snapshot_text (bytes : Bytes) : Res SqlError string :=
  if utf8_valid bytes then Ok bytes else Err ToSqlConversionFailure.

Definition record_attempt_start (a : AttemptStart) : M Db SqlError Z :=
  snapshot_json ← lift_res (canonical_snapshot_bytes (as_state_snapshot a));
  let snapshot_digest := sha256_hex snapshot_json in
  snapshot_str ← lift_res (snapshot_text snapshot_json);
  t ← now;
  execute (insert_attempt (started_row a snapshot_str snapshot_digest t)).

Definition append_attempt_outcome (id : Z) (step_status : string) (s : StateSnapshot)
    (runner_result : option Json) (checkpoint_digest : option string) : M Db SqlError unit :=
  snapshot_json ← lift_res (canonical_snapshot_bytes s);
  let snapshot_digest := sha256_hex snapshot_json in
  snapshot_str ← lift_res (snapshot_text snapshot_json);
  t ← now;
  affected ← execute (fun d =>
    Ok (count_where (unfinalized id) (recovery_attempts d),
        d <| recovery_attempts :=
          update_where (unfinalized id)
            (outcome_row step_status snapshot_str snapshot_digest (json_to_string <$> runner_result)
               checkpoint_digest t) (recovery_attempts d) |>));
  if decide (affected = 1) then mret tt else throw ConstraintViolation.

Definition map_attempt_row (r : AttemptRecord) : Res SqlError AttemptRow :=
  snapshot ← res_map_err (fun _ => FromSqlConversionFailure 9)
               (snapshot_from_str (at_state_snapshot_json r));
  mret (mkAttemptRow (at_attempt_id r) (at_run_id r) (u64_or_zero (at_epoch r))
          (at_source_attempt_id r) (at_operation_id r) (at_step_id r) (at_step_status r)
          (u32_or_zero (at_capsule_schema_version r)) (at_capsule_envelope_digest r) snapshot
          (at_state_snapshot_json r) (at_snapshot_digest r) (at_checkpoint_digest r)
          (at_runner_result_json r ≫= fun s => res_ok (json_from_str s))
          (at_started_at r) (at_finalized_at r)).

(** [ORDER BY attempt_id DESC LIMIT 1], read through [optional]. *)
Definition read_newest (p : AttemptRecord -> bool) : M Db SqlError (option AttemptRow) :=
  query (fun d =>
    match newest_by at_attempt_id (select_where p (recovery_attempts d)) with
    | Some r => Some <$> map_attempt_row r
    | None => Ok None
    end).

Definition latest_for_step (run step : string) : M Db SqlError (option AttemptRow) :=
  read_newest (finalized_of_step run step).

Definition load_unfinalized_for_operation (id : string) : M Db SqlError (option AttemptRow) :=
  read_newest (unfinalized_of_operation id).

Definition load_attempt (id : Z) : M Db SqlError AttemptRow :=
  query (fun d =>
    match select_first (fun r => (at_attempt_id r =? id)%Z) (recovery_attempts d) with
    | Some r => map_attempt_row r
    | None => Err QueryReturnedNoRows
    end).

Definition verify_snapshot_digest (r : AttemptRow) : Res SqlError unit :=
  if sha256_hex (ar_state_snapshot_json r) =?s ar_snapshot_digest r then Ok tt
  else Err ConstraintViolation.

Definition count_attempts_for_run (run : string) : M Db SqlError Z :=
  query (fun d => Ok (Z.of_nat (count_where (fun r => at_run_id r =?s run) (recovery_attempts d)))).
End Operations.
End Attempts.

(** ** Lemmas *)

(** Rewrite the tables of an updated database. *)
Ltac ledger_tac :=
  match goal with
  | Hwf : ledger_wf ?d |- _ => destruct Hwf
  end;
  split; constructor; cbn; try done; try reflexivity.

Section StoreLemmas.
Context `{Env} `{RecoveryCodec} `{Sha256}.

Lemma cas_statement_evolves run next expected t d n d' :
  ledger_wf d -> Epoch.cas_statement run next expected t d = Ok (n, d') ->
  ledger_wf d' /\ ledger_le d d'.
Proof.
  intros Hwf. unfold Epoch.cas_statement.
  destruct (exists_where _ _) eqn:Ex; intros [= <- <-]; ledger_tac.
  - by apply unique_update.
  - apply grows_update; [apply _|]. intros r _ _. split; cbn; [done|lia].
  - apply unique_snoc; [done|]. intros r Hr Hk. rewrite exists_where_false in Ex.
    specialize (Ex r Hr). unfold Epoch.epoch_of in Ex. rewrite bool_decide_eq_false in Ex.
    by apply Ex.
  - apply grows_append, _.
Qed.

Lemma read_epoch_evolves run : evolves (Epoch.read_epoch run).
Proof. evolves_auto. Qed.

Lemma cas_advance_epoch_evolves run expected : evolves (Epoch.cas_advance_epoch run expected).
Proof.
  intros d0. unfold Epoch.cas_advance_epoch. apply keeps_bind; [apply keeps_now|intros t].
  apply keeps_bind; [|intros n; case_decide; keeps_auto].
  apply evolves_execute. intros d a d'. apply cas_statement_evolves.
Qed.

Lemma insert_operation_evolves row d u d' :
  ledger_wf d -> Operations.insert_operation row d = Ok (u, d') -> ledger_wf d' /\ ledger_le d d'.
Proof.
  intros Hwf. unfold Operations.insert_operation. destruct (_ || _) eqn:Ex; [done|].
  intros [= <- <-]. apply orb_false_iff in Ex as [Hid Hkey].
  rewrite exists_where_false in Hid, Hkey. ledger_tac.
  - apply unique_snoc; [done|]. intros r Hr Hk. specialize (Hid r Hr).
    unfold Operations.has_id in Hid. rewrite bool_decide_eq_false in Hid. by apply Hid.
  - apply unique_snoc; [done|]. intros r Hr Hk. specialize (Hkey r Hr).
    unfold Operations.has_key in Hkey. rewrite bool_decide_eq_false in Hkey. by apply Hkey.
  - apply grows_append, _.
Qed.

(** An update of pending rows that keeps their bindings. *)
Lemma update_operations_evolves p f d n d' :
  (forall r, p r = true -> Operations.is_pending r = true) ->
  (forall r, operation_bindings (or_operation (f r)) = operation_bindings (or_operation r) /\
             or_created_at (f r) = or_created_at r) ->
  ledger_wf d -> Operations.update_operations p f d = Ok (n, d') -> ledger_wf d' /\ ledger_le d d'.
Proof.
  intros Hp Hf Hwf [= _ <-].
  assert (Hids : forall r, row_operation_id (f r) = row_operation_id r /\
                           row_request_key (f r) = row_request_key r).
  { intros r. destruct (Hf r) as [Hb _]. unfold operation_bindings in Hb.
    unfold row_operation_id, row_request_key. split; congruence. }
  ledger_tac; try (apply unique_update; [intros; apply Hids|done]).
  apply grows_update; [apply _|]. intros r _ Hr. destruct (Hf r) as [Hb Hc]. split_and!; [done|done|].
  intros Hs. apply Hp, bool_decide_eq_true in Hr. by destruct Hs.
Qed.

Lemma insert_pending_evolves p : evolves (Operations.insert_pending p).
Proof.
  intros d0. apply keeps_bind; [apply keeps_now|intros t].
  apply evolves_execute. intros d a d'. apply insert_operation_evolves.
Qed.

Lemma try_adopt_pending_evolves id pid lease t :
  evolves (Operations.try_adopt_pending id pid lease t).
Proof.
  intros d0. apply keeps_bind; [|intros n; keeps_auto].
  apply evolves_execute. intros d a d'. apply update_operations_evolves; [|done].
  intros r. unfold Operations.adoptable. rewrite !andb_true_iff. tauto.
Qed.

Lemma finalize_update_evolves id s detail t d n d' :
  ledger_wf d ->
  Operations.update_operations (Operations.finalizable id) (Operations.finalize_row s detail t) d
    = Ok (n, d') -> ledger_wf d' /\ ledger_le d d'.
Proof.
  apply update_operations_evolves; [|done].
  intros r. unfold Operations.finalizable. rewrite andb_true_iff. tauto.
Qed.

Lemma finalize_completed_evolves id o : evolves (Operations.finalize_completed id o).
Proof.
  intros d0. apply keeps_bind; [apply keeps_now|intros t].
  apply keeps_bind; [|intros n; case_decide; keeps_auto].
  apply evolves_execute. intros d a d'. apply finalize_update_evolves.
Qed.

Lemma finalize_guarded_evolves id s o : evolves (Operations.finalize_guarded id s o).
Proof.
  intros d0. apply keeps_bind; [apply keeps_now|intros t].
  apply keeps_bind; [|intros n; case_decide; keeps_auto].
  apply evolves_execute. intros d a d'. apply finalize_update_evolves.
Qed.

Lemma insert_attempt_evolves row d id d' :
  (forall z, at_attempt_id (row z) = z) ->
  ledger_wf d -> Attempts.insert_attempt row d = Ok (id, d') -> ledger_wf d' /\ ledger_le d d'.
Proof.
  intros Hrow Hwf. unfold Attempts.insert_attempt. case_match; [|done]. intros [= <- <-].
  assert (Hlt : forall a, a ∈ recovery_attempts d -> (0 < at_attempt_id a <= attempts_seq d)%Z)
    by (destruct Hwf; by apply Forall_forall).
  ledger_tac.
  - apply unique_snoc; [done|]. intros a Ha. rewrite Hrow. specialize (Hlt a Ha). lia.
  - apply Forall_app. split; [|constructor; [rewrite Hrow; lia|done]].
    apply Forall_forall. intros a Ha. specialize (Hlt a Ha). lia.
  - lia.
  - apply grows_append, _.
Qed.

Lemma record_attempt_start_evolves a : evolves (Attempts.record_attempt_start a).
Proof.
  intros d0. unfold Attempts.record_attempt_start.
  apply keeps_bind; [apply keeps_lift_res|intros bytes].
  apply keeps_bind; [apply keeps_lift_res|intros text].
  apply keeps_bind; [apply keeps_now|intros t].
  apply evolves_execute. intros d id d'. by apply insert_attempt_evolves.
Qed.

Lemma append_attempt_outcome_evolves id st s rr cd :
  evolves (Attempts.append_attempt_outcome id st s rr cd).
Proof.
  intros d0. unfold Attempts.append_attempt_outcome.
  apply keeps_bind; [apply keeps_lift_res|intros bytes].
  apply keeps_bind; [apply keeps_lift_res|intros text].
  apply keeps_bind; [apply keeps_now|intros t].
  apply keeps_bind; [|intros n; case_decide; keeps_auto].
  apply evolves_execute. intros d a d' Hwf [= _ <-]. ledger_tac.
  - by apply unique_update.
  - apply Forall_forall. intros r (r0 & Hr0 & ->)%elem_of_update_where.
    rewrite Forall_forall in *. specialize (wf_attempts_seq0 r0 Hr0). by destruct (Attempts.unfinalized _ _).
  - apply grows_update; [apply _|]. intros r _ Hr. split; [done|]. intros Hf.
    unfold Attempts.unfinalized in Hr. apply andb_true_iff in Hr as [_ Hn].
    apply bool_decide_eq_true in Hn. rewrite Hn in Hf. by destruct Hf.
Qed.
End StoreLemmas.

#[export] Hint Resolve read_epoch_evolves cas_advance_epoch_evolves insert_pending_evolves
  try_adopt_pending_evolves finalize_completed_evolves finalize_guarded_evolves
  record_attempt_start_evolves append_attempt_outcome_evolves : eff.

(** ** What the stores promise *)

Section StoreSpecs.
Context `{Env} `{RecoveryCodec} `{Sha256}.

(** A row found by a unique key is found again later, evolved. *)
Lemma grows_select {A K} (R : relation A) (key : A -> K) (p : A -> bool) k t t' r :
  unique key t' -> grows R t t' -> (forall a b, R a b -> key b = key a) ->
  (forall a, p a = true <-> key a = k) ->
  select_first p t = Some r -> exists r', select_first p t' = Some r' /\ R r r'.
Proof.
  intros Hnd Hg HR Hp [Hr Hpr]%select_first_Some.
  destruct (grows_elem R _ _ _ Hg Hr) as (r' & Hr' & HRr).
  exists r'. split; [|done]. apply (select_first_key key); [done|done| |].
  - apply Hp. rewrite (HR _ _ HRr). by apply Hp.
  - intros a Ha. apply Hp in Ha. rewrite (HR _ _ HRr). apply Hp in Hpr. congruence.
Qed.

Lemma epoch_of_key run r : Epoch.epoch_of run r = true <-> ep_run_id r = run.
Proof. apply bool_decide_eq_true. Qed.
Lemma has_id_key id r : Operations.has_id id r = true <-> row_operation_id r = id.
Proof. apply bool_decide_eq_true. Qed.
Lemma has_key_key k r : Operations.has_key k r = true <-> row_request_key r = k.
Proof. apply bool_decide_eq_true. Qed.

Lemma current_le d d' run e :
  ledger_wf d' -> ledger_le d d' -> Epoch.current d run = Some e ->
  exists e', Epoch.current d' run = Some e' /\ (e <= e')%Z.
Proof.
  unfold Epoch.current. intros Hwf Hle (r & Hr & ->)%fmap_Some.
  destruct (grows_select epoch_le ep_run_id (Epoch.epoch_of run) run _ _ _ (wf_epochs _ Hwf)
              (le_epochs _ _ Hle) ltac:(by intros ?? []) (epoch_of_key run) Hr) as (r' & -> & Hrr).
  exists (ep_epoch r'). split; [done|apply Hrr].
Qed.

Lemma operation_later d d' k r :
  ledger_wf d' -> ledger_le d d' ->
  select_first (Operations.has_key k) (recovery_operations d) = Some r ->
  exists r', select_first (Operations.has_key k) (recovery_operations d') = Some r' /\ operation_le r r'.
Proof.
  intros Hwf Hle.
  apply (grows_select operation_le row_request_key _ k); [apply Hwf|apply Hle| |apply has_key_key].
  intros a b (Hb & _). unfold operation_bindings in Hb. unfold row_request_key. congruence.
Qed.

Lemma read_epoch_wp run w :
  wp (Epoch.read_epoch run)
    (fun r w' => w_db w' = w_db w /\
       forall e, r = Ok e -> e = Epoch.persisted (w_db w) run /\
         forall c, Epoch.current (w_db w) run = Some c -> (c <= i64_max)%Z) w.
Proof.
  unfold Epoch.read_epoch, Epoch.persisted, Epoch.current. wp_run; [by split|].
  split; [done|]. intros e. destruct (select_first _ _) as [row|]; cbn; [|by intros [= <-]].
  unfold get_i64. destruct (Z.leb_spec (ep_epoch row) i64_max); cbn; [|done].
  intros [= <-]. split; [done|]. by intros c [= <-].
Qed.

(** What a successful statement of the compare-and-swap does. *)
Lemma cas_statement_spec run next expected t d n d' :
  ledger_wf d -> Epoch.cas_statement run next expected t d = Ok (n, d') ->
  d' = d <| recovery_epochs := recovery_epochs d' |> /\
  (forall run', run' <> run -> Epoch.current d' run' = Epoch.current d run') /\
  match Epoch.current d run with
  | None => n = 1 /\ Epoch.current d' run = Some next
  | Some e =>
      if (e =? expected)%Z then n = 1 /\ Epoch.current d' run = Some (e + 1)%Z
      else n = 0 /\ d' = d
  end.
Proof.
  intros Hwf. unfold Epoch.cas_statement, Epoch.current.
  destruct (exists_where _ _) eqn:Ex; intros [= <- <-]; cbn.
  - split; [done|].
    destruct (select_first (Epoch.epoch_of run) (recovery_epochs d)) as [row|] eqn:Es; cbn.
    2:{ apply exists_where_true in Ex as (r & Hr & E). by rewrite (proj1 (select_first_None _ _) Es r Hr) in E. }
    pose proof (guarded_update ep_run_id (Epoch.epoch_of run) (Epoch.epoch_at run expected)
      (fun r => r <| ep_epoch := (ep_epoch r + 1)%Z |> <| ep_updated_at := t |>) (recovery_epochs d)
      (wf_epochs _ Hwf)
      ltac:(intros ?? ?%epoch_of_key ?%epoch_of_key; congruence)
      ltac:(unfold Epoch.epoch_at; intros r [? ?]%andb_true_iff; split; done)) as Hg.
    split.
    { intros run' Hne. rewrite select_first_update_other; [done|].
      unfold Epoch.epoch_at, Epoch.epoch_of. cbn. intros r [Hr _]%andb_true_iff.
      apply bool_decide_eq_true in Hr. split; apply bool_decide_eq_false; congruence. }
    destruct (ep_epoch row =? expected)%Z eqn:Ee.
    + case_bool_decide as Hc.
      * destruct Hg as (old & Ho & _ & ->). assert (old = row) as -> by congruence. cbn.
        split; [|done].
        assert (count_where (Epoch.epoch_at run expected) (recovery_epochs d) <= 1); [|lia].
        apply (count_where_unique ep_run_id); [apply Hwf|].
        unfold Epoch.epoch_at. intros r r' [?%epoch_of_key _]%andb_true_iff [?%epoch_of_key _]%andb_true_iff.
        congruence.
      * destruct Hg as [_ Hg]. specialize (Hg row Es). unfold Epoch.epoch_at in Hg.
        apply select_first_Some in Es as [_ Es]. rewrite Es, Ee in Hg. done.
    + assert (Hz : count_where (Epoch.epoch_at run expected) (recovery_epochs d) = 0).
      { apply count_where_0. intros r Hr. unfold Epoch.epoch_at.
        destruct (Epoch.epoch_of run r) eqn:Er; [|done]. cbn.
        assert (select_first (Epoch.epoch_of run) (recovery_epochs d) = Some r).
        { apply (select_first_key ep_run_id); [apply Hwf|done|done|].
          intros r' ?%epoch_of_key. apply epoch_of_key in Er. congruence. }
        by simplify_eq. }
      split; [done|]. rewrite update_where_none; [by destruct d|].
      by apply count_where_0.
  - split; [done|]. rewrite exists_where_false in Ex. split.
    + intros run' Hne. rewrite select_first_app. destruct (select_first _ _); [done|].
      unfold select_first, Epoch.epoch_of. cbn. by rewrite bool_decide_eq_false_2.
    + rewrite (proj2 (select_first_None _ _)) by done. cbn.
      rewrite select_first_app, (proj2 (select_first_None _ _)) by done.
      unfold select_first, Epoch.epoch_of. cbn. by rewrite bool_decide_eq_true_2.
Qed.

(** The compare-and-swap advances the epoch from what was expected, or changes
    nothing. *)
Lemma cas_advance_epoch_wp run expected w :
  ledger_wf (w_db w) ->
  wp (Epoch.cas_advance_epoch run expected)
    (fun r w' =>
       match r with
       | Ok (Epoch.Stale persisted _) =>
           w_db w' = w_db w /\ persisted = Epoch.persisted (w_db w) run /\
           exists e, Epoch.current (w_db w) run = Some e /\ e <> i64_saturating expected
       | Ok (Epoch.Advanced from to) =>
           from = expected /\ to = (if (expected =? u64_max)%Z then expected else expected + 1)%Z /\
           w_db w' = (w_db w) <| recovery_epochs := recovery_epochs (w_db w') |> /\
           match Epoch.current (w_db w) run with
           | None => Epoch.current (w_db w') run = Some (i64_saturating to)
           | Some e => e = i64_saturating expected /\ Epoch.current (w_db w') run = Some (e + 1)%Z
           end
       | _ => w_db w' = w_db w
       end) w.
Proof.
  intros Hwf. unfold Epoch.cas_advance_epoch. wp_steps. set (next := if _ : bool then _ else _).
  apply wp_execute; [intros; congruence|intros; congruence|].
  intros n d' w2 Hd Hw2. rewrite H2 in Hd.
  destruct (cas_statement_spec _ _ _ _ _ _ _ Hwf Hd) as (Hfr & _ & Hc).
  case_decide as Hn.
  - wp_steps.
    assert (Hsame : d' = w_db w /\ exists e, Epoch.current (w_db w) run = Some e /\ e <> i64_saturating expected).
    { destruct (Epoch.current (w_db w) run) as [e|]; [|lia].
      destruct (Z.eqb_spec e (i64_saturating expected)); [lia|]. split; [tauto|by exists e]. }
    destruct Hsame as [-> Hne]. 
    eapply wp_consequence; [apply read_epoch_wp|].
    intros [p|e] w3 [Hw3 Hp]; cbn; wp_steps; [|congruence].
    destruct (Hp _ eq_refl) as [-> _]. rewrite Hw2. split_and!; congruence || done.
  - wp_steps. rewrite Hw2. split_and!; try done.
    destruct (Epoch.current (w_db w) run) as [e|]; [|tauto].
    destruct (e =? i64_saturating expected)%Z eqn:Ee; [|lia]. apply Z.eqb_eq in Ee. tauto.
Qed.

(** A started attempt gets the next id and is the last row. *)
Lemma record_attempt_start_wp a w :
  wp (Attempts.record_attempt_start a)
    (fun r w' =>
       match r with
       | Ok id =>
           id = (attempts_seq (w_db w) + 1)%Z /\
           exists text t,
             snapshot_to_vec (Attempts.as_state_snapshot a) = Ok text /\
             w_db w' = (w_db w)
               <| recovery_attempts :=
                    recovery_attempts (w_db w) ++ [Attempts.started_row a text (sha256_hex text) t id] |>
               <| attempts_seq := id |>
       | Err _ => w_db w' = w_db w
       end) w.
Proof.
  unfold Attempts.record_attempt_start, Attempts.canonical_snapshot_bytes, Attempts.snapshot_text.
  wp_run; cbn.
  destruct (snapshot_to_vec _) as [text|e]; cbn; [|done]. wp_run.
  destruct (utf8_valid text); wp_run; try congruence.
  unfold Attempts.insert_attempt in *. destruct (_ <? _)%Z eqn:Es; simplify_eq/=.
  db_eqs. eauto.
Qed.

Lemma insert_pending_wp p w :
  wp (Operations.insert_pending p)
    (fun r w' =>
       match r with
       | Ok _ =>
           exists t, w_db w' = (w_db w)
             <| recovery_operations := recovery_operations (w_db w) ++ [Operations.pending_row p t] |>
       | Err _ => w_db w' = w_db w
       end) w.
Proof.
  unfold Operations.insert_pending, Operations.insert_operation. wp_run; try congruence.
  destruct (_ || _); simplify_eq/=. db_eqs. eauto.
Qed.

Lemma count_id_unique d (f : OperationRow -> bool) id :
  ledger_wf d -> (forall r, f r = true -> Operations.has_id id r = true) ->
  count_where f (recovery_operations d) <= 1.
Proof.
  intros Hwf Hf. apply (count_where_unique row_operation_id); [apply Hwf|].
  intros r r' ?%Hf%has_id_key ?%Hf%has_id_key. congruence.
Qed.

(** An adoption changes the owner and the lease of one expired pending row, or
    nothing. *)
Lemma try_adopt_pending_wp id pid lease t w :
  ledger_wf (w_db w) ->
  wp (Operations.try_adopt_pending id pid lease t)
    (fun r w' =>
       match r with
       | Ok Operations.Adopted =>
           count_where (Operations.adoptable id t) (recovery_operations (w_db w)) = 1 /\
           w_db w' = (w_db w) <| recovery_operations :=
             update_where (Operations.adoptable id t) (Operations.adopt_row pid lease)
               (recovery_operations (w_db w)) |>
       | _ => w_db w' = w_db w
       end) w.
Proof.
  intros Hwf. unfold Operations.try_adopt_pending, Operations.update_operations. wp_run; try congruence.
  assert (Hle : count_where (Operations.adoptable id t) (recovery_operations (w_db w)) <= 1).
  { apply (count_id_unique _ _ id Hwf). unfold Operations.adoptable. intros r. rewrite !andb_true_iff. tauto. }
  case_decide as Hc; cbn; simplify_eq/=; db_eqs; [done|].
  rewrite update_where_none; [by destruct (w_db w)|]. apply count_where_0. lia.
Qed.

(** A finalization closes the one attempt, and the one pending operation, that
    it names. *)
Lemma append_attempt_outcome_wp id st s rr cd w :
  wp (Attempts.append_attempt_outcome id st s rr cd)
    (fun r w' =>
       match r with
       | Ok _ =>
           count_where (Attempts.unfinalized id) (recovery_attempts (w_db w)) = 1 /\
           exists text t, snapshot_to_vec s = Ok text /\
             w_db w' = (w_db w) <| recovery_attempts :=
               update_where (Attempts.unfinalized id)
                 (Attempts.outcome_row st text (sha256_hex text) (json_to_string <$> rr) cd t)
                 (recovery_attempts (w_db w)) |>
       | Err _ => True
       end) w.
Proof.
  unfold Attempts.append_attempt_outcome, Attempts.canonical_snapshot_bytes, Attempts.snapshot_text.
  wp_run. destruct (snapshot_to_vec s) as [text|e]; cbn; [|done]. wp_run.
  destruct (utf8_valid text); wp_run; try done. case_decide; [|done]. wp_run. simplify_eq/=. db_eqs. eauto 6.
Qed.

Lemma finalize_completed_wp id o w :
  wp (Operations.finalize_completed id o)
    (fun r w' =>
       match r with
       | Ok attempt =>
           count_where (Operations.finalizable id) (recovery_operations (w_db w)) = 1 /\
           Operations.attempt_id_from_outcome o = Ok attempt /\
           exists t, w_db w' = (w_db w) <| recovery_operations :=
             update_where (Operations.finalizable id)
               (Operations.finalize_row OperationStatus.Completed o t)
               (recovery_operations (w_db w)) |>
       | Err _ => True
       end) w.
Proof.
  unfold Operations.finalize_completed, Operations.update_operations. wp_run; try done.
  case_decide; [|done]. wp_run. simplify_eq/=. destruct (Operations.attempt_id_from_outcome o); [|done].
  db_eqs. eauto.
Qed.

(** An epoch is claimed once: after one caller advanced it, no history lets
    another advance it from the same value. *)
Lemma cas_once run e w w1 w2 from to from' to' w3 :
  ledger_wf (w_db w) -> (e < i64_max)%Z ->
  Epoch.cas_advance_epoch run e w = (Ok (Epoch.Advanced from to), w1) ->
  ledger_wf (w_db w2) -> ledger_le (w_db w1) (w_db w2) ->
  Epoch.cas_advance_epoch run e w2 = (Ok (Epoch.Advanced from' to'), w3) -> False.
Proof.
  intros Hwf He Hrun Hwf2 Hle Hrun2.
  pose proof (cas_advance_epoch_wp run e w Hwf) as Hs1. unfold wp in Hs1. rewrite Hrun in Hs1. cbn in Hs1.
  pose proof (cas_advance_epoch_wp run e w2 Hwf2) as Hs2. unfold wp in Hs2. rewrite Hrun2 in Hs2. cbn in Hs2.
  destruct Hs1 as (_ & Hto & _ & Hc1). destruct Hs2 as (_ & _ & _ & Hc2).
  unfold i64_saturating in *.
  assert (Hc : exists c, Epoch.current (w_db w1) run = Some c /\ (e < c)%Z).
  { destruct (Epoch.current (w_db w) run) as [c|].
    - destruct Hc1 as [-> Hc]. exists (Z.min e i64_max + 1)%Z. split; [done|lia].
    - exists (Z.min to i64_max). split; [done|].
      destruct (Z.eqb_spec e u64_max); unfold u64_max, i64_max in *; lia. }
  destruct Hc as (c & Hc & Hlt). destruct (current_le _ _ _ _ Hwf2 Hle Hc) as (c' & Hc' & Hle').
  rewrite Hc' in Hc2. destruct Hc2 as [Hc2 _]. lia.
Qed.
End StoreSpecs.

(** ** Operation ids *)

Section Keys.
Context `{Sha256}.

(** The five values an operation id is made of. *)
Record OperationBinding := mkOperationBinding {
  ob_run_id : string;
  ob_step_id : string;
  ob_capsule_digest : string;
  ob_source_attempt : option Z;
  ob_intent : string
}.

Definition binding_fields (b : OperationBinding) : list Bytes :=
  [ob_run_id b; ob_step_id b; ob_capsule_digest b; Operations.source_bytes (ob_source_attempt b); ob_intent b].
Definition binding_frame (b : OperationBinding) : Bytes :=
  Operations.operation_frame (ob_run_id b) (ob_step_id b) (ob_capsule_digest b) (ob_source_attempt b) (ob_intent b).
Definition binding_id (b : OperationBinding) : string :=
  Operations.compute_operation_id (ob_run_id b) (ob_step_id b) (ob_capsule_digest b) (ob_source_attempt b)
    (ob_intent b).

(** Texts shorter than 2^64 bytes, and a source attempt, if any, that the
    attempts table can have given out. *)
Definition binding_ok (b : OperationBinding) : Prop :=
  fits 8 (binding_fields b) /\ (forall id, ob_source_attempt b = Some id -> (0 < id <= i64_max)%Z).

Lemma source_bytes_inj s s' :
  (forall id, s = Some id -> (0 < id <= i64_max)%Z) -> (forall id, s' = Some id -> (0 < id <= i64_max)%Z) ->
  Operations.source_bytes s = Operations.source_bytes s' -> s = s'.
Proof.
  intros Hs Hs'. unfold Operations.source_bytes. change (be_bytes 8 0) with (i64_to_be_bytes 0).
  destruct s as [id|], s' as [id'|]; try done; intros Heq; apply i64_to_be_bytes_inj in Heq;
    try specialize (Hs _ eq_refl); try specialize (Hs' _ eq_refl); unfold i64_max in *; try lia.
  by subst.
Qed.

Lemma binding_frame_inj b b' : binding_ok b -> binding_ok b' -> binding_frame b = binding_frame b' -> b = b'.
Proof.
  intros [Hf Hs] [Hf' Hs'] Heq. change (frame 8 (binding_fields b) = frame 8 (binding_fields b')) in Heq.
  destruct (frame_inj 8 _ _ "" "" Hf Hf' eq_refl) as [Hfs _]; [by rewrite !append_nil_r|].
  destruct b, b'. cbn in *. injection Hfs as -> -> -> Hsrc ->. f_equal. by apply source_bytes_inj.
Qed.

(** An operation id binds what it is the id of.  Two operations with the
    same id have the same run, step, capsule, source attempt and verb, unless
    their frames are two different inputs on which SHA-256 collides; no text
    can be chosen so that one field runs into the next, and no attempt id is
    taken for the absence of one. *)
Theorem operation_id_binds b b' :
  binding_ok b -> binding_ok b' -> binding_id b = binding_id b' ->
  b = b' \/ (binding_frame b <> binding_frame b' /\ sha256 (binding_frame b) = sha256 (binding_frame b')).
Proof.
  intros Hb Hb' Hid. destruct (decide (binding_frame b = binding_frame b')) as [Heq|Hne].
  - left. by apply binding_frame_inj.
  - right. split; [done|]. by apply hex_lower_inj.
Qed.
End Keys.

Example operation_id_binds_witness :
  let b := mkOperationBinding "run-1" "build" "c" None "resume" in
  let b' := mkOperationBinding "run-1" "build" "c" (Some 1%Z) "resume" in
  binding_id (H := fun s => s) b <> binding_id (H := fun s => s) b'.
Proof.
  intros b b' Heq. destruct (operation_id_binds (H := fun s => s) b b') as [Hb|[Hne Hb]]; [..|done|done].
  - split; [by_computation|done].
  - split; [by_computation|by intros id [= <-]].
  - exact Heq.
Defined.
