(* ===== verification/Capsules.v ===== *)
(** The execution capsule of a run ([engine/recovery/capsule.rs]) and its
    immutable store ([persistence/capsule_store.rs]): the framed envelope whose
    digest is the authority of a recovery, the checks made when a capsule is
    stored and when it is loaded, and the launch that persists the initial run
    and its capsule in one transaction. *)
From S2P Require Import Prelude Effects Digest Sql Status Schema Checkpoints Runs Provenance RecoveryStores.

Definition SUPPORTED_SCHEMA_VERSIONS : list Z := [1%Z].
Definition SUPPORTED_CANONICALIZATION_VERSIONS : list Z := [1%Z].
Definition SUPPORTED_DOMAIN_VERSIONS : list Z := [1%Z].
Definition SUPPORTED_PROVENANCE_VERSIONS : list Z := [1%Z].
Definition CURRENT_SCHEMA_VERSION : Z := 1.
Definition CURRENT_CANONICALIZATION_VERSION : Z := 1.
Definition CURRENT_DOMAIN_VERSION : Z := 1.
Definition CURRENT_PROVENANCE_VERSION : Z := 1.

Record CapsuleAuthorityFields := mkAuthorityFields {
  af_schema_version : Z;
  af_canonicalization_version : Z;
  af_domain_version : Z;
  af_provenance_version : Z;
  af_run_id : string;
  af_config_root_encoding : string;
  af_resolved_workflow_bytes : Bytes;
  af_resolved_config_bytes : Bytes;
  af_launch_provenance_digest : string;
  af_base_ref : string
}.

Record ExecutionCapsuleV1 := mkCapsule {
  ec_schema_version : Z;
  ec_canonicalization_version : Z;
  ec_domain_version : Z;
  ec_provenance_version : Z;
  ec_run_id : string;
  ec_config_root_encoding : string;
  ec_resolved_workflow_bytes : Bytes;
  ec_resolved_config_bytes : Bytes;
  ec_launch_provenance_digest : string;
  ec_base_ref : string;
  ec_envelope_digest : string;
  ec_workflow_digest : string;
  ec_config_digest : string;
  ec_created_at : Z
}.

Global Instance capsule_eq_dec : EqDecision ExecutionCapsuleV1.
Proof. solve_decision. Defined.

Inductive CapsuleError :=
| EnvelopeDigestMismatch
| UnsupportedSchema (version : Z)
| UnsupportedCanonicalization (version : Z)
| UnsupportedDomain (version : Z)
| UnsupportedProvenance (version : Z)
| CanonicalizeRoot (config_root : Path).

Definition authority_fields (c : ExecutionCapsuleV1) : CapsuleAuthorityFields :=
  mkAuthorityFields (ec_schema_version c) (ec_canonicalization_version c) (ec_domain_version c)
    (ec_provenance_version c) (ec_run_id c) (ec_config_root_encoding c)
    (ec_resolved_workflow_bytes c) (ec_resolved_config_bytes c) (ec_launch_provenance_digest c)
    (ec_base_ref c).

(** ** The envelope *)

Definition build_envelope_frame (f : CapsuleAuthorityFields) : Bytes :=
  let buf := EmptyString in
  let buf := buf +:+ u32_to_be_bytes (af_schema_version f) in
  let buf := buf +:+ u32_to_be_bytes (af_canonicalization_version f) in
  let buf := buf +:+ u32_to_be_bytes (af_domain_version f) in
  let buf := buf +:+ u32_to_be_bytes (af_provenance_version f) in
  let buf := write_len_prefixed buf (af_run_id f) in
  let buf := write_len_prefixed buf (af_config_root_encoding f) in
  let buf := write_len_prefixed buf (af_resolved_workflow_bytes f) in
  let buf := write_len_prefixed buf (af_resolved_config_bytes f) in
  let buf := write_len_prefixed buf (af_launch_provenance_digest f) in
  write_len_prefixed buf (af_base_ref f).

Definition require_supported (supported : list Z) (err : Z -> CapsuleError) (version : Z)
    : Res CapsuleError unit :=
  if bool_decide (version ∈ supported) then Ok tt else Err (err version).

Definition require_supported_schema (v : Z) : Res CapsuleError unit :=
  require_supported SUPPORTED_SCHEMA_VERSIONS UnsupportedSchema v.
Definition require_supported_canonicalization (v : Z) : Res CapsuleError unit :=
  require_supported SUPPORTED_CANONICALIZATION_VERSIONS UnsupportedCanonicalization v.
Definition require_supported_domain (v : Z) : Res CapsuleError unit :=
  require_supported SUPPORTED_DOMAIN_VERSIONS UnsupportedDomain v.
Definition require_supported_provenance (v : Z) : Res CapsuleError unit :=
  require_supported SUPPORTED_PROVENANCE_VERSIONS UnsupportedProvenance v.

Section Envelope.
Context `{Sha256}.

Definition compute_envelope_digest (f : CapsuleAuthorityFields) : string :=
  sha256_hex (build_envelope_frame f).

Definition verify_envelope_digest (c : ExecutionCapsuleV1) : Res CapsuleError unit :=
  require_supported_schema (ec_schema_version c);;
  require_supported_canonicalization (ec_canonicalization_version c);;
  require_supported_domain (ec_domain_version c);;
  require_supported_provenance (ec_provenance_version c);;
  let recomputed := compute_envelope_digest (authority_fields c) in
  if recomputed =?s ec_envelope_digest c then Ok tt else Err EnvelopeDigestMismatch.

Definition build_capsule_v1 `{JsonPrinter} (canonicalize : Path -> option Path) (run : string)
    (wt : WorkflowType) (c : WorkflowConfig) (config_root : Path) (p : LaunchProvenance)
    (base_ref : string) (now : Z) : Res CapsuleError ExecutionCapsuleV1 :=
  require_supported_schema CURRENT_SCHEMA_VERSION;;
  require_supported_canonicalization CURRENT_CANONICALIZATION_VERSION;;
  require_supported_domain CURRENT_DOMAIN_VERSION;;
  require_supported_provenance CURRENT_PROVENANCE_VERSION;;
  config_root_encoding ← encode_config_root <$> ok_or (canonicalize config_root) (CanonicalizeRoot config_root);
  let resolved_workflow_bytes := canonicalize_workflow_type wt in
  let resolved_config_bytes := canonicalize_workflow_config c in
  let workflow_digest := compute_workflow_digest wt in
  let config_digest := compute_config_digest c in
  let launch_provenance_digest := compute_provenance_digest p in
  let fields :=
    mkAuthorityFields CURRENT_SCHEMA_VERSION CURRENT_CANONICALIZATION_VERSION CURRENT_DOMAIN_VERSION
      CURRENT_PROVENANCE_VERSION run config_root_encoding resolved_workflow_bytes
      resolved_config_bytes launch_provenance_digest base_ref in
  let envelope_digest := compute_envelope_digest fields in
  mret (mkCapsule CURRENT_SCHEMA_VERSION CURRENT_CANONICALIZATION_VERSION CURRENT_DOMAIN_VERSION
          CURRENT_PROVENANCE_VERSION run config_root_encoding resolved_workflow_bytes
          resolved_config_bytes launch_provenance_digest base_ref envelope_digest workflow_digest
          config_digest now).
End Envelope.

(** ** The store *)

(** [serde_json] on a capsule; the law is its round trip. *)
Class CapsuleCodec := {
  capsule_to_string : ExecutionCapsuleV1 -> Res string string;
  capsule_from_str : string -> Res string ExecutionCapsuleV1
}.

Class CapsuleCodecLaws (C : CapsuleCodec) :=
  capsule_roundtrips c s : capsule_to_string c = Ok s -> capsule_from_str s = Ok c.

Definition capsule_of (run : string) (r : CapsuleRow) : bool := cx_run_id r =?s run.

Definition capsule_row (c : ExecutionCapsuleV1) (json : string) : CapsuleRow :=
  mkCapsuleRow (ec_run_id c) (ec_schema_version c) (ec_canonicalization_version c)
    (ec_domain_version c) (ec_provenance_version c) json (ec_envelope_digest c)
    (ec_workflow_digest c) (ec_config_digest c) (ec_created_at c).

Definition insert_capsule (row : CapsuleRow) (d : Db) : Res SqlError (unit * Db) :=
  if exists_where (capsule_of (cx_run_id row)) (execution_capsules d) then Err ConstraintViolation
  else Ok (tt, d <| execution_capsules := execution_capsules d ++ [row] |>).

Definition validate_loaded_capsule (requested_run_id : string) (c : ExecutionCapsuleV1)
    (r : CapsuleRow) : Res SqlError unit :=
  if negb (ec_run_id c =?s requested_run_id)
     || negb (ec_schema_version c =? as_u32 (cx_schema_version r))%Z
     || negb (ec_canonicalization_version c =? as_u32 (cx_canonicalization_version r))%Z
     || negb (ec_domain_version c =? as_u32 (cx_domain_version r))%Z
     || negb (ec_provenance_version c =? as_u32 (cx_provenance_version r))%Z
     || negb (ec_envelope_digest c =?s cx_envelope_digest r)
     || negb (ec_workflow_digest c =?s cx_workflow_digest r)
     || negb (ec_config_digest c =?s cx_config_digest r)
  then Err (FromSqlConversionFailure 4) else Ok tt.

Inductive LaunchPersistenceOutcome := Persisted.

Inductive LaunchPersistenceError :=
| RunCollision (run : string)
| CapsuleCollision (run : string)
| LaunchDatabase (run context : string) (cause : SqlError).

Section Store.
Context `{Env} `{Sha256} `{CapsuleCodec}.

Definition persist_capsule_v1 (c : ExecutionCapsuleV1) : M Db SqlError unit :=
  lift_res (res_map_err (fun _ => ToSqlConversionFailure) (verify_envelope_digest c));;
  capsule_json ← lift_res (res_map_err (fun _ => ToSqlConversionFailure) (capsule_to_string c));
  execute (insert_capsule (capsule_row c capsule_json)).

(** The decoding and the checks of [load_capsule_v1] on the row found. *)
Definition load_capsule_row (run : string) (r : CapsuleRow) : Res SqlError ExecutionCapsuleV1 :=
  c ← res_map_err (fun _ => FromSqlConversionFailure 4) (capsule_from_str (cx_capsule_json r));
  validate_loaded_capsule run c r;;
  res_map_err (fun _ => FromSqlConversionFailure 4) (verify_envelope_digest c);;
  mret c.

Definition load_capsule_v1 (run : string) : M Db SqlError ExecutionCapsuleV1 :=
  query (fun d =>
    match select_first (capsule_of run) (execution_capsules d) with
    | Some r => load_capsule_row run r
    | None => Err QueryReturnedNoRows
    end).

Definition persist_launch_body (m : RunMetadata) (c : ExecutionCapsuleV1)
    : M Db LaunchPersistenceError LaunchPersistenceOutcome :=
  let run := run_id m in
  inserted ← map_err (LaunchDatabase run "initial run insert failed") (insert_initial_run_with_conn m);
  match inserted with
  | Collision => throw (RunCollision run)
  | Inserted =>
      map_err (fun e => match e with
                        | ConstraintViolation => CapsuleCollision run
                        | _ => LaunchDatabase run "capsule insert failed" e
                        end) (persist_capsule_v1 c);;
      mret Persisted
  end.

Definition persist_launch_atomically (m : RunMetadata) (c : ExecutionCapsuleV1)
    : M Db LaunchPersistenceError LaunchPersistenceOutcome :=
  transaction_if (LaunchDatabase (run_id m) "failed to begin launch transaction")
    (fun _ => LaunchDatabase (run_id m) "launch transaction commit failed")
    (fun _ => true) (persist_launch_body m c).
End Store.

(** ** The frame *)

Definition envelope_fields (f : CapsuleAuthorityFields) : list Bytes :=
  [af_run_id f; af_config_root_encoding f; af_resolved_workflow_bytes f;
   af_resolved_config_bytes f; af_launch_provenance_digest f; af_base_ref f].

Definition envelope_versions (f : CapsuleAuthorityFields) : list Z :=
  [af_schema_version f; af_canonicalization_version f; af_domain_version f; af_provenance_version f].

Lemma build_envelope_frame_eq f :
  build_envelope_frame f =
  u32_to_be_bytes (af_schema_version f) +:+ u32_to_be_bytes (af_canonicalization_version f) +:+
  u32_to_be_bytes (af_domain_version f) +:+ u32_to_be_bytes (af_provenance_version f) +:+
  frame 4 (envelope_fields f).
Proof.
  unfold build_envelope_frame, write_len_prefixed, frame, envelope_fields. cbn zeta. cbn [fold_left].
  change ("" +:+ ?x) with x.
  rewrite !(push_prefixed_buf 4 (push_prefixed _ _ _)), (push_prefixed_buf 4 (_ +:+ _)).
  by rewrite !append_assoc.
Qed.

Lemma u32_be_inj z z' : is_u32 z -> is_u32 z' -> u32_to_be_bytes z = u32_to_be_bytes z' -> z = z'.
Proof.
  unfold is_u32, u32_max. intros Hz Hz' Heq%be_bytes_inj. change (8 * Z.of_nat 4)%Z with 32%Z in Heq.
  rewrite !Z.mod_small in Heq by lia. done.
Qed.

Lemma envelope_frame_inj f g :
  Forall is_u32 (envelope_versions f) -> Forall is_u32 (envelope_versions g) ->
  fits 4 (envelope_fields f) -> fits 4 (envelope_fields g) ->
  build_envelope_frame f = build_envelope_frame g -> f = g.
Proof.
  intros Hvf Hvg Hff Hfg. rewrite !build_envelope_frame_eq. intros Heq.
  repeat (apply append_length_inj in Heq as [? Heq]; [|unfold u32_to_be_bytes; by rewrite !length_be_bytes]).
  rewrite <- (append_nil_r (frame 4 _)), <- (append_nil_r (frame 4 (envelope_fields g))) in Heq.
  apply frame_inj in Heq as [Hfields _]; [|done..].
  unfold envelope_versions in *. repeat match goal with
    | H : Forall is_u32 (_ :: _) |- _ => apply Forall_cons in H as [? H] end.
  repeat match goal with H : u32_to_be_bytes _ = _ |- _ => apply u32_be_inj in H; [|done..] end.
  destruct f, g; unfold envelope_fields in Hfields; cbn in *; congruence.
Qed.

(** ** Verification *)

Section EnvelopeLemmas.
Context `{Sha256}.

Lemma verify_Ok c :
  verify_envelope_digest c = Ok tt <->
  ec_schema_version c = 1%Z /\ ec_canonicalization_version c = 1%Z /\ ec_domain_version c = 1%Z /\
  ec_provenance_version c = 1%Z /\
  ec_envelope_digest c = compute_envelope_digest (authority_fields c).
Proof.
  unfold verify_envelope_digest, require_supported_schema, require_supported_canonicalization,
    require_supported_domain, require_supported_provenance, require_supported.
  assert (Hin : forall v : Z, bool_decide (v ∈ [1%Z]) = (v =? 1)%Z).
  { intros v. apply eq_true_iff_eq. by rewrite bool_decide_eq_true, Z.eqb_eq, list_elem_of_singleton. }
  unfold SUPPORTED_SCHEMA_VERSIONS, SUPPORTED_CANONICALIZATION_VERSIONS, SUPPORTED_DOMAIN_VERSIONS,
    SUPPORTED_PROVENANCE_VERSIONS. rewrite !Hin. split.
  - destruct (Z.eqb_spec (ec_schema_version c) 1); cbn; [|done].
    destruct (Z.eqb_spec (ec_canonicalization_version c) 1); cbn; [|done].
    destruct (Z.eqb_spec (ec_domain_version c) 1); cbn; [|done].
    destruct (Z.eqb_spec (ec_provenance_version c) 1); cbn; [|done]. by case_bool_decide.
  - intros (-> & -> & -> & -> & ->). cbn. by rewrite bool_decide_eq_true_2 by done.
Qed.

Lemma build_capsule_verifies `{JsonPrinter} fs run wt cfg root p base t c :
  build_capsule_v1 fs run wt cfg root p base t = Ok c -> verify_envelope_digest c = Ok tt.
Proof.
  unfold build_capsule_v1. cbn. destruct (fs root); cbn; [|done]. intros [= <-].
  apply verify_Ok. cbn. done.
Qed.

Lemma verified_versions c :
  verify_envelope_digest c = Ok tt -> Forall is_u32 (envelope_versions (authority_fields c)).
Proof.
  intros (H1 & H2 & H3 & H4 & _)%verify_Ok. unfold envelope_versions. cbn.
  rewrite H1, H2, H3, H4. repeat constructor; done.
Qed.
End EnvelopeLemmas.

(** C18: the envelope digest binds every field a replay relies on.  Two
    capsules that both verify and carry the same envelope digest agree on
    every authority field, versions included, unless their frames are two
    different inputs on which SHA-256 collides; and what a launch builds
    verifies. *)
Theorem capsule_tamper_evident `{Sha256} `{JsonPrinter} :
  (forall c c',
     verify_envelope_digest c = Ok tt -> verify_envelope_digest c' = Ok tt ->
     ec_envelope_digest c = ec_envelope_digest c' ->
     fits 4 (envelope_fields (authority_fields c)) -> fits 4 (envelope_fields (authority_fields c')) ->
     authority_fields c = authority_fields c' \/
     (build_envelope_frame (authority_fields c) <> build_envelope_frame (authority_fields c') /\
      sha256 (build_envelope_frame (authority_fields c)) =
      sha256 (build_envelope_frame (authority_fields c')))) /\
  (forall fs run wt cfg root p base t c,
     build_capsule_v1 fs run wt cfg root p base t = Ok c -> verify_envelope_digest c = Ok tt).
Proof.
  split; [|by intros; eapply build_capsule_verifies].
  intros c c' Hc Hc' Hd Hf Hf'.
  destruct (decide (build_envelope_frame (authority_fields c) = build_envelope_frame (authority_fields c')))
    as [Heq|Hne].
  - left. apply envelope_frame_inj; [by apply verified_versions..|done|done|done].
  - right. split; [done|]. apply verify_Ok in Hc as (_ & _ & _ & _ & Hc).
    apply verify_Ok in Hc' as (_ & _ & _ & _ & Hc'). apply hex_lower_inj.
    change (compute_envelope_digest (authority_fields c) = compute_envelope_digest (authority_fields c')).
    congruence.
Qed.

(** ** The store *)

Section StoreLemmas.
Context `{Env} `{Sha256} `{CapsuleCodec}.

Lemma insert_capsule_evolves row d u d' :
  ledger_wf d -> insert_capsule row d = Ok (u, d') -> ledger_wf d' /\ ledger_le d d'.
Proof.
  intros Hwf. unfold insert_capsule. destruct (exists_where _ _) eqn:Ex; [done|].
  intros [= <- <-]. rewrite exists_where_false in Ex. ledger_tac.
  - apply unique_snoc; [done|]. intros r Hr Hk. specialize (Ex r Hr).
    unfold capsule_of in Ex. rewrite bool_decide_eq_false in Ex. by apply Ex.
  - apply grows_append, _.
Qed.

Lemma persist_capsule_evolves c : evolves (persist_capsule_v1 c).
Proof.
  intros d0. unfold persist_capsule_v1. apply keeps_bind; [apply keeps_lift_res|intros []].
  apply keeps_bind; [apply keeps_lift_res|intros json].
  apply evolves_execute. intros d a d'. apply insert_capsule_evolves.
Qed.

Lemma load_capsule_evolves run : evolves (load_capsule_v1 run).
Proof. evolves_auto. Qed.

(** A stored row that decodes to a verified capsule loads as that capsule. *)
Lemma load_stored_row `{!CapsuleCodecLaws _} c json :
  verify_envelope_digest c = Ok tt -> capsule_to_string c = Ok json ->
  load_capsule_row (ec_run_id c) (capsule_row c json) = Ok c.
Proof.
  intros Hv Hj. unfold load_capsule_row, validate_loaded_capsule. cbn.
  rewrite (capsule_roundtrips _ _ Hj). cbn.
  pose proof (verified_versions c Hv) as Hu. unfold envelope_versions in Hu. cbn in Hu.
  repeat (apply Forall_cons in Hu as [?Hu1 Hu]). rewrite !as_u32_id by done.
  rewrite !bool_decide_eq_true_2, !Z.eqb_refl by done. cbn. by rewrite Hv.
Qed.

(** What is loaded was asked for and verifies. *)
Lemma load_capsule_row_Ok run r c :
  load_capsule_row run r = Ok c -> ec_run_id c = run /\ verify_envelope_digest c = Ok tt.
Proof.
  unfold load_capsule_row, validate_loaded_capsule. destruct (capsule_from_str _) as [c'|]; cbn; [|done].
  case_bool_decide as Hrun; cbn; [|done]. destruct (_ || _); cbn; [done|].
  destruct (verify_envelope_digest c') as [[]|] eqn:Hv; cbn; [|done]. by intros [= <-].
Qed.

Definition launched (m : RunMetadata) (c : ExecutionCapsuleV1) (json : string) (d : Db) : Db :=
  d <| runs := runs d ++ [bind_run_metadata_params m] |>
    <| execution_capsules := execution_capsules d ++ [capsule_row c json] |>.

Lemma insert_initial_run_wp m w :
  wp (insert_initial_run_with_conn m) (fun r w' =>
    match r with
    | Ok Inserted =>
        exists_where (run_named (run_id m)) (runs (w_db w)) = false /\
        w_db w' = (w_db w) <| runs := runs (w_db w) ++ [bind_run_metadata_params m] |>
    | Ok Collision => w_db w' = w_db w /\ exists_where (run_named (run_id m)) (runs (w_db w)) = true
    | Err _ => w_db w' = w_db w
    end) w.
Proof.
  unfold insert_initial_run_with_conn. wp_steps. apply wp_execute.
  - intros w' Hw. by wp_steps.
  - intros e w' He Hw. wp_steps. unfold insert_run in He.
    destruct (exists_where _ _) eqn:Ex; [|done]. injection He as <-. by wp_steps.
  - intros a d w' Hd Hw. wp_steps. unfold insert_run in Hd.
    destruct (exists_where _ _) eqn:Ex; [done|]. injection Hd as <- <-. done.
Qed.

Lemma persist_capsule_wp c w :
  wp (persist_capsule_v1 c) (fun r w' =>
    match r with
    | Ok _ =>
        verify_envelope_digest c = Ok tt /\
        exists_where (capsule_of (ec_run_id c)) (execution_capsules (w_db w)) = false /\
        exists json, capsule_to_string c = Ok json /\
          w_db w' = (w_db w) <| execution_capsules := execution_capsules (w_db w) ++ [capsule_row c json] |>
    | Err e =>
        w_db w' = w_db w /\
        (e = ConstraintViolation -> exists_where (capsule_of (ec_run_id c)) (execution_capsules (w_db w)) = true)
    end) w.
Proof.
  unfold persist_capsule_v1. wp_steps.
  destruct (verify_envelope_digest c) as [[]|] eqn:Hv; cbn; [|done]. wp_steps.
  destruct (capsule_to_string c) as [json|] eqn:Hj; cbn; [|done]. apply wp_execute.
  - by intros w' ->.
  - intros e w' He ->. unfold insert_capsule in He. cbn in He. split; [done|].
    by destruct (exists_where _ _).
  - intros a d w' Hd ->. unfold insert_capsule in Hd. cbn in Hd.
    destruct (exists_where _ _) eqn:Ex; [done|]. injection Hd as <- <-. eauto.
Qed.

(** A launch is persisted in full or not at all.  On success the run and
    its capsule are both new rows, the capsule is one that verifies, and
    nothing else changed; on any error, a failing commit included, the
    database is as it was, and each collision is reported for the row that
    exists: a run collision for the run, a capsule collision for the capsule
    of a run that has no row. *)
Theorem persist_launch_atomic m c w :
  wp (persist_launch_atomically m c) (fun r w' =>
    match r with
    | Ok Persisted =>
        verify_envelope_digest c = Ok tt /\
        exists_where (run_named (run_id m)) (runs (w_db w)) = false /\
        exists_where (capsule_of (ec_run_id c)) (execution_capsules (w_db w)) = false /\
        exists json, capsule_to_string c = Ok json /\ w_db w' = launched m c json (w_db w)
    | Err e =>
        w_db w' = w_db w /\
        match e with
        | RunCollision run => run = run_id m /\ exists_where (run_named run) (runs (w_db w)) = true
        | CapsuleCollision run =>
            run = run_id m /\ exists_where (run_named run) (runs (w_db w)) = false /\
            exists_where (capsule_of (ec_run_id c)) (execution_capsules (w_db w)) = true
        | LaunchDatabase run _ _ => run = run_id m
        end
    end) w.
Proof.
  unfold persist_launch_atomically.
  apply wp_transaction_if_errors; [done|]. intros w1 Hw1. unfold persist_launch_body. wp_steps.
  eapply wp_consequence; [apply insert_initial_run_wp|]. rewrite Hw1.
  intros [[|]|e] w2; cbn; [|intros [Hw2 Hx]; by wp_steps|by intros].
  intros [Hrun Hw2]. wp_steps.
  eapply wp_consequence; [apply persist_capsule_wp|]. intros [u|e] w3; rewrite Hw2; cbn.
  - intros (Hv & Hc & json & Hj & Hw3). wp_steps. intros w4. split; [|done].
    intros ->. split_and!; try done. exists json. by rewrite Hw3.
  - intros [_ Hc] w4 Hw4. split; [done|]. destruct e; cbn; auto.
Qed.
End StoreLemmas.

(** A stored capsule stays what it is: no later history of the tables changes
    or hides it. *)
Lemma capsule_immutable `{Env} `{Sha256} `{CapsuleCodec} `{!CapsuleCodecLaws _} m c w w1 w2 :
  persist_launch_atomically m c w = (Ok Persisted, w1) ->
  ledger_wf (w_db w2) -> ledger_le (w_db w1) (w_db w2) ->
  env_fault (w_stmt w2) = false ->
  fst (load_capsule_v1 (ec_run_id c) w2) = Ok c.
Proof.
  intros Hrun Hwf Hle Hok. pose proof (persist_launch_atomic m c w) as Hp.
  unfold wp in Hp. rewrite Hrun in Hp. cbn in Hp. destruct Hp as (Hv & _ & Hx & json & Hj & Hd).
  unfold load_capsule_v1, query. rewrite Hok. cbn.
  assert (Hs : select_first (capsule_of (ec_run_id c)) (execution_capsules (w_db w1)) = Some (capsule_row c json)).
  { rewrite Hd. cbn. rewrite select_first_app, (proj2 (select_first_None _ _))
      by (by apply exists_where_false).
    unfold select_first, capsule_of. cbn. by rewrite bool_decide_eq_true_2. }
  destruct (grows_select eq cx_run_id (capsule_of (ec_run_id c)) (ec_run_id c) _ _ _
    (wf_capsules _ Hwf) (le_capsules _ _ Hle) ltac:(by intros ?? ->)
    ltac:(intros; apply bool_decide_eq_true) Hs) as (row & -> & <-).
  by apply load_stored_row.
Qed.

(** ** Samples *)

(** A digest function and codecs to evaluate the stores with: the digest of a
    text is the text, and one capsule has a text. *)
Definition identity_digest : Sha256 := fun s => s.

Section Samples.
#[local] Existing Instance identity_digest.

Definition sample_fields : CapsuleAuthorityFields :=
  mkAuthorityFields 1 1 1 1 "run-1" "2f" "workflow" "config" "provenance" "main".

Definition sample_capsule : ExecutionCapsuleV1 :=
  mkCapsule 1 1 1 1 "run-1" "2f" "workflow" "config" "provenance" "main"
    (compute_envelope_digest sample_fields) "wd" "cd" 5.

Definition sample_capsule_codec : CapsuleCodec := {|
  capsule_to_string c := if decide (c = sample_capsule) then Ok "capsule" else Err "no text";
  capsule_from_str s := if s =?s "capsule" then Ok sample_capsule else Err "no capsule"
|}.

Global Instance sample_capsule_laws : CapsuleCodecLaws sample_capsule_codec.
Proof. intros c s. cbn. case_decide; [|done]. by intros [= <-]; subst. Qed.

Definition tampered_capsule : ExecutionCapsuleV1 :=
  mkCapsule 1 1 1 1 "run-1" "2f" "other" "config" "provenance" "main"
    (compute_envelope_digest sample_fields) "wd" "cd" 5.

(** A capsule with one changed field is refused. *)
Example tampered_refused : verify_envelope_digest tampered_capsule = Err EnvelopeDigestMismatch.
Proof. vm_compute. reflexivity. Qed.

#[local] Instance sample_printer : JsonPrinter :=
  {| json_to_vec _ := "workflow"; config_bytes _ := "config" |}.

Example capsule_tamper_evident_witness :
  authority_fields sample_capsule =
  authority_fields (mkCapsule 1 1 1 1 "run-1" "2f" "workflow" "config" "provenance" "main"
    (compute_envelope_digest sample_fields) "" "" 9) \/
  (build_envelope_frame (authority_fields sample_capsule) <> build_envelope_frame sample_fields /\
   sha256 (build_envelope_frame (authority_fields sample_capsule)) =
   sha256 (build_envelope_frame sample_fields)).
Proof.
  apply (proj1 capsule_tamper_evident sample_capsule
    (mkCapsule 1 1 1 1 "run-1" "2f" "workflow" "config" "provenance" "main"
       (compute_envelope_digest sample_fields) "" "" 9)); [vm_compute; reflexivity..| |];
    by_computation.
Defined.
End Samples.
