(* ===== verification/TypedMerge.v ===== *)
(** Typed verified merges ([engine/recovery/typed_merge/mod.rs]) and the
    completion of a merge-required run ([engine/recovery/merge_completion.rs]):
    a run reaches [merged] only together with an artifact whose evidence the
    verifier computed itself, in one transaction.

    What git and GitHub answer is a [MergeProbes]; every answer is indexed by
    the number of times evidence was collected, so the world may change between
    two collections.  [serde_json] on a proof is a [ProofCodec], and the
    decoding of a capsule's config bytes a [ConfigDecoder]. *)
From S2P Require Import Prelude Effects Digest Sql Status Schema Checkpoints Runs Provenance RecoveryStores Capsules.

Definition ALLOWED_MERGE_PREDECESSOR : RunStatus.t := RunStatus.ReviewReady.

Inductive MergeReachabilityProof :=
| MergeCommitProof (head_sha base_sha merge_commit_sha : string)
| SquashProof (base_sha squash_commit_sha expected_content_digest observed_content_digest : string)
| RebaseProof (base_sha final_head_sha expected_patch_id observed_patch_id : string).

Global Instance proof_eq_dec : EqDecision MergeReachabilityProof.
Proof. solve_decision. Defined.

Definition kind_str (p : MergeReachabilityProof) : string :=
  match p with
  | MergeCommitProof _ _ _ => "merge_commit"
  | SquashProof _ _ _ _ => "squash"
  | RebaseProof _ _ _ _ => "rebase"
  end.

Definition proof_result_sha (p : MergeReachabilityProof) : string :=
  match p with
  | MergeCommitProof _ _ sha => sha
  | SquashProof _ sha _ _ => sha
  | RebaseProof _ sha _ _ => sha
  end.

Inductive MergeStrategy := MergeCommit | Squash | Rebase.

Global Instance strategy_eq_dec : EqDecision MergeStrategy.
Proof. solve_decision. Defined.

(** [MergeStrategyConfig::to_merge_strategy] *)
Definition to_merge_strategy (s : MergeStrategyConfig) : MergeStrategy :=
  match s with McMergeCommit => MergeCommit | McSquash => Squash | McRebase => Rebase end.

Record MergeObservation := mkMergeObservation {
  mo_merged : bool;
  mo_strategy : MergeStrategy;
  mo_result_sha : string
}.

Record TypedMergeArtifact := mkTypedMergeArtifact {
  ta_run_id : string;
  ta_pr_number : Z;
  ta_result_sha : string;
  ta_repo : string;
  ta_head_sha : string;
  ta_base_sha : string;
  ta_capsule_envelope_digest : string;
  ta_reachability_proof : MergeReachabilityProof;
  ta_recorded_at : Z
}.

Inductive MergeError :=
| NotMerged
| StrategyMismatch (expected : MergeStrategy) (structural : string)
| ReachabilityFailed (message : string)
| ContentMismatch
| PatchMismatch
| PreconditionFailed (current_status : string) (expected_predecessor : RunStatus.t)
| AlreadyTerminal
| ArtifactConflict
| CapsuleBindingMismatch
| IdentityIncomplete (what : string)
| IdentityMismatch (field persisted artifact : string)
| MergeDatabase (context : string) (cause : option SqlError).

(** [.map_err(|error| MergeError::Database(error.to_string()))] *)
Definition merge_db (e : SqlError) : MergeError := MergeDatabase "" (Some e).

(** The probes of one working directory, at the [n]-th collection of
    evidence. *)
Record MergeProbes := mkMergeProbes {
  is_ancestor : nat -> string -> string -> Res MergeError unit;
  compute_tree_content_digest : nat -> string -> Res MergeError string;
  compute_patch_id : nat -> string -> string -> Res MergeError string;
  resolve_base_commit : string -> Res MergeError string;
  observe_merge : nat -> string -> Z -> Res MergeError MergeObservation
}.

Record MergeVerifier := mkMergeVerifier {
  mv_probes : MergeProbes;
  mv_repo : string;
  mv_pr_number : Z;
  mv_base_sha : string;
  mv_head_sha : string
}.

(** ** Evidence *)

Definition compute_pr_diff_content_digest (n : nat) (v : MergeVerifier) : Res MergeError string :=
  compute_tree_content_digest (mv_probes v) n (mv_head_sha v).

Definition build_reachability_proof (n : nat) (v : MergeVerifier) : Res MergeError MergeReachabilityProof :=
  let p := mv_probes v in
  obs ← observe_merge p n (mv_repo v) (mv_pr_number v);
  if negb (mo_merged obs) then Err NotMerged
  else match mo_strategy obs with
  | MergeCommit =>
      is_ancestor p n (mv_head_sha v) (mo_result_sha obs);;
      is_ancestor p n (mv_base_sha v) (mo_result_sha obs);;
      mret (MergeCommitProof (mv_head_sha v) (mv_base_sha v) (mo_result_sha obs))
  | Squash =>
      is_ancestor p n (mv_base_sha v) (mo_result_sha obs);;
      expected ← compute_pr_diff_content_digest n v;
      observed ← compute_tree_content_digest p n (mo_result_sha obs);
      if negb (expected =?s observed) then Err ContentMismatch
      else mret (SquashProof (mv_base_sha v) (mo_result_sha obs) expected observed)
  | Rebase =>
      is_ancestor p n (mv_base_sha v) (mo_result_sha obs);;
      expected ← compute_patch_id p n (mv_base_sha v) (mv_head_sha v);
      observed ← compute_patch_id p n (mv_base_sha v) (mo_result_sha obs);
      if negb (expected =?s observed) then Err PatchMismatch
      else mret (RebaseProof (mv_base_sha v) (mo_result_sha obs) expected observed)
  end.

(** ** The artifact table *)

Class ProofCodec := {
  proof_to_string : MergeReachabilityProof -> Res string string;
  proof_from_str : string -> Res string MergeReachabilityProof
}.
Class ProofCodecLaws (C : ProofCodec) :=
  proof_roundtrips p s : proof_to_string p = Ok s -> proof_from_str s = Ok p.

Definition artifact_of (run : string) (r : MergeArtifactRow) : bool := mr_run_id r =?s run.

Definition artifact_row (a : TypedMergeArtifact) (p : MergeReachabilityProof) (json : string)
    : MergeArtifactRow :=
  mkMergeArtifactRow (ta_run_id a) (ta_pr_number a) (ta_result_sha a) (ta_repo a) (ta_head_sha a)
    (ta_base_sha a) (ta_capsule_envelope_digest a) (kind_str p) json (ta_recorded_at a).

(** [INSERT .. ON CONFLICT(run_id) DO NOTHING], with the rows it changed. *)
Definition insert_artifact (row : MergeArtifactRow) (d : Db) : Res SqlError (nat * Db) :=
  if exists_where (artifact_of (mr_run_id row)) (merge_artifacts d) then Ok (0, d)
  else Ok (1, d <| merge_artifacts := merge_artifacts d ++ [row] |>).

Definition artifact_exact_equal (a b : TypedMergeArtifact) : bool :=
  (ta_run_id a =?s ta_run_id b) && (ta_pr_number a =? ta_pr_number b)%Z
  && (ta_result_sha a =?s ta_result_sha b) && (ta_repo a =?s ta_repo b)
  && (ta_head_sha a =?s ta_head_sha b) && (ta_base_sha a =?s ta_base_sha b)
  && (ta_capsule_envelope_digest a =?s ta_capsule_envelope_digest b)
  && bool_decide (ta_reachability_proof a = ta_reachability_proof b).

(** [WHERE run_id = ? AND status = 'review_ready' AND head_sha = ?] *)
Definition mergeable (run head : string) (r : RunRow) : bool :=
  run_named run r && (status r =?s RunStatus.to_string ALLOWED_MERGE_PREDECESSOR)
  && bool_decide (head_sha r = Some head).

Definition merged_row (now : Z) (r : RunRow) : RunRow :=
  r <| status := RunStatus.to_string RunStatus.Merged |> <| updated_at := Some now |>.

(** What [serde_json::from_slice] makes of a capsule's config bytes. *)
Class ConfigDecoder := config_from_slice : Bytes -> Res string WorkflowConfig.

Inductive MergeCompletionOutcome :=
| MergeMerged
| MergeNotYetMerged
| MergeNotReviewReady (s : RunStatus.t)
| MergeStrategyNotDeclared
| MergeFailed (e : MergeError).

Section Operations.
Context `{Env} `{Sha256} `{CapsuleCodec} `{ProofCodec}.

Definition map_merge_artifact_row (r : MergeArtifactRow) (run : string) : Res SqlError TypedMergeArtifact :=
  proof ← res_map_err (fun _ => FromSqlConversionFailure 7) (proof_from_str (mr_proof_json r));
  mret (mkTypedMergeArtifact run (mr_pr_number r) (mr_result_sha r) (mr_repo r) (mr_head_sha r)
          (mr_base_sha r) (mr_capsule_envelope_digest r) proof (mr_recorded_at r)).

Definition load_merge_artifact_conn (run : string) : M Db SqlError (option TypedMergeArtifact) :=
  query (fun d =>
    match select_first (artifact_of run) (merge_artifacts d) with
    | Some r => Some <$> map_merge_artifact_row r run
    | None => Ok None
    end).

Definition count_merge_artifacts (run : string) : M Db SqlError Z :=
  query (fun d => Ok (Z.of_nat (count_where (artifact_of run) (merge_artifacts d)))).

Definition read_run_metadata (run : string) : M Db MergeError RunMetadata :=
  found ← map_err merge_db (get_run_with_conn run);
  lift_res (ok_or found (MergeDatabase ("run not found: " +:+ run) None)).

Definition require_identity (field persisted artifact : string) : Res MergeError unit :=
  if persisted =?s artifact then Ok tt else Err (IdentityMismatch field persisted artifact).

Definition verify_capsule_binding (a : TypedMergeArtifact) : M Db MergeError unit :=
  capsule ← map_err (fun e => MergeDatabase "capsule load failed" (Some e))
              (load_capsule_v1 (ta_run_id a));
  if negb (ec_envelope_digest capsule =?s ta_capsule_envelope_digest a)
  then throw CapsuleBindingMismatch else mret tt.

Definition revalidate_merge_bindings (a : TypedMergeArtifact) : M Db MergeError unit :=
  metadata ← read_run_metadata (ta_run_id a);
  lift_res (require_identity "repository" (default "" (repository metadata)) (ta_repo a));;
  lift_res (require_identity "pr_number" (pretty (default 0%Z (pr_number metadata)))
              (pretty (ta_pr_number a)));;
  lift_res (require_identity "head_sha" (default "" (head_sha metadata)) (ta_head_sha a));;
  capsule ← map_err (fun e => MergeDatabase "capsule revalidation failed" (Some e))
              (load_capsule_v1 (ta_run_id a));
  if negb (ec_envelope_digest capsule =?s ta_capsule_envelope_digest a)
  then throw CapsuleBindingMismatch else mret tt.

Definition insert_merge_artifact (a : TypedMergeArtifact) (p : MergeReachabilityProof)
    : M Db MergeError nat :=
  proof_json ← lift_res (res_map_err (fun _ => MergeDatabase "proof serialization failed" None)
                           (proof_to_string p));
  affected ← map_err merge_db (execute (insert_artifact (artifact_row a p proof_json)));
  if decide (affected = 0) then
    found ← map_err merge_db (load_merge_artifact_conn (ta_run_id a));
    existing ← lift_res (ok_or found (MergeDatabase "artifact conflict without existing row" None));
    if negb (artifact_exact_equal existing a) then throw ArtifactConflict else mret affected
  else mret affected.

Definition transition_to_merged (a : TypedMergeArtifact) (artifact_affected : nat)
    : M Db MergeError unit :=
  t ← now;
  affected ← map_err merge_db
    (execute (update_runs (mergeable (ta_run_id a) (ta_head_sha a)) (merged_row t)));
  if decide (affected = 1) then mret tt
  else
    found ← map_err merge_db (get_run_with_conn (ta_run_id a));
    let current_status := default RunStatus.Initialized (status <$> found) in
    if bool_decide (current_status = RunStatus.Merged) && bool_decide (artifact_affected = 0)
    then mret tt
    else throw (PreconditionFailed (RunStatus.to_string current_status) ALLOWED_MERGE_PREDECESSOR).

(** The transaction of [complete_typed_merge]. *)
Definition commit_typed_merge (a : TypedMergeArtifact) (p : MergeReachabilityProof)
    : M Db MergeError unit :=
  transaction merge_db (
    revalidate_merge_bindings a;;
    artifact_affected ← insert_merge_artifact a p;
    transition_to_merged a artifact_affected).

Definition complete_typed_merge (n : nat) (a : TypedMergeArtifact) (v : MergeVerifier)
    : M Db MergeError unit :=
  proof ← lift_res (build_reachability_proof n v);
  if negb (proof_result_sha proof =?s ta_result_sha a)
     || negb (bool_decide (proof = ta_reachability_proof a))
     || negb (mv_repo v =?s ta_repo a) || negb (mv_pr_number v =? ta_pr_number a)%Z
     || negb (mv_head_sha v =?s ta_head_sha a) || negb (mv_base_sha v =?s ta_base_sha a)
  then throw ArtifactConflict
  else verify_capsule_binding a;; commit_typed_merge a proof.

(** [completion_satisfied], which turns every failing read into [false]. *)
Definition completion_satisfied {E} (run : string) : M Db E bool :=
  n ← try (count_merge_artifacts run);
  match n with
  | Err _ => mret false
  | Ok n =>
      if negb (0 <? n)%Z then mret false
      else
        found ← try (get_run_with_conn run);
        mret (match found with
              | Ok (Some md) => bool_decide (status md = RunStatus.Merged)
              | _ => false
              end)
  end.

Definition runner_completion_for_merge_required : RunStatus.t := RunStatus.ReviewReady.

(** Evidence is collected twice: for the artifact, and again by
    [complete_typed_merge]. *)
Definition complete_merge_from_observation (run : string) (probes : MergeProbes)
    : M Db MergeError unit :=
  md ← read_run_metadata run;
  let repo := default "" (repository md) in
  let pr := default 0%Z (pr_number md) in
  let head := default "" (head_sha md) in
  if str_is_empty repo then throw (IdentityIncomplete "repository")
  else if (pr <=? 0)%Z then throw (IdentityIncomplete "pr_number")
  else if str_is_empty head then throw (IdentityIncomplete "head_sha")
  else
    capsule ← map_err (fun e => MergeDatabase "capsule load failed" (Some e)) (load_capsule_v1 run);
    if str_is_empty (ec_base_ref capsule) then throw (IdentityIncomplete "capsule.base_ref")
    else
      base ← lift_res (resolve_base_commit probes (ec_base_ref capsule));
      if str_is_empty base
      then throw (ReachabilityFailed ("resolve_base_commit returned empty SHA for base_ref '"
                    +:+ ec_base_ref capsule +:+ "'"))
      else
        let verifier := mkMergeVerifier probes repo pr base head in
        proof ← lift_res (build_reachability_proof 0 verifier);
        t ← now;
        let artifact :=
          mkTypedMergeArtifact run pr (proof_result_sha proof) repo head base
            (ec_envelope_digest capsule) proof t in
        complete_typed_merge 1 artifact verifier.

(** ** Completion of a merge-required run *)

Definition resolve_declared_strategy `{ConfigDecoder} (c : ExecutionCapsuleV1)
    : Res string (option MergeStrategyConfig) :=
  config ← config_from_slice (ec_resolved_config_bytes c);
  mret (wc_merge_strategy config).

Definition needs_merge_completion {E} (run : string) : M Db E bool :=
  found ← try (get_run_with_conn run);
  match found with
  | Ok (Some md) =>
      if negb (bool_decide (status md = RunStatus.ReviewReady)) then mret false
      else loaded ← try (load_capsule_v1 run); mret (is_ok loaded)
  | _ => mret false
  end.

(** The probe factory, given the declared strategy. *)
Definition complete_merge_required_run `{ConfigDecoder} {E} (run : string)
    (factory : MergeStrategy -> MergeProbes) : M Db E MergeCompletionOutcome :=
  found ← try (get_run_with_conn run);
  match found with
  | Ok None => mret (MergeNotReviewReady RunStatus.Initialized)
  | Err e => mret (MergeFailed (merge_db e))
  | Ok (Some md) =>
      if bool_decide (status md = RunStatus.Merged) then mret (MergeNotReviewReady RunStatus.Merged)
      else if negb (bool_decide (status md = RunStatus.ReviewReady))
      then mret (MergeNotReviewReady (status md))
      else
        loaded ← try (load_capsule_v1 run);
        match loaded with
        | Err e => mret (MergeFailed (MergeDatabase "capsule load failed" (Some e)))
        | Ok capsule =>
            match resolve_declared_strategy capsule with
            | Err e => mret (MergeFailed (MergeDatabase ("config parse failed: " +:+ e) None))
            | Ok None => mret MergeStrategyNotDeclared
            | Ok (Some strategy_config) =>
                let expected_strategy := to_merge_strategy strategy_config in
                r ← try (complete_merge_from_observation run (factory expected_strategy));
                mret (match r with
                      | Ok _ => MergeMerged
                      | Err NotMerged => MergeNotYetMerged
                      | Err e => MergeFailed e
                      end)
            end
        end
  end.
End Operations.

(** ** Evidence *)

(** What the probes must have answered for a proof to be built. *)
Inductive evidence (n : nat) (v : MergeVerifier) : MergeReachabilityProof -> Prop :=
| evidence_merge_commit sha :
    observe_merge (mv_probes v) n (mv_repo v) (mv_pr_number v) = Ok (mkMergeObservation true MergeCommit sha) ->
    is_ancestor (mv_probes v) n (mv_head_sha v) sha = Ok tt ->
    is_ancestor (mv_probes v) n (mv_base_sha v) sha = Ok tt ->
    evidence n v (MergeCommitProof (mv_head_sha v) (mv_base_sha v) sha)
| evidence_squash sha digest :
    observe_merge (mv_probes v) n (mv_repo v) (mv_pr_number v) = Ok (mkMergeObservation true Squash sha) ->
    is_ancestor (mv_probes v) n (mv_base_sha v) sha = Ok tt ->
    compute_tree_content_digest (mv_probes v) n (mv_head_sha v) = Ok digest ->
    compute_tree_content_digest (mv_probes v) n sha = Ok digest ->
    evidence n v (SquashProof (mv_base_sha v) sha digest digest)
| evidence_rebase sha patch :
    observe_merge (mv_probes v) n (mv_repo v) (mv_pr_number v) = Ok (mkMergeObservation true Rebase sha) ->
    is_ancestor (mv_probes v) n (mv_base_sha v) sha = Ok tt ->
    compute_patch_id (mv_probes v) n (mv_base_sha v) (mv_head_sha v) = Ok patch ->
    compute_patch_id (mv_probes v) n (mv_base_sha v) sha = Ok patch ->
    evidence n v (RebaseProof (mv_base_sha v) sha patch patch).

Lemma build_proof_evidence n v p : build_reachability_proof n v = Ok p <-> evidence n v p.
Proof.
  unfold build_reachability_proof, compute_pr_diff_content_digest. split.
  - destruct (observe_merge _ _ _ _) as [[merged strategy sha]|e] eqn:Ho; cbn; [|done].
    destruct merged; cbn; [|done]. destruct strategy.
    + destruct (is_ancestor _ _ (mv_head_sha v) _) as [[]|] eqn:Ha; cbn; [|done].
      destruct (is_ancestor _ _ (mv_base_sha v) _) as [[]|] eqn:Hb; cbn; [|done].
      intros [= <-]. by constructor.
    + destruct (is_ancestor _ _ _ _) as [[]|] eqn:Hb; cbn; [|done].
      destruct (compute_tree_content_digest _ _ (mv_head_sha v)) as [x|] eqn:Hx; cbn; [|done].
      destruct (compute_tree_content_digest _ _ sha) as [y|] eqn:Hy; cbn; [|done].
      case_bool_decide; cbn; [|done]. subst y. intros [= <-]. by constructor.
    + destruct (is_ancestor _ _ _ _) as [[]|] eqn:Hb; cbn; [|done].
      destruct (compute_patch_id _ _ _ (mv_head_sha v)) as [x|] eqn:Hx; cbn; [|done].
      destruct (compute_patch_id _ _ _ sha) as [y|] eqn:Hy; cbn; [|done].
      case_bool_decide; cbn; [|done]. subst y. intros [= <-]. by constructor.
  - intros [sha Ho Ha Hb|sha x Ho Hb Hx Hy|sha x Ho Hb Hx Hy]; rewrite Ho; cbn.
    + by rewrite Ha, Hb.
    + rewrite Hb. cbn. rewrite Hx. cbn. rewrite Hy. cbn. by rewrite bool_decide_eq_true_2.
    + rewrite Hb. cbn. rewrite Hx. cbn. rewrite Hy. cbn. by rewrite bool_decide_eq_true_2.
Qed.

(** ** The transaction *)

Lemma artifact_of_key run r : artifact_of run r = true <-> mr_run_id r = run.
Proof. apply bool_decide_eq_true. Qed.
Lemma run_named_key run r : run_named run r = true <-> run_id r = run.
Proof. apply bool_decide_eq_true. Qed.

Lemma artifact_exact_equal_refl a t :
  artifact_exact_equal (mkTypedMergeArtifact (ta_run_id a) (ta_pr_number a) (ta_result_sha a)
    (ta_repo a) (ta_head_sha a) (ta_base_sha a) (ta_capsule_envelope_digest a)
    (ta_reachability_proof a) t) a = true.
Proof. unfold artifact_exact_equal. cbn. by rewrite !bool_decide_eq_true_2, Z.eqb_refl by done. Qed.

Section Merge.
Context `{Env} `{Sha256} `{CapsuleCodec} `{ProofCodec}.

(** The artifact of a run, as a reader sees it, up to when it was recorded. *)
Definition has_artifact (a : TypedMergeArtifact) (d : Db) : Prop :=
  exists row stored, select_first (artifact_of (ta_run_id a)) (merge_artifacts d) = Some row /\
    map_merge_artifact_row row (ta_run_id a) = Ok stored /\ artifact_exact_equal stored a = true.

(** What a committed merge did: the artifact is there, and its run went from
    [review_ready] at the artifact's head to [merged], or was [merged] by an
    earlier attempt with the same artifact.  Nothing else changed. *)
Definition merge_committed (a : TypedMergeArtifact) (d d' : Db) : Prop :=
  has_artifact a d' /\
  d' = d <| runs := runs d' |> <| merge_artifacts := merge_artifacts d' |> /\
  (merge_artifacts d' = merge_artifacts d \/
   (exists_where (artifact_of (ta_run_id a)) (merge_artifacts d) = false /\
    exists row, merge_artifacts d' = merge_artifacts d ++ [row])) /\
  exists old, select_first (run_named (ta_run_id a)) (runs d) = Some old /\
    ((status old = RunStatus.to_string RunStatus.ReviewReady /\ head_sha old = Some (ta_head_sha a) /\
      exists t, runs d' = update_where (mergeable (ta_run_id a) (ta_head_sha a)) (merged_row t) (runs d) /\
        select_first (run_named (ta_run_id a)) (runs d') = Some (merged_row t old)) \/
     (status old = RunStatus.to_string RunStatus.Merged /\ has_artifact a d /\ d' = d)).

Lemma insert_merge_artifact_wp `{!ProofCodecLaws _} a w :
  wp (insert_merge_artifact a (ta_reachability_proof a)) (fun r w' =>
    match r with
    | Ok n =>
        has_artifact a (w_db w') /\
        w_db w' = (w_db w) <| merge_artifacts := merge_artifacts (w_db w') |> /\
        ((n = 0 /\ w_db w' = w_db w) \/
         (n = 1 /\ exists_where (artifact_of (ta_run_id a)) (merge_artifacts (w_db w)) = false /\
          exists row, merge_artifacts (w_db w') = merge_artifacts (w_db w) ++ [row]))
    | Err _ => True
    end) w.
Proof.
  unfold insert_merge_artifact. wp_steps.
  destruct (proof_to_string _) as [json|] eqn:Hj; cbn; [|done]. wp_steps.
  apply wp_execute; [done|done|]. intros n d w1 Hd Hw1. unfold insert_artifact in Hd. cbn in Hd |- *.
  destruct (exists_where _ _) eqn:Ex; injection Hd as <- <-; cbn.
  - rewrite decide_True by done. wp_steps. unfold load_merge_artifact_conn. apply wp_query; intros w2 Hw2; cbn; [done|].
    rewrite Hw1 in *. destruct (select_first _ _) as [row|] eqn:Es; cbn; [|done].
    destruct (map_merge_artifact_row row _) as [stored|] eqn:Em; cbn; [|done]. wp_steps.
    destruct (artifact_exact_equal stored a) eqn:Eq; cbn; [|done]. wp_steps.
    rewrite Hw2. split_and!; [by exists row, stored|by destruct (w_db w)|by left].
  - rewrite decide_False by done. wp_steps. rewrite Hw1. split_and!; [|done|right; split_and!; eauto].
    exists (artifact_row a (ta_reachability_proof a) json). eexists. split_and!.
    + cbn. rewrite select_first_app, (proj2 (select_first_None _ _)) by (by apply exists_where_false).
      unfold select_first, artifact_of. cbn. by rewrite bool_decide_eq_true_2.
    + unfold map_merge_artifact_row. cbn. by rewrite (proof_roundtrips _ _ Hj).
    + apply artifact_exact_equal_refl.
Qed.

Lemma mergeable_key run head r : mergeable run head r = true ->
  run_id r = run /\ status r = RunStatus.to_string RunStatus.ReviewReady /\ head_sha r = Some head.
Proof.
  unfold mergeable. rewrite !andb_true_iff, run_named_key, !bool_decide_eq_true. tauto.
Qed.

Lemma transition_to_merged_wp a k w :
  unique run_id (runs (w_db w)) ->
  wp (transition_to_merged a k) (fun r w' =>
    match r with
    | Ok _ =>
        exists old, select_first (run_named (ta_run_id a)) (runs (w_db w)) = Some old /\
        ((status old = RunStatus.to_string RunStatus.ReviewReady /\ head_sha old = Some (ta_head_sha a) /\
          exists t,
            w_db w' = (w_db w) <| runs := update_where (mergeable (ta_run_id a) (ta_head_sha a))
                                   (merged_row t) (runs (w_db w)) |> /\
            select_first (run_named (ta_run_id a)) (runs (w_db w')) = Some (merged_row t old)) \/
         (status old = RunStatus.to_string RunStatus.Merged /\ k = 0 /\ w_db w' = w_db w))
    | Err _ => True
    end) w.
Proof.
  intros Hu. unfold transition_to_merged. wp_steps. set (guard := mergeable _ _).
  apply wp_execute; [done|done|]. intros n d w2 Hd Hw2. cbn. unfold update_runs in Hd.
  injection Hd as <- <-. rewrite H3 in Hw2 |- *.
  pose proof (guarded_update (R := RunRow) run_id (run_named (ta_run_id a)) guard (merged_row (env_clock (w_clock w)))
    (runs (w_db w)) Hu
    ltac:(intros ?? ?%run_named_key ?%run_named_key; congruence)
    ltac:(intros r (Hr & _)%mergeable_key; split; by apply run_named_key)) as Hg.
  destruct (decide (count_where guard (runs (w_db w)) = 1)) as [Hn|Hn].
  - rewrite (bool_decide_eq_true_2 (0 < _)) in Hg by lia. destruct Hg as (old & Ho & (_ & Hs & Hh)%mergeable_key & Hnew).
    wp_steps. exists old. split; [done|]. left. split_and!; [done|done|].
    eexists. rewrite Hw2. split; [done|]. exact Hnew.
  - assert (Hz : count_where guard (runs (w_db w)) <= 1).
    { apply (count_where_unique (R := RunRow) run_id); [done|]. intros r r' (Hr & _)%mergeable_key (Hr' & _)%mergeable_key. congruence. }
    rewrite (bool_decide_eq_false_2 (0 < _)) in Hg by lia. destruct Hg as [Hsame _].
    assert (Hdb : w_db w2 = w_db w) by (rewrite Hw2, Hsame; by destruct (w_db w)).
    wp_steps. unfold get_run_with_conn. apply wp_query; intros w3 Hw3; cbn; [done|]. rewrite Hdb in *.
    destruct (select_first (run_named (ta_run_id a)) (runs (w_db w))) as [old|] eqn:Es; cbn; [|done].
    destruct (map_run_row old) as [md|] eqn:Em; cbn; [|done].
    destruct (bool_decide (status md = _) && bool_decide (k = 0)) eqn:Eb; [|done].
    apply andb_true_iff in Eb as [Hm%bool_decide_eq_true Hk%bool_decide_eq_true]. wp_steps.
    exists old. split; [done|]. right. by rewrite <- (map_run_row_status _ _ Em), Hm.
Qed.

Lemma read_only_load_capsule run : read_only (load_capsule_v1 run).
Proof. apply read_only_query. Qed.

Lemma read_only_revalidate a : read_only (revalidate_merge_bindings a).
Proof.
  intros w. change (wp (revalidate_merge_bindings a) (fun _ w' => w_db w' = w_db w) w).
  unfold revalidate_merge_bindings, read_run_metadata. wp_steps.
  eapply wp_consequence; [apply wp_read_only, read_only_query|]. intros [md|e] w1 Hw1; cbn; [|done].
  wp_steps. destruct (ok_or md _); cbn; [|done]. wp_steps.
  repeat (destruct (require_identity _ _ _); cbn; [|done]; wp_steps).
  eapply wp_consequence; [apply wp_read_only, read_only_load_capsule|]. intros [c|e] w2 Hw2; cbn; [|congruence].
  destruct (negb _); wp_steps; congruence.
Qed.

Lemma commit_typed_merge_wp `{!ProofCodecLaws _} a w :
  unique run_id (runs (w_db w)) ->
  wp (commit_typed_merge a (ta_reachability_proof a)) (fun r w' =>
    match r with
    | Ok _ => merge_committed a (w_db w) (w_db w')
    | Err _ => w_db w' = w_db w
    end) w.
Proof.
  intros Hu. unfold commit_typed_merge. apply wp_transaction; [done|]. intros w1 Hw1. wp_steps.
  eapply wp_consequence; [apply wp_read_only, read_only_revalidate|]. intros [u|e] w2 Hw2; cbn; [|done].
  wp_steps. eapply wp_consequence; [by apply insert_merge_artifact_wp|].
  rewrite Hw2, Hw1. intros [k|e] w3; cbn; [|done]. intros (Hart & Hfr & Hk).
  assert (Hruns : runs (w_db w3) = runs (w_db w)) by (rewrite Hfr; done).
  eapply wp_consequence; [apply transition_to_merged_wp; by rewrite Hruns|]. rewrite Hruns.
  intros [u'|e] w4; cbn; [|done]. intros (old & Ho & Hcase) w5 Hw5.
  rewrite Hw5. destruct Hcase as [(Hs & Hh & t & Hw4 & Hnew)|(Hs & -> & Hw4)].
  - split_and!.
    + rewrite Hw4. exact Hart.
    + rewrite Hw4, Hfr. by destruct (w_db w).
    + rewrite Hw4. cbn. destruct Hk as [[_ ->]|(_ & Hx & row & Hrow)]; [by left|right; eauto].
    + exists old. split; [done|]. left. split_and!; [done|done|]. exists t.
      split; [by rewrite Hw4|done].
  - destruct Hk as [[_ Hw3]|[Hk _]]; [|done]. rewrite Hw4, Hw3 in *. split_and!; [done|by destruct (w_db w)|by left|].
    exists old. split; [done|]. right. split_and!; done.
Qed.

(** The capsule a run has, readable and verified. *)
Definition stored_capsule (run : string) (d : Db) (c : ExecutionCapsuleV1) : Prop :=
  exists row, select_first (capsule_of run) (execution_capsules d) = Some row /\
    load_capsule_row run row = Ok c.

Lemma load_capsule_wp run w :
  wp (load_capsule_v1 run) (fun r w' =>
    w_db w' = w_db w /\ match r with Ok c => stored_capsule run (w_db w) c | Err _ => True end) w.
Proof.
  unfold load_capsule_v1. apply wp_query; [done|]. intros w' Hw. split; [done|].
  destruct (select_first _ _) as [row|] eqn:Es; [|done].
  destruct (load_capsule_row run row) as [c|] eqn:El; [|done]. by exists row.
Qed.

Lemma complete_typed_merge_wp `{!ProofCodecLaws _} n a v w :
  unique run_id (runs (w_db w)) ->
  wp (complete_typed_merge n a v) (fun r w' =>
    match r with
    | Ok _ =>
        evidence n v (ta_reachability_proof a) /\
        proof_result_sha (ta_reachability_proof a) = ta_result_sha a /\
        (mv_repo v, mv_pr_number v, mv_base_sha v, mv_head_sha v) =
          (ta_repo a, ta_pr_number a, ta_base_sha a, ta_head_sha a) /\
        (exists c, stored_capsule (ta_run_id a) (w_db w) c /\
           ec_envelope_digest c = ta_capsule_envelope_digest a) /\
        merge_committed a (w_db w) (w_db w')
    | Err _ => w_db w' = w_db w
    end) w.
Proof.
  intros Hu. unfold complete_typed_merge. wp_steps.
  destruct (build_reachability_proof n v) as [p|] eqn:Hp; [|done].
  apply build_proof_evidence in Hp. destruct (_ || _) eqn:Eb; [done|].
  rewrite !orb_false_iff, !negb_false_iff, !bool_decide_eq_true, Z.eqb_eq in Eb.
  destruct Eb as (((((Hr & ->) & Hrepo) & Hpr) & Hhead) & Hbase).
  wp_steps. unfold verify_capsule_binding. wp_steps.
  eapply wp_consequence; [apply load_capsule_wp|]. intros [c|e] w1 [Hw1 Hc]; cbn; [|done].
  case_bool_decide as Hd; cbn; [|done]. wp_steps.
  eapply wp_consequence; [apply commit_typed_merge_wp; by rewrite Hw1|]. rewrite Hw1.
  intros [u|e] w2; [|done]. intros Hm. split_and!; try done; [congruence|by exists c].
Qed.

(** A verifier bound to an artifact. *)
Definition verifier_for (probes : MergeProbes) (a : TypedMergeArtifact) : MergeVerifier :=
  mkMergeVerifier probes (ta_repo a) (ta_pr_number a) (ta_base_sha a) (ta_head_sha a).

(** Everything a merge that the probes confirmed rests on. *)
Definition merge_verified (probes : MergeProbes) (run : string) (c : ExecutionCapsuleV1)
    (a : TypedMergeArtifact) : Prop :=
  ta_run_id a = run /\ ta_capsule_envelope_digest a = ec_envelope_digest c /\
  ta_result_sha a = proof_result_sha (ta_reachability_proof a) /\
  (0 < ta_pr_number a)%Z /\ ta_repo a <> "" /\ ta_head_sha a <> "" /\
  resolve_base_commit probes (ec_base_ref c) = Ok (ta_base_sha a) /\
  evidence 0 (verifier_for probes a) (ta_reachability_proof a) /\
  evidence 1 (verifier_for probes a) (ta_reachability_proof a).

Lemma stored_capsule_fun run d c c' : stored_capsule run d c -> stored_capsule run d c' -> c = c'.
Proof. intros (r & Hr & Hc) (r' & Hr' & Hc'). congruence. Qed.

Lemma complete_merge_from_observation_wp `{!ProofCodecLaws _} run probes w :
  unique run_id (runs (w_db w)) ->
  wp (complete_merge_from_observation run probes) (fun r w' =>
    match r with
    | Ok _ => exists c a, stored_capsule run (w_db w) c /\ merge_verified probes run c a /\
                merge_committed a (w_db w) (w_db w')
    | Err _ => w_db w' = w_db w
    end) w.
Proof.
  intros Hu. unfold complete_merge_from_observation, read_run_metadata. wp_steps.
  eapply wp_consequence; [apply wp_read_only, read_only_query|]. intros [found|e] w1 Hw1; cbn; [|done].
  wp_steps. destruct found as [md|]; cbn; [|done].
  unfold str_is_empty. case_bool_decide as Hrepo; [done|]. destruct (Z.leb_spec (default 0%Z (pr_number md)) 0); [done|].
  case_bool_decide as Hhead; [done|]. wp_steps.
  eapply wp_consequence; [apply load_capsule_wp|]. intros [c|e] w2 [Hw2 Hc]; cbn; [|congruence].
  case_bool_decide; [wp_steps; congruence|]. wp_steps.
  destruct (resolve_base_commit _ _) as [base|] eqn:Hb; cbn; [|congruence].
  case_bool_decide; [wp_steps; congruence|]. wp_steps.
  destruct (build_reachability_proof 0 _) as [p|] eqn:Hp; cbn; [|congruence].
  apply build_proof_evidence in Hp. wp_steps. rewrite Hw1 in *.
  eapply wp_consequence; [apply complete_typed_merge_wp; congruence|].
  intros [u|e] w4; [|congruence]. cbn. intros (He & _ & _ & _ & Hm).
  exists c. eexists. split; [done|]. split; [|by replace (w_db w) with (w_db w') by congruence].
  split_and!; try done.
Qed.

(** C5: a merge-required run is marked merged only on evidence, and then with
    its artifact.  The completion answers [MergeMerged] exactly when the run
    was [review_ready], its stored capsule verifies and declares a strategy,
    and the probes of that strategy confirmed, twice and for the same commits,
    that the pull request is merged and reachable from the base the capsule
    names; then the run is [merged] and the artifact with that evidence is
    stored, both or neither.  With every other answer, a database error
    included, nothing changed, so a run is never marked merged on a status
    alone. *)
Theorem merge_required_verified `{ConfigDecoder} `{!ProofCodecLaws _} run factory w :
  unique run_id (runs (w_db w)) ->
  wp (complete_merge_required_run (E := Empty_set) run factory) (fun r w' =>
    match r with
    | Ok MergeMerged =>
        exists c config strategy a old t,
          stored_capsule run (w_db w) c /\ verify_envelope_digest c = Ok tt /\
          config_from_slice (ec_resolved_config_bytes c) = Ok config /\
          wc_merge_strategy config = Some strategy /\
          merge_verified (factory (to_merge_strategy strategy)) run c a /\
          select_first (run_named run) (runs (w_db w)) = Some old /\
          status old = RunStatus.to_string RunStatus.ReviewReady /\
          head_sha old = Some (ta_head_sha a) /\
          select_first (run_named run) (runs (w_db w')) = Some (merged_row t old) /\
          has_artifact a (w_db w') /\
          w_db w' = (w_db w) <| runs := runs (w_db w') |> <| merge_artifacts := merge_artifacts (w_db w') |>
    | Ok _ => w_db w' = w_db w
    | Err _ => False
    end) w.
Proof.
  intros Hu. unfold complete_merge_required_run. wp_steps. unfold get_run_with_conn.
  apply wp_query; intros w1 Hw1; [by wp_steps|].
  destruct (select_first (run_named run) (runs (w_db w))) as [old|] eqn:Es; cbn; [|by wp_steps].
  destruct (map_run_row old) as [md|] eqn:Em; cbn; [|by wp_steps].
  case_bool_decide; [by wp_steps|]. case_bool_decide as Hs; cbn; [|by wp_steps]. wp_steps.
  eapply wp_consequence; [apply load_capsule_wp|]. intros [c|e] w2 [Hw2 Hc]; [|wp_steps; congruence].
  unfold resolve_declared_strategy.
  destruct (config_from_slice _) as [config|] eqn:Hcfg; cbn; [|wp_steps; congruence].
  destruct (wc_merge_strategy config) as [strategy|] eqn:Hstr; [|wp_steps; congruence]. wp_steps.
  eapply wp_consequence; [apply complete_merge_from_observation_wp; congruence|].
  intros [u|e] w3; [|intros Hw3; wp_steps; destruct e; congruence].
  intros (c' & a & Hc' & Hv & Hm). wp_steps. rewrite Hw2, Hw1 in *.
  pose proof (stored_capsule_fun _ _ _ _ Hc Hc') as <-.
  destruct Hm as (Hart & Hfr & _ & old' & Ho & Hcase). pose proof Hv as (Hrun & _). rewrite Hrun in *.
  assert (old' = old) as -> by congruence.
  pose proof (map_run_row_status _ _ Em) as Hst. rewrite Hs in Hst.
  destruct Hcase as [(_ & Hh & t & _ & Hnew)|(Hbad & _)]; [|rewrite <- Hst in Hbad; discriminate].
  exists c, config, strategy, a, old, t. destruct Hc as (row & Hrow & Hl).
  split_and!; first [done|by exists row|by eapply load_capsule_row_Ok].
Qed.
End Merge.

(** ** Samples *)

Section Samples.
#[local] Existing Instance calm.
#[local] Existing Instance identity_digest.
#[local] Existing Instance sample_capsule_codec.

Definition sample_proof : MergeReachabilityProof := SquashProof "b0" "s1" "tree" "tree".

#[local] Instance sample_proof_codec : ProofCodec := {|
  proof_to_string p := if decide (p = sample_proof) then Ok "proof" else Err "no text";
  proof_from_str s := if s =?s "proof" then Ok sample_proof else Err "no proof"
|}.
#[local] Instance sample_proof_laws : ProofCodecLaws sample_proof_codec.
Proof. intros p s. cbn. case_decide; [|done]. by intros [= <-]; subst. Qed.

#[local] Instance sample_config_decoder : ConfigDecoder := fun s =>
  if s =?s "config" then
    Ok (mkWorkflowConfig "cfg" "wf" (mkRuntimeConfig 60 1) None ∅
          (mkParentOrchestrationConfig false true 60 None "child" "child-cfg") true (Some McSquash) None)
  else Err "no config".

(** A pull request squashed into [s1], whose tree is the head's. *)
Definition squashed (strategy : MergeStrategy) : MergeProbes := {|
  is_ancestor _ _ _ := Ok tt;
  compute_tree_content_digest _ _ := Ok "tree";
  compute_patch_id _ _ _ := Err PatchMismatch;
  resolve_base_commit _ := Ok "b0";
  observe_merge _ _ _ := Ok (mkMergeObservation true Squash "s1")
|}.

Definition review_ready_run : RunMetadata :=
  (RunMeta.new "run-1" "wf" "cfg" 0) <| status := RunStatus.ReviewReady |>
    <| repository := Some "acme/app" |> <| pr_number := Some 7%Z |> <| head_sha := Some "h1" |>.

Definition merge_world : World Db :=
  start (empty_db <| runs := [bind_run_metadata_params review_ready_run] |>
                  <| execution_capsules := [capsule_row sample_capsule "capsule"] |>).

Example merge_required_verified_witness :
  fst (complete_merge_required_run (E := Empty_set) "run-1" squashed merge_world) = Ok MergeMerged /\
  exists a, has_artifact a (w_db (snd (complete_merge_required_run (E := Empty_set) "run-1" squashed merge_world))) /\
    evidence 1 (verifier_for (squashed Squash) a) (ta_reachability_proof a).
Proof.
  assert (Hr : fst (complete_merge_required_run (E := Empty_set) "run-1" squashed merge_world) = Ok MergeMerged)
    by (vm_compute; reflexivity).
  split; [exact Hr|].
  pose proof (merge_required_verified "run-1" squashed merge_world ltac:(by_computation)) as Hp.
  unfold wp in Hp. rewrite Hr in Hp.
  destruct Hp as (c & config & strategy & a & old & t & Hc & _ & Hcfg & Hs & Hv & _ & _ & _ & _ & Ha & _).
  exists a. split; [exact Ha|].
  assert (Hsq : strategy = McSquash).
  { destruct Hc as (row & Hrow & Hl). vm_compute in Hrow. injection Hrow as <-. vm_compute in Hl.
    injection Hl as <-. vm_compute in Hcfg. injection Hcfg as <-. vm_compute in Hs. injection Hs as <-.
    reflexivity. }
  subst strategy. apply Hv.
Defined.
End Samples.
