(* ===== verification/EffectIntents.v ===== *)
(** Durable effect intents ([persistence/effect_intents.rs]): before the engine
    issues a commit, a push, a pull request or a merge it prepares an intent;
    after a crash the intent is reconciled with what the outside world shows.

    An intent is [prepared], then [completed] or [conflict].  The statements
    keep [RecoveryStores.ledger_wf] and [RecoveryStores.ledger_le], so an
    intent's bindings never change and a terminal one is final. *)
From S2P Require Import Prelude Effects Digest Sql Status Schema Checkpoints RecoveryStores Capsules TypedMerge.

Definition PAYLOAD_VERSION : Z := 1.

Module EffectKind.
Inductive t := Commit | Push | OpenPr | Merge.

Global Instance eq_dec : EqDecision t.
Proof. solve_decision. Defined.

Definition as_str (k : t) : string :=
  match k with
  | Commit => "commit"
  | Push => "push"
  | OpenPr => "open_pr"
  | Merge => "merge"
  end.

Definition parse_str (s : string) : option t :=
  if s =?s "commit" then Some Commit
  else if s =?s "push" then Some Push
  else if s =?s "open_pr" then Some OpenPr
  else if s =?s "merge" then Some Merge
  else None.

Global Program Instance text : TextEnum unit t := {|
  to_text := as_str; from_text s := ok_or (parse_str s) tt
|}.
Next Obligation. parse_print. Qed.
Next Obligation.
  intros s a. unfold ok_or, parse_str.
  repeat (case_bool_decide; [intros [= <-]; subst; reflexivity|]). intros [=].
Qed.
End EffectKind.

Definition EffectIntent := EffectOf EffectKind.t.

Record ObservedState := mkObservedState {
  ob_head_sha : option string;
  ob_remote_ref_sha : option string;
  ob_matching_pr_number : option Z
}.

Inductive ReconcileVerdict :=
| VCompleted (result : option string)
| VNeedsReissue
| VConflict (detail : string).

Record EffectPreparation := mkEffectPreparation {
  ep_operation_id : string;
  ep_attempt_id : Z;
  ep_sequence : Z;
  ep_kind : EffectKind.t;
  ep_payload : Bytes;
  ep_expected_target : option string;
  ep_expected_predecessor : option string
}.

(** ** Keys and rows *)

Definition effect_frame (operation_id : string) (attempt_id sequence : Z) (kind : string) : Bytes :=
  let buf := EmptyString in
  let buf := push_len_prefixed buf operation_id in
  let buf := push_len_prefixed buf (i64_to_be_bytes attempt_id) in
  let buf := push_len_prefixed buf (i64_to_be_bytes sequence) in
  push_len_prefixed buf kind.

Definition compute_effect_key `{Sha256} (operation_id : string) (attempt_id sequence : Z)
    (kind : string) : string :=
  sha256_hex (effect_frame operation_id attempt_id sequence kind).

Definition canonicalize_payload (kind : EffectKind.t) (payload : Bytes) : Bytes := payload.

Definition with_kind {A B} (k : B) (e : EffectOf A) : EffectOf B :=
  mkEffect (ef_effect_key e) (ef_operation_id e) (ef_attempt_id e) (ef_sequence e) k
    (ef_canonical_payload e) (ef_payload_digest e) (ef_payload_version e) (ef_expected_target e)
    (ef_expected_predecessor e) (ef_observed_result e) (ef_status e).

Definition map_effect_row (r : EffectRow) : Res SqlError EffectIntent :=
  let e := er_effect r in
  kind ← ok_or (EffectKind.parse_str (ef_effect_kind e)) (FromSqlConversionFailure 4);
  let i : EffectIntent := with_kind kind e in
  mret (i <| ef_payload_version := u32_or_zero (ef_payload_version e) |>).

Definition has_effect_key (key : string) (r : EffectRow) : bool := row_effect_key r =?s key.

Definition prepared (key : string) (r : EffectRow) : bool :=
  has_effect_key key r && (ef_status (er_effect r) =?s "prepared").

Definition prepared_row (key : string) (p : EffectPreparation) (canonical : Bytes) (digest : string)
    (now : Z) : EffectRow :=
  mkEffectRow
    (mkEffect key (ep_operation_id p) (ep_attempt_id p) (ep_sequence p)
       (EffectKind.as_str (ep_kind p)) canonical digest PAYLOAD_VERSION (ep_expected_target p)
       (ep_expected_predecessor p) None "prepared")
    now None.

Definition finalized_effect (status : string) (observed : option string) (now : Z) (r : EffectRow)
    : EffectRow :=
  r <| er_effect := (er_effect r) <| ef_status := status |> <| ef_observed_result := observed |> |>
    <| er_finalized_at := Some now |>.

Definition insert_effect (row : EffectRow) (d : Db) : Res SqlError (unit * Db) :=
  if exists_where (has_effect_key (row_effect_key row)) (effect_intents d) then Err ConstraintViolation
  else Ok (tt, d <| effect_intents := effect_intents d ++ [row] |>).

(** ** Operations *)

Section Operations.
Context `{Env} `{Sha256} `{ProofCodec}.

Definition insert_prepared_intent (key : string) (p : EffectPreparation) (canonical : Bytes)
    (digest : string) : M Db SqlError unit :=
  t ← now;
  execute (insert_effect (prepared_row key p canonical digest t)).

Definition load_effect (key : string) : M Db SqlError EffectIntent :=
  query (fun d =>
    match select_first (has_effect_key key) (effect_intents d) with
    | Some r => map_effect_row r
    | None => Err QueryReturnedNoRows
    end).

Definition load_effect_optional (key : string) : M Db SqlError (option EffectIntent) :=
  query (fun d =>
    match select_first (has_effect_key key) (effect_intents d) with
    | Some r => Some <$> map_effect_row r
    | None => Ok None
    end).

Definition finalize_effect (key status : string) (observed_result : option string)
    : M Db SqlError unit :=
  t ← now;
  affected ← execute (fun d =>
    Ok (count_where (prepared key) (effect_intents d),
        d <| effect_intents :=
          update_where (prepared key) (finalized_effect status observed_result t) (effect_intents d) |>));
  if decide (affected = 1) then mret tt else throw ConstraintViolation.

Definition key_of (p : EffectPreparation) : string :=
  compute_effect_key (ep_operation_id p) (ep_attempt_id p) (ep_sequence p)
    (EffectKind.as_str (ep_kind p)).

(** The exact binding an existing intent must have. *)
Definition binding_matches (existing : EffectIntent) (p : EffectPreparation) (digest : string) : bool :=
  (ef_payload_digest existing =?s digest)
  && bool_decide (ef_expected_target existing = ep_expected_target p)
  && bool_decide (ef_expected_predecessor existing = ep_expected_predecessor p).

Definition prepare_effect (p : EffectPreparation) : M Db SqlError EffectIntent :=
  let canonical := canonicalize_payload (ep_kind p) (ep_payload p) in
  let digest := sha256_hex canonical in
  let key := key_of p in
  found ← load_effect_optional key;
  match found with
  | None =>
      insert_prepared_intent key p canonical digest;;
      loaded ← load_effect_optional key;
      lift_res (ok_or loaded ConstraintViolation)
  | Some existing =>
      if negb (binding_matches existing p digest) then
        finalize_effect key "conflict" None;;
        throw ConstraintViolation
      else mret existing
  end.

(** [reconcile_commit] and [reconcile_push] differ in what they look at and in
    the detail of a conflict. *)
Definition reconcile_sha (detail : string) (intent : EffectIntent) (sha : option string)
    : M Db SqlError ReconcileVerdict :=
  if bool_decide (sha = ef_expected_target intent) then
    finalize_effect (ef_effect_key intent) "completed" sha;;
    mret (VCompleted sha)
  else if bool_decide (sha = ef_expected_predecessor intent) then mret VNeedsReissue
  else
    finalize_effect (ef_effect_key intent) "conflict" None;;
    mret (VConflict detail).

Definition reconcile_commit (intent : EffectIntent) (observed : ObservedState)
    : M Db SqlError ReconcileVerdict :=
  reconcile_sha "unexpected HEAD" intent (ob_head_sha observed).

Definition reconcile_push (intent : EffectIntent) (observed : ObservedState)
    : M Db SqlError ReconcileVerdict :=
  reconcile_sha "remote ref diverged" intent (ob_remote_ref_sha observed).

Definition reconcile_open_pr (intent : EffectIntent) (observed : ObservedState)
    : M Db SqlError ReconcileVerdict :=
  match ob_matching_pr_number observed with
  | Some pr_number =>
      let result := pretty pr_number in
      finalize_effect (ef_effect_key intent) "completed" (Some result);;
      mret (VCompleted (Some result))
  | None => mret VNeedsReissue
  end.

Definition reconcile_merge (intent : EffectIntent) : M Db SqlError ReconcileVerdict :=
  run ← query (fun d =>
    Ok ((fun r => op_run_id (or_operation r)) <$>
        select_first (Operations.has_id (ef_operation_id intent)) (recovery_operations d)));
  match run with
  | None => mret VNeedsReissue
  | Some run_id =>
      artifact ← load_merge_artifact_conn run_id;
      match artifact with
      | Some artifact =>
          finalize_effect (ef_effect_key intent) "completed" (Some (ta_result_sha artifact));;
          mret (VCompleted (Some (ta_result_sha artifact)))
      | None => mret VNeedsReissue
      end
  end.

Definition reconcile_effect (key : string) (observed : ObservedState) : M Db SqlError ReconcileVerdict :=
  intent ← load_effect key;
  if ef_status intent =?s "completed" then mret (VCompleted (ef_observed_result intent))
  else if ef_status intent =?s "conflict" then mret (VConflict "prior conflict")
  else if ef_status intent =?s "prepared" then
    match ef_effect_kind intent with
    | EffectKind.Commit => reconcile_commit intent observed
    | EffectKind.Push => reconcile_push intent observed
    | EffectKind.OpenPr => reconcile_open_pr intent observed
    | EffectKind.Merge => reconcile_merge intent
    end
  else throw (FromSqlConversionFailure 11).

Definition count_effect_intents_for_run (run : string) : M Db SqlError Z :=
  query (fun d =>
    Ok (Z.of_nat (count_where (fun e =>
          exists_where (fun o => (op_run_id (or_operation o) =?s run)
                                 && (row_operation_id o =?s ef_operation_id (er_effect e)))
            (recovery_operations d)) (effect_intents d)))).
End Operations.

(** ** Lemmas *)

Lemma effect_key_key key r : has_effect_key key r = true <-> row_effect_key r = key.
Proof. apply bool_decide_eq_true. Qed.

Lemma prepared_key key r : prepared key r = true ->
  has_effect_key key r = true /\ ef_status (er_effect r) = "prepared".
Proof. unfold prepared. rewrite andb_true_iff, bool_decide_eq_true. done. Qed.

Lemma four_inj (x1 x2 x3 x4 y1 y2 y3 y4 : Bytes) :
  [x1; x2; x3; x4] = [y1; y2; y3; y4] -> x1 = y1 /\ x2 = y2 /\ x3 = y3 /\ x4 = y4.
Proof. by intros [= -> -> -> ->]. Qed.

Lemma effect_frame_inj op a s k op' a' s' k' :
  fits 8 [op; k] -> fits 8 [op'; k'] ->
  (- 2 ^ 63 <= a < 2 ^ 63)%Z -> (- 2 ^ 63 <= a' < 2 ^ 63)%Z ->
  (- 2 ^ 63 <= s < 2 ^ 63)%Z -> (- 2 ^ 63 <= s' < 2 ^ 63)%Z ->
  effect_frame op a s k = effect_frame op' a' s' k' -> (op, a, s, k) = (op', a', s', k').
Proof.
  intros Hf Hf' Ha Ha' Hs Hs' Heq.
  assert (Hall : forall op a s k, fits 8 [op; k] ->
            fits 8 [op; i64_to_be_bytes a; i64_to_be_bytes s; k]).
  { intros ???? [? Hk]%Forall_cons. constructor; [done|]. by do 2 (apply fits_i64; [lia|]). }
  assert (Hframe : forall op a s k,
            effect_frame op a s k = frame 8 [op; i64_to_be_bytes a; i64_to_be_bytes s; k] +:+ "").
  { intros. by rewrite (append_nil_r (frame _ _)). }
  rewrite !Hframe in Heq. apply frame_inj in Heq as [Heq _]; [|by apply Hall..|done].
  apply four_inj in Heq as (-> & Hi & Hj & ->).
  apply i64_to_be_bytes_inj in Hi; [|done..]. apply i64_to_be_bytes_inj in Hj; [|done..]. congruence.
Qed.

Section EffectLemmas.
Context `{Env} `{Sha256} `{ProofCodec}.

Lemma finalize_effect_evolves key s o : evolves (finalize_effect key s o).
Proof.
  intros d0. unfold finalize_effect. apply keeps_bind; [apply keeps_now|intros t].
  apply keeps_bind; [|intros n; case_decide; keeps_auto].
  apply evolves_execute. intros d a d' Hwf [= _ <-]. ledger_tac.
  - by apply unique_update.
  - apply grows_update; [apply _|]. intros r _ [_ Hp]%prepared_key. split_and!; done.
Qed.

Lemma insert_prepared_evolves key p c dg : evolves (insert_prepared_intent key p c dg).
Proof.
  intros d0. unfold insert_prepared_intent. apply keeps_bind; [apply keeps_now|intros t].
  apply evolves_execute. intros d a d' Hwf. unfold insert_effect.
  destruct (exists_where _ _) eqn:Ex; [done|]. intros [= <- <-]. rewrite exists_where_false in Ex.
  ledger_tac.
  - apply unique_snoc; [done|]. intros r Hr Hk. specialize (Ex r Hr).
    unfold has_effect_key in Ex. rewrite bool_decide_eq_false in Ex. by apply Ex.
  - apply grows_append, _.
Qed.

Lemma prepare_effect_evolves p : evolves (prepare_effect p).
Proof.
  intros d0. unfold prepare_effect. apply keeps_bind; [apply keeps_query|intros [i|]].
  - destruct (negb _); keeps_auto. apply finalize_effect_evolves.
  - keeps_auto. apply insert_prepared_evolves.
Qed.

Lemma reconcile_effect_evolves key obs : evolves (reconcile_effect key obs).
Proof.
  intros d0. unfold reconcile_effect, reconcile_commit, reconcile_push, reconcile_sha,
    reconcile_open_pr, reconcile_merge. keeps_auto; apply finalize_effect_evolves.
Qed.

(** Finalizing the prepared row of a key cannot miss. *)
Lemma finalize_effect_wp key s o row w :
  ledger_wf (w_db w) -> select_first (has_effect_key key) (effect_intents (w_db w)) = Some row ->
  ef_status (er_effect row) = "prepared" ->
  wp (finalize_effect key s o) (fun r w' =>
    match r with
    | Ok _ => exists t, select_first (has_effect_key key) (effect_intents (w_db w')) =
                  Some (finalized_effect s o t row) /\
                w_db w' = (w_db w) <| effect_intents := effect_intents (w_db w') |>
    | Err _ => w_db w' = w_db w
    end) w.
Proof.
  intros Hwf Hrow Hst. unfold finalize_effect. wp_steps. apply wp_execute.
  - intros; congruence.
  - intros; congruence.
  - intros n d w2 Hd Hw2. injection Hd as <- <-. rewrite H2 in Hw2 |- *.
    pose proof (guarded_update row_effect_key (has_effect_key key) (prepared key)
      (finalized_effect s o (env_clock (w_clock w))) (effect_intents (w_db w)) (wf_effects _ Hwf)
      ltac:(intros ?? ?%effect_key_key ?%effect_key_key; congruence)
      ltac:(intros r [? _]%prepared_key; done)) as Hg.
    assert (Hle : count_where (prepared key) (effect_intents (w_db w)) <= 1).
    { apply (count_where_unique row_effect_key); [apply Hwf|].
      intros ?? [?%effect_key_key _]%prepared_key [?%effect_key_key _]%prepared_key. congruence. }
    case_bool_decide as Hc.
    + rewrite decide_True by lia. wp_steps. destruct Hg as (old & Ho & _ & Hnew).
      assert (old = row) as -> by congruence. eexists. rewrite Hw2. split; [exact Hnew|done].
    + exfalso. destruct Hg as [_ Hg]. specialize (Hg row Hrow). unfold prepared in Hg.
      apply select_first_Some in Hrow as [_ Hk]. rewrite Hk, Hst in Hg. done.
Qed.
End EffectLemmas.

(** ** Reconciliation *)

Section Reconcile.
Context `{Env} `{Sha256} `{ProofCodec}.

Definition effect_stored (key : string) (d : Db) (row : EffectRow) (i : EffectIntent) : Prop :=
  select_first (has_effect_key key) (effect_intents d) = Some row /\ map_effect_row row = Ok i.

(** The observation that shows an intent's effect happened, and what it shows. *)
Inductive observed_done (d : Db) (i : EffectIntent) (obs : ObservedState) : option string -> Prop :=
| done_commit :
    ef_effect_kind i = EffectKind.Commit -> ob_head_sha obs = ef_expected_target i ->
    observed_done d i obs (ob_head_sha obs)
| done_push :
    ef_effect_kind i = EffectKind.Push -> ob_remote_ref_sha obs = ef_expected_target i ->
    observed_done d i obs (ob_remote_ref_sha obs)
| done_open_pr n :
    ef_effect_kind i = EffectKind.OpenPr -> ob_matching_pr_number obs = Some n ->
    observed_done d i obs (Some (pretty n))
| done_merge op row a :
    ef_effect_kind i = EffectKind.Merge ->
    select_first (Operations.has_id (ef_operation_id i)) (recovery_operations d) = Some op ->
    select_first (artifact_of (op_run_id (or_operation op))) (merge_artifacts d) = Some row ->
    map_merge_artifact_row row (op_run_id (or_operation op)) = Ok a ->
    observed_done d i obs (Some (ta_result_sha a)).

(** The intent of [key] was prepared and is now final. *)
Definition settled (key status : string) (result : option string) (d d' : Db) : Prop :=
  exists row t, select_first (has_effect_key key) (effect_intents d) = Some row /\
    ef_status (er_effect row) = "prepared" /\
    select_first (has_effect_key key) (effect_intents d') = Some (finalized_effect status result t row) /\
    d' = d <| effect_intents := effect_intents d' |>.

(** What a reconciliation may answer, and what it then did. *)
Definition reconciled (key : string) (obs : ObservedState) (v : ReconcileVerdict) (d d' : Db) : Prop :=
  exists row i, effect_stored key d row i /\
  match v with
  | VCompleted r =>
      (ef_status i = "completed" /\ r = ef_observed_result i /\ d' = d) \/
      (ef_status i = "prepared" /\ observed_done d i obs r /\ settled key "completed" r d d')
  | VNeedsReissue => ef_status i = "prepared" /\ d' = d
  | VConflict _ =>
      (ef_status i = "conflict" /\ d' = d) \/
      (ef_status i = "prepared" /\ settled key "conflict" None d d')
  end.

Lemma map_effect_row_key key row i :
  has_effect_key key row = true -> map_effect_row row = Ok i ->
  ef_effect_key i = key /\ ef_status i = ef_status (er_effect row) /\
  ef_observed_result i = ef_observed_result (er_effect row).
Proof.
  unfold map_effect_row. intros Hk%effect_key_key.
  destruct (EffectKind.parse_str _); cbn; [|done]. intros [= <-]. done.
Qed.

Lemma settle_effect_wp key s o row i w (Q : Res SqlError unit -> World Db -> Prop) :
  ledger_wf (w_db w) -> effect_stored key (w_db w) row i -> ef_status i = "prepared" ->
  (forall w', settled key s o (w_db w) (w_db w') -> Q (Ok tt) w') ->
  (forall e w', w_db w' = w_db w -> Q (Err e) w') ->
  wp (finalize_effect (ef_effect_key i) s o) Q w.
Proof.
  intros Hwf [Hrow Hmap] Hs Hok Herr.
  pose proof (proj2 (select_first_Some _ _ _ Hrow)) as Hk.
  destruct (map_effect_row_key _ _ _ Hk Hmap) as (-> & Hst & _).
  eapply wp_consequence; [apply finalize_effect_wp; [done|exact Hrow|congruence]|].
  intros [[]|e] w'; [|by apply Herr]. intros (t & Hnew & Hfr). apply Hok.
  exists row, t. split_and!; try done. congruence.
Qed.

Lemma reconcile_sha_wp key obs detail sha row i w :
  ledger_wf (w_db w) -> effect_stored key (w_db w) row i -> ef_status i = "prepared" ->
  (sha = ef_expected_target i -> observed_done (w_db w) i obs sha) ->
  wp (reconcile_sha detail i sha) (fun r w' =>
    match r with
    | Ok v => reconciled key obs v (w_db w) (w_db w')
    | Err _ => w_db w' = w_db w
    end) w.
Proof.
  intros Hwf Hrow Hs Hobs. unfold reconcile_sha. case_bool_decide as Ht.
  - wp_steps. eapply settle_effect_wp; [done..| |done]. intros w' Hset. wp_steps.
    exists row, i. split; [done|]. right. auto.
  - case_bool_decide; [wp_steps; by exists row, i|]. wp_steps.
    eapply settle_effect_wp; [done..| |done]. intros w' Hset. wp_steps. exists row, i. split; [done|]. by right.
Qed.

Lemma reconcile_effect_wp key obs w :
  ledger_wf (w_db w) ->
  wp (reconcile_effect key obs) (fun r w' =>
    match r with
    | Ok v => reconciled key obs v (w_db w) (w_db w')
    | Err _ => w_db w' = w_db w
    end) w.
Proof.
  intros Hwf. unfold reconcile_effect. wp_steps. unfold load_effect. apply wp_query; intros w1 Hw1; cbn; [done|].
  destruct (select_first _ _) as [row|] eqn:Es; cbn; [|done].
  destruct (map_effect_row row) as [i|] eqn:Em; cbn; [|done]. rewrite <- Hw1 in *.
  assert (Hrow : effect_stored key (w_db w1) row i) by done.
  case_bool_decide as Hc; [wp_steps; exists row, i; split; [done|by left]|].
  case_bool_decide as Hcf; [wp_steps; exists row, i; split; [done|by left]|].
  case_bool_decide as Hp; [|done]. destruct (ef_effect_kind i) eqn:Hk.
  - eapply reconcile_sha_wp; [done..|]. intros ?. by apply done_commit.
  - eapply reconcile_sha_wp; [done..|]. intros ?. by apply done_push.
  - unfold reconcile_open_pr. destruct (ob_matching_pr_number obs) as [n|] eqn:Hn;
      [|wp_steps; by exists row, i]. wp_steps. eapply settle_effect_wp; [done..| |done].
    intros w' Hset. wp_steps. exists row, i. split; [done|]. right. split_and!; try done. by constructor.
  - unfold reconcile_merge. wp_steps. apply wp_query; intros w2 Hw2; cbn; [done|].
    destruct (select_first (Operations.has_id _) _) as [op|] eqn:Hop; cbn;
      [|wp_steps; rewrite Hw2; by exists row, i].
    wp_steps. unfold load_merge_artifact_conn. apply wp_query; intros w3 Hw3; cbn; [congruence|].
    rewrite Hw2 in *. destruct (select_first (artifact_of _) _) as [ar|] eqn:Ha; cbn;
      [|wp_steps; rewrite Hw3; by exists row, i].
    destruct (map_merge_artifact_row ar _) as [a|] eqn:Hma; cbn; [|done]. wp_steps.
    rewrite <- Hw3 in *. eapply settle_effect_wp; [done..| |done].
    intros w' Hset. wp_steps. exists row, i. split; [done|]. right. split_and!; try done.
    by eapply done_merge.
Qed.

(** An intent that is final answers every later reconciliation alike. *)
Lemma reconcile_final key obs row i w :
  effect_stored key (w_db w) row i ->
  wp (reconcile_effect key obs) (fun r w' => w_db w' = w_db w /\
    (r = Err SqliteFailure \/
     (ef_status i = "completed" -> r = Ok (VCompleted (ef_observed_result i))) /\
     (ef_status i = "conflict" -> r = Ok (VConflict "prior conflict")))) w
  \/ ef_status i = "prepared".
Proof.
  intros [Hrow Hmap]. destruct (decide (ef_status i = "prepared")) as [|Hp]; [by right|left].
  unfold reconcile_effect. wp_steps. unfold load_effect. apply wp_query; intros w1 Hw1; cbn; [by split; [|left]|].
  rewrite Hrow, Hmap. cbn. case_bool_decide as Hc.
  { wp_steps. split; [done|]. right. split; [done|]. congruence. }
  case_bool_decide as Hcf; [wp_steps; split; [done|]; right; split; [congruence|done]|].
  rewrite bool_decide_eq_false_2 by done. wp_steps. split; [done|]. right. by split.
Qed.

(** Later, a final intent is still the same row. *)
Lemma final_effect_later key d d' row :
  ledger_wf d' -> ledger_le d d' ->
  select_first (has_effect_key key) (effect_intents d) = Some row ->
  ef_status (er_effect row) <> "prepared" ->
  select_first (has_effect_key key) (effect_intents d') = Some row.
Proof.
  intros Hwf Hle Hrow Hs.
  destruct (grows_select effect_le row_effect_key (has_effect_key key) key _ _ _ (wf_effects _ Hwf)
    (le_effects _ _ Hle)
    ltac:(intros ?? (Hb & _); unfold effect_bindings in Hb; unfold row_effect_key; congruence)
    (effect_key_key key) Hrow) as (row' & Hrow' & (_ & _ & Hf)).
  by rewrite <- (Hf Hs).
Qed.

(** An external effect is settled at most once.  A reconciliation answers
    [Completed] only for an intent that was already completed or whose effect
    the observation shows (the local head or the remote ref is the expected
    one, a matching pull request exists, a typed merge artifact is stored), asks
    for the effect to be issued again only while the intent is still prepared,
    and records the verdict; after a [Completed] or [Conflict] verdict, every
    later reconciliation, in any history and whatever it observes, reports the
    same result and changes nothing. *)
Theorem effect_settled_once key obs w v w1 :
  ledger_wf (w_db w) -> reconcile_effect key obs w = (Ok v, w1) ->
  reconciled key obs v (w_db w) (w_db w1) /\
  (v <> VNeedsReissue -> forall w2 obs',
     ledger_wf (w_db w2) -> ledger_le (w_db w1) (w_db w2) ->
     wp (reconcile_effect key obs') (fun r w3 => w_db w3 = w_db w2 /\
       (r = Err SqliteFailure \/
        match v with
        | VCompleted result => r = Ok (VCompleted result)
        | VConflict _ => r = Ok (VConflict "prior conflict")
        | VNeedsReissue => False
        end)) w2).
Proof.
  intros Hwf Hrun. pose proof (reconcile_effect_wp key obs w Hwf) as Hr.
  unfold wp in Hr. rewrite Hrun in Hr. cbn in Hr. split; [done|]. intros Hv w2 obs' Hwf2 Hle.
  assert (Hfinal : exists row i, effect_stored key (w_db w1) row i /\
            match v with
            | VCompleted r => ef_status i = "completed" /\ ef_observed_result i = r
            | VConflict _ => ef_status i = "conflict"
            | VNeedsReissue => False
            end).
  { destruct Hr as (row & i & [Hrow Hmap] & Hr).
    assert (Hset : forall s o, settled key s o (w_db w) (w_db w1) ->
              exists row', effect_stored key (w_db w1) row'
                (i <| ef_status := s |> <| ef_observed_result := o |>)).
    { intros s o (row0 & t & Hrow0 & _ & Hnew & _). assert (row0 = row) as -> by congruence.
      exists (finalized_effect s o t row). split; [done|]. revert Hmap. unfold map_effect_row. cbn.
      destruct (EffectKind.parse_str _); cbn; [|done]. by intros [= <-]. }
    destruct v as [r| |detail].
    - destruct Hr as [(Hs & -> & Hd)|(_ & _ & Hs)].
      + exists row, i. rewrite Hd. done.
      + destruct (Hset _ _ Hs) as [row' Hrow']. by exists row', (i <| ef_status := "completed" |> <| ef_observed_result := r |>).
    - done.
    - destruct Hr as [(Hs & Hd)|(_ & Hs)].
      + exists row, i. rewrite Hd. done.
      + destruct (Hset _ _ Hs) as [row' Hrow']. by exists row', (i <| ef_status := "conflict" |> <| ef_observed_result := None |>). }
  destruct Hfinal as (row & i & [Hrow Hmap] & Hst).
  pose proof (proj2 (select_first_Some _ _ _ Hrow)) as Hk.
  destruct (map_effect_row_key _ _ _ Hk Hmap) as (_ & Hsi & _).
  assert (Hnp : ef_status i <> "prepared").
  { destruct v; [destruct Hst; congruence|done|congruence]. }
  assert (Hrow2 : effect_stored key (w_db w2) row i).
  { split; [|done]. apply (final_effect_later key (w_db w1)); [done|done|done|congruence]. }
  destruct (reconcile_final key obs' row i w2 Hrow2) as [Hw|]; [|done].
  eapply wp_consequence; [exact Hw|]. intros r w3 [Hd Hor]. split; [done|].
  destruct Hor as [->|[Hc Hcf]]; [by left|right].
  destruct v as [x| |detail]; [|done|by apply Hcf]. destruct Hst as [Hst <-]. by apply Hc.
Qed.

(** Preparing an effect stores the intent, or finds the one with exactly the
    same binding; a different binding is a conflict and an error. *)
Lemma prepare_effect_wp p w :
  ledger_wf (w_db w) ->
  wp (prepare_effect p) (fun r w' =>
    let digest := sha256_hex (canonicalize_payload (ep_kind p) (ep_payload p)) in
    match r with
    | Ok i =>
        (exists row, effect_stored (key_of p) (w_db w') row i) /\ binding_matches i p digest = true /\
        (w_db w' = w_db w \/
         exists t, w_db w' = (w_db w) <| effect_intents := effect_intents (w_db w) ++
           [prepared_row (key_of p) p (canonicalize_payload (ep_kind p) (ep_payload p)) digest t] |>)
    | Err _ => True
    end) w.
Proof.
  intros Hwf. unfold prepare_effect. wp_steps. unfold load_effect_optional.
  apply wp_query; intros w1 Hw1; cbn; [done|].
  destruct (select_first _ _) as [row|] eqn:Es; cbn.
  - destruct (map_effect_row row) as [i|] eqn:Em; cbn; [|done].
    destruct (binding_matches i p _) eqn:Hb; cbn.
    + wp_steps. split_and!; [|done|by left]. exists row. split; [by rewrite Hw1|done].
    + wp_steps. unfold wp. by destruct (fst (finalize_effect _ _ _ _)).
  - wp_steps. unfold insert_prepared_intent. wp_steps. apply wp_execute; [done|done|].
    intros u d w3 Hd Hw3. unfold insert_effect in Hd. destruct (exists_where _ _); [done|].
    injection Hd as <- <-. wp_steps. apply wp_query; intros w4 Hw4; cbn; [done|].
    rewrite Hw3, H2, Hw1. cbn. rewrite select_first_app, Es. unfold select_first, has_effect_key. cbn.
    rewrite bool_decide_eq_true_2 by done.
    destruct (map_effect_row (prepared_row _ _ _ _ _)) as [i|] eqn:Em; cbn; [|done]. wp_steps.
    split_and!.
    + eexists. split; [|exact Em]. rewrite Hw4, Hw3, H2, Hw1. cbn. rewrite select_first_app, Es.
      unfold select_first, has_effect_key. cbn. by rewrite bool_decide_eq_true_2.
    + revert Em. unfold map_effect_row. cbn. destruct (EffectKind.parse_str _); cbn; [|done].
      intros [= <-]. unfold binding_matches. cbn. by rewrite !bool_decide_eq_true_2.
    + right. eexists. rewrite Hw4, Hw3, H2, Hw1. done.
Qed.
End Reconcile.

(** ** Samples *)

Section Samples.
#[local] Existing Instance calm.
#[local] Existing Instance identity_digest.
#[local] Instance no_proofs : ProofCodec :=
  {| proof_to_string _ := Err "no text"; proof_from_str _ := Err "no proof" |}.

Definition commit_preparation : EffectPreparation :=
  mkEffectPreparation "op" 1 0 EffectKind.Commit "payload" (Some "after") (Some "before").

Definition prepared_world : World Db := snd (prepare_effect commit_preparation (start empty_db)).

Definition head_is (sha : string) : ObservedState := mkObservedState (Some sha) None None.

Example effect_settled_once_witness :
  fst (reconcile_effect (key_of commit_preparation) (head_is "before") prepared_world) = Ok VNeedsReissue /\
  reconciled (key_of commit_preparation) (head_is "after") (VCompleted (Some "after")) (w_db prepared_world)
    (w_db (snd (reconcile_effect (key_of commit_preparation) (head_is "after") prepared_world))).
Proof.
  split; [vm_compute; reflexivity|].
  assert (Hr : reconcile_effect (key_of commit_preparation) (head_is "after") prepared_world =
    (Ok (VCompleted (Some "after")),
     snd (reconcile_effect (key_of commit_preparation) (head_is "after") prepared_world)))
    by (vm_compute; reflexivity).
  refine (proj1 (effect_settled_once _ _ _ _ _ _ Hr)).
  constructor; by_computation.
Defined.

(** A commit prepared without an expected commit is settled by an observation
    that shows nothing at all. *)
Example missing_head_completes :
  fst (reconcile_effect (compute_effect_key "op" 1 1 "commit") (mkObservedState None None None)
    (snd (prepare_effect (mkEffectPreparation "op" 1 1 EffectKind.Commit "payload" None (Some "before"))
      (start empty_db)))) = Ok (VCompleted None).
Proof. vm_compute. reflexivity. Qed.
End Samples.
