(* ===== verification/StepContext.v ===== *)
(** The context a run threads through its steps ([engine/executor.rs]): the
    variables steps write, in which namespaces, and which of them may leave
    the process in a checkpoint.

    [serde_json]'s conversion of the namespaced variables and of the step order
    to and from JSON values is a [JsonCodec], with the round-trip law in
    [JsonCodecLaws]. *)
From Stdlib Require Import Ascii.
From S2P Require Import Prelude Status Schema.

(** [serde_json::Error]: what the decoder reports, or a custom message. *)
Inductive SerdeError :=
| SerdeInvalid
| SerdeCustom (message : string).

Abbreviation Vars := (gmap string string).
Abbreviation NamespacedVars := (gmap string Vars).

Class JsonCodec := {
  vars_to_value : NamespacedVars -> Json;
  vars_from_value : Json -> Res SerdeError NamespacedVars;
  order_to_value : list string -> Json;
  order_from_value : Json -> Res SerdeError (list string);
  serde_error_to_string : SerdeError -> string
}.

(** Decoding what was encoded gives the value back. *)
Class JsonCodecLaws (C : JsonCodec) := {
  vars_roundtrip v : vars_from_value (vars_to_value v) = Ok v;
  order_roundtrip l : order_from_value (order_to_value l) = Ok l
}.

Record WorkspaceAuthorization := mkWorkspaceAuthorization { dev : Z; ino : Z }.

Global Instance authorization_eq_dec : EqDecision WorkspaceAuthorization.
Proof. solve_decision. Defined.

Record StepContext := mkStepContext {
  sc_work_dir : string;
  sc_run_id : string;
  daemon_managed : bool;
  workspace_authorization : option WorkspaceAuthorization;
  variables : Vars;
  current_step_id : option string;
  step_order : list string;
  namespaced_vars : NamespacedVars;
  checkpointable_keys : gset string
}.

Global Instance eta_step_context : Eta StepContext := fun c =>
  mkStepContext (sc_work_dir c) (sc_run_id c) (daemon_managed c) (workspace_authorization c)
    (variables c) (current_step_id c) (step_order c) (namespaced_vars c) (checkpointable_keys c).

Definition DEFAULT_CHECKPOINTABLE_CONTEXT_KEYS : list string :=
  ["issue_number"; "primary_issue_number"; "issue_title"; "pr_number"; "owner"; "repo";
   "repository"; "current_branch"; "base_branch"; "existing_pr_number"; "head_ref"; "head_sha";
   "base_ref"; "base_sha"].

Definition NAMESPACED_VARS_KEY : string := "__namespaced_vars".
Definition STEP_ORDER_KEY : string := "__step_order".

Definition is_checkpointable_context_key (c : StepContext) (key : string) : bool :=
  bool_decide (key ∈ checkpointable_keys c).

Definition with_checkpointable_keys (c : StepContext) (keys : list string) : StepContext :=
  c <| checkpointable_keys := list_to_set keys |>.

Definition build (work_dir run_id : string) (daemon_managed : bool) : StepContext :=
  mkStepContext work_dir run_id daemon_managed None
    (<["run_id" := run_id]> (<["work_dir" := work_dir]> ∅)) None [] ∅
    (list_to_set DEFAULT_CHECKPOINTABLE_CONTEXT_KEYS).

Definition new (work_dir run_id : string) : StepContext := build work_dir run_id false.

Definition for_run (work_dir run_id : string) (daemon_managed : bool) : StepContext :=
  build work_dir run_id daemon_managed.

(** ** Checkpoints *)

(** The entries of a map whose key the allowlist names. *)
Definition keep_checkpointable {A} (c : StepContext) (m : gmap string A) : gmap string A :=
  filter (fun kv => is_checkpointable_context_key c (fst kv) = true) m.

Definition checkpoint_values `{JsonCodec} (c : StepContext) : gmap string Json :=
  <[STEP_ORDER_KEY := order_to_value (step_order c)]>
  (<[NAMESPACED_VARS_KEY := vars_to_value (keep_checkpointable c <$> namespaced_vars c)]>
   (JString <$> keep_checkpointable c (variables c))).

Definition not_a_string (key : string) : SerdeError :=
  SerdeCustom ("checkpoint value for allowlisted key '" ++ key ++ "' is not a string").

(** The loop over the remaining entries; a [HashMap] yields them in no
    particular order, so the loop is over a list of them. *)
Fixpoint restore_entries (c : StepContext) (entries : list (string * Json))
    : Res SerdeError unit * StepContext :=
  match entries with
  | [] => (Ok tt, c)
  | (key, value) :: rest =>
      if is_checkpointable_context_key c key then
        match json_as_str value with
        | None => (Err (not_a_string key), c)
        | Some restored =>
            restore_entries (c <| variables := <[key := restored]> (variables c) |>) rest
        end
      else restore_entries c rest
  end.

(** [&mut self]: the context after the call is returned beside the result, an
    error included. *)
Definition restore_checkpoint_values `{JsonCodec} (c : StepContext) (values : gmap string Json)
    : Res SerdeError unit * StepContext :=
  let restored_vars :=
    match values !! NAMESPACED_VARS_KEY with
    | None => Ok c
    | Some value =>
        match vars_from_value value with
        | Err e => Err e
        | Ok raw => Ok (c <| namespaced_vars := keep_checkpointable c <$> raw |>)
        end
    end in
  match restored_vars with
  | Err e => (Err e, c)
  | Ok c1 =>
      let restored_order :=
        match values !! STEP_ORDER_KEY with
        | None => Ok c1
        | Some value =>
            match order_from_value value with
            | Err e => Err e
            | Ok order => Ok (c1 <| step_order := order |>)
            end
        end in
      match restored_order with
      | Err e => (Err e, c1)
      | Ok c2 =>
          restore_entries c2
            (map_to_list (delete STEP_ORDER_KEY (delete NAMESPACED_VARS_KEY values)))
      end
  end.

(** ** Reading and writing *)

(** [key.find('.')] and the two slices around it. *)
Fixpoint split_dot (key : string) : option (string * string) :=
  match key with
  | EmptyString => None
  | String a rest =>
      if Ascii.eqb a "."%char then Some (EmptyString, rest)
      else (fun p => (String a p.1, p.2)) <$> split_dot rest
  end.

(** The most recent step of [order] that wrote [key]. *)
Fixpoint find_recent (ns : NamespacedVars) (key : string) (order : list string) : option string :=
  match order with
  | [] => None
  | step_id :: rest =>
      match ns !! step_id ≫= lookup key with
      | Some value => Some value
      | None => find_recent ns key rest
      end
  end.

(** [get] without its last case, the alias. *)
Definition get_direct (c : StepContext) (key : string) : option string :=
  match split_dot key with
  | Some (step_id, var_name) => namespaced_vars c !! step_id ≫= lookup var_name
  | None =>
      match find_recent (namespaced_vars c) key (rev (step_order c)) with
      | Some value => Some value
      | None =>
          match namespaced_vars c !! "config" ≫= lookup key with
          | Some value => Some value
          | None => variables c !! key
          end
      end
  end.

(** The recursive call of [get] is on a key that is not the alias, so it is
    the direct lookup. *)
Definition get (c : StepContext) (key : string) : option string :=
  match get_direct c key with
  | Some value => Some value
  | None => if key =?s "issue_number" then get_direct c "primary_issue_number" else None
  end.

Definition set (c : StepContext) (key value : string) : StepContext :=
  let c1 :=
    match current_step_id c with
    | Some step_id =>
        c <| namespaced_vars :=
          <[step_id := <[key := value]> (default ∅ (namespaced_vars c !! step_id))]>
            (namespaced_vars c) |>
    | None => c
    end in
  c1 <| variables := <[key := value]> (variables c1) |>.

Definition daemon_managed_claim (c : StepContext) : bool := daemon_managed c.

Definition set_workspace_authorization (c : StepContext) (authorization : WorkspaceAuthorization)
    : StepContext :=
  match workspace_authorization c with
  | None => c <| workspace_authorization := Some authorization |>
  | Some _ => c
  end.

Definition set_current_step_id (c : StepContext) (step_id : string) : StepContext :=
  let c1 := c <| current_step_id := Some step_id |> in
  let c2 :=
    if bool_decide (last (step_order c1) = Some step_id) then c1
    else c1 <| step_order := step_order c1 ++ [step_id] |> in
  c2 <| variables := <["current_step_id" := step_id]> (variables c2) |>.

(** The runner's diagnostic events project three paths of the step's own
    namespace ([runner/diagnostic_events.rs]). *)
Definition DIAGNOSTIC_PATH_KEYS : list string :=
  ["stdout_artifact_path"; "stderr_artifact_path"; "llxprt_diagnostic_manifest_path"].

Definition diagnostic_value (c : StepContext) (step_id : string) : gmap string Json :=
  fold_left (fun value key =>
    match get c (step_id ++ "." ++ key) with
    | Some path => <[key := JString path]> value
    | None => value
    end) DIAGNOSTIC_PATH_KEYS ∅.

(** [serde_json::to_string] of the projection is the [render] argument. *)
Definition details (render : gmap string Json -> option string) (c : StepContext)
    (step_id : string) : option string :=
  let value := diagnostic_value c step_id in
  if bool_decide (value = ∅) then None else render value.

(** What an executor can do to the context it is lent: the public mutating
    calls, and the public field. *)
Inductive ContextWrite :=
| WSet (key value : string)
| WAuthorize (authorization : WorkspaceAuthorization)
| WStep (step_id : string)
| WNamespaces (namespaces : NamespacedVars).

Definition apply_write (c : StepContext) (w : ContextWrite) : StepContext :=
  match w with
  | WSet key value => set c key value
  | WAuthorize authorization => set_workspace_authorization c authorization
  | WStep step_id => set_current_step_id c step_id
  | WNamespaces namespaces => c <| namespaced_vars := namespaces |>
  end.

Definition apply_writes (c : StepContext) (ws : list ContextWrite) : StepContext :=
  fold_left apply_write ws c.

(** ** Facts *)

Lemma keep_checkpointable_lookup {A} c (m : gmap string A) k v :
  keep_checkpointable c m !! k = Some v <-> m !! k = Some v /\ k ∈ checkpointable_keys c.
Proof.
  unfold keep_checkpointable, is_checkpointable_context_key.
  rewrite map_lookup_filter_Some. cbn. by rewrite bool_decide_eq_true.
Qed.

Lemma keep_checkpointable_idem {A} c c' (m : gmap string A) :
  checkpointable_keys c' = checkpointable_keys c ->
  keep_checkpointable c' (keep_checkpointable c m) = keep_checkpointable c m.
Proof.
  intros Hk. apply map_eq. intros k. apply option_eq. intros v.
  rewrite !keep_checkpointable_lookup, Hk. tauto.
Qed.

(** Overlay the strings of [entries] that [keep] admits on [base]. *)
Definition overlay (keep : string -> bool) (base : Vars) (entries : list (string * Json)) : Vars :=
  fold_left (fun m kv =>
    if keep (fst kv) then
      match json_as_str (snd kv) with Some s => <[fst kv := s]> m | None => m end
    else m) entries base.

Lemma restore_entries_ok c entries :
  Forall (fun kv => kv.1 ∈ checkpointable_keys c -> is_Some (json_as_str kv.2)) entries ->
  restore_entries c entries =
    (Ok tt, c <| variables := overlay (is_checkpointable_context_key c) (variables c) entries |>).
Proof.
  revert c. induction entries as [|[k v] entries IH]; intros c; csimpl.
  { by destruct c. }
  intros [Hk Hall]%Forall_cons. cbn in Hk.
  destruct (is_checkpointable_context_key c k) eqn:Ek; [|by rewrite IH].
  destruct (Hk (bool_decide_eq_true_1 _ Ek)) as [s Hs]. rewrite Hs, IH by done. by destruct c.
Qed.

(** Whatever a restore does, it keeps to the keys of the allowlist. *)
Lemma restore_entries_frame c entries r c' :
  restore_entries c entries = (r, c') ->
  exists vars, c' = c <| variables := vars |> /\
    forall k, k ∉ checkpointable_keys c -> vars !! k = variables c !! k.
Proof.
  revert c. induction entries as [|[k v] entries IH]; intros c; cbn.
  { intros [= <- <-]. exists (variables c). by destruct c. }
  unfold is_checkpointable_context_key. case_bool_decide as Hin; [|apply IH].
  destruct (json_as_str v) as [s|].
  - intros (vars & -> & Hv)%IH. exists vars. cbn in *. split; [by destruct c|].
    intros k' Hk'. rewrite Hv by done. apply lookup_insert_ne. congruence.
  - intros [= <- <-]. exists (variables c). by destruct c.
Qed.

Lemma overlay_lookup keep base entries k :
  NoDup entries.*1 ->
  overlay keep base entries !! k =
    match (list_to_map entries : gmap string Json) !! k with
    | Some (JString s) => if keep k then Some s else base !! k
    | _ => base !! k
    end.
Proof.
  unfold overlay. revert base. induction entries as [|[k' v] entries IH]; intros base; csimpl; [done|].
  intros [Hk' Hnd]%NoDup_cons. rewrite (IH _ Hnd).
  destruct (decide (k = k')) as [->|Hne].
  - rewrite lookup_insert_eq, not_elem_of_list_to_map_1 by done.
    destruct (keep k'), v; cbn; by rewrite ?lookup_insert_eq.
  - rewrite lookup_insert_ne by done.
    destruct (keep k'), v; cbn; by rewrite ?lookup_insert_ne.
Qed.

Lemma split_dot_app s key :
  split_dot s = None -> split_dot (s ++ "." ++ key) = Some (s, key).
Proof.
  change ("." ++ key)%string with (String "."%char key).
  induction s as [|a s IH]; [done|].
  change (String a s ++ String "."%char key)%string with (String a (s ++ String "."%char key)%string).
  cbn [split_dot]. destruct (Ascii.eqb a "."%char); [done|].
  intros Hs%fmap_None. by rewrite (IH Hs).
Qed.

Lemma set_order c k v : step_order (set c k v) = step_order c.
Proof. unfold set. by destruct (current_step_id c). Qed.
Lemma set_keys c k v : checkpointable_keys (set c k v) = checkpointable_keys c.
Proof. unfold set. by destruct (current_step_id c). Qed.
Lemma set_variables c k v : variables (set c k v) = <[k := v]> (variables c).
Proof. unfold set. by destruct (current_step_id c). Qed.
Lemma set_namespaced c k v :
  namespaced_vars (set c k v) =
    match current_step_id c with
    | Some step => <[step := <[k := v]> (default ∅ (namespaced_vars c !! step))]> (namespaced_vars c)
    | None => namespaced_vars c
    end.
Proof. unfold set. by destruct (current_step_id c). Qed.

Lemma keep_checkpointable_keys {A} c c' (m : gmap string A) :
  checkpointable_keys c' = checkpointable_keys c ->
  keep_checkpointable c' m = keep_checkpointable c m.
Proof. unfold keep_checkpointable, is_checkpointable_context_key. by intros ->. Qed.

Lemma apply_write_authority c w :
  sc_work_dir (apply_write c w) = sc_work_dir c /\
  sc_run_id (apply_write c w) = sc_run_id c /\
  daemon_managed (apply_write c w) = daemon_managed c /\
  checkpointable_keys (apply_write c w) = checkpointable_keys c /\
  forall a, workspace_authorization c = Some a ->
    workspace_authorization (apply_write c w) = Some a.
Proof.
  destruct w as [k v|a|step|ns]; cbn; [| | |done].
  - unfold set. by destruct (current_step_id c).
  - unfold set_workspace_authorization. destruct (workspace_authorization c) eqn:E; cbn;
      split_and!; intros; congruence.
  - unfold set_current_step_id. by case_bool_decide.
Qed.

(** The authority of a run is out of reach of its steps. *)
Lemma apply_writes_authority c ws :
  sc_work_dir (apply_writes c ws) = sc_work_dir c /\
  sc_run_id (apply_writes c ws) = sc_run_id c /\
  daemon_managed (apply_writes c ws) = daemon_managed c /\
  checkpointable_keys (apply_writes c ws) = checkpointable_keys c /\
  forall a, workspace_authorization c = Some a ->
    workspace_authorization (apply_writes c ws) = Some a.
Proof.
  unfold apply_writes. revert c. induction ws as [|w ws IH]; intros c; cbn; [done|].
  destruct (IH (apply_write c w)) as (-> & -> & -> & -> & Ha).
  destruct (apply_write_authority c w) as (-> & -> & -> & -> & Hw). auto 10.
Qed.

(** The data of a context that may leave the process. *)
Definition public_part (c : StepContext) : Vars * NamespacedVars * list string :=
  (keep_checkpointable c (variables c), keep_checkpointable c <$> namespaced_vars c, step_order c).

(** Contexts with the same public part and the same allowlist cannot be told
    apart by their checkpoints. *)
Lemma checkpoint_values_public `{JsonCodec} c c' :
  public_part c = public_part c' -> checkpoint_values c = checkpoint_values c'.
Proof. unfold public_part, checkpoint_values. by intros [= -> -> ->]. Qed.

(** ** Claims *)

(** Secrets stay in the process.  A write under a key the allowlist does
    not name leaves the checkpoint as it was, except for the name of the
    writing step, and everything in a checkpoint besides its two control
    entries is an allowlisted variable. *)
Theorem checkpoint_only_allowlisted `{JsonCodec} (c : StepContext) (key value : string) :
  (key ∉ checkpointable_keys c ->
   (forall step, current_step_id c = Some step -> is_Some (namespaced_vars c !! step)) ->
   checkpoint_values (set c key value) = checkpoint_values c) /\
  forall k v, checkpoint_values c !! k = Some v ->
    k = STEP_ORDER_KEY \/ k = NAMESPACED_VARS_KEY \/
    (k ∈ checkpointable_keys c /\ exists s, v = JString s /\ variables c !! k = Some s).
Proof.
  split.
  - intros Hk Hns. apply checkpoint_values_public. unfold public_part.
    assert (Hkeep : forall (m : Vars), keep_checkpointable c (<[key := value]> m) = keep_checkpointable c m).
    { intros m. apply map_eq. intros k. apply option_eq. intros v.
      rewrite !keep_checkpointable_lookup. split; intros [Hl Hin]; split; try done;
        rewrite lookup_insert_ne in *; congruence. }
    rewrite set_variables, set_order, set_namespaced.
    rewrite (keep_checkpointable_keys c (set c key value)), Hkeep by apply set_keys.
    f_equal. f_equal.
    destruct (current_step_id c) as [step|].
    + destruct (Hns step eq_refl) as [m Hm]. rewrite Hm. cbn.
      rewrite fmap_insert, (keep_checkpointable_keys c (set c key value)), Hkeep by apply set_keys.
      rewrite insert_id by (rewrite lookup_fmap, Hm; cbn; f_equal; apply keep_checkpointable_keys, set_keys).
      apply map_fmap_ext. intros. apply keep_checkpointable_keys, set_keys.
    + apply map_fmap_ext. intros. apply keep_checkpointable_keys, set_keys.
  - intros k v. unfold checkpoint_values.
    rewrite lookup_insert_Some. intros [[<- _]|[_ Hl]]; [by left|]. right.
    rewrite lookup_insert_Some in Hl. destruct Hl as [[<- _]|[_ Hl]]; [by left|]. right.
    rewrite lookup_fmap, fmap_Some in Hl. destruct Hl as (s & Hs & ->).
    apply keep_checkpointable_lookup in Hs as [Hs Hk]. eauto.
Qed.

(** The variables of a checkpoint, overlaid on a receiver's. *)
Lemma overlay_checkpointed c c2 values :
  checkpointable_keys c2 = checkpointable_keys c ->
  (forall k, k ∈ checkpointable_keys c ->
     values !! k = JString <$> keep_checkpointable c (variables c) !! k) ->
  overlay (is_checkpointable_context_key c2) (variables c2) (map_to_list values) =
  keep_checkpointable c (variables c) ∪ variables c2.
Proof.
  intros Hkeys Hv. apply map_eq. intros k.
  rewrite overlay_lookup, list_to_map_to_list by apply NoDup_fst_map_to_list.
  unfold is_checkpointable_context_key. rewrite Hkeys.
  destruct (keep_checkpointable c (variables c) !! k) as [s|] eqn:Ek.
  - assert (k ∈ checkpointable_keys c) as Hk. { apply keep_checkpointable_lookup in Ek. apply Ek. }
    rewrite Hv, Ek by done. cbn. rewrite bool_decide_eq_true_2 by done.
    symmetry. by apply lookup_union_Some_l.
  - rewrite lookup_union_r by done.
    destruct (decide (k ∈ checkpointable_keys c)) as [Hk|Hk].
    + by rewrite Hv, Ek by done.
    + rewrite bool_decide_eq_false_2 by done. by destruct (values !! k) as [[]|].
Qed.

(** Values that hold a context's checkpoint, whatever else they hold outside
    the allowlist. *)
Lemma restore_checkpointed `{C : JsonCodec, !JsonCodecLaws C} c c' values :
  checkpointable_keys c' = checkpointable_keys c ->
  NAMESPACED_VARS_KEY ∉ checkpointable_keys c -> STEP_ORDER_KEY ∉ checkpointable_keys c ->
  values !! NAMESPACED_VARS_KEY =
    Some (vars_to_value (keep_checkpointable c <$> namespaced_vars c)) ->
  values !! STEP_ORDER_KEY = Some (order_to_value (step_order c)) ->
  (forall k, k <> NAMESPACED_VARS_KEY -> k <> STEP_ORDER_KEY -> k ∈ checkpointable_keys c ->
     values !! k = JString <$> keep_checkpointable c (variables c) !! k) ->
  restore_checkpoint_values c' values =
    (Ok tt, c' <| namespaced_vars := keep_checkpointable c <$> namespaced_vars c |>
               <| step_order := step_order c |>
               <| variables := keep_checkpointable c (variables c) ∪ variables c' |>).
Proof.
  intros Hkeys Hn Ho Hns Hso Hv. unfold restore_checkpoint_values.
  rewrite Hns, vars_roundtrip, Hso, order_roundtrip.
  assert (Hrest : forall k, k ∈ checkpointable_keys c ->
    (delete STEP_ORDER_KEY (delete NAMESPACED_VARS_KEY values)) !! k =
      JString <$> keep_checkpointable c (variables c) !! k).
  { intros k Hk. rewrite !lookup_delete_ne by congruence. apply Hv; congruence. }
  rewrite restore_entries_ok.
  2: { apply Forall_forall. intros [k v] Hin%elem_of_map_to_list Hk. cbn [fst snd] in *.
       change (k ∈ checkpointable_keys c') in Hk. rewrite Hkeys in Hk.
       rewrite Hrest in Hin by done. apply fmap_Some in Hin as (s & _ & ->). by eexists. }
  f_equal. rewrite (overlay_checkpointed c) by done.
  assert (Hkeep : keep_checkpointable c' <$> (keep_checkpointable c <$> namespaced_vars c) =
    keep_checkpointable c <$> namespaced_vars c).
  { rewrite <- map_fmap_compose. apply map_fmap_ext. intros. by apply keep_checkpointable_idem. }
  by rewrite Hkeep.
Qed.

(** A run resumes with the values it was checkpointed with.  Restoring a
    context's checkpoint into a context of the same allowlist succeeds; it
    brings back the step order, the allowlisted part of every step's
    namespace, and the allowlisted variables over those of the receiver. *)
Theorem restore_roundtrip `{C : JsonCodec, !JsonCodecLaws C} (c c' : StepContext) :
  checkpointable_keys c' = checkpointable_keys c ->
  NAMESPACED_VARS_KEY ∉ checkpointable_keys c -> STEP_ORDER_KEY ∉ checkpointable_keys c ->
  restore_checkpoint_values c' (checkpoint_values c) =
    (Ok tt, c' <| namespaced_vars := keep_checkpointable c <$> namespaced_vars c |>
               <| step_order := step_order c |>
               <| variables := keep_checkpointable c (variables c) ∪ variables c' |>).
Proof.
  intros Hkeys Hn Ho. unfold checkpoint_values. apply restore_checkpointed; [done|done|done|..].
  { by rewrite lookup_insert_ne, lookup_insert_eq by done. }
  { apply lookup_insert_eq. }
  intros k Hk1 Hk2 _. by rewrite !lookup_insert_ne, lookup_fmap by done.
Qed.

(** Entry by entry: a successful loop read a string at every allowlisted key. *)
Lemma restore_entries_strings c entries c' :
  restore_entries c entries = (Ok tt, c') ->
  Forall (fun kv => kv.1 ∈ checkpointable_keys c -> is_Some (json_as_str kv.2)) entries.
Proof.
  revert c. induction entries as [|[k v] entries IH]; intros c; cbn; [by constructor|].
  unfold is_checkpointable_context_key. case_bool_decide as Hin.
  - destruct (json_as_str v) as [s|] eqn:Es; [|done]. intros Hr%IH. by constructor.
  - intros Hr%IH. by constructor.
Qed.

(** Where the decoders of the two control entries lead. *)
Lemma restore_cases `{JsonCodec} c values r c' :
  restore_checkpoint_values c values = (r, c') ->
  exists ns order,
    (ns = namespaced_vars c \/ exists raw, ns = keep_checkpointable c <$> raw) /\
    let c2 := c <| namespaced_vars := ns |> <| step_order := order |> in
    (is_ok r = false /\ c' = c2) \/
    restore_entries c2 (map_to_list (delete STEP_ORDER_KEY (delete NAMESPACED_VARS_KEY values)))
      = (r, c').
Proof.
  unfold restore_checkpoint_values. intros Hr.
  assert (Hsame : c <| namespaced_vars := namespaced_vars c |> <| step_order := step_order c |> = c)
    by by destruct c.
  destruct (match values !! NAMESPACED_VARS_KEY with Some _ => _ | None => _ end) as [c1|e] eqn:E1.
  2: { exists (namespaced_vars c), (step_order c). split; [by left|]. rewrite Hsame.
       left. by simplify_eq. }
  assert (Hc1 : exists ns, (ns = namespaced_vars c \/ exists raw, ns = keep_checkpointable c <$> raw) /\
    c1 = c <| namespaced_vars := ns |>).
  { destruct (values !! NAMESPACED_VARS_KEY) as [v|]; [destruct (vars_from_value v) as [raw|]|];
      simplify_eq; eauto. }
  destruct Hc1 as (ns & Hns & ->). exists ns.
  assert (Hsame' : c <| namespaced_vars := ns |> <| step_order := step_order c |> =
    c <| namespaced_vars := ns |>) by by destruct c.
  destruct (values !! STEP_ORDER_KEY) as [o|]; [destruct (order_from_value o) as [order|e']|].
  - exists order. split; [done|by right].
  - exists (step_order c). split; [done|]. cbn zeta. rewrite Hsame'. left. by simplify_eq.
  - exists (step_order c). split; [done|]. cbn zeta. rewrite Hsame'. by right.
Qed.

(** A checkpoint cannot poison a context.  Whatever values a restore is
    given, and whether it succeeds or not, it changes no authority of the run
    and no variable outside the allowlist, and lets no key outside the
    allowlist into a step's namespace; and it succeeds only if every
    allowlisted entry is a string, which is then the variable's value. *)
Theorem restore_confined `{JsonCodec} (c : StepContext) (values : gmap string Json)
    (r : Res SerdeError unit) (c' : StepContext) :
  restore_checkpoint_values c values = (r, c') ->
  (sc_work_dir c' = sc_work_dir c /\ sc_run_id c' = sc_run_id c /\
   daemon_managed c' = daemon_managed c /\
   workspace_authorization c' = workspace_authorization c /\
   checkpointable_keys c' = checkpointable_keys c) /\
  (forall k, k ∉ checkpointable_keys c -> variables c' !! k = variables c !! k) /\
  (namespaced_vars c' = namespaced_vars c \/
   forall step vars k v, namespaced_vars c' !! step = Some vars -> vars !! k = Some v ->
     k ∈ checkpointable_keys c) /\
  (r = Ok tt -> forall k v, k ∈ checkpointable_keys c ->
     k <> NAMESPACED_VARS_KEY -> k <> STEP_ORDER_KEY -> values !! k = Some v ->
     exists s, v = JString s /\ variables c' !! k = Some s).
Proof.
  intros (ns & order & Hns & Hrest)%restore_cases.
  set (c2 := c <| namespaced_vars := ns |> <| step_order := order |>) in *.
  assert (Hframe : exists vars, c' = c2 <| variables := vars |> /\
    forall k, k ∉ checkpointable_keys c -> vars !! k = variables c !! k).
  { destruct Hrest as [[_ ->]|Hr]; [by exists (variables c)|].
    by apply restore_entries_frame in Hr. }
  destruct Hframe as (vars & -> & Hvars). split; [by split_and!|].
  split; [done|]. split.
  - cbn. destruct Hns as [->|(raw & ->)]; [by left|right]. intros step m k v.
    rewrite lookup_fmap. intros (m0 & _ & ->)%fmap_Some [_ Hk]%keep_checkpointable_lookup. exact Hk.
  - intros -> k v Hk Hk1 Hk2 Hv. destruct Hrest as [[? _]|Hr]; [done|].
    pose proof (restore_entries_strings _ _ _ Hr) as Hall.
    pose proof (restore_entries_ok c2 _ Hall) as Hok. rewrite Forall_forall in Hall.
    assert (Hin : delete STEP_ORDER_KEY (delete NAMESPACED_VARS_KEY values) !! k = Some v)
      by by rewrite !lookup_delete_ne.
    destruct (Hall (k, v)) as [s Hs]; [by apply elem_of_map_to_list|done|].
    cbn in Hs. destruct v; simplify_eq/=. exists s. split; [done|].
    rewrite Hok in Hr.
    apply (f_equal (fun p => variables p.2)) in Hr as Hov. cbn [snd variables upd] in Hov.
    change (variables (c2 <| variables := vars |>)) with vars in *.
    change (variables (c2 <| variables := ?v |>)) with v in Hov.
    rewrite <- Hov, overlay_lookup, list_to_map_to_list by apply NoDup_fst_map_to_list.
    rewrite Hin. unfold is_checkpointable_context_key. by rewrite bool_decide_eq_true_2.
Qed.

Lemma find_recent_head ns key order step v m :
  ns !! step = Some m -> m !! key = Some v -> find_recent ns key (step :: order) = Some v.
Proof. intros Hn Hm. cbn. rewrite Hn. cbn. by rewrite Hm. Qed.

(** The value a step writes is the value read.  After a step has started
    and written [key], both the bare key and the key in the step's namespace
    give that value, whatever earlier steps, the config or the built-ins
    wrote; a step that starts again is its own last writer too. *)
Theorem set_get (c : StepContext) (step key value : string) :
  split_dot step = None -> split_dot key = None ->
  let c' := set (set_current_step_id c step) key value in
  get c' key = Some value /\ get c' (step ++ "." ++ key) = Some value.
Proof.
  intros Hstep Hkey c'.
  assert (Hcur : current_step_id (set_current_step_id c step) = Some step).
  { unfold set_current_step_id. by case_bool_decide. }
  assert (Hns : namespaced_vars c' !! step ≫= lookup key = Some value).
  { subst c'. rewrite set_namespaced, Hcur, lookup_insert_eq. cbn. apply lookup_insert_eq. }
  assert (Hlast : exists order, step_order c' = order ++ [step]).
  { subst c'. rewrite set_order. unfold set_current_step_id. case_bool_decide as Hl; cbn.
    - by apply last_Some in Hl.
    - by eexists. }
  unfold get, get_direct. rewrite Hkey, (split_dot_app step key Hstep), Hns.
  destruct Hlast as [order ->]. rewrite rev_app_distr. cbn [rev app find_recent]. by rewrite Hns.
Qed.

(** ** A concrete codec *)

Definition plain_vars_from_value (j : Json) : Res SerdeError NamespacedVars :=
  match j with
  | JObject m =>
      let decoded := omap (fun inner =>
        match inner with
        | JObject n =>
            let strings := omap json_as_str n in
            if bool_decide (dom strings = dom n) then Some strings else None
        | _ => None
        end) m in
      if bool_decide (dom decoded = dom m) then Ok decoded else Err SerdeInvalid
  | _ => Err SerdeInvalid
  end.

Definition plain_codec : JsonCodec := {|
  vars_to_value v := JObject ((fun m : Vars => JObject (JString <$> m)) <$> v);
  vars_from_value := plain_vars_from_value;
  order_to_value l := JArray (JString <$> l);
  order_from_value j :=
    match j with
    | JArray l => match mapM json_as_str l with Some r => Ok r | None => Err SerdeInvalid end
    | _ => Err SerdeInvalid
    end;
  serde_error_to_string e :=
    match e with SerdeInvalid => "invalid value" | SerdeCustom message => message end
|}.

Lemma omap_json_strings (m : Vars) : omap json_as_str (JString <$> m) = m.
Proof.
  apply map_eq. intros k. rewrite lookup_omap, lookup_fmap. by destruct (m !! k).
Qed.

Global Instance plain_codec_laws : JsonCodecLaws plain_codec.
Proof.
  split.
  - intros v. cbn. unfold plain_vars_from_value.
    set (decoded := omap _ _).
    assert (Hd : decoded = v).
    { subst decoded. apply map_eq. intros k. rewrite lookup_omap, lookup_fmap.
      destruct (v !! k) as [m|]; [|done]. cbn. rewrite omap_json_strings.
      by rewrite bool_decide_eq_true_2 by by rewrite dom_fmap_L. }
    rewrite Hd. by rewrite bool_decide_eq_true_2 by by rewrite dom_fmap_L.
  - intros l. cbn. assert (mapM json_as_str (JString <$> l) = Some l) as ->; [|done].
    apply mapM_Some. induction l; by constructor.
Qed.

(** ** Witnesses *)

Definition sample_context : StepContext :=
  set (set (set_current_step_id (new "/tmp/work" "run-1") "implement") "issue_number" "7")
    "token" "s3cret".

#[local] Existing Instance plain_codec.

(** The issue number is checkpointed, the token is not, and restoring into a
    fresh context brings the former back. *)
Lemma checkpoint_only_allowlisted_witness :
  checkpoint_values (set sample_context "api_key" "k") = checkpoint_values sample_context /\
  checkpoint_values sample_context !! "token" = None.
Proof.
  split.
  - apply (checkpoint_only_allowlisted sample_context "api_key" "k"); [by_computation|].
    intros step [= <-]. by eexists.
  - destruct (checkpoint_values sample_context !! "token") as [v|] eqn:E; [|done].
    destruct (proj2 (checkpoint_only_allowlisted sample_context "token" "") _ _ E)
      as [?|[?|[Hin _]]]; [done|done|]. revert Hin. by_computation.
Defined.

Lemma restore_roundtrip_witness :
  restore_checkpoint_values (new "/tmp/work" "run-1") (checkpoint_values sample_context) =
    (Ok tt, (new "/tmp/work" "run-1")
       <| namespaced_vars := keep_checkpointable sample_context <$> namespaced_vars sample_context |>
       <| step_order := step_order sample_context |>
       <| variables := keep_checkpointable sample_context (variables sample_context) ∪
            variables (new "/tmp/work" "run-1") |>).
Proof.
  exact (restore_roundtrip sample_context (new "/tmp/work" "run-1") eq_refl
    ltac:(by_computation) ltac:(by_computation)).
Defined.

(** A number under an allowlisted key is refused. *)
Lemma restore_confined_witness :
  let c := new "/tmp/work" "run-1" in
  let values := {["issue_number" := JInt 7]} in
  (restore_checkpoint_values c values).1 = Err (not_a_string "issue_number") /\
  forall k, k ∉ checkpointable_keys c ->
    variables (restore_checkpoint_values c values).2 !! k = variables c !! k.
Proof.
  split; [vm_compute; reflexivity|].
  exact (proj1 (proj2 (restore_confined (new "/tmp/work" "run-1") {["issue_number" := JInt 7]} _ _
    (surjective_pairing _)))).
Defined.

Lemma set_get_witness :
  let c := set (set_current_step_id sample_context "review") "token" "other" in
  get c "token" = Some "other" /\ get c ("review" ++ "." ++ "token") = Some "other".
Proof. exact (set_get sample_context "review" "token" "other" eq_refl eq_refl). Defined.
