(* ===== verification/Ownership.v ===== *)
(** Who owns a workspace on disk ([engine/workspace_ownership.rs],
    [engine/workspace_ownership/durable_publication.rs] and its [anchor.rs], the
    path checks of [engine/continuation/workspace_marker.rs]).

    The code talks to a file system that other processes change between any two
    of its calls.  A computation is therefore a tree of system calls, [Sys]:
    [always] runs it against every possible sequence of answers and keeps the
    history of calls, and [run] runs it on a handler.  What a theorem says of a
    verdict is what the history then contains. *)
From S2P Require Import Prelude Digest RunPaths StepContext.
From Stdlib Require String.

(** ** System calls *)

Abbreviation Errno := Z.
Definition ENOENT : Errno := 2.
Definition EEXIST : Errno := 17.
Definition ELOOP : Errno := 40.

Inductive ErrorKind := NotFound | PermissionDenied | AlreadyExists | InvalidInput | InvalidData | OtherKind.

(** [std::io::ErrorKind] of an operating system error, as far as the code tells
    kinds apart. *)
Definition kind_of_errno (e : Errno) : ErrorKind :=
  if (e =? ENOENT)%Z then NotFound
  else if (e =? EEXIST)%Z then AlreadyExists
  else if ((e =? 1) || (e =? 13))%Z then PermissionDenied
  else if (e =? 22)%Z then InvalidInput
  else OtherKind.

(** [std::io::Error] *)
Inductive IoError :=
| OsError (e : Errno)
| CustomError (kind : ErrorKind) (message : string).

Definition io_kind (e : IoError) : ErrorKind :=
  match e with OsError n => kind_of_errno n | CustomError k _ => k end.

(** The fields of a [stat] the code looks at. *)
Record Stat := mkStat {
  st_mode : Z;
  st_dev : Z;
  st_ino : Z;
  st_size : Z
}.

Definition S_IFMT : Z := 61440.
Definition S_IFLNK : Z := 40960.
Definition S_IFREG : Z := 32768.
Definition S_IFDIR : Z := 16384.
Definition file_type (st : Stat) : Z := Z.land (st_mode st) S_IFMT.
Definition is_symlink (st : Stat) : bool := (file_type st =? S_IFLNK)%Z.
Definition is_dir (st : Stat) : bool := (file_type st =? S_IFDIR)%Z.
Definition is_file (st : Stat) : bool := (file_type st =? S_IFREG)%Z.

Abbreviation Fd := nat.

(** A child process: its program and arguments, its directory, the whole of its
    environment, and its timeout in seconds; and how it ended, with what was read
    of its two streams, if their readers finished. *)
Record ChildRequest := mkChildRequest {
  child_argv : list string;
  child_dir : string;
  child_env : gmap string string;
  child_timeout : Z
}.
Record ChildCapture := mkChildCapture {
  exit_code : option Z;
  timed_out : bool;
  child_stdout : option Bytes;
  child_stderr : option Bytes
}.

Inductive Syscall :=
| Lstat (path : string)                    (** [symlink_metadata] *)
| Canonicalize (path : string)
| OpenDir (path : string)                  (** [open] with [O_DIRECTORY | O_NOFOLLOW] *)
| OpenatDir (dir : Fd) (name : string)     (** [openat] with [O_DIRECTORY | O_NOFOLLOW] *)
| OpenatFile (dir : Fd) (name : string)    (** [openat] with [O_NOFOLLOW | O_NONBLOCK] *)
| CreateExcl (dir : Fd) (name : string)    (** [openat] with [O_CREAT | O_EXCL | O_NOFOLLOW] *)
| Fstat (fd : Fd)
| Statat (dir : Fd) (name : string)        (** [statat] with [AT_SYMLINK_NOFOLLOW] *)
| OpenRead (path : string)                 (** [open] with [O_NONBLOCK] *)
| ReadToEnd (fd : Fd)
| ReadDir (path : string)
| CreateDir (path : string)
| CreateDirAll (path : string)
| WriteAll (fd : Fd) (bytes : Bytes)
| SyncFile (fd : Fd)                       (** [flush] and [sync_all] *)
| DupFile (fd : Fd)                        (** [try_clone] *)
| SyncDir (fd : Fd)
| Mkdirat (dir : Fd) (name : string)
| Linkat (dir : Fd) (from to : string)
| Unlinkat (dir : Fd) (name : string)
| NewUuid
| StatPath (path : string)                 (** [metadata], through symbolic links *)
| RenamePath (from to : string)
| RemoveDirAll (path : string)
| RemoveFile (path : string)
| NowNanos                                 (** [SystemTime::now], nanoseconds since the epoch *)
| Spawn (request : ChildRequest).          (** a child, waited for; its errors as text *)

Definition answer (c : Syscall) : Type :=
  match c with
  | Lstat _ | Fstat _ | Statat _ _ | StatPath _ => Res Errno Stat
  | Canonicalize _ => Res Errno string
  | ReadDir _ => Res Errno (list (Res Errno string))
  | OpenRead _ | OpenDir _ | OpenatDir _ _ | OpenatFile _ _ | CreateExcl _ _ | DupFile _ => Res Errno Fd
  | ReadToEnd _ => Res Errno Bytes
  | CreateDir _ | CreateDirAll _ | WriteAll _ _ | SyncFile _ | SyncDir _ | Mkdirat _ _ | Linkat _ _ _ | Unlinkat _ _
  | RenamePath _ _ | RemoveDirAll _ | RemoveFile _ => Res Errno unit
  | NewUuid => string
  | NowNanos => Z
  | Spawn _ => Res string ChildCapture
  end.

(** ** Computations *)

Inductive Sys (A : Type) : Type :=
| Done (a : A)
| Call (c : Syscall) (k : answer c -> Sys A).
Arguments Done {A}.
Arguments Call {A}.

Fixpoint sys_bind {A B} (f : A -> Sys B) (m : Sys A) : Sys B :=
  match m with
  | Done a => f a
  | Call c k => Call c (fun r => sys_bind f (k r))
  end.

Global Instance Sys_ret : MRet Sys := fun A => @Done A.
Global Instance Sys_bind : MBind Sys := fun A B => @sys_bind A B.

Definition call (c : Syscall) : Sys (answer c) := Call c Done.

(** [Path::canonicalize] *)
Definition canonicalize (path : string) : Sys (Res Errno string) := call (Canonicalize path).

(** The [?] of functions that return [io::Result]. *)
Definition io_bind {A B} (m : Sys (Res IoError A)) (f : A -> Sys (Res IoError B)) : Sys (Res IoError B) :=
  r ← m; match r with Ok a => f a | Err e => mret (Err e) end.
Notation "x <-? m ;; k" := (io_bind m (fun x => k)) (at level 100, m at next level, right associativity).

Definition Event := {c : Syscall & answer c}.
Definition History := list Event.
Notation "c ↦ r" := (existT c r : Event) (at level 60).

(** [Q] holds of every history and result, whatever the file system answers. *)
Fixpoint always {A} (m : Sys A) (Q : History -> A -> Prop) (h : History) : Prop :=
  match m with
  | Done a => Q h a
  | Call c k => forall r, always (k r) Q (h ++ [c ↦ r])
  end.

(** A run on a handler of the calls. *)
Fixpoint run {S A} (handle : forall c, S -> answer c * S) (m : Sys A) (s : S) : A * S :=
  match m with
  | Done a => (a, s)
  | Call c k => let '(r, s') := handle c s in run handle (k r) s'
  end.

(** ** Text *)

(** How [rustix] and the standard library print an operating system error, and
    how the latter prints the error of a conversion to UTF-8. *)
Class ErrorText := {
  errno_display : Errno -> string;
  os_error_display : Errno -> string;
  utf8_error_display : Bytes -> string
}.

Definition component_text (c : Component) : string :=
  match c with RootDir => "/" | CurDir => "." | ParentDir => ".." | Normal name => name end.

(** A path of these components. *)
Definition render (cs : list Component) : string :=
  match cs with
  | RootDir :: rest => "/" +:+ String.concat "/" (component_text <$> rest)
  | _ => String.concat "/" (component_text <$> cs)
  end.

(** [Path::ancestors]: the path, then each of its parents. *)
Definition ancestors (path : string) : list string :=
  let cs := components path in
  let lowest := match cs with RootDir :: _ => 1 | _ => 0 end in
  path :: ((fun k => render (take k cs)) <$> rev (seq lowest (length cs - lowest))).

(** [Path::parent] *)
Definition parent (path : string) : option string := ancestors path !! 1.

(** [Path::with_file_name], of a path that has a file name. *)
Definition with_file_name (path name : string) : string := join (default "" (parent path)) name.

(** [{n:o}] of a number. *)
Fixpoint octal_digits (fuel : nat) (n : Z) (acc : string) : string :=
  match fuel with
  | O => acc
  | S fuel =>
      let acc := pretty (n mod 8)%Z +:+ acc in
      if (n <? 8)%Z then acc else octal_digits fuel (n / 8)%Z acc
  end.
Definition octal (n : Z) : string := octal_digits 11 n "".

Example ancestors_sample :
  ancestors "/srv/work/run" = ["/srv/work/run"; "/srv/work"; "/srv"; "/"] /\
  ancestors "a/b" = ["a/b"; "a"; ""] /\ parent "/" = None /\
  with_file_name ".git/luther/workspace-owner" "tmp" = ".git/luther/tmp" /\ octal 33188 = "100644".
Proof. vm_compute. done. Qed.

(** ** Operations *)

Definition BOOTSTRAP_OWNER_MARKER : string := ".luther/workspace-owner".
Definition DURABLE_OWNER_DIR : string := ".git/luther".
Definition DURABLE_OWNER_MARKER : string := ".git/luther/workspace-owner".
Definition OWNER_FILE : string := "workspace-owner".
Definition MAX_MARKER_BYTES : Z := 4096.

Record FileIdentity := mkFileIdentity { fi_dev : Z; fi_ino : Z }.

Global Instance file_identity_eq_dec : EqDecision FileIdentity.
Proof. solve_decision. Defined.

Definition from_stat (st : Stat) : FileIdentity := mkFileIdentity (st_dev st) (st_ino st).

(** A retained directory descriptor with the identity it was opened at. *)
Record WorkspaceAnchor := mkAnchor { anchor_fd : Fd; identity : FileIdentity }.

Inductive AnchoredMarkerVerdict :=
| Absent
| Trusted
| RejectedMarker (reason : string).

Global Instance marker_verdict_eq_dec : EqDecision AnchoredMarkerVerdict.
Proof. solve_decision. Defined.

Definition rejection_reason (v : AnchoredMarkerVerdict) : option string :=
  match v with RejectedMarker reason => Some reason | _ => None end.
Definition is_rejected (v : AnchoredMarkerVerdict) : bool := bool_decide (is_Some (rejection_reason v)).

Inductive OwnershipVerdict :=
| Owned (verified : WorkspaceAnchor)
| NoEvidence
| Rejected (reason : string).

(** [VerifiedWorkspace::authorization] *)
Definition authorization (verified : WorkspaceAnchor) : WorkspaceAuthorization :=
  mkWorkspaceAuthorization (fi_dev (identity verified)) (fi_ino (identity verified)).

Inductive Rejection := Symlink | Directory | NonRegular | Oversized | Empty | Uninspectable.

Definition message (r : Rejection) (display : string) : string :=
  match r with
  | Symlink => "workspace ownership marker is a symlink and must be a regular file: " +:+ display
  | Directory => "workspace ownership marker is a directory and must be a regular file: " +:+ display
  | NonRegular => "workspace ownership marker is not a regular file: " +:+ display
  | Oversized => "workspace ownership marker exceeds maximum size"
  | Empty => "workspace ownership marker is empty: " +:+ display
  | Uninspectable => "workspace ownership marker cannot be inspected: " +:+ display
  end.

Inductive DirectoryOpen :=
| Opened (fd : Fd)
| DirNotFound
| DirRejected (reason : string).

Inductive OpenedMarker := MarkerFd (fd : Fd) | OpenRejected (reason : string).

Definition marker_identity_changed (before after : Stat) : bool :=
  bool_decide (st_dev before <> st_dev after) || bool_decide (st_ino before <> st_ino after).

(** [u64::try_from(st_size).map_or(true, |size| size > MAX_MARKER_BYTES)] *)
Definition marker_size_rejected (st : Stat) : bool := ((st_size st <? 0) || (MAX_MARKER_BYTES <? st_size st))%Z.

Section Operations.
Context `{ErrorText}.

Definition io_display (e : IoError) : string :=
  match e with OsError n => os_error_display n | CustomError _ m => m end.

Definition io_error (action display : string) (e : Errno) : IoError :=
  CustomError (kind_of_errno e) (action +:+ " " +:+ display +:+ ": " +:+ errno_display e).

(** [.map_err(rustix_error(action, display))] *)
Definition rustix {A} (action display : string) (r : Res Errno A) : Res IoError A :=
  res_map_err (io_error action display) r.

Definition invalid {A} (kind : ErrorKind) (text : string) : Sys (Res IoError A) :=
  mret (Err (CustomError kind text)).

(** *** Paths ([workspace_marker.rs]) *)

Fixpoint reject_symlinked_components (cs : list string) : Sys (option string) :=
  match cs with
  | [] => mret None
  | component :: rest =>
      found ← call (Lstat component);
      match found with
      | Ok st =>
          if is_symlink st then
            mret (Some ("workspace path contains a symlink and must use real directories: " +:+ component))
          else reject_symlinked_components rest
      | Err e =>
          if (e =? ENOENT)%Z then reject_symlinked_components rest
          else mret (Some ("workspace path component cannot be inspected: " +:+ component +:+ ": "
                           +:+ os_error_display e))
      end
  end.

Definition reject_symlinked_workspace_root (workspace : string) : Sys (option string) :=
  reject_symlinked_components (ancestors workspace).

Definition reject_symlinked_luther_parent (workspace : string) : Sys (option string) :=
  let luther := join workspace ".luther" in
  found ← call (Lstat luther);
  mret match found with
       | Ok st =>
           if is_symlink st then
             Some ("workspace `.luther` parent is a symlink and must be a real directory: " +:+ luther)
           else None
       | Err e =>
           if (e =? ENOENT)%Z then None
           else Some ("workspace `.luther` parent cannot be inspected: " +:+ os_error_display e +:+ ": "
                      +:+ luther)
       end.

Definition revalidate_workspace_root_identity (observed canonical : string) : Sys (option string) :=
  found ← call (Lstat observed);
  match found with
  | Err e => mret (Some ("workspace root became inaccessible during verification: " +:+ os_error_display e))
  | Ok observed_meta =>
      if is_symlink observed_meta then
        mret (Some ("workspace root became a symlink during verification: " +:+ observed))
      else if negb (is_dir observed_meta) then
        mret (Some ("workspace root is not a directory during verification: " +:+ observed))
      else
        found ← call (Lstat canonical);
        mret match found with
             | Err e =>
                 Some ("canonical workspace root became inaccessible during verification: "
                       +:+ os_error_display e)
             | Ok canonical_meta =>
                 if marker_identity_changed observed_meta canonical_meta
                 then Some "workspace root identity changed during verification"
                 else None
             end
  end.

(** *** The anchor ([anchor.rs]) *)

Definition open_anchor (workspace : string) : Sys (Res IoError WorkspaceAnchor) :=
  meta ← call (Lstat workspace);
  if (if meta is Ok st then is_symlink st else false) then
    invalid InvalidInput "workspace root is a symlink and must be a real directory"
  else
    pre <-? (r ← call (Lstat workspace); mret (res_map_err OsError r));;
    fd <-? (r ← call (OpenDir workspace); mret (rustix "open workspace directory" workspace r));;
    st <-? (r ← call (Fstat fd); mret (rustix "stat workspace anchor" "." r));;
    if bool_decide (from_stat st <> from_stat pre) then
      invalid InvalidData "workspace identity changed between pre-open capture and anchor open"
    else mret (Ok (mkAnchor fd (from_stat st))).

(** *** Snapshots of a marker ([durable_publication.rs]) *)

Definition open_directory_relative (parent_fd : Fd) (name display : string) : Sys DirectoryOpen :=
  r ← call (OpenatDir parent_fd name);
  mret match r with
       | Ok fd => Opened fd
       | Err e =>
           if (e =? ENOENT)%Z then DirNotFound
           else DirRejected ("workspace directory cannot be inspected: " +:+ display +:+ ": "
                             +:+ errno_display e +:+ ": " +:+ os_error_display e)
       end.

Definition open_marker_descriptor (parent_fd : Fd) (leaf display : string) : Sys (option OpenedMarker) :=
  r ← call (OpenatFile parent_fd leaf);
  mret match r with
       | Ok fd => Some (MarkerFd fd)
       | Err e =>
           if (e =? ENOENT)%Z then None
           else if (e =? ELOOP)%Z then Some (OpenRejected (message Symlink display))
           else Some (OpenRejected ("workspace ownership marker cannot be opened: " +:+ display +:+ ": "
                                    +:+ errno_display e +:+ ": " +:+ os_error_display e))
       end.

(** [take(max + 1).read_to_end]: more than [max] bytes are an error. *)
Definition read_fd_to_end (fd : Fd) : Sys (Res IoError Bytes) :=
  r ← call (ReadToEnd fd);
  mret match r with
       | Err e => Err (OsError e)
       | Ok contents =>
           let bytes := String.substring 0 (Z.to_nat MAX_MARKER_BYTES + 1) contents in
           if (MAX_MARKER_BYTES <? Z.of_nat (String.length bytes))%Z
           then Err (CustomError InvalidData "workspace ownership marker exceeds maximum size")
           else Ok bytes
       end.

Definition classify_opened_marker (fd : Fd) (display expected_run_id : string)
    : Sys AnchoredMarkerVerdict :=
  found ← call (Fstat fd);
  match found with
  | Err e =>
      mret (RejectedMarker ("workspace ownership marker cannot be stat-ed: " +:+ display +:+ ": "
                            +:+ errno_display e))
  | Ok st =>
      if is_symlink st then mret (RejectedMarker (message Symlink display))
      else if is_dir st then mret (RejectedMarker (message Directory display))
      else if negb (is_file st) then mret (RejectedMarker (message NonRegular display))
      else if marker_size_rejected st then mret (RejectedMarker (message Oversized display))
      else
        contents ← read_fd_to_end fd;
        mret match contents with
             | Err e =>
                 RejectedMarker ("workspace ownership marker cannot be read: " +:+ display +:+ ": "
                                 +:+ io_display e)
             | Ok bytes =>
                 if str_is_empty bytes then RejectedMarker (message Empty display)
                 else if negb (bytes =?s expected_run_id) then
                   RejectedMarker ("workspace ownership marker belongs to run '" +:+ from_utf8_lossy bytes
                                   +:+ "' not '" +:+ expected_run_id +:+ "'")
                 else Trusted
             end
  end.

Definition snapshot_marker_one_hop (parent_fd : Fd) (leaf display expected_run_id : string)
    : Sys AnchoredMarkerVerdict :=
  opened ← open_marker_descriptor parent_fd leaf display;
  match opened with
  | None => mret Absent
  | Some (MarkerFd fd) => classify_opened_marker fd display expected_run_id
  | Some (OpenRejected reason) => mret (RejectedMarker reason)
  end.

Definition snapshot_marker_two_hops (workspace_fd : Fd) (parent_name leaf display expected_run_id : string)
    : Sys AnchoredMarkerVerdict :=
  opened ← open_directory_relative workspace_fd parent_name (default display (parent display));
  match opened with
  | Opened fd => snapshot_marker_one_hop fd leaf display expected_run_id
  | DirNotFound => mret Absent
  | DirRejected reason => mret (RejectedMarker reason)
  end.

Definition snapshot_bootstrap_marker (workspace_fd : Fd) (run_id : string) : Sys AnchoredMarkerVerdict :=
  snapshot_marker_two_hops workspace_fd ".luther" OWNER_FILE BOOTSTRAP_OWNER_MARKER run_id.

Definition snapshot_durable_marker (workspace_fd : Fd) (run_id : string) : Sys AnchoredMarkerVerdict :=
  git ← open_directory_relative workspace_fd ".git" ".git";
  match git with
  | DirNotFound => mret Absent
  | DirRejected reason => mret (RejectedMarker reason)
  | Opened git_fd =>
      luther ← open_directory_relative git_fd "luther" DURABLE_OWNER_DIR;
      match luther with
      | DirNotFound => mret Absent
      | DirRejected reason => mret (RejectedMarker reason)
      | Opened luther_fd => snapshot_marker_one_hop luther_fd OWNER_FILE DURABLE_OWNER_MARKER run_id
      end
  end.

(** *** Verdicts ([workspace_ownership.rs]) *)

Definition validate_durable_directory (workspace : string) : Sys (option string) :=
  let git := join workspace ".git" in
  found ← call (Lstat git);
  match found with
  | Err e =>
      mret (if (e =? ENOENT)%Z then None
            else Some ("workspace Git metadata cannot be inspected: " +:+ os_error_display e +:+ ": "
                       +:+ git))
  | Ok st =>
      if is_symlink st then
        mret (Some ("workspace Git metadata is a symlink and must be a real directory: " +:+ git))
      else if negb (is_dir st) then
        mret (Some ("workspace Git metadata is not a directory: " +:+ git))
      else
        let durable_dir := join workspace DURABLE_OWNER_DIR in
        found ← call (Lstat durable_dir);
        mret match found with
             | Err e =>
                 if (e =? ENOENT)%Z then None
                 else Some ("durable ownership directory cannot be inspected: " +:+ os_error_display e
                            +:+ ": " +:+ durable_dir)
             | Ok st =>
                 if is_symlink st then
                   Some ("durable ownership directory is a symlink and must be a real directory: "
                         +:+ durable_dir)
                 else if negb (is_dir st) then
                   Some ("durable ownership directory is not a directory: " +:+ durable_dir)
                 else None
             end
  end.

Definition missing_marker (run_id : string) : string :=
  "workspace ownership marker is missing: no bootstrap or durable owner record for run '"
  +:+ run_id +:+ "'".

Definition adjudicate_workspace_ownership (workspace run_id : string) : Sys OwnershipVerdict :=
  symlinked ← reject_symlinked_workspace_root workspace;
  match symlinked with
  | Some reason => mret (Rejected reason)
  | None =>
  canonicalized ← canonicalize workspace;
  match canonicalized with
  | Err e => mret (Rejected ("workspace cannot be canonicalized: " +:+ os_error_display e))
  | Ok canonical_workspace =>
  changed ← revalidate_workspace_root_identity workspace canonical_workspace;
  match changed with
  | Some reason => mret (Rejected reason)
  | None =>
  symlinked ← reject_symlinked_luther_parent canonical_workspace;
  match symlinked with
  | Some reason => mret (Rejected reason)
  | None =>
  anchored ← open_anchor canonical_workspace;
  match anchored with
  | Err e => mret (Rejected ("workspace cannot be anchored: " +:+ io_display e))
  | Ok anchor =>
  redirected ← validate_durable_directory canonical_workspace;
  match redirected with
  | Some reason => mret (Rejected reason)
  | None =>
  bootstrap_verdict ← snapshot_bootstrap_marker (anchor_fd anchor) run_id;
  durable_verdict ← snapshot_durable_marker (anchor_fd anchor) run_id;
  mret (if is_rejected bootstrap_verdict then
          Rejected (default "" (rejection_reason bootstrap_verdict))
        else if is_rejected durable_verdict then
          Rejected (default "" (rejection_reason durable_verdict))
        else if bool_decide (bootstrap_verdict = Trusted) || bool_decide (durable_verdict = Trusted)
        then Owned anchor
        else NoEvidence)
  end end end end end end.

(** The two snapshots and their verdict, [None] when trusted. *)
Definition verify_anchored (anchor : WorkspaceAnchor) (canonical run_id : string) : Sys (option string) :=
  redirected ← validate_durable_directory canonical;
  match redirected with
  | Some reason => mret (Some reason)
  | None =>
  bootstrap_verdict ← snapshot_bootstrap_marker (anchor_fd anchor) run_id;
  durable_verdict ← snapshot_durable_marker (anchor_fd anchor) run_id;
  mret (if is_rejected bootstrap_verdict then rejection_reason bootstrap_verdict
        else if is_rejected durable_verdict then rejection_reason durable_verdict
        else if bool_decide (bootstrap_verdict = Trusted) || bool_decide (durable_verdict = Trusted)
        then None
        else Some (missing_marker run_id))
  end.

Definition verify_workspace_ownership (workspace run_id : string) : Sys (option string) :=
  symlinked ← reject_symlinked_workspace_root workspace;
  match symlinked with
  | Some reason => mret (Some reason)
  | None =>
  canonicalized ← canonicalize workspace;
  match canonicalized with
  | Err e => mret (Some ("workspace cannot be canonicalized: " +:+ os_error_display e))
  | Ok canonical_workspace =>
  changed ← revalidate_workspace_root_identity workspace canonical_workspace;
  match changed with
  | Some reason => mret (Some reason)
  | None =>
  symlinked ← reject_symlinked_luther_parent canonical_workspace;
  match symlinked with
  | Some reason => mret (Some reason)
  | None =>
  anchored ← open_anchor canonical_workspace;
  match anchored with
  | Err e => mret (Some ("workspace cannot be anchored: " +:+ io_display e))
  | Ok anchor =>
  redirected ← validate_durable_directory canonical_workspace;
  match redirected with
  | Some reason => mret (Some reason)
  | None =>
  bootstrap_verdict ← snapshot_bootstrap_marker (anchor_fd anchor) run_id;
  durable_verdict ← snapshot_durable_marker (anchor_fd anchor) run_id;
  mret (if is_rejected bootstrap_verdict then rejection_reason bootstrap_verdict
        else if is_rejected durable_verdict then rejection_reason durable_verdict
        else if bool_decide (bootstrap_verdict = Trusted) || bool_decide (durable_verdict = Trusted)
        then None
        else Some (missing_marker run_id))
  end end end end end end.

Definition has_trusted_workspace_ownership (workspace run_id : string) : Sys bool :=
  reason ← verify_workspace_ownership workspace run_id;
  mret (bool_decide (reason = None)).
End Operations.

(** ** Reasoning about system calls *)

Lemma always_bind {A B} (m : Sys A) (f : A -> Sys B) Q h :
  always (m ≫= f) Q h <-> always m (fun h' a => always (f a) Q h') h.
Proof.
  revert h. induction m as [a|c k IH]; intros h; cbn; [done|].
  split; intros Hk r; apply IH, Hk.
Qed.

Lemma always_mono {A} (m : Sys A) (Q Q' : History -> A -> Prop) h :
  always m Q h -> (forall h' a, Q h' a -> Q' h' a) -> always m Q' h.
Proof. intros Hm HQ. revert h Hm. induction m as [a|c k IH]; cbn; eauto. Qed.

(** What a computation does to a history does not depend on the history. *)
Lemma always_shift {A} (m : Sys A) (Q : History -> A -> Prop) h0 h :
  always m (fun h' a => Q (h0 ++ h') a) h -> always m Q (h0 ++ h).
Proof.
  revert h. induction m as [a|c k IH]; cbn; intros h Hm; [done|].
  intros r. rewrite <- app_assoc. apply IH, Hm.
Qed.

(** The rule of sequences, on the histories of the two parts. *)
Lemma always_seq {A B} (m : Sys A) (f : A -> Sys B) (P : History -> A -> Prop) Q :
  always m P [] -> (forall t a, P t a -> always (f a) (fun t' b => Q (t ++ t') b) []) ->
  always (m ≫= f) Q [].
Proof.
  intros Hm Hf. apply always_bind. eapply always_mono; [apply Hm|].
  intros t a Ht. rewrite <- (app_nil_r t). by apply always_shift, Hf.
Qed.

Lemma always_call {B} c (f : answer c -> Sys B) Q :
  (forall r, always (f r) (fun t b => Q ((c ↦ r) :: t) b) []) -> always (call c ≫= f) Q [].
Proof. intros Hf. eapply (always_seq (call c) f (fun t r => t = [c ↦ r])); [done|]. by intros t r ->. Qed.

(** Every event of a history is permitted by what came before it. *)
Fixpoint guarded (permitted : History -> Event -> Prop) (past h : History) : Prop :=
  match h with
  | [] => True
  | e :: rest => permitted past e /\ guarded permitted (past ++ [e]) rest
  end.

Lemma guarded_app permitted past h1 h2 :
  guarded permitted past (h1 ++ h2) <-> guarded permitted past h1 /\ guarded permitted (past ++ h1) h2.
Proof.
  revert past. induction h1 as [|e h1 IH]; intros past; cbn; [rewrite app_nil_r; tauto|].
  rewrite IH, <- app_assoc. cbn. tauto.
Qed.

Lemma run_bind {S A B} (handle : forall c, S -> answer c * S) (m : Sys A) (f : A -> Sys B) s :
  run handle (m ≫= f) s = let '(a, s') := run handle m s in run handle (f a) s'.
Proof.
  revert s. induction m as [a|c k IH]; intros s; cbn; [done|].
  destruct (handle c s) as [r s']. apply IH.
Qed.

(** The history of a run, and that [always] speaks of it. *)
Fixpoint trace {S A} (handle : forall c, S -> answer c * S) (m : Sys A) (s : S) : History :=
  match m with
  | Done _ => []
  | Call c k => let '(r, s') := handle c s in (c ↦ r) :: trace handle (k r) s'
  end.

Lemma always_run {S A} (handle : forall c, S -> answer c * S) (m : Sys A) Q h s :
  always m Q h -> Q (h ++ trace handle m s) (fst (run handle m s)).
Proof.
  revert h s. induction m as [a|c k IH]; intros h s; cbn; [by rewrite app_nil_r|].
  intros Hm. destruct (handle c s) as [r s']. rewrite (cons_middle (c ↦ r) h), app_assoc. apply IH, Hm.
Qed.

(** A read that did not fill its limit read everything. *)
Lemma substring_short n s :
  String.length (String.substring 0 (S n) s) <= n -> String.substring 0 (S n) s = s.
Proof.
  revert n. induction s as [|c s IH]; intros n; [done|]. cbn.
  destruct n as [|n]; [intros Hn; destruct s; cbn in Hn; lia|].
  intros Hn. f_equal. apply IH. lia.
Qed.

(** ** Evidence

    What the calls of a snapshot found, hop by hop from a directory
    descriptor: every name is resolved relative to the descriptor the hop
    before opened, and a trusted marker is one open regular file of bounded
    size that reads as exactly the run id. *)
Inductive marker_chain (run_id : string) : Fd -> list string -> History -> AnchoredMarkerVerdict -> Prop :=
| ChainDirAbsent fd hop hops :
    marker_chain run_id fd (hop :: hops) [OpenatDir fd hop ↦ Err ENOENT] Absent
| ChainDir fd fd' hop hops t v :
    marker_chain run_id fd' hops t v ->
    marker_chain run_id fd (hop :: hops) ((OpenatDir fd hop ↦ Ok fd') :: t) v
| ChainFileAbsent fd : marker_chain run_id fd [] [OpenatFile fd OWNER_FILE ↦ Err ENOENT] Absent
| ChainTrusted fd f st :
    is_file st = true -> (0 <= st_size st <= MAX_MARKER_BYTES)%Z -> run_id <> "" ->
    marker_chain run_id fd []
      [OpenatFile fd OWNER_FILE ↦ Ok f; Fstat f ↦ Ok st; ReadToEnd f ↦ Ok run_id] Trusted
| ChainRejected fd hops t reason : marker_chain run_id fd hops t (RejectedMarker reason).

(** The anchor is a descriptor of the directory that was looked at: every
    component of the workspace's path was no symbolic link, the canonical path
    had the anchor's identity before it was opened, and so has the descriptor. *)
Definition root_evidence (workspace : string) (anchor : WorkspaceAnchor) (h : History) : Prop :=
  Forall (fun component => exists r, Lstat component ↦ r ∈ h /\
            match r with Ok st => is_symlink st = false | Err e => e = ENOENT end) (ancestors workspace) /\
  exists canonical before st,
    [Canonicalize workspace ↦ Ok canonical; Lstat canonical ↦ Ok before;
     OpenDir canonical ↦ Ok (anchor_fd anchor); Fstat (anchor_fd anchor) ↦ Ok st] `sublist_of` h /\
    from_stat before = identity anchor /\ from_stat st = identity anchor.

Definition verdict_evidence (workspace run_id : string) (h : History) (v : OwnershipVerdict) : Prop :=
  let snapshots ok anchor := exists root bootstrap durable b d,
    h = root ++ bootstrap ++ durable /\ root_evidence workspace anchor root /\
    marker_chain run_id (anchor_fd anchor) [".luther"] bootstrap b /\
    marker_chain run_id (anchor_fd anchor) [".git"; "luther"] durable d /\ ok b d in
  match v with
  | Owned anchor =>
      snapshots (fun b d => (b = Trusted /\ (d = Trusted \/ d = Absent)) \/ (b = Absent /\ d = Trusted)) anchor
  | NoEvidence => exists anchor, snapshots (fun b d => b = Absent /\ d = Absent) anchor
  | Rejected _ => True
  end.

Section Evidence.
Context `{ErrorText}.

Ltac calls := repeat first [apply always_call; intros [?|?]|progress cbn [always]].

Lemma is_rejected_false v : is_rejected v = false <-> v = Trusted \/ v = Absent.
Proof.
  unfold is_rejected. rewrite bool_decide_eq_false, <- eq_None_not_Some.
  destruct v; cbn; split; intros; (done || tauto || (by destruct_or!) || idtac).
Qed.

Lemma read_fd_to_end_always fd :
  always (read_fd_to_end fd) (fun t r => match r with
                                         | Ok bytes => t = [ReadToEnd fd ↦ Ok bytes]
                                         | Err _ => True
                                         end) [].
Proof.
  unfold read_fd_to_end. apply always_call. intros [contents|e]; cbn [always mret Sys_ret]; [|done].
  destruct (Z.ltb_spec MAX_MARKER_BYTES
              (Z.of_nat (String.length (String.substring 0 (Z.to_nat MAX_MARKER_BYTES + 1) contents)))) as [|Hle];
    cbn; [done|].
  unfold MAX_MARKER_BYTES in *. replace (Z.to_nat 4096 + 1) with (S (Z.to_nat 4096)) in * by lia.
  rewrite substring_short; [done|lia].
Qed.

Lemma classify_always fd display run dir :
  always (classify_opened_marker fd display run)
    (fun t v => marker_chain run dir [] ((OpenatFile dir OWNER_FILE ↦ Ok fd) :: t) v) [].
Proof.
  unfold classify_opened_marker. apply always_call. intros [st|e]; cbn [always mret Sys_ret]; [|constructor].
  destruct (is_symlink st); [constructor|]. destruct (is_dir st); [constructor|].
  destruct (is_file st) eqn:Ef; cbn [negb]; [|constructor].
  destruct (marker_size_rejected st) eqn:Es; [constructor|].
  eapply always_seq; [apply read_fd_to_end_always|]. intros t [bytes|e]; cbn [always mret Sys_ret]; [|constructor].
  intros ->. unfold str_is_empty. case_bool_decide as Hb; [constructor|].
  case_bool_decide as Hr; cbn [negb]; [|constructor]. subst bytes. cbn.
  apply ChainTrusted; [done| |done]. unfold marker_size_rejected in Es.
  apply orb_false_iff in Es as [?%Z.ltb_ge ?%Z.ltb_ge]. lia.
Qed.

Lemma open_marker_always dir display :
  always (open_marker_descriptor dir OWNER_FILE display)
    (fun t o => match o with
                | None => t = [OpenatFile dir OWNER_FILE ↦ Err ENOENT]
                | Some (MarkerFd f) => t = [OpenatFile dir OWNER_FILE ↦ Ok f]
                | Some (OpenRejected _) => True
                end) [].
Proof.
  unfold open_marker_descriptor. apply always_call. intros [f|e]; cbn [always mret Sys_ret]; [done|].
  destruct (Z.eqb_spec e ENOENT); [by subst|]. by destruct (e =? ELOOP)%Z.
Qed.

Lemma one_hop_always dir display run :
  always (snapshot_marker_one_hop dir OWNER_FILE display run) (marker_chain run dir []) [].
Proof.
  unfold snapshot_marker_one_hop. eapply always_seq; [apply open_marker_always|].
  intros t [[f|reason]|] Ht; cbn [always mret Sys_ret]; subst; [|constructor..].
  eapply always_mono; [apply (classify_always f display run dir)|]. done.
Qed.

Lemma open_directory_always dir name display :
  always (open_directory_relative dir name display)
    (fun t o => match o with
                | Opened fd => t = [OpenatDir dir name ↦ Ok fd]
                | DirNotFound => t = [OpenatDir dir name ↦ Err ENOENT]
                | DirRejected _ => True
                end) [].
Proof.
  unfold open_directory_relative. apply always_call. intros [fd|e]; cbn [always mret Sys_ret]; [done|].
  destruct (Z.eqb_spec e ENOENT); [by subst|done].
Qed.

Lemma bootstrap_always dir run :
  always (snapshot_bootstrap_marker dir run) (marker_chain run dir [".luther"]) [].
Proof.
  eapply always_seq; [apply open_directory_always|].
  intros t [fd| |reason] Ht; cbn [always mret Sys_ret]; subst; [|constructor..].
  eapply always_mono; [apply one_hop_always|]. intros t v Hv. by constructor.
Qed.

Lemma durable_always dir run :
  always (snapshot_durable_marker dir run) (marker_chain run dir [".git"; "luther"]) [].
Proof.
  eapply always_seq; [apply open_directory_always|].
  intros t [git| |reason] Ht; cbn [always mret Sys_ret]; subst; [|constructor..].
  eapply always_seq; [apply open_directory_always|].
  intros t [luther| |reason] Ht; cbn [always mret Sys_ret]; subst; [|repeat constructor..].
  eapply always_mono; [apply one_hop_always|]. intros t v Hv. by repeat constructor.
Qed.

(** The components of the path, as the first pass saw them. *)
Lemma components_always cs :
  always (reject_symlinked_components cs)
    (fun t o => match o with
                | None => Forall (fun c => exists r, Lstat c ↦ r ∈ t /\
                    match r with Ok st => is_symlink st = false | Err e => e = ENOENT end) cs
                | Some _ => True
                end) [].
Proof.
  induction cs as [|c cs IH]; cbn [reject_symlinked_components]; [constructor|].
  set (seen := fun (t : History) c => exists r, Lstat c ↦ r ∈ t /\
    match r with Ok st => is_symlink st = false | Err e => e = ENOENT end) in *.
  apply always_call. intros r.
  assert (Hrec : seen [Lstat c ↦ r] c ->
    always (reject_symlinked_components cs)
      (fun t o => match o with
                  | None => Forall (seen ((Lstat c ↦ r) :: t)) (c :: cs)
                  | Some _ => True
                  end) []).
  { intros (r' & Hr' & Hok). eapply always_mono; [apply IH|]. intros t [|] Ht; [done|].
    apply list_elem_of_singleton in Hr'.
    constructor; [exists r'; rewrite Hr'; split; [apply list_elem_of_here|done]|].
    eapply Forall_impl; [apply Ht|]. intros c' (r'' & Hr'' & Hok''). exists r''.
    split; [by apply list_elem_of_further|done]. }
  destruct r as [st|e].
  - destruct (is_symlink st) eqn:Es; cbn [always mret Sys_ret]; [done|].
    apply Hrec. exists (Ok st). split; [by apply list_elem_of_singleton|done].
  - destruct (Z.eqb_spec e ENOENT); cbn [always mret Sys_ret]; [|done].
    apply Hrec. exists (Err e). split; [by apply list_elem_of_singleton|done].
Qed.

Lemma always_lifted {A} c (g : answer c -> A) :
  always (r ← call c; mret (g r)) (fun t a => exists r, t = [c ↦ r] /\ a = g r) [].
Proof. apply always_call. intros r. cbn. by exists r. Qed.

Lemma always_True {A} (m : Sys A) h : always m (fun _ _ => True) h.
Proof. revert h. induction m; cbn; auto. Qed.

Lemma open_anchor_always path :
  always (open_anchor path)
    (fun t r => match r with
                | Ok anchor => exists before st,
                    [Lstat path ↦ Ok before; OpenDir path ↦ Ok (anchor_fd anchor);
                     Fstat (anchor_fd anchor) ↦ Ok st] `sublist_of` t /\
                    from_stat before = identity anchor /\ from_stat st = identity anchor
                | Err _ => True
                end) [].
Proof.
  unfold open_anchor, io_bind. apply always_call. intros meta.
  destruct (match meta with Ok st => is_symlink st | Err _ => false end); [done|].
  eapply always_seq; [apply always_lifted|]. intros t [before|e] ([b|?] & -> & [= ->]); [|done].
  eapply always_seq; [apply always_lifted|]. intros t [fd|e] ([f|?] & -> & [= ->]); [|done].
  eapply always_seq; [apply always_lifted|]. intros t [st|e] ([s|?] & -> & [= ->]); [|done].
  case_bool_decide as Hid; cbn [always mret Sys_ret invalid]; [done|].
  exists b, s. split_and!; [|done|done]. cbn.
  apply sublist_cons. reflexivity.
Qed.
End Evidence.

(** C6: a workspace is owned only on evidence, whatever other processes do to
    the file system between any two calls.  When the adjudication answers
    [Owned], no component of the path was a symbolic link, the retained
    descriptor is of the directory that was inspected under its canonical path,
    and each of the two markers, reached name by name from that descriptor, was
    found absent or was one open regular file of at most 4096 bytes that read
    as exactly the run id, at least one of them the latter.  [NoEvidence] means
    that both were found absent. *)
Theorem ownership_evidence `{ErrorText} (workspace run_id : string) :
  always (adjudicate_workspace_ownership workspace run_id) (verdict_evidence workspace run_id) [].
Proof.
  unfold adjudicate_workspace_ownership.
  eapply always_seq; [apply components_always|]. intros t0 [reason|] Ht0; [done|].
  apply always_call. intros [canonical|e]; [|done].
  eapply always_seq; [apply always_True|]. intros t1 [reason|] _; [done|].
  eapply always_seq; [apply always_True|]. intros t2 [reason|] _; [done|].
  eapply always_seq; [apply open_anchor_always|]. intros t3 [anchor|e] Ht3; [|done].
  eapply always_seq; [apply always_True|]. intros t4 [reason|] _; [done|].
  eapply always_seq; [apply bootstrap_always|]. intros tb b Hb.
  eapply always_seq; [apply durable_always|]. intros td d Hd.
  cbn [always mret Sys_ret]. rewrite app_nil_r.
  set (root := t0 ++ (Canonicalize workspace ↦ Ok canonical) :: t1 ++ t2 ++ t3 ++ t4).
  replace (t0 ++ _) with (root ++ tb ++ td)
    by (unfold root; rewrite <- !app_assoc; cbn; by rewrite <- !app_assoc).
  assert (Hroot : root_evidence workspace anchor root).
  { destruct Ht3 as (before & st & Hsub & Hids). split.
    - eapply Forall_impl; [apply Ht0|]. intros c (r & Hr & Hok). exists r.
      split; [by apply elem_of_app; left|done].
    - exists canonical, before, st. split; [|done]. unfold root.
      apply sublist_inserts_l, sublist_skip, sublist_inserts_l, sublist_inserts_l, sublist_inserts_r, Hsub. }
  destruct (is_rejected b) eqn:Eb; [done|]. destruct (is_rejected d) eqn:Ed; [done|].
  apply is_rejected_false in Eb, Ed.
  destruct Eb as [->| ->]; cbn.
  { exists root, tb, td, Trusted, d. eauto 10. }
  destruct Ed as [->| ->]; cbn.
  - exists root, tb, td, Absent, Trusted. eauto 10.
  - exists anchor, root, tb, td, Absent, Absent. eauto 10.
Qed.

(** The reason [verify_workspace_ownership] gives for a verdict. *)
Definition verdict_reason (run_id : string) (v : OwnershipVerdict) : option string :=
  match v with
  | Owned _ => None
  | NoEvidence => Some (missing_marker run_id)
  | Rejected reason => Some reason
  end.

(** The two ways the code asks who owns a workspace agree.  On every file
    system, however it answers, [verify_workspace_ownership] makes the calls of
    [adjudicate_workspace_ownership], leaves the same file system, and trusts
    the workspace exactly when the adjudication answers [Owned]; otherwise its
    reason is the adjudication's. *)
Theorem verify_is_adjudicate `{ErrorText} {S} (handle : forall c, S -> answer c * S)
    (workspace run_id : string) (s : S) :
  run handle (verify_workspace_ownership workspace run_id) s =
  let '(v, s') := run handle (adjudicate_workspace_ownership workspace run_id) s in
  (verdict_reason run_id v, s').
Proof.
  unfold verify_workspace_ownership, adjudicate_workspace_ownership.
  rewrite !run_bind. destruct (run handle (reject_symlinked_workspace_root workspace) s) as [[|] s0]; [reflexivity|].
  rewrite !run_bind. destruct (run handle (canonicalize workspace) s0) as [[canonical|e] s1]; [|reflexivity].
  rewrite !run_bind. destruct (run handle (revalidate_workspace_root_identity _ _) s1) as [[|] s2]; [reflexivity|].
  rewrite !run_bind. destruct (run handle (reject_symlinked_luther_parent _) s2) as [[|] s3]; [reflexivity|].
  rewrite !run_bind. destruct (run handle (open_anchor _) s3) as [[anchor|e] s4]; [|reflexivity].
  rewrite !run_bind. destruct (run handle (validate_durable_directory _) s4) as [[|] s5]; [reflexivity|].
  rewrite !run_bind. destruct (run handle (snapshot_bootstrap_marker _ _) s5) as [b s6].
  rewrite !run_bind. destruct (run handle (snapshot_durable_marker _ _) s6) as [d s7]. by destruct b, d.
Qed.

(** ** A workspace *)

#[local] Instance plain_text : ErrorText := {|
  errno_display e := pretty e;
  os_error_display e := "os error " +:+ pretty e;
  utf8_error_display _ := "invalid utf-8"
|}.

(** A file system that nobody else writes: [/w] with a bootstrap marker. *)
Definition sample_stat (path : string) : Res Errno Stat :=
  if path =?s "/w" then Ok (mkStat S_IFDIR 1 7 4096)
  else if path =?s "/" then Ok (mkStat S_IFDIR 1 2 4096)
  else if path =?s "/w/.luther" then Ok (mkStat S_IFDIR 1 8 4096)
  else Err ENOENT.

Definition sample_handle (marker : Bytes) (c : Syscall) (s : unit) : answer c * unit :=
  (match c return answer c with
   | Lstat path | StatPath path => sample_stat path
   | Canonicalize path => Ok path
   | OpenDir _ => Ok 3
   | OpenatDir dir name => if (dir =? 3) && (name =?s ".luther") then Ok 4 else Err ENOENT
   | OpenatFile dir name => if (dir =? 4) && (name =?s OWNER_FILE) then Ok 5 else Err ENOENT
   | Fstat fd => if fd =? 3 then sample_stat "/w" else Ok (mkStat S_IFREG 1 9 (Z.of_nat (String.length marker)))
   | ReadToEnd _ => Ok marker
   | NewUuid => ""
   | OpenRead _ | CreateExcl _ _ | DupFile _ | ReadDir _ | Statat _ _ | CreateDir _ | CreateDirAll _
   | WriteAll _ _ | SyncFile _ | SyncDir _ | Mkdirat _ _ | Linkat _ _ _ | Unlinkat _ _
   | RenamePath _ _ | RemoveDirAll _ | RemoveFile _ => Err EEXIST
   | NowNanos => 0%Z
   | Spawn _ => Err "no children"
   end, s).

Example adjudicate_sample :
  let verdict marker rid :=
    fst (run (sample_handle marker) (adjudicate_workspace_ownership "/w" rid) tt) in
  verdict "run-1" "run-1" = Owned (mkAnchor 3 (mkFileIdentity 1 7)) /\
  verdict "run-1" "run-2"
  = Rejected "workspace ownership marker belongs to run 'run-1' not 'run-2'" /\
  verdict "" "run-1" = Rejected "workspace ownership marker is empty: .luther/workspace-owner".
Proof. vm_compute. done. Qed.
