(* ===== verification/Host.v ===== *)
(** The operating system under a client of the database: which processes live
    and what the file system answers.  Every question is asked at its own time,
    so two answers may differ; a theorem that holds of every [Os] holds whatever
    other processes do in between. *)
From S2P Require Import Prelude Effects Ownership.

(** What the operating system answers at the n-th question. *)
Class Os := {
  os_pid_alive : nat -> Z -> bool;
  os_is_dir : nat -> string -> bool;
  os_files : Type;
  os_handle : forall c, os_files -> answer c * os_files;
  os_at : nat -> os_files
}.

(** A computation on the file system, as the database's clients run it. *)
Definition sys `{Os} {D E A} (m : Sys A) : M D E A :=
  observe (fun n => fst (Ownership.run os_handle m (os_at n))).

(** [Path::is_dir] *)
Definition is_directory `{Os} {D E} (path : string) : M D E bool := observe (fun n => os_is_dir n path).

(** [is_pid_alive], as a predicate of the moment. *)
Definition pid_alive `{Os} {D E} : M D E (Z -> bool) := observe os_pid_alive.

Lemma wp_sys `{Env} `{Os} {D E A} (m : Sys A) (Q : Res E A -> World D -> Prop) w :
  (forall n a w', fst (Ownership.run os_handle m (os_at n)) = a -> w_db w' = w_db w -> Q (Ok a) w') ->
  wp (sys m) Q w.
Proof. intros HQ. apply wp_observe. intros n w' Hw' _. by apply (HQ n). Qed.

Lemma keeps_sys `{Os} {D E A} P (m : Sys A) : keeps P (sys m : M D E A).
Proof. apply keeps_observe. Qed.
#[export] Hint Resolve keeps_sys : eff.
