(* ===== verification/Continuation.v ===== *)
(** Operator continuation ([engine/continuation.rs] and
    [engine/continuation/]'s [validation.rs], [selection.rs],
    [authorization.rs], [commit.rs], [artifacts.rs]): resume, retry or rewind of
    a failed or waiting run.  A request is validated, the checkpoint it
    continues from is selected, and a later transaction re-checks everything
    against what was planned before it re-arms the checkpoint and reopens the
    run.

    The answers of the operating system (which processes live, what is on disk)
    are [Host.Os]; each question has its own time, so they may change in between. *)
From S2P Require Import Prelude Text Effects Sql Status Schema Checkpoints Leases Runs WaitStates StepContext Ownership Host.
From Stdlib Require Import Ascii.

(** ** Data *)

Definition RETRYABLE_WAIT_STEPS : list string := ["watch_pr_checks"].
Definition TERMINAL_STEP : string := "post_pr_failure_terminal".

Inductive RewindTarget := ToStep (step : string) | ToCheckpoint (identity : string).

Inductive ContinuationKind :=
| Resume
| Retry (from_failed_step : bool)
| Rewind (target : RewindTarget).

Definition verb (k : ContinuationKind) : string :=
  match k with Resume => "resume" | Retry _ => "retry" | Rewind _ => "rewind" end.

Record ContinuationRequest := mkContinuationRequest {
  cq_run_id : string;
  cq_kind : ContinuationKind;
  cq_force : bool
}.

(** The source of a [Persistence] error, whose text the code keeps. *)
Inductive ContinuationError :=
| CRunNotFound (run : string)
| NoResumableCheckpoint (what : string)
| CheckpointNotFound (what : string)
| InvalidTarget (detail : string)
| FromPersistence (e : PersistenceError)
| FromSqlite (e : SqlError)
| FromIo
| RollbackFailed (original : ContinuationError) (rollback : SqlError).

Record SafetyCheck := mkSafetyCheck { sc_name : string; passed : bool; detail : string }.

Record ContinuationValidation := mkContinuationValidation { ok : bool; checks : list SafetyCheck }.

Definition from_checks (l : list SafetyCheck) : ContinuationValidation :=
  mkContinuationValidation (forallb passed l) l.

Definition failure_reasons (v : ContinuationValidation) : list string :=
  (fun c => sc_name c +:+ ": " +:+ detail c) <$> List.filter (fun c => negb (passed c)) (checks v).

Definition pass (name detail : string) : SafetyCheck := mkSafetyCheck name true detail.
Definition fail (name detail : string) : SafetyCheck := mkSafetyCheck name false detail.

(** [chrono]'s parser of RFC 3339 and the text of its errors. *)
Class Rfc3339 := {
  parse_rfc3339 : string -> option Z;
  parse_rfc3339_error : string -> string
}.

(** It reads back what was printed. *)
Class Rfc3339Laws `{Process} (P : Rfc3339) : Prop :=
  parse_rfc3339_print t : parse_rfc3339 (to_rfc3339 t) = Some t.

(** The text of the errors of this module. *)
Class ContinuationErrorText := continuation_error_display : ContinuationError -> string.

Section Operations.
Context `{Env} `{Process} `{Rfc3339} `{ErrorText} `{Os} `{OptionDebug} `{ContinuationErrorText}.

(** ** Validation ([validation.rs]) *)

Definition check_run_exists (metadata : option RunMetadata) (run : string) : SafetyCheck :=
  match metadata with
  | Some _ => pass "run_exists" ("run " +:+ run +:+ " found in registry")
  | None => fail "run_exists" ("run " +:+ run +:+ " not found in registry")
  end.

Definition check_workflow_resolvable (m : RunMetadata) : SafetyCheck :=
  if str_is_empty (workflow_type_id m) || str_is_empty (config_id m) then
    fail "workflow_resolvable" "run record is missing workflow_type_id or config_id"
  else pass "workflow_resolvable"
         ("workflow_type=" +:+ workflow_type_id m +:+ " config=" +:+ config_id m).

(** A forced retry or rewind of an evidenced cleanup abandonment. *)
Definition cleanup_recovery (m : RunMetadata) (rq : ContinuationRequest) : bool :=
  RunMeta.is_cleanup_failure_abandonment m
  && from_option FailureCleanup.recovery_is_available false (failure_cleanup m)
  && cq_force rq
  && match cq_kind rq with Retry _ | Rewind _ => true | Resume => false end.

Definition running_claim_is_available (m : RunMetadata) : M Db PersistenceError bool :=
  if bool_decide (status m = RunStatus.Running) then
    alive ← pid_alive;
    mret (RunMeta.is_process_stale alive m || bool_decide (process_pid m = None))
  else mret false.

Definition check_resumable_status (m : RunMetadata) (rq : ContinuationRequest)
    : M Db PersistenceError SafetyCheck :=
  if RunMeta.is_ownership_denied_terminal m then
    mret (fail "resumable_status"
      "run terminated with a workspace ownership denial and cannot be resumed; cleanup cannot execute in an unowned workspace")
  else if RunStatus.is_resumable (status m) then
    mret (pass "resumable_status" ("run status " +:+ RunStatus.to_string (status m) +:+ " is resumable"))
  else if cleanup_recovery m rq then
    mret (pass "resumable_status" "forced retry/rewind of an evidenced cleanup abandonment")
  else
    available ← running_claim_is_available m;
    mret (if (available : bool) then
            pass "resumable_status"
              ("run status " +:+ RunStatus.to_string (status m)
               +:+ " is resumable because recorded workflow PID is stale or unrecorded")
          else
            fail "resumable_status"
              ("run status " +:+ RunStatus.to_string (status m)
               +:+ " is not resumable; terminal states other than failed cannot be continued")).

Definition check_identity_recoverable (m : RunMetadata) : SafetyCheck :=
  let has_repo := bool_decide (is_Some (repository m)) in
  let has_anchor := bool_decide (is_Some (issue_number m)) || bool_decide (is_Some (pr_number m)) in
  let got := "repository=" +:+ debug_opt_string (repository m) +:+ " issue="
             +:+ debug_opt_int (issue_number m) +:+ " pr=" +:+ debug_opt_int (pr_number m) in
  if has_repo && has_anchor then pass "identity_recoverable" got
  else fail "identity_recoverable"
         ("continuation requires a repository plus an issue or PR anchor; got " +:+ got).

Definition check_cleanup_workspace_ownership {E} (path : string) (m : RunMetadata) : M Db E SafetyCheck :=
  found ← sys (call (Lstat path));
  match found with
  | Ok st =>
      if is_symlink st then
        mret (fail "workspace" ("cleanup workspace must not be a symlink: " +:+ path))
      else
        directory ← is_directory path;
        if negb directory then
          mret (fail "workspace" ("preserved workspace is not a directory: " +:+ path))
        else
          refused ← sys (verify_workspace_ownership path (run_id m));
          mret (match refused with
                | Some reason => fail "workspace" reason
                | None => pass "workspace" ("workspace_path=" +:+ path +:+ " (ownership verified)")
                end)
  | Err _ => mret (fail "workspace" ("preserved workspace is missing or not a directory: " +:+ path))
  end.

Definition check_workspace (m : RunMetadata) : M Db PersistenceError SafetyCheck :=
  match workspace_path m with
  | Some path =>
      if RunMeta.is_cleanup_failure_abandonment m then check_cleanup_workspace_ownership path m
      else
        directory ← is_directory path;
        mret (if (directory : bool) then pass "workspace" ("workspace_path=" +:+ path)
              else fail "workspace" ("workspace_path=" +:+ path +:+ " is missing or not a directory"))
  | None =>
      mret (if RunMeta.is_cleanup_failure_abandonment m then
              fail "workspace" "cleanup-abandonment recovery requires an explicit preserved workspace"
            else pass "workspace" "workspace path reconstructable from run id")
  end.

Definition check_checkpoint_exists (selection : Res ContinuationError Checkpoint) : SafetyCheck :=
  match selection with
  | Ok cp => pass "checkpoint_exists" ("selected checkpoint at step " +:+ cp_step_id cp)
  | Err e => fail "checkpoint_exists" (continuation_error_display e)
  end.

Definition check_safe_step (step : string) (force authorized : bool) : SafetyCheck :=
  if is_safe_rerun_step step || authorized then
    pass "safe_step" ("step " +:+ step +:+ " is explicitly authorized for this rerun")
  else fail "safe_step"
         ("step " +:+ step +:+ " is not safe to re-run"
          +:+ (if force then "; --force cannot bypass rerun safety" else "")).

Definition reopen_status_is_allowed (m : RunMetadata) (rq : ContinuationRequest) : bool :=
  negb (RunMeta.is_ownership_denied_terminal m)
  && (RunStatus.is_resumable (status m) || bool_decide (status m = RunStatus.Running)
      || cleanup_recovery m rq).

(** ** Selection ([selection.rs]) *)

(** [parse_checkpoint_identity_target] *)
Definition parse_checkpoint_identity_target (id : string) : Res ContinuationError (string * Z) :=
  match split_once "@"%char id with
  | None => Err (InvalidTarget ("checkpoint identity '" +:+ id +:+ "' is missing the '@' separator"))
  | Some (step, ts) =>
      match parse_rfc3339 ts with
      | None =>
          Err (InvalidTarget ("checkpoint identity '" +:+ id +:+ "' has an invalid RFC3339 timestamp: "
                              +:+ parse_rfc3339_error ts))
      | Some t => Ok (step, t)
      end
  end.

(** The newest first: the list is oldest first. *)
Definition newest_resumable (cps : list Checkpoint) : option Checkpoint :=
  List.find (fun c => is_resumable_checkpoint_status (ss_status (state_snapshot c))) (rev cps).

(** The stored checkpoint of a step, at the expected time when one is named. *)
Definition checkpoint_of_step (run step : string) (expected : option Z) : M Db ContinuationError Checkpoint :=
  found ← map_err FromPersistence (get_checkpoint_for_step run step);
  match found with
  | None => throw (CheckpointNotFound (run +:+ ":" +:+ step))
  | Some cp =>
      match expected with
      | Some t =>
          if bool_decide (cp_timestamp cp <> t) then
            throw (InvalidTarget ("checkpoint timestamp mismatch for " +:+ step +:+ ": stored "
                     +:+ to_rfc3339 (cp_timestamp cp) +:+ ", requested " +:+ to_rfc3339 t))
          else mret cp
      | None => mret cp
      end
  end.

Definition select_rewind_checkpoint (run : string) (target : RewindTarget)
    : M Db ContinuationError Checkpoint :=
  match target with
  | ToStep step => checkpoint_of_step run step None
  | ToCheckpoint id =>
      '(step, t) ← lift_res (parse_checkpoint_identity_target id);
      checkpoint_of_step run step (Some t)
  end.

(** The failure the run's cleanup is still bound to. *)
Definition bound_failure (m : RunMetadata) : option FailureCleanupState :=
  failure_cleanup m ≫= fun failure =>
    let incomplete := negb (cleanup_succeeded failure) in
    let recoverable := RunMeta.is_cleanup_failure_abandonment m && FailureCleanup.recovery_is_available failure in
    if (negb incomplete && negb recoverable) || str_is_empty (failed_checkpoint_id failure)
    then None else Some failure.

Definition select_failed_cleanup_checkpoint (run : string) (m : RunMetadata)
    : M Db ContinuationError (option Checkpoint) :=
  match bound_failure m with
  | None => mret None
  | Some failure =>
      cp ← select_rewind_checkpoint run (ToCheckpoint (failed_checkpoint_id failure));
      mret (if checkpoint_identity cp =?s failed_checkpoint_id failure then Some cp else None)
  end.

(** The choice without a bound failure. *)
Definition select_latest (run : string) (m : RunMetadata) : M Db ContinuationError Checkpoint :=
  cps ← map_err FromPersistence (list_checkpoints run);
  if bool_decide (cps = []) then throw (NoResumableCheckpoint run)
  else
    match newest_resumable cps with
    | Some cp => mret cp
    | None =>
        before ← map_err FromPersistence
          (load_checkpoint_before_step run (default TERMINAL_STEP (current_step m)));
        match before with
        | Some cp => mret cp
        | None => lift_res (ok_or (last cps) (NoResumableCheckpoint run))
        end
    end.

Definition select_resume_checkpoint (run : string) (m : RunMetadata) : M Db ContinuationError Checkpoint :=
  bound ← select_failed_cleanup_checkpoint run m;
  match bound with
  | Some cp => mret cp
  | None => select_latest run m
  end.

Definition select_retry_checkpoint (run : string) (m : RunMetadata) (from_failed_step : bool)
    : M Db ContinuationError Checkpoint :=
  bound ← select_failed_cleanup_checkpoint run m;
  match bound with
  | Some cp => mret cp
  | None =>
      if from_failed_step then
        cps ← map_err FromPersistence (list_checkpoints run);
        lift_res (ok_or (List.find (fun c => bool_decide (cp_step_id c ∈ RETRYABLE_WAIT_STEPS)) (rev cps))
                    (NoResumableCheckpoint (run +:+ " has no retryable external-wait checkpoint")))
      else select_resume_checkpoint run m
  end.

Definition select_checkpoint (rq : ContinuationRequest) (m : RunMetadata)
    : M Db ContinuationError Checkpoint :=
  match cq_kind rq with
  | Resume => select_resume_checkpoint (cq_run_id rq) m
  | Retry from_failed_step => select_retry_checkpoint (cq_run_id rq) m from_failed_step
  | Rewind target => select_rewind_checkpoint (cq_run_id rq) target
  end.

(** ** Authorization ([authorization.rs]) *)

(** A grant names the checkpoint and the run it was made for. *)
Inductive ResumeAuthorization :=
| Operator
| OperatorCurrentWait (bound_identity bound_run : string)
| OperatorCommittedCheckpoint (bound_identity bound_run : string)
| TrustedInternalWait (bound_identity bound_run : string).

Definition for_resume {E} (m : RunMetadata) (rq : ContinuationRequest) (cp : Checkpoint)
    : M Db E ResumeAuthorization :=
  match cq_kind rq with
  | Retry _ | Rewind _ => mret Operator
  | Resume =>
      let identity := checkpoint_identity cp in
      let current := bool_decide (current_step m = Some (cp_step_id cp)) in
      if current && bool_decide (status m = RunStatus.WaitingExternal)
         && (ss_status (state_snapshot cp) =?s CHECKPOINT_STATUS_WAITING)
      then mret (OperatorCurrentWait identity (cq_run_id rq))
      else
        workflow_alive ← pid_alive;
        child_alive ← pid_alive;
        if current
           && (bool_decide (status m = RunStatus.Running) || bool_decide (status m = RunStatus.Failed))
           && bool_decide (RunMeta.live_workflow_pid workflow_alive m = None)
           && bool_decide (RunMeta.live_child_pid child_alive m = None)
           && (ss_status (state_snapshot cp) =?s CHECKPOINT_STATUS_READY_TO_RESUME)
           && bool_decide (continuation_rearm_checkpoint_id m = Some identity)
        then mret (OperatorCommittedCheckpoint identity (cq_run_id rq))
        else
          found ← try (get_wait_state (cq_run_id rq));
          mret (match found with
                | Ok (Some wait) =>
                    if (ws_run_id wait =?s cq_run_id rq) && (Schema.checkpoint_id wait =?s identity)
                       && (resume_step wait =?s cp_step_id cp)
                    then TrustedInternalWait identity (cq_run_id rq)
                    else Operator
                | Ok None | Err _ => Operator
                end)
  end.

Definition permits_non_safe_rerun (a : ResumeAuthorization) (cp : Checkpoint) : bool :=
  match a with
  | OperatorCurrentWait identity run | OperatorCommittedCheckpoint identity run
  | TrustedInternalWait identity run => (identity =?s checkpoint_identity cp) && (run =?s cp_run_id cp)
  | Operator => false
  end.

Definition authorizes_cleanup_resume (m : RunMetadata) (rq : ContinuationRequest) (cp : Checkpoint) : bool :=
  if RunMeta.is_ownership_denied_terminal m then false
  else
    match failure_cleanup m, cq_kind rq with
    | Some failure, Resume =>
        let exact := checkpoint_identity cp =?s failed_checkpoint_id failure in
        (negb (cleanup_succeeded failure) && (exact || (cp_step_id cp =?s cleanup_step failure)))
        || (bool_decide (status m = RunStatus.Running) && FailureCleanup.is_complete failure
            && bool_decide (is_Some (recovery_consumed_at failure)) && exact)
    | _, _ => false
    end.

(** The checkpoint a cleanup abandonment may be recovered from, once. *)
Definition authorized_failed_checkpoint (m : RunMetadata) (cp : Checkpoint) : bool :=
  match failure_cleanup m with
  | Some failure =>
      RunMeta.is_cleanup_failure_abandonment m && FailureCleanup.recovery_is_available failure
      && (checkpoint_identity cp =?s failed_checkpoint_id failure)
  | None => false
  end.

Definition checkpoint_is_authorized {E} (m : RunMetadata) (rq : ContinuationRequest) (cp : Checkpoint)
    : M Db E bool :=
  if RunMeta.is_ownership_denied_terminal m then mret false
  else if authorized_failed_checkpoint m cp || authorizes_cleanup_resume m rq cp then mret true
  else grant ← for_resume m rq cp; mret (permits_non_safe_rerun grant cp).

Definition validate_continuation (rq : ContinuationRequest) : M Db PersistenceError ContinuationValidation :=
  found ← map_err Database (get_run_with_conn (cq_run_id rq));
  let exists_check := check_run_exists found (cq_run_id rq) in
  match found with
  | None => mret (from_checks [exists_check])
  | Some m =>
      status_check ← check_resumable_status m rq;
      workspace_check ← check_workspace m;
      selection ← try (select_checkpoint rq m);
      safe_check ←
        match selection with
        | Ok cp =>
            authorized ← checkpoint_is_authorized m rq cp;
            mret [check_safe_step (cp_step_id cp) (cq_force rq) authorized]
        | Err _ => mret []
        end;
      mret (from_checks
        ([exists_check; check_workflow_resolvable m; status_check; check_identity_recoverable m;
          workspace_check; check_checkpoint_exists selection] ++ safe_check))
  end.

(** ** Commit ([commit.rs]) *)

Definition CONTINUABLE_LEASES : list LeaseStatus.t :=
  [LeaseStatus.Claimed; LeaseStatus.Running; LeaseStatus.WaitingExternal; LeaseStatus.ReadyToResume;
   LeaseStatus.Failed; LeaseStatus.Abandoned; LeaseStatus.CleanupAbandoned; LeaseStatus.Stale].

Definition continuation_lease_target (rq : ContinuationRequest) : LeaseStatus.t :=
  match cq_kind rq with Rewind _ => LeaseStatus.ReadyToResume | _ => LeaseStatus.Running end.

Definition acquire_continuation_lease (m : RunMetadata) (rq : ContinuationRequest)
    : M Db ContinuationError unit :=
  match repository m, RunMeta.issue_lease_number m with
  | Some repo, Some number =>
      found ← map_err FromSqlite (get_lease_for_issue repo number);
      match found with
      | None =>
          throw (InvalidTarget ("run " +:+ cq_run_id rq +:+ " references " +:+ repo +:+ "#" +:+ pretty number
            +:+ " but no issue lease exists; the durable claim is missing and continuation cannot proceed authoritatively"))
      | Some lease =>
          match l_run_id lease with
          | None =>
              throw (InvalidTarget ("issue lease " +:+ lease_id lease +:+ " is active without a run owner"))
          | Some owner =>
              if bool_decide (owner <> cq_run_id rq) then
                throw (InvalidTarget ("issue lease " +:+ lease_id lease +:+ " belongs to run " +:+ owner
                                      +:+ " rather than " +:+ cq_run_id rq))
              else
                acquired ← map_err FromSqlite
                  (update_lease_status_conditional (lease_id lease) (continuation_lease_target rq)
                     CONTINUABLE_LEASES (Some (cq_run_id rq)) (Some (cq_run_id rq)));
                if (acquired : bool) then mret tt
                else throw (InvalidTarget ("issue lease " +:+ lease_id lease
                                           +:+ " could not be acquired for continuation"))
          end
      end
  | _, _ => mret tt
  end.

Definition ensure_reopen_claim_is_available (m : RunMetadata) (rq : ContinuationRequest)
    : M Db ContinuationError unit :=
  if negb (reopen_status_is_allowed m rq) then
    throw (InvalidTarget ("run " +:+ cq_run_id rq +:+ " status " +:+ RunStatus.to_string (status m)
      +:+ " is not resumable; terminal states other than failed cannot be continued"))
  else
    acquire_continuation_lease m rq;;
    workflow_alive ← pid_alive;
    match (if bool_decide (status m = RunStatus.Running) then RunMeta.live_workflow_pid workflow_alive m else None) with
    | Some pid =>
        throw (InvalidTarget ("run " +:+ cq_run_id rq +:+ " is already running with live workflow PID "
                              +:+ pretty pid))
    | None =>
        child_alive ← pid_alive;
        match RunMeta.live_child_pid child_alive m with
        | Some pid =>
            throw (InvalidTarget ("run " +:+ cq_run_id rq +:+ " still has live child PID " +:+ pretty pid))
        | None =>
            if RunMeta.is_cleanup_failure_abandonment m then
              match workspace_path m with
              | Some path =>
                  check ← check_cleanup_workspace_ownership path m;
                  if passed check then mret tt
                  else throw (InvalidTarget ("run " +:+ cq_run_id rq +:+ ": " +:+ detail check))
              | None =>
                  throw (InvalidTarget ("run " +:+ cq_run_id rq +:+ " preserved workspace is missing or invalid"))
              end
            else mret tt
        end
    end.

Definition consume_recovery (now : Z) (m : RunMetadata) : RunMetadata :=
  m <| failure_cleanup := (fun f => f <| recovery_consumed_at := Some now |>) <$> failure_cleanup m |>.

Definition force_display (force : bool) : string := if force then "true" else "false".

Definition reopen_detail (rq : ContinuationRequest) (prior : RunStatus.t) (step : string) (m : RunMetadata)
    : string :=
  "continuation=" +:+ verb (cq_kind rq) +:+ " force=" +:+ force_display (cq_force rq)
  +:+ " from_status=" +:+ RunStatus.to_string prior +:+ " resume_step=" +:+ step
  +:+ " failure_checkpoint=" +:+ from_option failed_checkpoint_id "none" (failure_cleanup m).

Definition reopen_run (rq : ContinuationRequest) (step : string) (m : RunMetadata)
    : M Db ContinuationError RunMetadata :=
  let prior := status m in
  m ← (if RunMeta.is_cleanup_failure_abandonment m && bool_decide (is_Some (failure_cleanup m))
       then t ← now; mret (consume_recovery t m) else mret m);
  t ← now;
  let m := RunMeta.reopen process_id t m in
  m ← (if bool_decide (prior = RunStatus.ReadyToResume)
       then t ← now; mret (RunMeta.clear_child_pids t m) else mret m);
  t ← now;
  let m := RunMeta.set_current_step step t m in
  map_err FromSqlite (persist_run_with_conn m);;
  t ← now;
  map_err FromPersistence
    (append_typed_event_with_conn (cq_run_id rq) step "reopened" EventType.StepStart
       (Some (reopen_detail rq prior step m)) t);;
  mret m.

(** The durable wait of a resume is consumed with it. *)
Definition consume_wait (rq : ContinuationRequest) (identity step : string) : M Db ContinuationError unit :=
  match cq_kind rq with
  | Resume =>
      found ← map_err FromSqlite (get_wait_state (cq_run_id rq));
      match found with
      | None => mret tt
      | Some wait =>
          if bool_decide (Schema.checkpoint_id wait <> identity) then
            throw (InvalidTarget ("durable wait checkpoint identity changed before commit: expected "
                                  +:+ identity +:+ ", found " +:+ Schema.checkpoint_id wait))
          else if bool_decide (resume_step wait <> step) then
            throw (InvalidTarget ("durable wait resume step changed before commit: expected " +:+ step
                                  +:+ ", found " +:+ resume_step wait))
          else
            deleted ← map_err FromSqlite
              (delete_wait_state_for_suspension (cq_run_id rq) (suspension_id wait));
            if (deleted : bool) then mret tt
            else throw (InvalidTarget "durable wait suspension changed before commit")
      end
  | Retry _ | Rewind _ => mret tt
  end.

(** The run as it continues from the re-armed checkpoint. *)
Definition rearmed_metadata (planned committed : string) (m : RunMetadata) : RunMetadata :=
  m <| continuation_rearm_checkpoint_id := Some committed |>
    <| failure_cleanup :=
         (fun f => if failed_checkpoint_id f =?s planned
                   then f <| failed_checkpoint_id := committed |> else f) <$> failure_cleanup m |>.

Definition commit_continuation_in_transaction (rq : ContinuationRequest) (bound_identity : string)
    : M Db ContinuationError RunMetadata :=
  found ← map_err FromSqlite (get_run_with_conn (cq_run_id rq));
  m ← lift_res (ok_or found (CRunNotFound (cq_run_id rq)));
  ensure_reopen_claim_is_available m rq;;
  selected ← select_checkpoint rq m;
  let current_identity := checkpoint_identity selected in
  if bool_decide (current_identity <> bound_identity) then
    throw (InvalidTarget ("continuation checkpoint identity changed before commit: expected "
                          +:+ bound_identity +:+ ", selected " +:+ current_identity))
  else
    consume_wait rq current_identity (cp_step_id selected);;
    authorized ← checkpoint_is_authorized m rq selected;
    let safety := check_safe_step (cp_step_id selected) (cq_force rq) authorized in
    if negb (passed safety) then throw (InvalidTarget (detail safety))
    else
      resume_timestamp ← map_err FromPersistence (set_resume_point (cq_run_id rq) (cp_step_id selected));
      let committed := cp_step_id selected +:+ "@" +:+ to_rfc3339 resume_timestamp in
      reopen_run rq (cp_step_id selected) (rearmed_metadata current_identity committed m).

(** [BEGIN IMMEDIATE], the body, [COMMIT]; an error of the body is followed by
    [ROLLBACK], whose own failure is reported with it.  A transaction that was
    not committed leaves nothing behind. *)
Definition immediate_transaction {A} (body : M Db ContinuationError A) : M Db ContinuationError A := fun w =>
  match map_err FromSqlite (query (fun _ => Ok tt)) w with
  | (Err e, w1) => (Err e, w1)
  | (Ok _, w1) =>
      match body w1 with
      | (Ok a, w2) =>
          match map_err FromSqlite (query (fun _ => Ok tt)) w2 with
          | (Ok _, w3) => (Ok a, w3)
          | (Err e, w3) => (Err e, set_db (w_db w) w3)
          end
      | (Err e, w2) =>
          match query (fun _ => Ok tt) w2 with
          | (Ok _, w3) => (Err e, set_db (w_db w) w3)
          | (Err e', w3) => (Err (RollbackFailed e e'), set_db (w_db w) w3)
          end
      end
  end.

Definition commit_continuation (rq : ContinuationRequest) (bound_identity : string)
    : M Db ContinuationError RunMetadata :=
  map_err FromSqlite ensure_table;;
  map_err FromSqlite ensure_table;;
  immediate_transaction (commit_continuation_in_transaction rq bound_identity).
End Operations.

(** ** Lemmas *)

(** A checkpoint of the run that is stored. *)
Definition stored_checkpoint (run : string) (d : Db) (cp : Checkpoint) : Prop :=
  exists row, row ∈ checkpoints d /\ cr_run_id row = run /\ row_to_checkpoint row = cp.

(** The rows of the run's only lease, as the continuation moves it. *)
Definition lease_moved (m : RunMetadata) (rq : ContinuationRequest) (d : Db) (leases : list LeaseRow) : Prop :=
  match repository m, RunMeta.issue_lease_number m with
  | Some repo, Some number =>
      exists old t, issue_row repo number d = Some old /\ l_run_id old = Some (cq_run_id rq) /\
        lease_status_in CONTINUABLE_LEASES old = true /\
        leases = update_where (cas_guard (lease_id old) CONTINUABLE_LEASES (owner_guard (Some (cq_run_id rq))))
                   (cas_row (continuation_lease_target rq) (Some (cq_run_id rq)) t) (issue_leases d)
  | _, _ => leases = issue_leases d
  end.

(** A resume consumes the wait of the run, which names the checkpoint. *)
Definition wait_consumed (rq : ContinuationRequest) (identity step : string) (d : Db) (waits : list WaitRow)
    : Prop :=
  match cq_kind rq, wait_row (cq_run_id rq) d with
  | Resume, Some wait =>
      Schema.checkpoint_id wait = identity /\ resume_step wait = step /\
      waits = delete_where (fun ws => wait_of_run (cq_run_id rq) ws && (suspension_id ws =?s suspension_id wait))
                (wait_states d)
  | _, _ => waits = wait_states d
  end.

Section Lemmas.
Context `{Env} `{Process} `{Rfc3339} `{ErrorText} `{Os} `{OptionDebug} `{ContinuationErrorText}.

Lemma list_checkpoints_wp run (w : World Db) :
  wp (list_checkpoints run) (fun r w' =>
    w_db w' = w_db w /\
    forall cps, r = Ok cps -> Forall (stored_checkpoint run (w_db w)) cps) w.
Proof.
  unfold list_checkpoints. wp_run; (split; [done|]); [done|]. intros cps [= <-].
  apply Forall_forall. intros cp (row & -> & [??]%elem_of_sorted)%list_elem_of_fmap. by exists row.
Qed.

Lemma find_stored run d p cps cp :
  Forall (stored_checkpoint run d) cps -> List.find p cps = Some cp -> stored_checkpoint run d cp.
Proof. intros Hall [Hin%list_elem_of_In _]%find_some. by eapply Forall_forall in Hall. Qed.

Lemma find_rev_stored run d p cps cp :
  Forall (stored_checkpoint run d) cps -> List.find p (rev cps) = Some cp -> stored_checkpoint run d cp.
Proof.
  intros Hall [Hin%in_rev%list_elem_of_In _]%find_some. by eapply Forall_forall in Hall.
Qed.

(** A computation that reads and returns a stored checkpoint of the run. *)
Definition selects run (m : M Db ContinuationError Checkpoint) : Prop :=
  forall w, wp m (fun r w' => w_db w' = w_db w /\
                    forall cp, r = Ok cp -> stored_checkpoint run (w_db w) cp) w.

Lemma checkpoint_of_step_selects run step expected : selects run (checkpoint_of_step run step expected).
Proof.
  intros w. unfold checkpoint_of_step, get_checkpoint_for_step. wp_steps.
  eapply wp_consequence; [apply list_checkpoints_wp|].
  intros [cps|e] w1 [Hw1 Hcps]; wp_steps; [|by split]. specialize (Hcps _ eq_refl).
  destruct (List.find _ cps) as [cp|] eqn:Ef; wp_steps; [|by split].
  pose proof (find_stored _ _ _ _ _ Hcps Ef).
  destruct expected as [t|]; [case_bool_decide|]; wp_steps; split; try done; by intros ? [= <-].
Qed.

Lemma select_rewind_selects run target : selects run (select_rewind_checkpoint run target).
Proof.
  intros w. unfold select_rewind_checkpoint. destruct target as [step|id]; [apply checkpoint_of_step_selects|].
  wp_steps. destruct (parse_checkpoint_identity_target id) as [[step t]|e]; [|by split].
  apply checkpoint_of_step_selects.
Qed.

Lemma select_bound_wp run m (w : World Db) :
  wp (select_failed_cleanup_checkpoint run m) (fun r w' => w_db w' = w_db w /\
    forall cp, r = Ok (Some cp) -> stored_checkpoint run (w_db w) cp) w.
Proof.
  unfold select_failed_cleanup_checkpoint. destruct (bound_failure m) as [failure|]; wp_steps; [|by split].
  eapply wp_consequence; [apply select_rewind_selects|]. intros [cp|e] w1 [Hw1 Hcp]; wp_steps; [|by split].
  split; [done|]. intros cp'. case_bool_decide; intros [= <-]. auto.
Qed.

Lemma select_latest_selects run m : selects run (select_latest run m).
Proof.
  intros w. unfold select_latest. wp_steps. eapply wp_consequence; [apply list_checkpoints_wp|].
  intros [cps|e] w1 [Hw1 Hcps]; wp_steps; [|by split]. specialize (Hcps _ eq_refl).
  case_bool_decide; wp_steps; [by split|]. unfold newest_resumable.
  destruct (List.find _ _) as [cp|] eqn:Ef; wp_steps.
  { split; [done|]. intros ? [= <-]. by eapply find_rev_stored. }
  unfold load_checkpoint_before_step. wp_steps. eapply wp_consequence; [apply list_checkpoints_wp|].
  rewrite Hw1. intros [cps'|e] w2 [Hw2 Hcps']; wp_steps; [|by split]. specialize (Hcps' _ eq_refl).
  destruct (match position _ _ with Some (S _) => _ | _ => _ end) as [cp|] eqn:Eb; wp_steps.
  - split; [done|]. intros ? [= <-]. destruct (position _ _) as [[|n]|]; try done.
    by eapply Forall_lookup_1.
  - split; [done|]. intros cp. destruct (last cps) as [c|] eqn:El; [|done]. intros [= <-].
    apply last_Some_elem_of in El. by eapply Forall_forall in Hcps.
Qed.

Lemma select_resume_selects run m : selects run (select_resume_checkpoint run m).
Proof.
  intros w. unfold select_resume_checkpoint. wp_steps.
  eapply wp_consequence; [apply select_bound_wp|]. intros [[cp|]|e] w1 [Hw1 Hcp]; wp_steps; [| |by split].
  - split; [done|]. intros ? [= <-]. auto.
  - rewrite <- Hw1. apply select_latest_selects.
Qed.

Lemma select_checkpoint_selects rq m : selects (cq_run_id rq) (select_checkpoint rq m).
Proof.
  unfold select_checkpoint. destruct (cq_kind rq) as [|b|target].
  - apply select_resume_selects.
  - intros w. unfold select_retry_checkpoint. wp_steps.
    eapply wp_consequence; [apply select_bound_wp|]. intros [[cp|]|e] w1 [Hw1 Hcp]; wp_steps; [| |by split].
    + split; [done|]. intros ? [= <-]. auto.
    + rewrite <- Hw1. destruct b; [|apply select_resume_selects]. wp_steps.
      eapply wp_consequence; [apply list_checkpoints_wp|]. rewrite Hw1.
      intros [cps|e] w2 [Hw2 Hcps]; wp_steps; [|by split]. specialize (Hcps _ eq_refl).
      split; [done|]. intros cp. destruct (List.find _ _) as [c|] eqn:Ef; [|done]. intros [= <-].
      by eapply find_rev_stored.
  - apply select_rewind_selects.
Qed.

Lemma get_lease_row_wp repo number (w : World Db) :
  wp (get_lease_for_issue repo number) (fun r w' => w_db w' = w_db w /\
    forall found, r = Ok found -> found = row_to_lease <$> issue_row repo number (w_db w)) w.
Proof.
  unfold get_lease_for_issue, issue_number_to_sql_i64. case_decide; wp_run; db_eqs; split; try done.
  by intros found [= <-].
Qed.

(** The lease of the run's issue, moved from a continuable status. *)
Lemma acquire_lease_wp m rq (w : World Db) :
  leases_ok (w_db w) ->
  wp (acquire_continuation_lease m rq) (fun r w' =>
    r = Ok tt -> exists leases, lease_moved m rq (w_db w) leases /\
      w_db w' = (w_db w) <| issue_leases := leases |>) w.
Proof.
  intros [Hids Hissues]. unfold acquire_continuation_lease, lease_moved.
  assert (Hsame : exists leases, leases = issue_leases (w_db w) /\ w_db w = (w_db w) <| issue_leases := leases |>)
    by (eexists; split; [done|]; by destruct (w_db w)).
  destruct (repository m) as [repo|]; [|by wp_steps].
  destruct (RunMeta.issue_lease_number m) as [number|]; [|by wp_steps].
  wp_steps. eapply wp_consequence; [apply get_lease_row_wp|]. intros [found|e] w1 [Hw1 Hf]; wp_steps; [|done].
  rewrite (Hf _ eq_refl). destruct (issue_row repo number (w_db w)) as [old|] eqn:Eo; cbn; [|by wp_steps].
  destruct (l_run_id old) as [owner|] eqn:Er; [|by wp_steps]. case_bool_decide as Hown; [by wp_steps|]. subst.
  wp_steps.
  assert (Hlr : lease_row (lease_id old) (w_db w) = Some old).
  { apply select_first_Some in Eo as [Hin _]. eapply (select_first_key lease_id); [done..|apply lease_named_id|].
    - done.
    - by intros r' ->%lease_named_id. }
  eapply wp_consequence; [apply conditional_update_wp; by rewrite Hw1|].
  intros [[|]|e] w2 Hw2; wp_steps; [|done..]. intros _.
  destruct Hw2 as (old' & t & Hold & Hst & _ & _ & Hdb). rewrite Hw1 in *. rewrite Hlr in Hold.
  injection Hold as <-. eexists. split; [|done]. by exists old, t.
Qed.

Lemma wait_columns row wait :
  row_to_wait_state row = Ok wait ->
  Schema.checkpoint_id wait = Schema.checkpoint_id row /\ resume_step wait = resume_step row /\
  suspension_id wait = suspension_id row.
Proof.
  unfold row_to_wait_state, mbind, Res_bind, mret, Res_ret. intros Hr.
  repeat (case_match; simplify_eq/=; try by split_and!).
Qed.

Lemma consume_claimed_wait_wp rq identity step (w : World Db) :
  wp (consume_wait rq identity step) (fun r w' =>
    r = Ok tt -> exists waits, wait_consumed rq identity step (w_db w) waits /\
      w_db w' = (w_db w) <| wait_states := waits |>) w.
Proof.
  assert (Hsame : exists waits, waits = wait_states (w_db w) /\ w_db w = (w_db w) <| wait_states := waits |>)
    by (eexists; split; [done|]; by destruct (w_db w)).
  unfold consume_wait, wait_consumed. destruct (cq_kind rq); [|by wp_steps..].
  unfold get_wait_state. wp_steps. apply wp_query; intros w1 Hw1; wp_steps; [done|].
  unfold wait_row. destruct (select_first _ _) as [row|] eqn:Er; wp_steps; [|by rewrite Hw1].
  destruct (row_to_wait_state row) as [wait|e] eqn:Ew; cbn; wp_steps; [|done].
  destruct (wait_columns _ _ Ew) as (Hcp & Hrs & Hsus).
  case_bool_decide; wp_steps; [done|]. case_bool_decide; wp_steps; [done|].
  unfold delete_wait_state_for_suspension, delete_waits. wp_run; [done..|].
  destruct (bool_decide _); wp_run; [|done]. intros _. db_eqs. rewrite Hcp, Hrs, Hsus in *.
  eexists. split; [by split_and!|done].
Qed.

(** The wait of the run is gone with its row. *)
Lemma consumed_no_wait rq identity step d waits :
  waits_ok d -> cq_kind rq = Resume -> wait_consumed rq identity step d waits ->
  wait_row (cq_run_id rq) (d <| wait_states := waits |>) = None.
Proof.
  unfold wait_consumed, wait_row. intros Hok -> Hc. cbn. unfold wait_row in Hc.
  destruct (select_first (wait_of_run (cq_run_id rq)) (wait_states d)) as [row|] eqn:Er; [|by subst].
  destruct Hc as (_ & _ & ->). apply (guarded_delete (R := WaitRow) ws_run_id); [done|apply wait_of_run_same|..].
  - by intros r [? _]%andb_true_iff.
  - apply count_where_pos. exists row. apply select_first_Some in Er as [Hin Hrow]. split; [done|].
    by rewrite Hrow, bool_decide_eq_true_2.
Qed.

(** The checkpoint is the run's current wait, or the one an interrupted
    continuation re-armed and nobody runs. *)
Definition current_grant (m : RunMetadata) (cp : Checkpoint) : Prop :=
  current_step m = Some (cp_step_id cp) /\
  (status m = RunStatus.WaitingExternal /\ ss_status (state_snapshot cp) = CHECKPOINT_STATUS_WAITING \/
   (status m = RunStatus.Running \/ status m = RunStatus.Failed) /\
   ss_status (state_snapshot cp) = CHECKPOINT_STATUS_READY_TO_RESUME /\
   continuation_rearm_checkpoint_id m = Some (checkpoint_identity cp) /\
   exists n n', RunMeta.live_workflow_pid (os_pid_alive n) m = None /\
     RunMeta.live_child_pid (os_pid_alive n') m = None).

(** What lets a step outside the safe ones run again, once the wait is consumed. *)
Definition entitled (m : RunMetadata) (rq : ContinuationRequest) (cp : Checkpoint) : Prop :=
  RunMeta.is_ownership_denied_terminal m = false /\
  (authorized_failed_checkpoint m cp = true \/ authorizes_cleanup_resume m rq cp = true \/
   cq_kind rq = Resume /\ current_grant m cp).

Lemma for_resume_wp m rq cp (w : World Db) :
  (cq_kind rq = Resume -> wait_row (cq_run_id rq) (w_db w) = None) ->
  wp (for_resume m rq cp : M Db ContinuationError _) (fun r w' =>
    w_db w' = w_db w /\
    forall g, r = Ok g -> g = Operator \/ cq_kind rq = Resume /\ current_grant m cp) w.
Proof.
  intros Hwait. unfold for_resume. destruct (cq_kind rq) eqn:Ek; [|wp_steps; split; naive_solver..].
  specialize (Hwait eq_refl).
  wp_if Ew.
  { split; [done|]. intros g _. right. split; [done|]. bool_hyps. split; auto. }
  unfold pid_alive. wp_steps. wp_if Ec.
  { split; [congruence|]. intros g _. right. split; [done|]. bool_hyps. split; [done|]. right.
    split_and!; try done; [destruct_or?; bool_hyps; auto|eauto]. }
  unfold get_wait_state. apply wp_query; intros w3 Hw3; wp_steps.
  all: split; [congruence|]; intros g [= <-]; left; try done.
  unfold wait_row in Hwait. db_eqs. by rewrite Hwait.
Qed.

Lemma authorized_wp m rq cp (w : World Db) :
  (cq_kind rq = Resume -> wait_row (cq_run_id rq) (w_db w) = None) ->
  wp (checkpoint_is_authorized m rq cp : M Db ContinuationError bool) (fun r w' =>
    w_db w' = w_db w /\ (r = Ok true -> entitled m rq cp)) w.
Proof.
  intros Hwait. unfold checkpoint_is_authorized, entitled.
  destruct (RunMeta.is_ownership_denied_terminal m) eqn:Eo; wp_steps; [by split|].
  wp_if Ef.
  { split; [done|]. intros _. split; [done|]. bool_hyps. tauto. }
  eapply wp_consequence; [by apply for_resume_wp|]. intros [g|e] w1 [Hw1 Hg]; wp_steps; [|by split].
  split; [done|]. destruct (Hg _ eq_refl) as [->|Hgrant]; [done|auto].
Qed.

(** Nobody runs the run, and the workspace a cleanup abandonment preserved is
    verified to be the run's. *)
Definition unclaimed (m : RunMetadata) : Prop :=
  (status m = RunStatus.Running -> exists n, RunMeta.live_workflow_pid (os_pid_alive n) m = None) /\
  (exists n, RunMeta.live_child_pid (os_pid_alive n) m = None) /\
  (RunMeta.is_cleanup_failure_abandonment m = true ->
   exists path n, workspace_path m = Some path /\
     fst (Ownership.run os_handle (verify_workspace_ownership path (run_id m)) (os_at n)) = None).

Lemma cleanup_workspace_wp {E} path m (w : World Db) :
  wp (check_cleanup_workspace_ownership path m : M Db E SafetyCheck) (fun r w' => w_db w' = w_db w /\
    forall check, r = Ok check -> passed check = true ->
    exists n, fst (Ownership.run os_handle (verify_workspace_ownership path (run_id m)) (os_at n)) = None) w.
Proof.
  unfold check_cleanup_workspace_ownership, is_directory. wp_steps. apply wp_sys. intros n0 [st|e] w0 _ Hw0; wp_steps.
  2: { split; [done|]. by intros check [= <-]. }
  wp_if Es. { split; [done|]. by intros check [= <-]. }
  wp_if Ed. { split; [congruence|]. by intros check [= <-]. }
  apply wp_sys. intros n1 refused w1 Hr Hw1. wp_steps. split; [congruence|]. intros check [= <-] Hpass. exists n1.
  by destruct refused.
Qed.

Lemma reopen_claim_wp m rq (w : World Db) :
  leases_ok (w_db w) ->
  wp (ensure_reopen_claim_is_available m rq) (fun r w' =>
    r = Ok tt -> reopen_status_is_allowed m rq = true /\ unclaimed m /\
      exists leases, lease_moved m rq (w_db w) leases /\ w_db w' = (w_db w) <| issue_leases := leases |>) w.
Proof.
  intros Hok. unfold ensure_reopen_claim_is_available, unclaimed. wp_if Er; [done|]. bool_hyps.
  eapply wp_consequence; [by apply acquire_lease_wp|]. intros [[]|e] w1 Hl; wp_steps; [|done].
  destruct (Hl eq_refl) as (leases & Hmoved & Hdb). unfold pid_alive. wp_steps.
  destruct (if bool_decide (status m = _) then _ else _) as [pid|] eqn:Ep; wp_steps; [done|].
  destruct (RunMeta.live_child_pid _ m) as [pid|] eqn:Ec; wp_steps; [done|].
  assert (Hrunning : status m = RunStatus.Running ->
    exists n, RunMeta.live_workflow_pid (os_pid_alive n) m = None).
  { intros Hrun. rewrite bool_decide_eq_true_2 in Ep by done. eauto. }
  wp_if Ea.
  - destruct (workspace_path m) as [path|] eqn:Epath; wp_steps; [|done].
    eapply wp_consequence; [apply cleanup_workspace_wp|]. intros [check|e] w4 [Hw4 Hc]; wp_steps; [|done].
    wp_if Epass; [|done]. intros _. split_and!; [done..|eauto| |].
    + intros _. destruct (Hc _ eq_refl Epass) as [k Hk]. eauto.
    + exists leases. split; [done|congruence].
  - intros _. split_and!; [done..|eauto|done|]. exists leases. split; [done|congruence].
Qed.

(** The run as it was reopened. *)
Definition reopened (step : string) (consumed touched : Z) (m : RunMetadata) : RunMetadata :=
  m <| status := RunStatus.Running |> <| process_pid := Some process_id |>
    <| current_step := Some step |> <| updated_at := Some touched |>
    <| child_pids := if bool_decide (status m = RunStatus.ReadyToResume) then [] else child_pids m |>
    <| failure_cleanup :=
         if RunMeta.is_cleanup_failure_abandonment m
         then (fun f => f <| recovery_consumed_at := Some consumed |>) <$> failure_cleanup m
         else failure_cleanup m |>.

Definition reopen_event (rq : ContinuationRequest) (prior : RunStatus.t) (step : string) (m' : RunMetadata) (t : Z)
    : EventRecord :=
  mkEventRecord (cq_run_id rq) step "reopened" (EventType.to_string EventType.StepStart)
    (Some (reopen_detail rq prior step m')) t.

(** The steps of [reopen_run] on the record, together. *)
Lemma reopened_steps step t0 t1 t2 t3 m :
  (let m1 := if RunMeta.is_cleanup_failure_abandonment m && bool_decide (is_Some (failure_cleanup m))
             then consume_recovery t0 m else m in
   let m2 := RunMeta.reopen process_id t1 m1 in
   RunMeta.set_current_step step t3
     (if bool_decide (status m = RunStatus.ReadyToResume) then RunMeta.clear_child_pids t2 m2 else m2))
  = reopened step t0 t3 m.
Proof.
  unfold reopened, RunMeta.set_current_step, RunMeta.clear_child_pids, RunMeta.reopen, consume_recovery.
  destruct (bool_decide (status m = _)), (RunMeta.is_cleanup_failure_abandonment m); cbn;
    destruct m as [? ? ? ? ? ? ? ? ? ? ? ? ? ? ? ? ? ? ? ? [f|] ?]; reflexivity.
Qed.

Lemma reopen_run_wp rq step m (w : World Db) :
  wp (reopen_run rq step m) (fun r w' =>
    forall m', r = Ok m' -> exists consumed touched logged, m' = reopened step consumed touched m /\
      w_db w' = let d := run_saved m' (w_db w) in
                d <| events := events d ++ [reopen_event rq (status m) step m' logged] |>) w.
Proof.
  unfold reopen_run. wp_steps.
  pose proof (reopened_steps step) as Hm. specialize (fun t0 t1 t2 t3 => Hm t0 t1 t2 t3 m).
  wp_if Ea; wp_if Er; rewrite ?Ea, ?Er in Hm; cbv zeta in Hm;
    first [rewrite Hm by exact 0%Z|rewrite (Hm 0%Z) by exact 0%Z].
  all: eapply wp_consequence; [apply persist_run_wp|]; intros [[]|e] w9 Hw9; wp_steps; [|done].
  all: eapply wp_consequence; [apply append_event_wp|]; intros [[]|e] w11 Hw11; wp_steps; [|done].
  all: intros m' [= <-]; eexists _, _, _; split; [reflexivity|db_eqs; reflexivity].
Qed.

Lemma wp_immediate {A} (body : M Db ContinuationError A) Q (w : World Db) :
  (forall e w', w_db w' = w_db w -> Q (Err e) w') ->
  (forall w1, w_db w1 = w_db w ->
     wp body (fun r w2 => match r with Ok a => forall w3, w_db w3 = w_db w2 -> Q (Ok a) w3 | Err _ => True end) w1) ->
  wp (immediate_transaction body) Q w.
Proof.
  intros Herr Hbody. unfold wp, immediate_transaction, map_err, query.
  destruct (env_fault (w_stmt w)); cbn; [by apply Herr|].
  specialize (Hbody (next_stmt w) eq_refl). unfold wp in Hbody.
  destruct (body (next_stmt w)) as [[a|e] w2]; cbn in *;
    destruct (env_fault (w_stmt w2)); cbn; solve [by apply Herr|by apply Hbody].
Qed.

(** What a committed continuation found and left. *)
Definition continued (rq : ContinuationRequest) (bound : string) (d d' : Db) (m' : RunMetadata) : Prop :=
  exists row m cp leases waits t consumed touched logged,
    run_row (cq_run_id rq) d = Some row /\ map_run_row row = Ok m /\
    reopen_status_is_allowed m rq = true /\ unclaimed m /\
    stored_checkpoint (cq_run_id rq) d cp /\ checkpoint_identity cp = bound /\
    (is_safe_rerun_step (cp_step_id cp) = true \/ entitled m rq cp) /\
    lease_moved m rq d leases /\ wait_consumed rq bound (cp_step_id cp) d waits /\
    m' = reopened (cp_step_id cp) consumed touched
           (rearmed_metadata bound (cp_step_id cp +:+ "@" +:+ to_rfc3339 t) m) /\
    d' = d <| issue_leases := leases |> <| wait_states := waits |>
           <| checkpoints := update_where (checkpoint_at (cq_run_id rq) (cp_step_id cp)) (rearm_row t) (checkpoints d) |>
           <| runs := runs (run_saved m' d) |>
           <| events := events d ++ [reopen_event rq (status m) (cp_step_id cp) m' logged] |>.

Lemma commit_body_wp rq bound (w : World Db) :
  tables_ok (w_db w) ->
  wp (commit_continuation_in_transaction rq bound)
     (fun r w' => forall m', r = Ok m' -> continued rq bound (w_db w) (w_db w') m') w.
Proof.
  intros (Hleases & _ & Hwaits). unfold commit_continuation_in_transaction. wp_steps.
  eapply wp_consequence; [apply get_run_wp|]. intros [[m|]|e] w1 [Hw1 Hm]; wp_steps; cbn [ok_or]; wp_steps; [|done..].
  destruct Hm as (_ & _ & row & Hrow & Hmap).
  eapply wp_consequence; [apply reopen_claim_wp; by rewrite Hw1|]. intros [[]|e] w2 Hw2; wp_steps; [|done].
  destruct (Hw2 eq_refl) as (Hallowed & Hunclaimed & leases & Hmoved & Hdb2). rewrite Hw1 in *. clear Hw2.
  eapply wp_consequence; [apply select_checkpoint_selects|]. intros [cp|e] w3 [Hw3 Hcp]; wp_steps; [|done].
  specialize (Hcp _ eq_refl). rewrite Hdb2 in *. case_bool_decide as Hid; wp_steps; [done|].
  eapply wp_consequence; [apply consume_claimed_wait_wp|]. intros [[]|e] w4 Hw4; wp_steps; [|done].
  destruct (Hw4 eq_refl) as (waits & Hconsumed & Hdb4). rewrite Hw3 in *. clear Hw4.
  eapply wp_consequence.
  { apply authorized_wp. intros Hk. rewrite Hdb4. by eapply consumed_no_wait. }
  intros [authorized|e] w5 [Hw5 Hauth]; wp_steps; [|done].
  wp_if Esafe; [done|]. eapply wp_consequence; [apply set_resume_point_wp|].
  intros [t|e] w6 Hw6; wp_steps; [|done]. destruct Hw6 as [Hdb6 _].
  eapply wp_consequence; [apply reopen_run_wp|]. intros r w7 Hr m' ->.
  destruct (Hr _ eq_refl) as (consumed & touched & logged & -> & Hdb7). clear Hr. subst bound.
  exists row, m, cp, leases, waits, t, consumed, touched, logged. split_and!; try done.
  - apply negb_false_iff in Esafe. revert Esafe. unfold check_safe_step.
    destruct (is_safe_rerun_step (cp_step_id cp)); [by left|]. destruct authorized; [|done]. auto.
  - rewrite Hdb7, Hdb6, Hw5, Hdb4. by destruct (w_db w).
Qed.

(** C21: a continuation commits all its effects or none: an error leaves the
    database exactly as it was; a success found a run that may reopen and that
    nobody runs, selected exactly the checkpoint that was planned, safe to run
    again or entitled to, moved the run's own lease from a continuable status,
    consumed the wait, re-armed the checkpoint, reopened the run under this
    process and logged it, and changed nothing else. *)
Theorem commit_continuation_atomic rq bound (w : World Db) :
  tables_ok (w_db w) ->
  match commit_continuation rq bound w with
  | (Ok m', w') => continued rq bound (w_db w) (w_db w') m'
  | (Err _, w') => w_db w' = w_db w
  end.
Proof.
  intros Hok.
  enough (wp (commit_continuation rq bound) (fun r w' =>
            match r with Ok m' => continued rq bound (w_db w) (w_db w') m' | Err _ => w_db w' = w_db w end) w)
    as Hwp by (revert Hwp; unfold wp; by destruct (commit_continuation rq bound w) as [[]]).
  unfold commit_continuation, ensure_table. wp_steps.
  apply wp_execute; [done|done|]. intros [] d w1 [= <-] Hw1. wp_steps.
  apply wp_execute; [congruence|done|]. intros [] d w2 [= <-] Hw2. wp_steps.
  apply wp_immediate; [congruence|]. intros w3 Hw3. rewrite <- Hw1, <- Hw2, <- Hw3 in *.
  eapply wp_consequence; [by apply commit_body_wp|]. intros [m'|e] w4 Hc; [|done]. intros w5 ->. auto.
Qed.
End Lemmas.

(** The row a run was saved as reads back with its status and process. *)
Lemma map_run_row_bind m m2 :
  map_run_row (bind_run_metadata_params m) = Ok m2 ->
  status m2 = status m /\ process_pid m2 = as_u32 <$> process_pid m.
Proof.
  unfold map_run_row, bind_run_metadata_params, parse_run_status. cbn.
  pose proof (from_to_text (A := RunStatus.t) (status m)) as Hs. cbn in Hs. rewrite Hs. by intros [= <-].
Qed.

(** A committed continuation claims the run for its process: while that
    process lives and the run's record is as the commit left it, no other
    continuation of the run - forced or not, of any kind, from any plan - can
    commit, and the attempt changes nothing. *)
Theorem continuation_exclusive `{Env} `{Process} `{Rfc3339} `{ErrorText} `{Os} `{OptionDebug}
    `{ContinuationErrorText} rq rq' bound bound' (w w2 : World Db) m' w1 :
  tables_ok (w_db w) -> tables_ok (w_db w2) ->
  is_u32 process_id -> (forall n, os_pid_alive n process_id = true) ->
  commit_continuation rq bound w = (Ok m', w1) ->
  cq_run_id rq' = cq_run_id rq -> run_row (cq_run_id rq) (w_db w2) = run_row (cq_run_id rq) (w_db w1) ->
  exists e w3, commit_continuation rq' bound' w2 = (Err e, w3) /\ w_db w3 = w_db w2.
Proof.
  intros Hok Hok2 Hpid Halive Hc Hrun Hrow.
  pose proof (commit_continuation_atomic rq bound w Hok) as Ha. rewrite Hc in Ha.
  pose proof (commit_continuation_atomic rq' bound' w2 Hok2) as Hb.
  destruct (commit_continuation rq' bound' w2) as [[m2|e] w3]; [exfalso|eauto].
  destruct Ha as (row & m & cp & ls & ws & t & cs & tc & lg & Hr1 & Hm1 & _ & _ & _ & _ & _ & _ & _ & Hm' & Hdb).
  destruct Hb as (row2 & m3 & cp2 & _ & _ & _ & _ & _ & _ & Hr2 & Hm2 & _ & (Hlive & _) & _).
  assert (Hid : run_id m' = cq_run_id rq).
  { rewrite Hm'. cbn. unfold map_run_row in Hm1. apply select_first_Some in Hr1 as [_ <-%run_named_id].
    destruct (parse_run_status 3 (status row)); [|done]. by injection Hm1 as <-. }
  assert (Hsaved : run_row (cq_run_id rq) (w_db w1) = Some (bind_run_metadata_params m')).
  { rewrite Hdb, <- Hid. apply (run_saved_row m' (w_db w)). }
  rewrite Hrun, Hrow, Hsaved in Hr2. injection Hr2 as <-.
  apply map_run_row_bind in Hm2 as [Hst Hp]. rewrite Hm' in Hst, Hp. cbn in Hst, Hp.
  rewrite as_u32_id in Hp by done. destruct (Hlive Hst) as [n Hn].
  unfold RunMeta.live_workflow_pid, RunMeta.is_pid_stale in Hn. rewrite Hp in Hn. cbn in Hn.
  by rewrite Halive in Hn.
Qed.

(** ** A continuation *)

#[local] Existing Instances calm plain_text.
#[local] Instance continuing_process : Process := {| process_id := 42; to_rfc3339 t := pretty t |}.
#[local] Instance decimal_rfc3339 : Rfc3339 := {|
  parse_rfc3339 s := parse_u64 s;
  parse_rfc3339_error s := "input contains invalid characters"
|}.
#[local] Instance continuing_os : Os := {|
  os_pid_alive _ pid := bool_decide (pid = 42)%Z;
  os_is_dir _ _ := false;
  os_files := unit;
  os_handle := sample_handle "";
  os_at _ := tt
|}.
#[local] Instance short_debug : OptionDebug := fun o => default "None" o.
#[local] Instance short_errors : ContinuationErrorText := fun _ => "error".

(** A failed run of issue 7, waiting checks to watch again. *)
Definition failed_run (s : RunStatus.t) (step : string) : RunMetadata :=
  (RunMeta.new "run-1" "wf" "cfg" 1%Z) <| status := s |> <| current_step := Some step |>
    <| repository := Some "o/r" |> <| issue_number := Some 7%Z |>.
Definition failed_db (m : RunMetadata) (step cp_status : string) : Db :=
  empty_db <| runs := [bind_run_metadata_params m] |>
    <| checkpoints := [checkpoint_to_row (mkCheckpoint "run-1" step (mkStateSnapshot 0 0 ∅ ∅ cp_status) 5)] |>
    <| issue_leases := [mkLease "l7" "o/r" 7 "cfg" (Some "run-1") "failed" 1 1 1] |>.
Definition watching_db : Db := failed_db (failed_run RunStatus.Failed "watch_pr_checks") "watch_pr_checks" "waiting".
Definition resume_run_1 : ContinuationRequest := mkContinuationRequest "run-1" Resume false.

Example resume_commits : exists m' w',
  commit_continuation resume_run_1 "watch_pr_checks@5" (start watching_db) = (Ok m', w') /\
  status m' = RunStatus.Running /\ process_pid m' = Some 42%Z.
Proof. eexists _, _. vm_compute. split; [reflexivity|done]. Qed.

Lemma commit_continuation_atomic_witness :
  let w := start watching_db in
  let w' := snd (commit_continuation resume_run_1 "watch_pr_checks@5" w) in
  tables_ok (w_db w) /\
  exists m', fst (commit_continuation resume_run_1 "watch_pr_checks@5" w) = Ok m' /\
    continued resume_run_1 "watch_pr_checks@5" (w_db w) (w_db w') m'.
Proof.
  assert (Hok : tables_ok (w_db (start watching_db))) by by_computation.
  intros w w'. split; [exact Hok|].
  pose proof (commit_continuation_atomic resume_run_1 "watch_pr_checks@5" (start watching_db) Hok) as Hc.
  destruct resume_commits as (m' & w1 & Hrun & _). exists m'. unfold w', w. rewrite Hrun in Hc |- *.
  split; [reflexivity|exact Hc].
Defined.

Lemma continuation_exclusive_witness :
  let w := start watching_db in
  let first := commit_continuation resume_run_1 "watch_pr_checks@5" w in
  let forced := mkContinuationRequest "run-1" (Retry false) true in
  exists e w3, commit_continuation forced "watch_pr_checks@102" (snd first) = (Err e, w3) /\
    w_db w3 = w_db (snd first).
Proof.
  intros w first forced. destruct resume_commits as (m' & w1 & Hrun & _).
  apply (continuation_exclusive resume_run_1 forced "watch_pr_checks@5" "watch_pr_checks@102" w (snd first)
           m' (snd first)); [by_computation|by_computation|by_computation|reflexivity| |reflexivity|reflexivity].
  unfold first, w. rewrite Hrun. reflexivity.
Defined.

(** A child that was interrupted while it waited: the durable wait names its
    checkpoint, so the plan is valid; the commit consumes the wait before it
    looks for the grant the wait gives, and refuses the plan it validated. *)
Definition interrupted_db : Db :=
  (failed_db (failed_run RunStatus.Failed "develop") "develop" "interrupted")
    <| wait_states := match record_params ((new_wait "s-1" "run-1" "cfg" 50)
         <| ws_lease_id := Some "l7" |> <| resume_step := "develop" |> <| Schema.checkpoint_id := "develop@5" |>) with
       | Ok row => [row] | Err _ => [] end |>.

Example trusted_wait_denied :
  (exists v w', validate_continuation resume_run_1 (start interrupted_db) = (Ok v, w') /\ ok v = true) /\
  fst (commit_continuation resume_run_1 "develop@5" (start interrupted_db)) =
    Err (InvalidTarget "step develop is not safe to re-run").
Proof. split; [eexists _, _; split; [vm_compute; reflexivity|reflexivity]|vm_compute; reflexivity]. Qed.

(** A failed checkpoint that no longer exists stops the selection: there is no
    falling back to the run's newest checkpoint. *)
Definition lost_failure : FailureCleanupState :=
  mkFailureCleanupState 1 "develop" "fatal" "r" "develop@4" (mkStateSnapshot 0 0 ∅ ∅ "") "cleanup" false 5 None None
    false.

Example lost_checkpoint_stops :
  fst (select_resume_checkpoint "run-1" ((failed_run RunStatus.Failed "watch_pr_checks")
         <| failure_cleanup := Some lost_failure |>) (start watching_db)) =
    Err (CheckpointNotFound "run-1:develop").
Proof. vm_compute. reflexivity. Qed.
