(* ===== verification/Recovery.v ===== *)
(** The recovery protocol ([engine/recovery/protocol/], [engine/recovery/policy.rs],
    [engine/recovery/adapters/], [engine/recovery/salvage.rs]): a recovery is
    prepared from what is durable, reserved in one transaction that claims the
    run's epoch, executed outside every transaction, and finalized in another.

    The executor is an arbitrary computation on the database; the observer
    called between the phases an arbitrary change of the world; what the file
    system answers when ownership is adjudicated in each of the two phases is a
    [Disk]. *)
From Stdlib Require String.
From S2P Require Import Prelude Effects Digest Sql Status Schema Checkpoints Leases Runs WaitStates Provenance RecoveryStores Capsules StepContext Ownership.

(** ** Policies ([policy.rs], [engine/continuation.rs]) *)

Module RefusalReason.
Inductive t :=
| NonRecoverable
| VerificationFailed (detail : string)
| NotAuthorized
| SalvageOnly
| ConflictingOperation.

Global Instance eq_dec : EqDecision t.
Proof. solve_decision. Defined.
End RefusalReason.

Module RecoveryStrategy.
Inductive t :=
| ContinueWorkspace
| Reenter
| ReconcileThenReenter
| CompensateThenRetry
| Refused (reason : RefusalReason.t).

Global Instance eq_dec : EqDecision t.
Proof. solve_decision. Defined.
End RecoveryStrategy.

Definition policy_for_step (step_def : StepDef) (step_id : string) : StepRecoveryPolicy :=
  match sd_recovery_policy step_def with
  | Some declared => declared
  | None => if is_safe_rerun_step step_id then Idempotent else NonRecoverable
  end.

Definition select_strategy (policy : StepRecoveryPolicy) : RecoveryStrategy.t :=
  match policy with
  | PureReenter => RecoveryStrategy.Reenter
  | Idempotent => RecoveryStrategy.Reenter
  | ReconcileThenReenter => RecoveryStrategy.ReconcileThenReenter
  | ContinueWorkspace => RecoveryStrategy.ContinueWorkspace
  | CompensateThenRetry => RecoveryStrategy.CompensateThenRetry
  | NonRecoverable => RecoveryStrategy.Refused RefusalReason.NonRecoverable
  end.

(** ** Adapters ([adapters/mod.rs], [adapters/v1.rs]) *)

Inductive AdapterError :=
| UnsupportedCapsuleVersion (version : Z)
| StepNotFound (step_id : string)
| Deserialization (message : string).

(** [serde_json] on the canonical bytes of a workflow, with its error rendered. *)
Class WorkflowDecoder := workflow_from_slice : Bytes -> Res string WorkflowType.

(** [adapter_for]: one adapter is registered, for version 1. *)
Inductive CapsuleAdapter := V1Adapter.

Definition adapter_for (c : ExecutionCapsuleV1) : Res AdapterError CapsuleAdapter :=
  if (ec_schema_version c =? 1)%Z then Ok V1Adapter
  else Err (UnsupportedCapsuleVersion (ec_schema_version c)).

Definition step_def_for `{WorkflowDecoder} (a : CapsuleAdapter) (c : ExecutionCapsuleV1) (step_id : string)
    : Res AdapterError StepDef :=
  match a with
  | V1Adapter =>
      workflow ← res_map_err Deserialization (workflow_from_slice (ec_resolved_workflow_bytes c));
      ok_or (List.find (fun step => sd_step_id step =?s step_id) (steps workflow)) (StepNotFound step_id)
  end.

(** ** The protocol's data ([protocol/mod.rs], [protocol/executor.rs]) *)

Definition RECOVERY_LEASE_MINUTES : Z := 5.
(** [chrono::Duration::minutes], in nanoseconds. *)
Definition minutes (n : Z) : Z := (n * 60000000000)%Z.

Inductive OperatorVerb := Resume | Retry | Rewind.

Definition normalize_operator_verb (v : OperatorVerb) : string :=
  match v with Resume => "resume" | Retry => "retry" | Rewind => "rewind" end.

Record RecoveryRequest := mkRecoveryRequest {
  rq_run_id : string;
  rq_step_id : string;
  rq_expected_epoch : Z;
  rq_operator_verb : OperatorVerb
}.

Record CheckpointIdentity := mkCheckpointIdentity { ci_checkpoint_id : string; ci_step_id : string }.

Global Instance checkpoint_identity_eq_dec : EqDecision CheckpointIdentity.
Proof. solve_decision. Defined.

Record RecoveryAuthority := mkRecoveryAuthority {
  ra_workspace_authorization : option WorkspaceAuthorization;
  ra_capsule : ExecutionCapsuleV1;
  ra_source_attempt : option Attempts.AttemptRow;
  ra_policy : StepRecoveryPolicy;
  ra_strategy : RecoveryStrategy.t
}.

Record PreparedRecovery := mkPreparedRecovery {
  authority : RecoveryAuthority;
  expected_epoch : Z;
  step_id : string;
  operator_verb : OperatorVerb;
  operation_id : string;
  logical_request_key : string;
  intent_digest : string;
  run_status : RunStatus.t;
  pr_current_step : option string;
  live_pid : option Z;
  checkpoint_identity : option CheckpointIdentity;
  wait_state : option WaitStateRecord;
  lease : option IssueLease;
  verified_workspace : option WorkspaceAnchor;
  workspace_path : string
}.

Inductive RecoveryOutcome :=
| Recovered (resumed_at_step : string) (attempt_id : Z) (operation_id : string)
| AlreadyApplied (prior_outcome : string) (attempt_id : Z) (operation_id : string)
| Refused (reason : RefusalReason.t)
| StaleEpoch (persisted expected : Z)
| Conflict (detail : string).

(** What the message of a persistence error renders. *)
Inductive PersistenceDetail :=
| SqlDetail (context : string) (e : SqlError)
| CheckpointDetail (context : string) (e : PersistenceError)
| TextDetail (message : string).

Inductive CapsuleDetail :=
| EnvelopeDetail (e : CapsuleError)
| AdapterDetail (e : AdapterError).

Inductive RecoveryError :=
| Persistence (detail : PersistenceDetail)
| CapsuleFailed (detail : CapsuleDetail)
| Verification (detail : string)
| OperationConflict (detail : string)
| WorkspaceNotOwned
| AuthorityChanged
| WorkspaceAuthorizationRevoked
| Execution (detail : string).

Record ReservedRecovery := mkReservedRecovery {
  rv_operation_id : string;
  rv_attempt_id : Z;
  rv_epoch : Z
}.

Inductive ReserveOutcome :=
| Proceed (reserved : ReservedRecovery)
| ShortCircuit (outcome : RecoveryOutcome).

Record RecoveryExecutionInvocation := mkInvocation {
  in_run_id : string;
  in_step_id : string;
  in_operation_id : string;
  in_attempt_id : Z;
  in_epoch : Z;
  in_strategy : RecoveryStrategy.t;
  in_capsule : ExecutionCapsuleV1;
  in_workspace : string
}.

Record RecoveryExecutionResult := mkExecutionResult {
  xr_step_status : string;
  xr_state_snapshot : StateSnapshot;
  xr_runner_result : option Json
}.

Inductive RecoveryExecutionError :=
| Unavailable (detail : string)
| ExecutionFailed (detail : string).

Definition execution_error_to_string (e : RecoveryExecutionError) : string :=
  match e with
  | Unavailable detail => "recovery executor unavailable: " +:+ detail
  | ExecutionFailed detail => "recovery execution failed: " +:+ detail
  end.

Definition map_execution_error (e : RecoveryExecutionError) : RecoveryError :=
  Execution (execution_error_to_string e).

(** [dyn RecoveryExecutor] and [dyn RecoveryPhaseObserver]. *)
Definition RecoveryExecutor : Type :=
  RecoveryExecutionInvocation -> M Db RecoveryExecutionError RecoveryExecutionResult.
Definition RecoveryPhaseObserver : Type := RecoveryRequest -> World Db -> World Db.

Definition UnavailableRecoveryExecutor : RecoveryExecutor := fun _ =>
  throw (Unavailable "no recovery executor is configured (P12 provides the capsule-backed runner adapter)").
Definition NoOpRecoveryPhaseObserver : RecoveryPhaseObserver := fun _ w => w.

Definition map_persist (context : string) (e : SqlError) : RecoveryError :=
  Persistence (SqlDetail context e).
Definition map_adapter (e : AdapterError) : RecoveryError := CapsuleFailed (AdapterDetail e).

Definition run_id_of (p : PreparedRecovery) : string := ec_run_id (ra_capsule (authority p)).
Definition source_attempt_id_of (p : PreparedRecovery) : option Z :=
  Attempts.attempt_id <$> ra_source_attempt (authority p).

(** The two adjudications of a recovery, and the file system at each. *)
Inductive ProtocolPhase := AtPrepare | AtReserve.
Class Disk := {
  disk_state : Type;
  disk_handle : forall c, disk_state -> answer c * disk_state;
  disk_at : ProtocolPhase -> disk_state
}.

Definition checkpoint_identity_of `{Process} (c : Checkpoint) : CheckpointIdentity :=
  mkCheckpointIdentity (Checkpoints.checkpoint_identity c) (cp_step_id c).

Section Protocol.
Context `{Env} `{Sha256} `{CapsuleCodec} `{RecoveryCodec} `{WorkflowDecoder} `{ErrorText} `{Disk} `{Process}.

Definition adjudicate_at (phase : ProtocolPhase) (workspace run_id : string) : OwnershipVerdict :=
  fst (Ownership.run disk_handle (adjudicate_workspace_ownership workspace run_id) (disk_at phase)).

(** ** Prepare ([protocol/prepare.rs]) *)

Definition load_checkpoint_identity (context run : string)
    : M Db RecoveryError (option CheckpointIdentity) :=
  checkpoint ← map_err (fun e => Persistence (CheckpointDetail context e)) (load_checkpoint_with_conn run);
  mret (checkpoint_identity_of <$> checkpoint).

(** [load_issue_lease] and [load_reserve_lease]: by run, else by issue; an
    error of either reads as no lease. *)
Definition load_issue_lease (metadata : RunMetadata) : M Db RecoveryError (option IssueLease) :=
  match repository metadata, RunMeta.issue_lease_number metadata with
  | Some repo, Some issue_number =>
      by_run ← try (get_lease_for_run (run_id metadata));
      match by_run with
      | Ok (Some lease) => mret (Some lease)
      | Ok None | Err _ =>
          by_issue ← try (get_lease_for_issue repo issue_number);
          mret (res_ok by_issue ≫= id)
      end
  | _, _ => mret None
  end.

Record RecoveryBindings := mkBindings {
  rb_operation_id : string;
  rb_logical_request_key : string;
  rb_intent_digest : string
}.

Definition compute_bindings (request : RecoveryRequest) (c : ExecutionCapsuleV1)
    (source_attempt : option Attempts.AttemptRow) : RecoveryBindings :=
  let normalized_intent := normalize_operator_verb (rq_operator_verb request) in
  let source_attempt_id := Attempts.attempt_id <$> source_attempt in
  mkBindings
    (Operations.compute_operation_id (rq_run_id request) (rq_step_id request) (ec_envelope_digest c)
       source_attempt_id normalized_intent)
    (Operations.compute_logical_request_key (rq_run_id request) source_attempt_id normalized_intent)
    (Operations.compute_intent_digest normalized_intent).

Definition resolve_step_def (c : ExecutionCapsuleV1) (step : string) : Res RecoveryError StepDef :=
  adapter ← res_map_err map_adapter (adapter_for c);
  res_map_err map_adapter (step_def_for adapter c step).

Definition anchor_workspace_ownership (workspace run : string) (strategy : RecoveryStrategy.t)
    : Res RecoveryError (option WorkspaceAnchor * option WorkspaceAuthorization) :=
  match adjudicate_at AtPrepare workspace run with
  | Owned verified => Ok (Some verified, Some (authorization verified))
  | NoEvidence =>
      match strategy with
      | RecoveryStrategy.ContinueWorkspace =>
          Err (Verification "workspace ownership evidence is missing for ContinueWorkspace")
      | _ => Ok (None, None)
      end
  | Rejected reason => Err (Verification reason)
  end.

Definition prepare (workspace : string) (request : RecoveryRequest) : M Db RecoveryError PreparedRecovery :=
  capsule ← map_err (map_persist "load capsule") (load_capsule_v1 (rq_run_id request));
  lift_res (res_map_err (fun e => CapsuleFailed (EnvelopeDetail e)) (verify_envelope_digest capsule));;
  step_def ← lift_res (resolve_step_def capsule (rq_step_id request));
  let policy := policy_for_step step_def (rq_step_id request) in
  let strategy := select_strategy policy in
  source_attempt ← map_err (map_persist "latest_for_step")
                     (Attempts.latest_for_step (rq_run_id request) (rq_step_id request));
  anchored ← lift_res (anchor_workspace_ownership workspace (rq_run_id request) strategy);
  let bindings := compute_bindings request capsule source_attempt in
  loaded ← map_err (map_persist "get run") (get_run_with_conn (rq_run_id request));
  metadata ← lift_res (ok_or loaded
               (Persistence (TextDetail ("run not found: " +:+ rq_run_id request))));
  checkpoint_identity ← load_checkpoint_identity "load checkpoint for identity" (rq_run_id request);
  wait_state ← map_err (map_persist "get wait state") (get_wait_state (rq_run_id request));
  lease ← load_issue_lease metadata;
  mret (mkPreparedRecovery
          (mkRecoveryAuthority (snd anchored) capsule source_attempt policy strategy)
          (rq_expected_epoch request) (rq_step_id request) (rq_operator_verb request)
          (rb_operation_id bindings) (rb_logical_request_key bindings) (rb_intent_digest bindings)
          (status metadata) (current_step metadata) (process_pid metadata) checkpoint_identity
          wait_state lease (fst anchored) workspace).

(** ** Reserve ([protocol/reserve.rs]) *)

Inductive ExistingResolution :=
| ExistingNotFound
| ExistingShortCircuit (outcome : RecoveryOutcome)
| AdoptedPending (reserved : ReservedRecovery).

(** [str::contains] *)
Definition contains (needle s : string) : bool := bool_decide (is_Some (String.index 0 needle s)).

Definition persisted_refusal_reason (detail : string) : RefusalReason.t :=
  if contains "not recoverable" detail then RefusalReason.NonRecoverable
  else if contains "not authorized" detail then RefusalReason.NotAuthorized
  else if contains "salvage" detail then RefusalReason.SalvageOnly
  else if contains "conflicting" detail then RefusalReason.ConflictingOperation
  else RefusalReason.VerificationFailed detail.

Definition capsule_matches (p : PreparedRecovery) (existing : RecoveryOperation) : bool :=
  op_capsule_envelope_digest existing =?s ec_envelope_digest (ra_capsule (authority p)).

Definition conflicting_operation : ExistingResolution :=
  ExistingShortCircuit (Refused RefusalReason.ConflictingOperation).

(** The prior outcome of an operation, which must have its attempt. *)
Definition missing_attempt (status : string) (existing : RecoveryOperation) : RecoveryError :=
  Persistence (TextDetail (status +:+ " operation '" +:+ op_operation_id existing
                           +:+ "' has no execution_attempt_id (ledger corruption)")).

Definition resolve_completed (p : PreparedRecovery) (existing : RecoveryOperation)
    : Res RecoveryError ExistingResolution :=
  if negb (capsule_matches p existing) then Ok conflicting_operation
  else
    attempt_id ← ok_or (op_execution_attempt_id existing) (missing_attempt "completed" existing);
    mret (ExistingShortCircuit
            (AlreadyApplied (default "" (op_serialized_outcome existing)) attempt_id
               (op_operation_id existing))).

Definition resolve_refused_or_conflict (p : PreparedRecovery) (existing : RecoveryOperation)
    : ExistingResolution :=
  if negb (capsule_matches p existing) then conflicting_operation
  else
    let terminal_outcome := default "" (op_serialized_outcome existing) in
    ExistingShortCircuit
      match op_status existing with
      | OperationStatus.Refused => Refused (persisted_refusal_reason terminal_outcome)
      | OperationStatus.Conflict => Conflict terminal_outcome
      | _ => Conflict "unexpected terminal status in resolve_refused_or_conflict"
      end.

Definition resolve_adopt_outcome (existing : RecoveryOperation) (adopt : Operations.AdoptOutcome)
    : Res RecoveryError ExistingResolution :=
  attempt_id ← ok_or (op_execution_attempt_id existing) (missing_attempt "pending" existing);
  mret match adopt with
       | Operations.Adopted =>
           AdoptedPending (mkReservedRecovery (op_operation_id existing) attempt_id (op_epoch existing))
       | Operations.StillOwned =>
           ExistingShortCircuit
             (AlreadyApplied (default "" (op_serialized_outcome existing)) attempt_id
                (op_operation_id existing))
       end.

Definition resolve_pending (p : PreparedRecovery) (existing : RecoveryOperation)
    : M Db RecoveryError ExistingResolution :=
  if negb (capsule_matches p existing) then mret conflicting_operation
  else
    t ← now;
    adopt ← map_err (map_persist "try adopt pending")
              (Operations.try_adopt_pending (op_operation_id existing) process_id
                 (t + minutes RECOVERY_LEASE_MINUTES)%Z t);
    lift_res (resolve_adopt_outcome existing adopt).

Definition resolve_existing_status (p : PreparedRecovery) (existing : RecoveryOperation)
    : M Db RecoveryError ExistingResolution :=
  match op_status existing with
  | OperationStatus.Completed => lift_res (resolve_completed p existing)
  | OperationStatus.Refused | OperationStatus.Conflict => mret (resolve_refused_or_conflict p existing)
  | OperationStatus.Pending => resolve_pending p existing
  end.

Definition resolve_existing_operation (p : PreparedRecovery) : M Db RecoveryError ExistingResolution :=
  existing ← map_err (map_persist "lookup logical operation")
               (Operations.lookup_logical_operation (logical_request_key p));
  match existing with
  | None => mret ExistingNotFound
  | Some existing => resolve_existing_status p existing
  end.

Definition revalidate_epoch (p : PreparedRecovery) : M Db RecoveryError (option RecoveryOutcome) :=
  persisted_epoch ← map_err (map_persist "read epoch") (Epoch.read_epoch (run_id_of p));
  mret (if bool_decide (persisted_epoch <> expected_epoch p)
        then Some (StaleEpoch persisted_epoch (expected_epoch p)) else None).

Definition get_run_for_reserve (p : PreparedRecovery) : M Db RecoveryError RunMetadata :=
  loaded ← map_err (map_persist "get run in reserve") (get_run_with_conn (run_id_of p));
  lift_res (ok_or loaded (Persistence (TextDetail ("run not found in reserve: " +:+ run_id_of p)))).

Definition revalidate_authority_snapshot (p : PreparedRecovery) : M Db RecoveryError unit :=
  current_metadata ← get_run_for_reserve p;
  if bool_decide (status current_metadata <> run_status p) then throw AuthorityChanged
  else if bool_decide (current_step current_metadata <> pr_current_step p) then throw AuthorityChanged
  else if bool_decide (process_pid current_metadata <> live_pid p) then throw AuthorityChanged
  else
    current_checkpoint ← load_checkpoint_identity "load checkpoint in reserve" (run_id_of p);
    if bool_decide (current_checkpoint <> checkpoint_identity p) then throw AuthorityChanged
    else
      current_wait ← map_err (map_persist "get wait state in reserve") (get_wait_state (run_id_of p));
      if bool_decide (current_wait <> wait_state p) then throw AuthorityChanged
      else
        current_lease ← load_issue_lease current_metadata;
        if bool_decide (current_lease <> lease p) then throw AuthorityChanged else mret tt.

Definition reverify_workspace_marker_for_continue (p : PreparedRecovery) : Res RecoveryError unit :=
  match adjudicate_at AtReserve (workspace_path p) (run_id_of p) with
  | Owned current =>
      if bool_decide (Some (authorization current) = ra_workspace_authorization (authority p))
      then Ok tt else Err WorkspaceAuthorizationRevoked
  | NoEvidence | Rejected _ => Err WorkspaceAuthorizationRevoked
  end.

Definition revalidate_continue_workspace_authorization (p : PreparedRecovery) : Res RecoveryError unit :=
  if bool_decide (ra_strategy (authority p) <> RecoveryStrategy.ContinueWorkspace) then Ok tt
  else
    verified ← ok_or (verified_workspace p) WorkspaceAuthorizationRevoked;
    if bool_decide (Some (authorization verified) <> ra_workspace_authorization (authority p))
    then Err WorkspaceAuthorizationRevoked
    else reverify_workspace_marker_for_continue p.

Definition check_strategy_refusal (p : PreparedRecovery) : option RecoveryOutcome :=
  match ra_strategy (authority p) with
  | RecoveryStrategy.Refused reason => Some (Refused reason)
  | _ => None
  end.

Inductive CasResolution :=
| CasAdvanced (epoch : Z)
| CasStaleEpoch (outcome : RecoveryOutcome).

Definition perform_epoch_cas (p : PreparedRecovery) : M Db RecoveryError CasResolution :=
  cas ← map_err (map_persist "CAS epoch") (Epoch.cas_advance_epoch (run_id_of p) (expected_epoch p));
  mret match cas with
       | Epoch.Advanced _ to => CasAdvanced to
       | Epoch.Stale persisted _ => CasStaleEpoch (StaleEpoch persisted (expected_epoch p))
       end.

(** [StateSnapshot::default()] *)
Definition allocate_attempt (p : PreparedRecovery) (new_epoch : Z) : M Db RecoveryError Z :=
  map_err (map_persist "record attempt start")
    (Attempts.record_attempt_start
       (Attempts.mkAttemptStart (run_id_of p) new_epoch (source_attempt_id_of p) (operation_id p)
          (step_id p) (ec_schema_version (ra_capsule (authority p)))
          (ec_envelope_digest (ra_capsule (authority p))) default_snapshot)).

Definition insert_pending_operation (p : PreparedRecovery) (new_epoch attempt_id : Z)
    : M Db RecoveryError unit :=
  t ← now;
  map_err (map_persist "insert pending")
    (Operations.insert_pending
       (Operations.mkPendingOperationInsert (operation_id p) (run_id_of p) new_epoch (step_id p)
          (ec_envelope_digest (ra_capsule (authority p))) (source_attempt_id_of p)
          (logical_request_key p) (intent_digest p) process_id
          (t + minutes RECOVERY_LEASE_MINUTES)%Z attempt_id)).

(** How the body of the transaction ends: with a fresh reservation, with an
    adopted one, or without a commit. *)
Inductive Reservation :=
| Fresh (reserved : ReservedRecovery)
| Adoption (reserved : ReservedRecovery)
| NotReserved (outcome : RecoveryOutcome).

Definition fresh_reservation (p : PreparedRecovery) : M Db RecoveryError Reservation :=
  cas ← perform_epoch_cas p;
  match cas with
  | CasStaleEpoch outcome => mret (NotReserved outcome)
  | CasAdvanced new_epoch =>
      attempt_id ← allocate_attempt p new_epoch;
      insert_pending_operation p new_epoch attempt_id;;
      mret (Fresh (mkReservedRecovery (operation_id p) attempt_id new_epoch))
  end.

Definition reserve_body (p : PreparedRecovery) : M Db RecoveryError Reservation :=
  existing_resolution ← resolve_existing_operation p;
  match existing_resolution with
  | ExistingShortCircuit outcome => mret (NotReserved outcome)
  | _ =>
      stale ← revalidate_epoch p;
      match stale with
      | Some outcome => mret (NotReserved outcome)
      | None =>
          revalidate_authority_snapshot p;;
          lift_res (revalidate_continue_workspace_authorization p);;
          match check_strategy_refusal p with
          | Some outcome => mret (NotReserved outcome)
          | None =>
              match existing_resolution with
              | AdoptedPending reserved => mret (Adoption reserved)
              | _ => fresh_reservation p
              end
          end
      end
  end.

Definition committed (r : Reservation) : bool :=
  match r with NotReserved _ => false | _ => true end.

Definition commit_context (r : Reservation) : string :=
  match r with Adoption _ => "commit adoption" | _ => "commit reserve" end.

Definition reserve_outcome (r : Reservation) : ReserveOutcome :=
  match r with
  | Fresh reserved | Adoption reserved => Proceed reserved
  | NotReserved outcome => ShortCircuit outcome
  end.

Definition reserve (p : PreparedRecovery) : M Db RecoveryError ReserveOutcome :=
  r ← transaction_if (map_persist "begin reserve tx") (fun r => map_persist (commit_context r))
        committed (reserve_body p);
  mret (reserve_outcome r).

(** ** Execute and finalize ([protocol/execute.rs], [protocol/finalize.rs]) *)

Definition invocation_of (p : PreparedRecovery) (reserved : ReservedRecovery) (workspace : string)
    : RecoveryExecutionInvocation :=
  mkInvocation (run_id_of p) (step_id p) (rv_operation_id reserved) (rv_attempt_id reserved)
    (rv_epoch reserved) (ra_strategy (authority p)) (ra_capsule (authority p)) workspace.

Definition execute_phase (p : PreparedRecovery) (reserved : ReservedRecovery) (workspace : string)
    (executor : RecoveryExecutor) : M Db RecoveryError RecoveryExecutionResult :=
  map_err map_execution_error (executor (invocation_of p reserved workspace)).

Definition finalize_body (p : PreparedRecovery) (reserved : ReservedRecovery)
    (exec_result : RecoveryExecutionResult) : M Db RecoveryError RecoveryOutcome :=
  map_err (map_persist "append attempt outcome")
    (Attempts.append_attempt_outcome (rv_attempt_id reserved) (xr_step_status exec_result)
       (xr_state_snapshot exec_result) (xr_runner_result exec_result) None);;
  let serialized_outcome :=
    json_to_string (completed_outcome (rv_attempt_id reserved) (xr_step_status exec_result)) in
  map_err (map_persist "finalize completed")
    (Operations.finalize_completed (rv_operation_id reserved) serialized_outcome);;
  mret (Recovered (step_id p) (rv_attempt_id reserved) (rv_operation_id reserved)).

Definition finalize (p : PreparedRecovery) (reserved : ReservedRecovery)
    (exec_result : RecoveryExecutionResult) : M Db RecoveryError RecoveryOutcome :=
  transaction_if (map_persist "begin finalize tx") (fun _ => map_persist "commit finalize")
    (fun _ => true) (finalize_body p reserved exec_result).

(** ** The entry points *)

Definition observe (observer : RecoveryPhaseObserver) (request : RecoveryRequest)
    : M Db RecoveryError unit := fun w => (Ok tt, observer request w).

(** The errors of the first two phases that are refusals. *)
Definition refusal_of_error (e : RecoveryError) : option RecoveryOutcome :=
  match e with
  | Verification detail => Some (Refused (RefusalReason.VerificationFailed detail))
  | WorkspaceNotOwned => Some (Refused RefusalReason.NotAuthorized)
  | _ => None
  end.

Definition refusal_of_reserve_error (e : RecoveryError) : option RecoveryOutcome :=
  match e with
  | WorkspaceAuthorizationRevoked => Some (Refused RefusalReason.NotAuthorized)
  | _ => refusal_of_error e
  end.

Definition recover_with_observer_and_executor (workspace : string) (request : RecoveryRequest)
    (observer : RecoveryPhaseObserver) (executor : RecoveryExecutor) : M Db RecoveryError RecoveryOutcome :=
  prepared ← try (prepare workspace request);
  match prepared with
  | Err e => match refusal_of_error e with Some outcome => mret outcome | None => throw e end
  | Ok prepared =>
      observe observer request;;
      reserved ← try (reserve prepared);
      match reserved with
      | Err e => match refusal_of_reserve_error e with Some outcome => mret outcome | None => throw e end
      | Ok (ShortCircuit outcome) => mret outcome
      | Ok (Proceed reserved) =>
          exec_result ← execute_phase prepared reserved workspace executor;
          finalize prepared reserved exec_result
      end
  end.

Definition recover_with_executor (workspace : string) (request : RecoveryRequest)
    (executor : RecoveryExecutor) : M Db RecoveryError RecoveryOutcome :=
  recover_with_observer_and_executor workspace request NoOpRecoveryPhaseObserver executor.

Definition recover_with_observer (workspace : string) (request : RecoveryRequest)
    (observer : RecoveryPhaseObserver) : M Db RecoveryError RecoveryOutcome :=
  recover_with_observer_and_executor workspace request observer UnavailableRecoveryExecutor.

Definition recover (workspace : string) (request : RecoveryRequest) : M Db RecoveryError RecoveryOutcome :=
  recover_with_executor workspace request UnavailableRecoveryExecutor.
End Protocol.

(** ** Salvage ([salvage.rs]) *)

Module Salvage.
Inductive RunClassification :=
| CapsuleBacked (capsule : ExecutionCapsuleV1)
| SalvageOnly (run_id : string).

Inductive SalvageError :=
| SalvagePersistence (e : SqlError)
| UnexpectedCapsuleBackedRun.

Definition salvage_detail : string := "salvage-only run: no valid pre-execution V1 capsule".

(** [INSERT .. RETURNING salvage_id], with [AUTOINCREMENT]. *)
Definition insert_salvage (run : string) (now : Z) (d : Db) : Res SqlError (Z * Db) :=
  if (salvage_seq d <? i64_max)%Z then
    let id := (salvage_seq d + 1)%Z in
    Ok (id, d <| salvage_lineage := salvage_lineage d ++ [mkSalvageRow id run now salvage_detail] |>
              <| salvage_seq := id |>)
  else Err SqliteFailure.

Section Operations.
Context `{Env} `{Sha256} `{CapsuleCodec}.

Definition classify_run (run : string) : M Db SalvageError RunClassification :=
  loaded ← try (load_capsule_v1 run);
  match loaded with
  | Ok capsule =>
      mret (if verify_envelope_digest capsule is Ok _ then CapsuleBacked capsule else SalvageOnly run)
  | Err QueryReturnedNoRows => mret (SalvageOnly run)
  | Err e => throw (SalvagePersistence e)
  end.

(** [CREATE TABLE IF NOT EXISTS], then the insert. *)
Definition append_salvage_record (run : string) : M Db SalvageError Z :=
  map_err SalvagePersistence (query (fun _ => Ok tt));;
  t ← now;
  map_err SalvagePersistence (execute (insert_salvage run t)).

Definition salvage_recover (run : string) : M Db SalvageError RecoveryOutcome :=
  classification ← classify_run run;
  match classification with
  | CapsuleBacked _ => throw UnexpectedCapsuleBackedRun
  | SalvageOnly run =>
      append_salvage_record run;;
      mret (Refused RefusalReason.SalvageOnly)
  end.

Definition count_salvage_records (run : string) : M Db SalvageError Z :=
  map_err SalvagePersistence
    (query (fun d => Ok (Z.of_nat (count_where (fun r => sv_run_id r =?s run) (salvage_lineage d))))).
End Operations.
End Salvage.

(** ** Lemmas *)

Section ReadOnly.
Context `{Env} `{Sha256} `{CapsuleCodec} `{RecoveryCodec} `{WorkflowDecoder} `{ErrorText} `{Disk} `{Process}.

Lemma load_issue_lease_read_only m : read_only (load_issue_lease m).
Proof. unfold load_issue_lease, get_lease_for_run, get_lease_for_issue. read_only_auto. Qed.

Lemma prepare_read_only workspace request : read_only (prepare workspace request).
Proof.
  unfold prepare, load_checkpoint_identity, load_checkpoint_with_conn, load_capsule_v1,
    Attempts.latest_for_step, Attempts.read_newest, get_run_with_conn, get_wait_state.
  read_only_auto. apply read_only_keeps, load_issue_lease_read_only.
Qed.

Lemma revalidate_epoch_read_only p : read_only (revalidate_epoch p).
Proof. unfold revalidate_epoch, Epoch.read_epoch. read_only_auto. Qed.

Lemma revalidate_authority_read_only p : read_only (revalidate_authority_snapshot p).
Proof.
  unfold revalidate_authority_snapshot, get_run_for_reserve, load_checkpoint_identity,
    load_checkpoint_with_conn, get_run_with_conn, get_wait_state.
  read_only_auto; apply read_only_keeps, load_issue_lease_read_only.
Qed.
End ReadOnly.

(** *** The ledger's history *)

Section History.
Context `{Env} `{Sha256} `{CapsuleCodec} `{RecoveryCodec} `{WorkflowDecoder} `{ErrorText} `{Disk} `{Process}.

Lemma read_only_evolves {E A} (m : M Db E A) : read_only m -> evolves m.
Proof. intros Hm d0. by apply read_only_keeps. Qed.

Lemma resolve_existing_evolves p : evolves (resolve_existing_operation p).
Proof.
  unfold resolve_existing_operation, resolve_existing_status, resolve_pending,
    Operations.lookup_logical_operation. evolves_auto.
Qed.

Lemma fresh_reservation_evolves p : evolves (fresh_reservation p).
Proof.
  unfold fresh_reservation, perform_epoch_cas, allocate_attempt, insert_pending_operation. evolves_auto.
Qed.

Lemma reserve_evolves p : evolves (reserve p).
Proof.
  intros d0. unfold reserve, reserve_body.
  pose proof (revalidate_epoch_read_only p). pose proof (revalidate_authority_read_only p).
  pose proof (resolve_existing_evolves p). pose proof (fresh_reservation_evolves p).
  keeps_auto; first [by apply read_only_keeps|eauto with eff].
Qed.

Lemma finalize_evolves p v x : evolves (finalize p v x).
Proof. unfold finalize, finalize_body. evolves_auto. Qed.

Lemma recover_evolves workspace request observer executor :
  evolves (observe observer request) -> (forall i, evolves (executor i)) ->
  evolves (recover_with_observer_and_executor workspace request observer executor).
Proof.
  intros Hobs Hexec d0. unfold recover_with_observer_and_executor, execute_phase.
  pose proof (read_only_evolves _ (prepare_read_only workspace request)).
  pose proof reserve_evolves. pose proof finalize_evolves.
  keeps_auto; eauto with eff.
Qed.
End History.

(** ** What a reservation is *)

Section Refinement.
Context `{Env} `{Sha256} `{CapsuleCodec} `{RecoveryCodec} `{WorkflowDecoder} `{ErrorText} `{Disk} `{Process}.

(** The leases that a reading of the run's lease can give: the run's, the
    issue's, or none where a statement failed. *)
Definition lease_reading (d : Db) (m : RunMetadata) (l : option IssueLease) : Prop :=
  match repository m, RunMeta.issue_lease_number m with
  | Some repo, Some n =>
      l = row_to_lease <$> newest_by l_updated_at (select_where (lease_of_run (run_id m)) (issue_leases d)) \/
      l = row_to_lease <$> select_first (lease_on repo n) (issue_leases d) \/ l = None
  | _, _ => l = None
  end.

(** Everything the preparation captured is still what the database holds. *)
Record authority_current (p : PreparedRecovery) (d : Db) : Prop := mkAuthorityCurrent {
  ac_run : exists row m,
    select_first (run_named (run_id_of p)) (runs d) = Some row /\ map_run_row row = Ok m /\
    status m = run_status p /\ current_step m = pr_current_step p /\ process_pid m = live_pid p /\
    lease_reading d m (lease p);
  ac_checkpoint : checkpoint_identity p =
    (fun r => checkpoint_identity_of (row_to_checkpoint r)) <$>
      newest_by cr_timestamp (select_where (checkpoint_of_run (run_id_of p)) (checkpoints d));
  ac_wait :
    match select_first (wait_of_run (run_id_of p)) (wait_states d) with
    | Some row => exists r, row_to_wait_state row = Ok r /\ wait_state p = Some r
    | None => wait_state p = None
    end
}.

(** The workspace may be continued: the adjudication at the reservation owns
    the very directory the preparation authorized. *)
Definition workspace_current (p : PreparedRecovery) : Prop :=
  ra_strategy (authority p) = RecoveryStrategy.ContinueWorkspace ->
  exists prepared current,
    verified_workspace p = Some prepared /\
    adjudicate_at AtReserve (workspace_path p) (run_id_of p) = Owned current /\
    ra_workspace_authorization (authority p) = Some (authorization prepared) /\
    authorization current = authorization prepared.

(** The two reservations there are: a claim of the epoch with one new attempt
    and one new pending operation, or the takeover of a pending operation of
    the same request whose lease is over. *)
Inductive reserves (p : PreparedRecovery) (d : Db) : ReservedRecovery -> Db -> Prop :=
| ReservesFresh d' text t1 t2 lease_until :
    select_first (Operations.has_key (logical_request_key p)) (recovery_operations d) = None ->
    let epoch := (expected_epoch p + 1)%Z in
    let id := (attempts_seq d + 1)%Z in
    snapshot_to_vec default_snapshot = Ok text ->
    d' = d <| recovery_epochs := recovery_epochs d' |>
           <| recovery_attempts := recovery_attempts d ++
                [Attempts.started_row
                   (Attempts.mkAttemptStart (run_id_of p) epoch (source_attempt_id_of p) (operation_id p)
                      (step_id p) (ec_schema_version (ra_capsule (authority p)))
                      (ec_envelope_digest (ra_capsule (authority p))) default_snapshot)
                   text (sha256_hex text) t1 id] |>
           <| attempts_seq := id |>
           <| recovery_operations := recovery_operations d ++
                [Operations.pending_row
                   (Operations.mkPendingOperationInsert (operation_id p) (run_id_of p) epoch (step_id p)
                      (ec_envelope_digest (ra_capsule (authority p))) (source_attempt_id_of p)
                      (logical_request_key p) (intent_digest p) process_id lease_until id) t2] |> ->
    match Epoch.current d (run_id_of p) with
    | None => Epoch.current d' (run_id_of p) = Some 1%Z
    | Some e => e = expected_epoch p /\ Epoch.current d' (run_id_of p) = Some epoch
    end ->
    reserves p d (mkReservedRecovery (operation_id p) id epoch) d'
| ReservesAdopted row op id t :
    select_first (Operations.has_key (logical_request_key p)) (recovery_operations d) = Some row ->
    Operations.map_operation_row row = Ok op ->
    capsule_matches p op = true ->
    op_execution_attempt_id op = Some id ->
    Operations.is_pending row = true -> Operations.lease_expired t row = true ->
    reserves p d (mkReservedRecovery (op_operation_id op) id (op_epoch op))
      (d <| recovery_operations :=
         update_where (Operations.adoptable (op_operation_id op) t)
           (Operations.adopt_row process_id (t + minutes RECOVERY_LEASE_MINUTES)%Z)
           (recovery_operations d) |>).

(** The ledger has no terminal operation of this request. *)
Definition unsettled (p : PreparedRecovery) (d : Db) : Prop :=
  forall row, select_first (Operations.has_key (logical_request_key p)) (recovery_operations d) = Some row ->
    Operations.is_pending row = true.

(** The outcomes that end a recovery before any work is reserved. *)
Inductive short_circuits (p : PreparedRecovery) (d : Db) : RecoveryOutcome -> Prop :=
| ShortOtherCapsule row op :
    select_first (Operations.has_key (logical_request_key p)) (recovery_operations d) = Some row ->
    Operations.map_operation_row row = Ok op -> capsule_matches p op = false ->
    short_circuits p d (Refused RefusalReason.ConflictingOperation)
| ShortApplied row op id :
    select_first (Operations.has_key (logical_request_key p)) (recovery_operations d) = Some row ->
    Operations.map_operation_row row = Ok op -> capsule_matches p op = true ->
    op_status op = OperationStatus.Completed \/ op_status op = OperationStatus.Pending ->
    op_execution_attempt_id op = Some id ->
    short_circuits p d (AlreadyApplied (default "" (op_serialized_outcome op)) id (op_operation_id op))
| ShortRefused row op :
    select_first (Operations.has_key (logical_request_key p)) (recovery_operations d) = Some row ->
    Operations.map_operation_row row = Ok op -> capsule_matches p op = true ->
    op_status op = OperationStatus.Refused ->
    short_circuits p d (Refused (persisted_refusal_reason (default "" (op_serialized_outcome op))))
| ShortConflict row op :
    select_first (Operations.has_key (logical_request_key p)) (recovery_operations d) = Some row ->
    Operations.map_operation_row row = Ok op -> capsule_matches p op = true ->
    op_status op = OperationStatus.Conflict ->
    short_circuits p d (Conflict (default "" (op_serialized_outcome op)))
| ShortStale persisted :
    unsettled p d ->
    persisted = Epoch.persisted d (run_id_of p) ->
    persisted <> expected_epoch p \/ (exists e, Epoch.current d (run_id_of p) = Some e /\ (e < 0)%Z) ->
    short_circuits p d (StaleEpoch persisted (expected_epoch p))
| ShortNotRecoverable reason :
    unsettled p d ->
    ra_strategy (authority p) = RecoveryStrategy.Refused reason ->
    short_circuits p d (Refused reason).

Lemma lease_by_issue_wp repo n w :
  wp (by_issue ← try (get_lease_for_issue repo n); mret (res_ok by_issue ≫= id) : M Db RecoveryError _)
    (fun r w' => w_db w' = w_db w /\
       (r = Ok (row_to_lease <$> select_first (lease_on repo n) (issue_leases (w_db w))) \/ r = Ok None)) w.
Proof.
  unfold get_lease_for_issue, issue_number_to_sql_i64. case_decide; wp_run; try (split; [congruence|]); auto.
Qed.

Lemma load_issue_lease_wp m w :
  wp (load_issue_lease m)
    (fun r w' => w_db w' = w_db w /\ match r with Ok l => lease_reading (w_db w) m l | Err _ => False end) w.
Proof.
  unfold load_issue_lease, lease_reading.
  destruct (repository m) as [repo|]; [|by wp_run].
  destruct (RunMeta.issue_lease_number m) as [n|]; [|by wp_run].
  assert (Hby : forall w1, w_db w1 = w_db w ->
    wp (by_issue ← try (get_lease_for_issue repo n); mret (res_ok by_issue ≫= id) : M Db RecoveryError _)
      (fun r w' => w_db w' = w_db w /\
         match r with
         | Ok l => l = row_to_lease <$> newest_by l_updated_at (select_where (lease_of_run (run_id m))
                                                                (issue_leases (w_db w))) \/
                   l = row_to_lease <$> select_first (lease_on repo n) (issue_leases (w_db w)) \/ l = None
         | Err _ => False
         end) w1).
  { intros w1 Hw1. eapply wp_consequence; [apply lease_by_issue_wp|]. rewrite Hw1.
    intros r w2 (Hw2 & [-> | ->]); split; auto. }
  unfold get_lease_for_run. apply wp_bind, wp_try, wp_query; intros w1 Hw1; [by apply Hby|].
  destruct (newest_by _ _) eqn:En; cbn; [|by apply Hby]. wp_steps. split; [done|]. by left.
Qed.

Lemma load_checkpoint_identity_wp context run w :
  wp (load_checkpoint_identity context run)
    (fun r w' => w_db w' = w_db w /\
       forall c, r = Ok c ->
         c = (fun r => checkpoint_identity_of (row_to_checkpoint r)) <$>
               newest_by cr_timestamp (select_where (checkpoint_of_run run) (checkpoints (w_db w)))) w.
Proof.
  unfold load_checkpoint_identity, load_checkpoint_with_conn. wp_run; (split; [congruence|]); [done|].
  intros c [= <-]. by destruct (newest_by _ _).
Qed.

Lemma revalidate_authority_wp p w :
  wp (revalidate_authority_snapshot p)
    (fun r w' => w_db w' = w_db w /\ (r = Ok tt -> authority_current p (w_db w))) w.
Proof.
  unfold revalidate_authority_snapshot, get_run_for_reserve, get_run_with_conn.
  wp_run; [split; [done|done]|].
  destruct (select_first (run_named _) _) as [row|] eqn:Erow; [|by wp_run].
  destruct (map_run_row row) as [m|e] eqn:Em; cbn; [|by wp_run]. wp_run.
  case_bool_decide as Hst; wp_run; [done|].
  case_bool_decide as Hcs; wp_run; [done|]. case_bool_decide as Hpid; wp_run; [done|].
  eapply wp_consequence; [apply load_checkpoint_identity_wp|]. intros [c|e] w1 [Hw1 Hc]; [|by split; [congruence|]].
  specialize (Hc _ eq_refl). rewrite H7 in Hw1, Hc.
  case_bool_decide as Hcp; wp_run; [by split|]. unfold get_wait_state.
  apply wp_query; intros w2 Hw2; cbn [res_map_err]; [by split; [congruence|]|].
  rewrite Hw1 in Hw2. destruct (select_first (wait_of_run _) (wait_states (w_db w1))) as [wr|] eqn:Ewr;
    [destruct (row_to_wait_state wr) as [ws|] eqn:Ews|]; cbn; try (by split).
  all: case_bool_decide as Hws; wp_run; [by split|].
  all: eapply wp_consequence; [apply load_issue_lease_wp|]; intros [l|e] w3 [Hw3 Hl]; [|done].
  all: rewrite Hw2 in Hw3, Hl; case_bool_decide as Hll; wp_run; [by split|]; split; [done|intros _].
  all: constructor; [exists row, m; split_and!; congruence|congruence|].
  all: rewrite <- Hw1, Ewr; first [congruence|by exists ws].
Qed.

(** The epoch the protocol read is the one it expects. *)
Definition epoch_expected (p : PreparedRecovery) (d : Db) : Prop :=
  Epoch.persisted d (run_id_of p) = expected_epoch p /\
  forall c, Epoch.current d (run_id_of p) = Some c -> (c <= i64_max)%Z.

(** The outcomes of the checks that do not look at the ledger of operations. *)
Definition gate_outcome (p : PreparedRecovery) (d : Db) (o : RecoveryOutcome) : Prop :=
  (o = StaleEpoch (Epoch.persisted d (run_id_of p)) (expected_epoch p) /\
   Epoch.persisted d (run_id_of p) <> expected_epoch p) \/
  (exists reason, o = Refused reason /\ ra_strategy (authority p) = RecoveryStrategy.Refused reason).

Lemma gate_short_circuits p d o : unsettled p d -> gate_outcome p d o -> short_circuits p d o.
Proof. intros Hun [[-> Hne]|(reason & -> & Hs)]; constructor; auto. Qed.

Lemma unsettled_missing p d :
  select_first (Operations.has_key (logical_request_key p)) (recovery_operations d) = None -> unsettled p d.
Proof. intros Hk row. by rewrite Hk. Qed.

Lemma revalidate_epoch_wp p w :
  wp (revalidate_epoch p)
    (fun r w' => w_db w' = w_db w /\
       match r with
       | Ok None => epoch_expected p (w_db w)
       | Ok (Some o) => gate_outcome p (w_db w) o
       | Err _ => True
       end) w.
Proof.
  unfold revalidate_epoch. wp_steps. eapply wp_consequence; [apply read_epoch_wp|].
  intros [e|e] w1 [Hw1 He]; cbn; wp_steps; (split; [done|]); [|done].
  destruct (He _ eq_refl) as [-> Hc]. case_bool_decide as Hne; [by left|split; [destruct (decide (Epoch.persisted (w_db w) (run_id_of p) = expected_epoch p)); [done|by destruct Hne]|exact Hc]].
Qed.

Lemma claim_expected p d d' to :
  epoch_expected p d ->
  to = (if (expected_epoch p =? u64_max)%Z then expected_epoch p else expected_epoch p + 1)%Z ->
  match Epoch.current d (run_id_of p) with
  | None => Epoch.current d' (run_id_of p) = Some (i64_saturating to)
  | Some e => e = i64_saturating (expected_epoch p) /\ Epoch.current d' (run_id_of p) = Some (e + 1)%Z
  end ->
  to = (expected_epoch p + 1)%Z /\
  match Epoch.current d (run_id_of p) with
  | None => Epoch.current d' (run_id_of p) = Some 1%Z
  | Some e => e = expected_epoch p /\ Epoch.current d' (run_id_of p) = Some (expected_epoch p + 1)%Z
  end.
Proof.
  unfold epoch_expected, Epoch.persisted, i64_saturating, u64_or_zero. intros [Hep Hmax] ->.
  destruct (Epoch.current d _) as [e|].
  - specialize (Hmax e eq_refl). intros [He Hcur].
    assert (e = expected_epoch p) as -> by (destruct (Z.ltb_spec e 0); unfold i64_max in *; lia).
    destruct (Z.eqb_spec (expected_epoch p) u64_max); [unfold u64_max, i64_max in *; lia|done].
  - rewrite <- Hep. done.
Qed.

Lemma cas_stale p d d' persisted :
  unsettled p d -> epoch_expected p d ->
  d' = d /\ persisted = Epoch.persisted d (run_id_of p) /\
  (exists e, Epoch.current d (run_id_of p) = Some e /\ e <> i64_saturating (expected_epoch p)) ->
  short_circuits p d (StaleEpoch persisted (expected_epoch p)).
Proof.
  intros Hun [Hep Hmax] (_ & -> & e & He & Hne). constructor; [done|done|]. right. exists e. split; [done|].
  revert Hep Hne. unfold Epoch.persisted, i64_saturating, u64_or_zero. rewrite He.
  specialize (Hmax e He). destruct (Z.ltb_spec e 0); lia.
Qed.

Lemma fresh_reservation_wp p w :
  ledger_wf (w_db w) -> epoch_expected p (w_db w) ->
  select_first (Operations.has_key (logical_request_key p)) (recovery_operations (w_db w)) = None ->
  wp (fresh_reservation p)
    (fun r w' => match r with
                 | Ok (Fresh v) => reserves p (w_db w) v (w_db w')
                 | Ok (Adoption _) => False
                 | Ok (NotReserved o) => short_circuits p (w_db w) o
                 | Err _ => True
                 end) w.
Proof.
  intros Hwf Hep Hkey. unfold fresh_reservation, perform_epoch_cas. wp_steps.
  eapply wp_consequence; [by apply cas_advance_epoch_wp|].
  intros [[from to|persisted expected]|e] w1 Hcas; cbn; wp_steps; [|by eapply cas_stale; [apply unsettled_missing|..]|done].
  unfold allocate_attempt. wp_steps. eapply wp_consequence; [apply record_attempt_start_wp|].
  intros [id|e] w2 Hatt; cbn; [|done]. unfold insert_pending_operation. wp_steps.
  eapply wp_consequence; [apply insert_pending_wp|]. intros [[]|e] w3 Hins; cbn; wp_steps; [|done].
  destruct Hcas as (_ & Hto & Hw1 & Hcur). destruct Hatt as (Hid & text & t1 & Htext & Hw2).
  destruct Hins as (t2 & Hw3).
  match goal with Hnow : w_db _ = w_db w2 |- _ => rewrite Hnow in Hw3; clear Hnow end.
  assert (Hclaim : to = (expected_epoch p + 1)%Z /\
    match Epoch.current (w_db w) (run_id_of p) with
    | None => Epoch.current (w_db w1) (run_id_of p) = Some 1%Z
    | Some e => e = expected_epoch p /\ Epoch.current (w_db w1) (run_id_of p) = Some (expected_epoch p + 1)%Z
    end) by (by apply claim_expected).
  clear Hto Hcur. destruct Hclaim as [-> Hcur]. cbn in Htext.
  set (epochs := recovery_epochs (w_db w1)) in *.
  assert (Hep3 : recovery_epochs (w_db w3) = epochs) by (by rewrite Hw3, Hw2).
  rewrite Hw1 in Hid, Hw2. cbn in Hid. rewrite Hw2 in Hw3. cbn in Hw3. subst id.
  eapply ReservesFresh; [done|done| |].
  - rewrite Hep3. exact Hw3.
  - destruct (Epoch.current (w_db w) _); unfold Epoch.current in *; rewrite Hep3; exact Hcur.
Qed.

Lemma map_operation_row_id r op :
  Operations.map_operation_row r = Ok op ->
  op_operation_id op = row_operation_id r /\
  op_execution_attempt_id op = op_execution_attempt_id (or_operation r) /\
  op_capsule_envelope_digest op = op_capsule_envelope_digest (or_operation r) /\
  op_serialized_outcome op = op_serialized_outcome (or_operation r) /\
  op_epoch op = u64_or_zero (op_epoch (or_operation r)) /\
  OperationStatus.parse_str (op_status (or_operation r)) = Some (op_status op).
Proof.
  unfold Operations.map_operation_row. destruct (OperationStatus.parse_str _) eqn:E; cbn; [|done].
  by intros [= <-].
Qed.

(** The one row an adoption can touch is the row that was looked up. *)
Lemma adoptable_row d k id t row :
  ledger_wf d -> select_first (Operations.has_key k) (recovery_operations d) = Some row ->
  row_operation_id row = id -> count_where (Operations.adoptable id t) (recovery_operations d) = 1 ->
  Operations.is_pending row = true /\ Operations.lease_expired t row = true.
Proof.
  intros Hwf Hrow Hid Hc.
  assert (Hpos : 0 < count_where (Operations.adoptable id t) (recovery_operations d)) by lia.
  apply count_where_pos in Hpos as (r & Hr & Ha). unfold Operations.adoptable in Ha.
  apply andb_true_iff in Ha as [[Hi Hp]%andb_true_iff Hl].
  assert (r = row) as <-; [|done].
  assert (Hsel : forall r, r ∈ recovery_operations d -> row_operation_id r = id ->
            select_first (Operations.has_id id) (recovery_operations d) = Some r).
  { intros r' Hr' Hi'. apply (select_first_key row_operation_id); [apply Hwf|done|by apply has_id_key|].
    intros r'' ?%has_id_key. congruence. }
  apply select_first_Some in Hrow as [Hrow _]. apply has_id_key in Hi.
  pose proof (Hsel r Hr Hi). pose proof (Hsel row Hrow Hid). congruence.
Qed.

Lemma resolve_existing_wp p w :
  ledger_wf (w_db w) ->
  wp (resolve_existing_operation p)
    (fun r w' => match r with
                 | Ok ExistingNotFound =>
                     w_db w' = w_db w /\
                     select_first (Operations.has_key (logical_request_key p))
                       (recovery_operations (w_db w)) = None
                 | Ok (AdoptedPending v) =>
                     reserves p (w_db w) v (w_db w') /\
                     (exists ops, w_db w' = (w_db w) <| recovery_operations := ops |>) /\
                     unsettled p (w_db w)
                 | Ok (ExistingShortCircuit o) => short_circuits p (w_db w) o
                 | Err _ => True
                 end) w.
Proof.
  intros Hwf. unfold resolve_existing_operation, Operations.lookup_logical_operation.
  apply wp_bind, wp_map_err, wp_query; [done|]. intros w1 Hw1.
  destruct (select_first _ _) as [row|] eqn:Erow; cbn; [|by wp_steps].
  destruct (Operations.map_operation_row row) as [op|] eqn:Eop; cbn; [|done].
  destruct (map_operation_row_id _ _ Eop) as (Hid & _). unfold resolve_existing_status.
  destruct (op_status op) eqn:Es; cbn; wp_steps.
  2:{ unfold resolve_completed. destruct (capsule_matches p op) eqn:Ec; cbn; [|by eapply ShortOtherCapsule].
      destruct (op_execution_attempt_id op) eqn:Ea; cbn; [|done]. eapply ShortApplied; eauto. }
  2,3: unfold resolve_refused_or_conflict; destruct (capsule_matches p op) eqn:Ec; cbn;
    [rewrite Es|by eapply ShortOtherCapsule]; cbn; by econstructor.
  unfold resolve_pending.
  destruct (capsule_matches p op) eqn:Ec; cbn [negb]; [|wp_steps; by eapply ShortOtherCapsule]. wp_steps.
  match goal with Hw : w_db ?w' = w_db w1 |- wp _ _ ?w' => rewrite Hw1 in Hw; rename Hw into Hw2 end.
  eapply wp_consequence; [apply try_adopt_pending_wp; by rewrite Hw2|].
  intros [[|]|e] w3 Hw3; cbn; wp_steps; [| |done];
    unfold resolve_adopt_outcome; destruct (op_execution_attempt_id op) as [id|] eqn:Ea; cbn; try done.
  - destruct Hw3 as [Hc ->]. rewrite Hw2 in *.
    destruct (adoptable_row _ _ _ _ _ Hwf Erow (eq_sym Hid) Hc). split_and!; [by eapply ReservesAdopted|by eexists|].
    intros row' Hrow'. congruence.
  - eapply ShortApplied; eauto.
Qed.

Lemma revalidate_workspace_current p :
  revalidate_continue_workspace_authorization p = Ok tt -> workspace_current p.
Proof.
  unfold revalidate_continue_workspace_authorization, reverify_workspace_marker_for_continue, workspace_current.
  case_bool_decide as Hs; [done|]. intros Hr _.
  destruct (verified_workspace p) as [prepared|]; cbn in Hr; [|done].
  case_bool_decide as Ha; [done|].
  destruct (adjudicate_at _ _ _) as [current| |]; try done.
  case_bool_decide as Hc; [|done].
  exists prepared, current. split_and!; try done; congruence.
Qed.

(** What the body of the reservation relies on is still so in [d]. *)
Record reservable (p : PreparedRecovery) (d : Db) : Prop := mkReservable {
  rs_epoch : epoch_expected p d;
  rs_authority : authority_current p d;
  rs_workspace : workspace_current p;
  rs_strategy : forall reason, ra_strategy (authority p) <> RecoveryStrategy.Refused reason
}.

(** The ledger of operations plays no part in these checks. *)
Lemma reservable_operations p d ops : reservable p (d <| recovery_operations := ops |>) -> reservable p d.
Proof. intros [He [Hr Hc Hw] ? ?]. split; [exact He|split; [exact Hr|exact Hc|exact Hw]|done..]. Qed.

(** The checks between the resolution and the claim, on the state the
    resolution left. *)
Lemma revalidations_wp p (k : M Db RecoveryError Reservation) (Q : Res RecoveryError Reservation -> World Db -> Prop) w :
  (forall o w', gate_outcome p (w_db w) o -> Q (Ok (NotReserved o)) w') -> (forall e w', Q (Err e) w') ->
  (reservable p (w_db w) -> forall w', w_db w' = w_db w -> wp k Q w') ->
  wp (stale ← revalidate_epoch p;
      match stale with
      | Some outcome => mret (NotReserved outcome)
      | None =>
          revalidate_authority_snapshot p;;
          lift_res (revalidate_continue_workspace_authorization p);;
          match check_strategy_refusal p with
          | Some outcome => mret (NotReserved outcome)
          | None => k
          end
      end) Q w.
Proof.
  intros Hn He Hk. wp_steps. eapply wp_consequence; [apply revalidate_epoch_wp|].
  intros [[o|]|e] w1 [Hw1 Hep]; wp_steps; [by apply Hn| |apply He].
  eapply wp_consequence; [apply revalidate_authority_wp|].
  intros [[]|e] w2 [Hw2 Hau]; wp_steps; [|apply He].
  destruct (revalidate_continue_workspace_authorization p) as [[]|e] eqn:Ews; wp_steps; [|apply He].
  unfold check_strategy_refusal.
  destruct (ra_strategy (authority p)) as [| | | |reason] eqn:Es; cbn; wp_steps; [apply Hk; [|congruence]..|].
  1,2,3,4: constructor; [done|rewrite <- Hw1; by apply Hau|by apply revalidate_workspace_current|congruence].
  apply Hn. right. by exists reason.
Qed.

Lemma reserve_body_wp p w :
  ledger_wf (w_db w) ->
  wp (reserve_body p)
    (fun r w' => match r with
                 | Ok (Fresh v) | Ok (Adoption v) => reserves p (w_db w) v (w_db w') /\ reservable p (w_db w)
                 | Ok (NotReserved o) => short_circuits p (w_db w) o
                 | Err _ => True
                 end) w.
Proof.
  intros Hwf. unfold reserve_body. wp_steps.
  eapply wp_consequence; [by apply resolve_existing_wp|].
  intros [[|o|v]|e] w1 Hw1; [|by wp_steps| |done].
  - destruct Hw1 as [Hw1 Hkey]. apply revalidations_wp; [|done|].
    { intros o w' Ho. apply gate_short_circuits; [by apply unsettled_missing|congruence]. }
    rewrite Hw1. intros Hrs w2 Hw2. eapply wp_consequence.
    { apply fresh_reservation_wp; rewrite Hw2; [done|by destruct Hrs|done]. }
    rewrite Hw2. by intros [[v|v|o]|e] w3 Hw3.
  - destruct Hw1 as (Hw1 & [ops Hops] & Hun). apply revalidations_wp; [|done|].
    + intros o w' Ho. apply gate_short_circuits; [done|]. by rewrite Hops in Ho.
    + intros Hrs w2 Hw2. wp_steps. rewrite Hw2. split; [done|].
      rewrite Hops in Hrs. by eapply reservable_operations.
Qed.
Lemma reserve_wp p w :
  ledger_wf (w_db w) ->
  wp (reserve p)
    (fun r w' => match r with
                 | Ok (Proceed v) => reserves p (w_db w) v (w_db w') /\ reservable p (w_db w)
                 | Ok (ShortCircuit o) => short_circuits p (w_db w) o /\ w_db w' = w_db w
                 | Err _ => w_db w' = w_db w
                 end) w.
Proof.
  intros Hwf. unfold reserve. wp_steps. apply wp_transaction_if_errors; [done|]. intros w1 Hw1.
  eapply wp_consequence; [apply reserve_body_wp; by rewrite Hw1|]. rewrite Hw1.
  intros [[v|v|o]|e] w2 Hw2; cbn; [| | |done].
  all: intros w3; split; [|done]; intros Hw3; wp_steps; cbn; rewrite Hw3; first [done|by split].
Qed.

(** What a finished recovery leaves: its attempt closed with what the executor
    reported, its operation completed with the outcome that names them. *)
Record settled (v : ReservedRecovery) (x : RecoveryExecutionResult) (d : Db) : Prop := mkSettled {
  st_attempt : exists a,
    a ∈ recovery_attempts d /\ at_attempt_id a = rv_attempt_id v /\
    at_step_status a = xr_step_status x /\ is_Some (at_finalized_at a) /\
    at_runner_result_json a = json_to_string <$> xr_runner_result x;
  st_operation : exists r,
    select_first (Operations.has_id (rv_operation_id v)) (recovery_operations d) = Some r /\
    op_status (or_operation r) = "completed" /\
    op_serialized_outcome (or_operation r) =
      Some (json_to_string (completed_outcome (rv_attempt_id v) (xr_step_status x)))
}.

Lemma updated_attempt id st text digest rr cd t (l : list AttemptRecord) :
  count_where (Attempts.unfinalized id) l = 1 ->
  exists a, a ∈ update_where (Attempts.unfinalized id) (Attempts.outcome_row st text digest rr cd t) l /\
    at_attempt_id a = id /\ at_step_status a = st /\ is_Some (at_finalized_at a) /\
    at_runner_result_json a = rr.
Proof.
  intros Hc. assert (Hpos : 0 < count_where (Attempts.unfinalized id) l) by lia.
  apply count_where_pos in Hpos as (a & Ha & Hu).
  exists (Attempts.outcome_row st text digest rr cd t a). split.
  - apply elem_of_update_where. exists a. by rewrite Hu.
  - unfold Attempts.unfinalized in Hu. apply andb_true_iff in Hu as [Hi _].
    cbn. split_and!; [lia|done|by eexists|done].
Qed.

Lemma finalized_operation d id o t :
  ledger_wf d -> count_where (Operations.finalizable id) (recovery_operations d) = 1 ->
  exists r, select_first (Operations.has_id id)
      (update_where (Operations.finalizable id) (Operations.finalize_row OperationStatus.Completed o t)
         (recovery_operations d)) = Some r /\
    op_status (or_operation r) = "completed" /\ op_serialized_outcome (or_operation r) = Some o.
Proof.
  intros Hwf Hc.
  assert (Hpos : 0 < count_where (Operations.finalizable id) (recovery_operations d)) by lia.
  apply count_where_pos in Hpos as (r & Hr & Hf).
  exists (Operations.finalize_row OperationStatus.Completed o t r). split; [|done].
  pose proof Hf as Hf'. unfold Operations.finalizable in Hf'. apply andb_true_iff in Hf' as [Hi _].
  apply (select_first_key row_operation_id).
  - apply unique_update; [done|apply Hwf].
  - apply elem_of_update_where. exists r. by rewrite Hf.
  - done.
  - intros r' ?%has_id_key. apply has_id_key in Hi. change (row_operation_id r' = row_operation_id r). congruence.
Qed.

Lemma finalize_settles p v x w :
  ledger_wf (w_db w) ->
  wp (finalize p v x)
    (fun r w' => match r with
                 | Ok o => o = Recovered (step_id p) (rv_attempt_id v) (rv_operation_id v) /\
                           settled v x (w_db w')
                 | Err _ => w_db w' = w_db w
                 end) w.
Proof.
  intros Hwf. unfold finalize, finalize_body. apply wp_transaction_if_errors; [done|]. intros w1 Hw1.
  wp_steps. eapply wp_consequence; [apply append_attempt_outcome_wp|].
  intros [[]|e] w2 Hatt; cbn; [|done]. wp_steps.
  eapply wp_consequence; [apply finalize_completed_wp|]. intros [a|e] w3 Hop; cbn; wp_steps; [|done].
  intros w4. split; [|done]. intros Hw4. split; [done|].
  destruct Hatt as (Hca & text & t & Htext & Hw2). destruct Hop as (Hco & _ & t' & Hw3).
  rewrite Hw2 in Hw3, Hco. rewrite Hw1 in *. cbn in Hw3, Hco, Hw4. rewrite Hw4, Hw3.
  constructor; [by apply updated_attempt|by apply finalized_operation].
Qed.
End Refinement.

(** ** Theorems *)

Section Safety.
Context `{Env} `{Sha256} `{CapsuleCodec} `{RecoveryCodec} `{WorkflowDecoder} `{ErrorText} `{Disk} `{Process}.

(** C1: a reservation is one atomic change of the ledger.  When the code goes
    on to execute, either the epoch advanced by one, one attempt was started
    and one pending operation inserted, or one expired pending operation of
    the same request was taken over; and the epoch, the run's status, step and
    process, its checkpoint, wait and lease, and the workspace's owner are what
    the preparation saw.  When it does not go on, the database is unchanged and
    the outcome is the one the ledger, the epoch or the strategy calls for. *)
Theorem reserve_refines p w :
  ledger_wf (w_db w) ->
  match reserve p w with
  | (Ok (Proceed v), w') => reserves p (w_db w) v (w_db w') /\ reservable p (w_db w)
  | (Ok (ShortCircuit o), w') => short_circuits p (w_db w) o /\ w_db w' = w_db w
  | (Err _, w') => w_db w' = w_db w
  end.
Proof.
  intros Hwf. pose proof (reserve_wp p w Hwf) as Hr. unfold wp in Hr. by destruct (reserve p w) as [[[]|] w'].
Qed.

Lemma fresh_reservation_current p d v d' :
  select_first (Operations.has_key (logical_request_key p)) (recovery_operations d) = None ->
  epoch_expected p d -> reserves p d v d' -> Epoch.current d' (run_id_of p) = Some (expected_epoch p + 1)%Z.
Proof.
  intros Hkey [Hep _] [d1 text t1 t2 lease _ epoch id _ _ Hcur|row op id t Hrow]; [|congruence].
  unfold Epoch.persisted in Hep. destruct (Epoch.current d _) as [e|]; [tauto|].
  by rewrite <- Hep.
Qed.

(** A request that has run is answered, not run again.  The ledger finds
    the operation of a request by its key, which has the run, the source attempt
    and the verb but not the step; whatever the request, its completed operation
    under the same capsule is the answer, with the outcome and the attempt it
    recorded, and nothing is written. *)
Theorem completed_request_replayed p row op id w :
  ledger_wf (w_db w) ->
  select_first (Operations.has_key (logical_request_key p)) (recovery_operations (w_db w)) = Some row ->
  Operations.map_operation_row row = Ok op -> op_status op = OperationStatus.Completed ->
  capsule_matches p op = true -> op_execution_attempt_id op = Some id ->
  match reserve p w with
  | (Ok (Proceed _), _) => False
  | (Ok (ShortCircuit o), w') =>
      o = AlreadyApplied (default "" (op_serialized_outcome op)) id (op_operation_id op) /\ w_db w' = w_db w
  | (Err _, w') => w_db w' = w_db w
  end.
Proof.
  intros Hwf Hrow Hop Hst Hc Hid. pose proof (reserve_refines p w Hwf) as Hr.
  destruct (map_operation_row_id _ _ Hop) as (_ & _ & _ & _ & _ & Hparse).
  assert (Hnp : Operations.is_pending row = false).
  { unfold Operations.is_pending. case_bool_decide as Hp; [|done]. by rewrite Hp, Hst in Hparse. }
  destruct (reserve p w) as [[[v|o]|e] w']; [| |done].
  - destruct Hr as [Hr _]. inversion Hr; congruence.
  - destruct Hr as [Hs ->]. split; [|done]. inversion Hs as [r ? Hr|r ? ? Hr|r ? Hr|r ? Hr|? Hun|? Hun];
      try specialize (Hun _ Hrow); simplify_eq/=; congruence.
Qed.

(** C2: an epoch is spent once.  After a fresh reservation of a run at one
    expected epoch, no reservation of that run that expects the same epoch goes
    on to execute, whatever happened to the ledger in between. *)
Theorem epoch_reserved_once p p' w w1 w2 v :
  ledger_wf (w_db w) ->
  select_first (Operations.has_key (logical_request_key p)) (recovery_operations (w_db w)) = None ->
  reserve p w = (Ok (Proceed v), w1) ->
  ledger_wf (w_db w2) -> ledger_le (w_db w1) (w_db w2) ->
  run_id_of p' = run_id_of p -> expected_epoch p' = expected_epoch p ->
  forall v', fst (reserve p' w2) <> Ok (Proceed v').
Proof.
  intros Hwf Hkey Hrun Hwf2 Hle Hid Hexp v' Hbad.
  pose proof (reserve_wp p w Hwf) as Hr. unfold wp in Hr. rewrite Hrun in Hr. destruct Hr as [Hr Hrs].
  pose proof (reserve_wp p' w2 Hwf2) as Hr'. unfold wp in Hr'. rewrite Hbad in Hr'.
  destruct Hr' as [_ [[Hep' _] _ _ _]].
  pose proof (fresh_reservation_current _ _ _ _ Hkey (rs_epoch _ _ Hrs) Hr) as Hcur.
  destruct (current_le _ _ _ _ Hwf2 Hle Hcur) as (c & Hc & Hlec).
  unfold Epoch.persisted in Hep'. rewrite Hid, Hc, Hexp in Hep'. unfold u64_or_zero in Hep'.
  destruct (Z.ltb_spec c 0); destruct (rs_epoch _ _ Hrs) as [Hep _];
    unfold Epoch.persisted, u64_or_zero in Hep; destruct (Epoch.current (w_db w) _) as [e|]; try lia.
Qed.

(** C7: the recovery protocol never rewrites history.  Whatever a recovery
    returns, keys stay unique, no row of the epochs, operations, attempts,
    effect intents, capsules, salvage records or merge artifacts disappears,
    an epoch never goes back, and a row keeps its bindings and is final once
    it is terminal - as long as the executor and the observer keep that too. *)
Theorem recover_append_only workspace request observer executor w :
  evolves (observe observer request) -> (forall i, evolves (executor i)) -> ledger_wf (w_db w) ->
  let w' := snd (recover_with_observer_and_executor workspace request observer executor w) in
  ledger_wf (w_db w') /\ ledger_le (w_db w) (w_db w').
Proof. intros Hobs Hexec. by apply evolves_elim, recover_evolves. Qed.

Lemma refusal_never_recovered e step attempt operation :
  refusal_of_error e <> Some (Recovered step attempt operation) /\
  refusal_of_reserve_error e <> Some (Recovered step attempt operation).
Proof. by destruct e. Qed.

Lemma short_never_recovered p d step attempt operation :
  ~ short_circuits p d (Recovered step attempt operation).
Proof. intros Hs. inversion Hs. Qed.

(** A recovery that reports success executed: the executor ran once, on
    the reservation this recovery made, under the step, attempt, operation,
    epoch, strategy and capsule of that reservation, and what the executor
    returned is what the attempt and the completed operation record. *)
Theorem recovered_by_executor workspace request observer executor w step attempt operation w' :
  evolves (observe observer request) -> (forall i, evolves (executor i)) -> ledger_wf (w_db w) ->
  recover_with_observer_and_executor workspace request observer executor w
    = (Ok (Recovered step attempt operation), w') ->
  exists p v x w0 w1 w2,
    prepare workspace request w = (Ok p, w0) /\
    reserve p (observer request w0) = (Ok (Proceed v), w1) /\
    reserves p (w_db (observer request w0)) v (w_db w1) /\
    reservable p (w_db (observer request w0)) /\
    executor (invocation_of p v workspace) w1 = (Ok x, w2) /\
    step = step_id p /\ attempt = rv_attempt_id v /\ operation = rv_operation_id v /\
    settled v x (w_db w').
Proof.
  intros Hobs Hexec Hwf Hrun. unfold recover_with_observer_and_executor in Hrun.
  apply bind_Ok in Hrun as (prepared & w0 & Hprep & Hrun). apply try_Ok in Hprep.
  pose proof (prepare_read_only workspace request w) as Hro. rewrite Hprep in Hro. cbn in Hro.
  assert (Hwf0 : ledger_wf (w_db (observer request w0))).
  { apply (evolves_elim (observe observer request) w0 Hobs). congruence. }
  destruct prepared as [p|e].
  2:{ destruct (refusal_of_error e) eqn:Ee; run_inv. by destruct (refusal_never_recovered e step attempt operation). }
  apply bind_Ok in Hrun as ([] & w1 & [= <-] & Hrun).
  apply bind_Ok in Hrun as (reserved & w1 & Hres & Hrun). apply try_Ok in Hres.
  pose proof (reserve_refines p _ Hwf0) as Href. rewrite Hres in Href.
  destruct reserved as [[v|o]|e].
  2:{ run_inv. destruct Href as [Hs _]. by apply short_never_recovered in Hs. }
  2:{ destruct (refusal_of_reserve_error e) eqn:Ee; run_inv.
      by destruct (refusal_never_recovered e step attempt operation). }
  apply bind_Ok in Hrun as (x & w2 & Hexe & Hfin). apply map_err_Ok in Hexe.
  pose proof (evolves_elim _ _ (reserve_evolves p) Hwf0) as [Hwf1 _]. rewrite Hres in Hwf1. cbn in Hwf1.
  pose proof (evolves_elim _ _ (Hexec (invocation_of p v workspace)) Hwf1) as [Hwf2 _].
  rewrite Hexe in Hwf2. cbn in Hwf2. pose proof (finalize_settles p v x w2 Hwf2) as Hf. unfold wp in Hf. rewrite Hfin in Hf.
  destruct Hf as [[= -> -> ->] Hset]. destruct Href as [Hr Hrs].
  exists p, v, x, w0, w1, w2. by split_and!.
Qed.
End Safety.

(** ** Samples *)

(** Texts to evaluate the protocol with: an outcome is printed as its attempt
    id in eight bytes and its status, every snapshot as one text. *)
Definition sample_json_print (j : Json) : string :=
  match j with
  | JObject m =>
      match m !! "attempt_id", m !! "step_status" with
      | Some (JInt a), Some (JString s) => be_bytes 8 (a + 2 ^ 63)%Z +:+ s
      | _, _ => ""
      end
  | _ => ""
  end.

Definition sample_json_parse (s : string) : Res string Json :=
  Ok (completed_outcome (be_value 0 (String.substring 0 8 s) - 2 ^ 63)
        (String.substring 8 (String.length s - 8) s)).

Definition sample_recovery_codec : RecoveryCodec := {|
  snapshot_to_vec _ := Ok "{}";
  snapshot_from_str _ := Ok default_snapshot;
  json_to_string := sample_json_print;
  json_from_str := sample_json_parse
|}.

(** A workflow of two steps that may be run again. *)
Definition sample_workflow_decoder : WorkflowDecoder := fun _ =>
  Ok (mkWorkflowType "wf"
        ((fun s => mkStepDef s "noop" None None None None None None) <$>
           ["watch_pr_checks"; "capture_pr_identity"]) [] (mkGuardConfig None None None)).

Definition sample_text : ErrorText := {|
  errno_display e := pretty e;
  os_error_display e := "os error " +:+ pretty e;
  utf8_error_display _ := "invalid utf-8"
|}.

(** [/w] belongs to [run-1], in both phases. *)
Definition sample_disk : Disk := {|
  disk_state := unit;
  disk_handle := sample_handle "run-1";
  disk_at _ := tt
|}.

Definition sample_process : Process := {| process_id := 42; to_rfc3339 := pretty |}.

Section Samples.
#[local] Existing Instance calm.
#[local] Existing Instance identity_digest.
#[local] Existing Instance sample_capsule_codec.
#[local] Existing Instance sample_recovery_codec.
#[local] Existing Instance sample_workflow_decoder.
#[local] Existing Instance sample_text.
#[local] Existing Instance sample_disk.
#[local] Existing Instance sample_process.

Definition recovery_world : World Db :=
  start (empty_db <| runs := [bind_run_metadata_params (sample_run "run-1" RunStatus.Failed)] |>
                  <| execution_capsules := [capsule_row sample_capsule "capsule"] |>).

Definition sample_request (step : string) (epoch : Z) : RecoveryRequest :=
  mkRecoveryRequest "run-1" step epoch Resume.

Definition sample_executor : RecoveryExecutor := fun _ =>
  mret (mkExecutionResult "completed" default_snapshot None).

Definition after_first : World Db.
Proof.
  let w := eval vm_compute in
    (snd (recover_with_executor "/w" (sample_request "watch_pr_checks" 0) sample_executor recovery_world)) in
  exact w.
Defined.

Definition sample_prepared : PreparedRecovery.
Proof.
  let r := eval vm_compute in (fst (prepare "/w" (sample_request "watch_pr_checks" 0) recovery_world)) in
  match r with Ok ?p => exact p end.
Defined.

Definition reserved_world : World Db.
Proof. let w := eval vm_compute in (snd (reserve sample_prepared recovery_world)) in exact w. Defined.
Definition sample_reserved : ReservedRecovery := mkReservedRecovery (operation_id sample_prepared) 1 1.

Lemma recovery_world_wf : ledger_wf (w_db recovery_world).
Proof. constructor; by_computation. Qed.

Lemma after_first_wf : ledger_wf (w_db after_first).
Proof. constructor; by_computation. Qed.

Example reserve_refines_witness :
  fst (reserve sample_prepared recovery_world) = Ok (Proceed sample_reserved) /\
  reserves sample_prepared (w_db recovery_world) sample_reserved (w_db reserved_world).
Proof.
  assert (Hr : reserve sample_prepared recovery_world = (Ok (Proceed sample_reserved), reserved_world))
    by (vm_compute; reflexivity).
  pose proof (reserve_refines sample_prepared recovery_world recovery_world_wf) as Hp.
  rewrite Hr in *. split; [reflexivity|apply Hp].
Defined.

(** What the executor was asked to run, as the attempts of the ledger say. *)
Definition attempted (w : World Db) : list string := at_step_id <$> recovery_attempts (w_db w).

(** A step is recovered; then a different step, asked for with the same verb
    and the current epoch, is answered with the outcome of the first and never
    executed. *)
Example other_step_not_executed :
  let r1 := recover_with_executor "/w" (sample_request "watch_pr_checks" 0) sample_executor recovery_world in
  let r2 := recover_with_executor "/w" (sample_request "capture_pr_identity" 1) sample_executor (snd r1) in
  exists id text,
    fst r1 = Ok (Recovered "watch_pr_checks" 1 id) /\
    fst r2 = Ok (AlreadyApplied text 1 id) /\ attempted (snd r2) = ["watch_pr_checks"].
Proof.
  eexists _, _. vm_compute. repeat split.
Qed.
Example epoch_reserved_once_witness :
  reserve sample_prepared recovery_world = (Ok (Proceed sample_reserved), reserved_world) /\
  forall v, fst (reserve sample_prepared reserved_world) <> Ok (Proceed v).
Proof.
  assert (Hr : reserve sample_prepared recovery_world = (Ok (Proceed sample_reserved), reserved_world))
    by (vm_compute; reflexivity).
  split; [exact Hr|].
  apply (epoch_reserved_once sample_prepared sample_prepared recovery_world reserved_world reserved_world
           sample_reserved); [exact recovery_world_wf|vm_compute; reflexivity|exact Hr| |reflexivity..].
  constructor; by_computation.
Defined.

Lemma observe_nothing request : evolves (observe NoOpRecoveryPhaseObserver request).
Proof. by intros d0 w. Qed.

Lemma sample_executor_evolves i : evolves (sample_executor i).
Proof. by intros d0 w. Qed.

Example recover_append_only_witness :
  let w' := snd (recover_with_executor "/w" (sample_request "watch_pr_checks" 0) sample_executor recovery_world) in
  length (recovery_operations (w_db w')) = 1 /\ ledger_wf (w_db w') /\ ledger_le (w_db recovery_world) (w_db w').
Proof.
  split; [vm_compute; reflexivity|].
  apply (recover_append_only "/w" (sample_request "watch_pr_checks" 0) NoOpRecoveryPhaseObserver sample_executor
           recovery_world); [apply observe_nothing|apply sample_executor_evolves|exact recovery_world_wf].
Defined.

Example recovered_by_executor_witness :
  exists p v x w1 w2,
    reserve p (snd (prepare "/w" (sample_request "watch_pr_checks" 0) recovery_world)) = (Ok (Proceed v), w1) /\
    sample_executor (invocation_of p v "/w") w1 = (Ok x, w2) /\ settled v x (w_db after_first).
Proof.
  assert (Hr : recover_with_observer_and_executor "/w" (sample_request "watch_pr_checks" 0)
                 NoOpRecoveryPhaseObserver sample_executor recovery_world =
               (Ok (Recovered "watch_pr_checks" 1 (operation_id sample_prepared)), after_first))
    by (vm_compute; reflexivity).
  destruct (recovered_by_executor _ _ _ _ _ _ _ _ _ (observe_nothing _) sample_executor_evolves
    recovery_world_wf Hr) as (p & v & x & w0 & w1 & w2 & Hp & Hres & _ & _ & Hx & _ & _ & _ & Hs).
  exists p, v, x, w1, w2. rewrite Hp. split; [exact Hres|]. split; [exact Hx|exact Hs].
Defined.

(** The preparation for the second step, after the first was recovered. *)
Definition second_prepared : PreparedRecovery.
Proof.
  let r := eval vm_compute in (fst (prepare "/w" (sample_request "capture_pr_identity" 1) after_first)) in
  match r with Ok ?p => exact p end.
Defined.

Definition completed_row : OperationRow.
Proof.
  let r := eval vm_compute in (select_first (Operations.has_key (logical_request_key second_prepared))
                                 (recovery_operations (w_db after_first))) in
  match r with Some ?row => exact row end.
Defined.

Example completed_request_replayed_witness :
  op_step_id (or_operation completed_row) <> step_id second_prepared /\
  forall v, fst (reserve second_prepared after_first) <> Ok (Proceed v).
Proof.
  split; [vm_compute; discriminate|].
  destruct (Operations.map_operation_row completed_row) as [op|] eqn:Eop; [|vm_compute in Eop; discriminate].
  assert (Hop := Eop). vm_compute in Hop. injection Hop as <-.
  pose proof (completed_request_replayed second_prepared completed_row _ 1 after_first
    after_first_wf ltac:(vm_compute; reflexivity) Eop eq_refl
    ltac:(vm_compute; reflexivity) eq_refl) as Hp.
  intros v Hv. destruct (reserve second_prepared after_first) as [r w']. cbn in Hv. subst r. exact Hp.
Defined.
End Samples.
