(* ===== verification/RecoveryProgress.v ===== *)
(** What a recovery does when nothing goes wrong, and what the ledger always
    lets it do.

    The ledger stays typed: every operation has a status the code parses and an
    attempt of the same operation, run and epoch, so the errors the code
    reserves for a corrupt ledger do not happen.  And in an environment where
    no statement fails, a request that nobody holds - never seen, or left
    pending by a process whose lease is over - recovers. *)
From S2P Require Import Prelude Effects Digest Sql Status Schema Checkpoints Leases Runs WaitStates Provenance RecoveryStores Capsules StepContext Ownership Recovery.

(** ** The types of the ledger *)

Definition operation_typed (d : Db) (r : OperationRow) : Prop :=
  is_Some (OperationStatus.parse_str (op_status (or_operation r))) /\
  exists a, a ∈ recovery_attempts d /\
    op_execution_attempt_id (or_operation r) = Some (at_attempt_id a) /\
    at_operation_id a = row_operation_id r /\ at_run_id a = op_run_id (or_operation r) /\
    at_epoch a = op_epoch (or_operation r).

Definition ledger_typed (d : Db) : Prop := Forall (operation_typed d) (recovery_operations d).

(** A database whose ledger is well formed and typed. *)
Definition ledger_ok (d : Db) : Prop := ledger_wf d /\ ledger_typed d.

Section Types.
Context `{Env} `{Sha256} `{CapsuleCodec} `{RecoveryCodec} `{WorkflowDecoder} `{ErrorText} `{Disk} `{Process}.

(** A row keeps its type when its bindings stay and its status parses. *)
Lemma operation_typed_le d d' r r' :
  grows attempt_le (recovery_attempts d) (recovery_attempts d') ->
  operation_bindings (or_operation r') = operation_bindings (or_operation r) ->
  is_Some (OperationStatus.parse_str (op_status (or_operation r'))) ->
  operation_typed d r -> operation_typed d' r'.
Proof.
  intros Hg Hb Hst (_ & a & Ha & Hid & Hop & Hrun & Hep). split; [done|].
  destruct (grows_elem attempt_le _ _ _ Hg Ha) as (a' & Ha' & Hab & _).
  unfold operation_bindings, attempt_bindings in *. injection Hb as ? ? ? ? ? ? ? ? ?.
  injection Hab as ? ? ? ? ? ? ? ? ?. exists a'. unfold row_operation_id in *.
  split_and!; congruence.
Qed.

Lemma typed_update d d' p f :
  ledger_typed d -> grows attempt_le (recovery_attempts d) (recovery_attempts d') ->
  recovery_operations d' = update_where p f (recovery_operations d) ->
  (forall r, p r = true -> operation_bindings (or_operation (f r)) = operation_bindings (or_operation r) /\
     (is_Some (OperationStatus.parse_str (op_status (or_operation r))) ->
      is_Some (OperationStatus.parse_str (op_status (or_operation (f r)))))) ->
  ledger_typed d'.
Proof.
  unfold ledger_typed. intros Ht Hg -> Hf. rewrite Forall_forall in *.
  intros r (r0 & Hr0 & ->)%elem_of_update_where. pose proof (Ht r0 Hr0) as Hty.
  destruct (p r0) eqn:Ep.
  - destruct (Hf r0 Ep) as [Hb Hp]. eapply operation_typed_le; [done|done| |done]. apply Hp, Hty.
  - eapply operation_typed_le; [done|done| |done]. apply Hty.
Qed.

Lemma typed_same d d' :
  recovery_operations d' = recovery_operations d ->
  grows attempt_le (recovery_attempts d) (recovery_attempts d') -> ledger_typed d -> ledger_typed d'.
Proof.
  unfold ledger_typed. intros -> Hg Ht. rewrite Forall_forall in *. intros r Hr.
  specialize (Ht r Hr). eapply operation_typed_le; [done|done|apply Ht|done].
Qed.

Lemma reserves_typed p d v d' : ledger_typed d -> reserves p d v d' -> ledger_typed d'.
Proof.
  intros Ht [d1 text t1 t2 lease _ epoch id _ Hd1 _|row op id t _ _ _ _ _ _].
  - apply (f_equal recovery_operations) in Hd1 as Hops. apply (f_equal recovery_attempts) in Hd1 as Hatt.
    cbn in Hops, Hatt. clear Hd1. unfold ledger_typed. rewrite Hops, Forall_app. split.
    + unfold ledger_typed in Ht. rewrite Forall_forall in *. intros r Hr. specialize (Ht r Hr).
      apply (operation_typed_le d _ r); [rewrite Hatt; apply (grows_append attempt_le)|done|apply Ht|done].
    + constructor; [|constructor]. split; [by eexists|]. rewrite Hatt. eexists.
      split; [apply elem_of_app; right; by apply list_elem_of_singleton|]. by cbn.
  - eapply typed_update; [exact Ht|reflexivity|reflexivity|]. intros r _. by split.
Qed.

Lemma reserve_typed p : keeps ledger_ok (reserve p).
Proof.
  intros w [Hwf Ht]. destruct (evolves_elim _ _ (reserve_evolves p) Hwf) as [Hwf' _]. split; [done|].
  pose proof (reserve_refines p w Hwf) as Hr.
  destruct (reserve p w) as [[[v|o]|e] w']; cbn in *; [destruct Hr as [Hr _]; by eapply reserves_typed|..].
  - by destruct Hr as [_ ->].
  - by rewrite Hr.
Qed.

Lemma finalize_typed p v x : keeps ledger_ok (finalize p v x).
Proof.
  intros w [Hwf Ht]. destruct (evolves_elim _ _ (finalize_evolves p v x) Hwf) as [Hwf' _]. split; [done|].
  enough (wp (finalize p v x) (fun _ w' => ledger_typed (w_db w')) w) by done.
  unfold finalize, finalize_body. apply wp_transaction_if_errors; [intros e w' ->; done|]. intros w1 Hw1.
  wp_steps. eapply wp_consequence; [apply append_attempt_outcome_wp|].
  intros [[]|e] w2 Hatt; cbn; [|intros w3 ->; done]. wp_steps.
  eapply wp_consequence; [apply finalize_completed_wp|].
  intros [a|e] w3 Hop; cbn; wp_steps; [|intros w4 ->; done].
  intros w4. split; [intros ->|intros e ->; done].
  destruct Hatt as (_ & text & t & _ & Hw2). destruct Hop as (_ & _ & t' & Hw3).
  rewrite Hw2, Hw1 in Hw3. rewrite Hw3. cbn.
  eapply (typed_update (w_db w)); [exact Ht| |reflexivity|].
  - cbn. apply grows_update; [apply _|]. intros r _ Hr. split; [done|]. intros [? Hs].
    unfold Attempts.unfinalized in Hr. apply andb_true_iff in Hr as [_ Hn]. apply bool_decide_eq_true in Hn.
    congruence.
  - intros r _. split; [done|]. intros _. by eexists.
Qed.

(** The errors the code reserves for a ledger whose rows lost their attempts. *)
Definition corruption (e : RecoveryError) : Prop :=
  exists op, e = missing_attempt "completed" op \/ e = missing_attempt "pending" op.

Lemma typed_row d k row op :
  ledger_typed d -> select_first (Operations.has_key k) (recovery_operations d) = Some row ->
  Operations.map_operation_row row = Ok op -> is_Some (op_execution_attempt_id op).
Proof.
  intros Ht [Hr _]%select_first_Some Hop. unfold ledger_typed in Ht. rewrite Forall_forall in Ht.
  destruct (Ht row Hr) as (_ & a & _ & Hid & _). destruct (map_operation_row_id _ _ Hop) as (_ & -> & _).
  by eexists.
Qed.

Lemma sql_not_corrupt c e : ~ corruption (map_persist c e).
Proof. by intros (op & [|]). Qed.

Lemma checks_not_corrupt p k :
  raises (fun e => ~ corruption e) k ->
  raises (fun e => ~ corruption e)
    (stale ← revalidate_epoch p;
     match stale with
     | Some outcome => mret (NotReserved outcome)
     | None =>
         revalidate_authority_snapshot p;;
         lift_res (revalidate_continue_workspace_authorization p);;
         match check_strategy_refusal p with
         | Some outcome => mret (NotReserved outcome)
         | None => k
         end
     end).
Proof.
  intros Hk. pose proof sql_not_corrupt.
  assert (Hau : ~ corruption AuthorityChanged) by (by intros (op & [|])).
  unfold revalidate_epoch, revalidate_authority_snapshot, get_run_for_reserve, load_checkpoint_identity,
    load_issue_lease. raises_auto; try done.
  - intros e He (op & [Hop|Hop]); destruct a; cbn in He; simplify_eq/=.
  - apply raises_any. by intros e (op & [|]).
  - unfold revalidate_continue_workspace_authorization, reverify_workspace_marker_for_continue.
    intros e He (op & Hop). revert He. case_bool_decide; [done|].
    destruct (verified_workspace p); cbn; [case_bool_decide; [|destruct (adjudicate_at _ _ _); [|try case_bool_decide..]]|].
    all: try case_bool_decide; intros [= <-]; by destruct Hop.
Qed.

Lemma resolve_existing_not_corrupt p w :
  ledger_typed (w_db w) ->
  wp (resolve_existing_operation p) (fun r _ => forall e, r = Err e -> ~ corruption e) w.
Proof.
  pose proof sql_not_corrupt. intros Ht. unfold resolve_existing_operation, Operations.lookup_logical_operation.
  apply wp_bind, wp_map_err, wp_query; [by intros w1 _ e [= <-]|]. intros w1 Hw1.
  destruct (select_first _ _) as [row|] eqn:Erow; cbn; [|by wp_steps].
  destruct (Operations.map_operation_row row) as [op|] eqn:Eop; cbn; [|by intros e' [= <-]].
  destruct (typed_row _ _ _ _ Ht Erow Eop) as [id Hid].
  unfold resolve_existing_status, resolve_completed, resolve_refused_or_conflict, resolve_pending,
    resolve_adopt_outcome.
  destruct (op_status op), (capsule_matches p op); cbn; rewrite ?Hid; wp_steps; try done.
  apply (wp_consequence _ (fun _ _ => True)); [done|]. intros [[|]|e] w3 _; cbn; wp_steps; try done.
  by intros e' [= <-].
Qed.

Lemma reserve_not_corrupt p w :
  ledger_typed (w_db w) -> wp (reserve p) (fun r _ => forall e, r = Err e -> ~ corruption e) w.
Proof.
  intros Ht. pose proof sql_not_corrupt. unfold reserve. wp_steps.
  apply wp_transaction_if_errors; [by intros e w' _ e' [= <-]|]. intros w1 Hw1.
  unfold reserve_body. wp_steps.
  eapply wp_consequence; [apply resolve_existing_not_corrupt; by rewrite Hw1|].
  assert (Hfresh : raises (fun e => ~ corruption e) (fresh_reservation p)).
  { unfold fresh_reservation, perform_epoch_cas, allocate_attempt, insert_pending_operation. raises_auto. }
  intros [[|o|v]|e] w2 He; [|wp_steps; intros w4; split; [by wp_steps|by intros e _ e' [= <-]]|..].
  1,2: eapply wp_consequence; [apply wp_raises, (checks_not_corrupt p); first [exact Hfresh|apply raises_ret]|].
  1,2: intros [r|e] w3 He' ; cbn; [intros w4; split; [by wp_steps|by intros e _ e' [= <-]]|intros w4 _ e' [= <-]; by apply He'].
  intros w3 _ e' [= <-]. by apply He.
Qed.
(** C16: the ledger stays typed.  Every operation has a status the code parses
    and an attempt of the same operation, run and epoch, and a recovery - its
    reservation, its finalization, and everything between that keeps the ledger
    so - leaves it so, whatever it returns and whatever fails; and on such a
    ledger no reservation ends in the errors the code keeps for a corrupt
    one. *)
Theorem recover_keeps_types workspace request observer executor w :
  keeps ledger_ok (observe observer request) -> (forall i, keeps ledger_ok (executor i)) ->
  ledger_ok (w_db w) ->
  ledger_ok (w_db (snd (recover_with_observer_and_executor workspace request observer executor w))) /\
  forall p e, fst (reserve p w) = Err e -> ~ corruption e.
Proof.
  intros Hobs Hexec Hok. split.
  - revert Hok. assert (keeps ledger_ok (recover_with_observer_and_executor workspace request observer executor));
      [|eauto].
    pose proof (read_only_keeps _ ledger_ok (prepare_read_only workspace request)).
    pose proof reserve_typed. pose proof finalize_typed.
    unfold recover_with_observer_and_executor, execute_phase. keeps_auto; eauto.
  - intros p e He. eapply (reserve_not_corrupt p w); [apply Hok|exact He].
Qed.
End Types.

(** ** Progress *)

Section Progress.
Context {env : Env} `{!FaultFree env} `{Sha256} `{CapsuleCodec} `{RecoveryCodec} `{WorkflowDecoder} `{ErrorText} `{Disk} `{Process}.
Context `{!RecoveryCodecLaws _}.

(** What the readings of a lease give when none fails. *)
Definition lease_now (d : Db) (m : RunMetadata) : option IssueLease :=
  match repository m, RunMeta.issue_lease_number m with
  | Some repo, Some n =>
      match newest_by l_updated_at (select_where (lease_of_run (run_id m)) (issue_leases d)) with
      | Some row => Some (row_to_lease row)
      | None =>
          if decide (n <= i64_max)%Z then row_to_lease <$> select_first (lease_on repo n) (issue_leases d)
          else None
      end
  | _, _ => None
  end.

(** The preparation saw the database [d]. *)
Record sees (p : PreparedRecovery) (d : Db) : Prop := mkSees {
  se_run : exists row m,
    select_first (run_named (run_id_of p)) (runs d) = Some row /\ map_run_row row = Ok m /\
    status m = run_status p /\ current_step m = pr_current_step p /\ process_pid m = live_pid p /\
    lease p = lease_now d m;
  se_checkpoint : checkpoint_identity p =
    (fun r => checkpoint_identity_of (row_to_checkpoint r)) <$>
      newest_by cr_timestamp (select_where (checkpoint_of_run (run_id_of p)) (checkpoints d));
  se_wait :
    match select_first (wait_of_run (run_id_of p)) (wait_states d) with
    | Some row => exists r, row_to_wait_state row = Ok r /\ wait_state p = Some r
    | None => wait_state p = None
    end
}.

Lemma load_issue_lease_live m w :
  wp (load_issue_lease m) (fun r w' => r = Ok (lease_now (w_db w) m) /\ w_db w' = w_db w) w.
Proof.
  unfold load_issue_lease, lease_now, get_lease_for_run, get_lease_for_issue, issue_number_to_sql_i64.
  destruct (repository m) as [repo|]; [|by wp_steps].
  destruct (RunMeta.issue_lease_number m) as [n|]; [|by wp_steps].
  wp_steps. apply wp_query_live. intros w1 Hw1. cbn.
  destruct (newest_by _ _) as [row|]; cbn; [by wp_steps|]. wp_steps.
  case_decide; cbn; wp_steps; [|done]. apply wp_query_live. intros w2 Hw2. wp_steps. cbn.
  by rewrite Hw1 in *.
Qed.

Lemma load_checkpoint_identity_live context run w :
  wp (load_checkpoint_identity context run)
    (fun r w' => w_db w' = w_db w /\
       r = Ok ((fun r => checkpoint_identity_of (row_to_checkpoint r)) <$>
             newest_by cr_timestamp (select_where (checkpoint_of_run run) (checkpoints (w_db w))))) w.
Proof.
  unfold load_checkpoint_identity, load_checkpoint_with_conn. wp_steps. apply wp_query_live.
  intros w1 Hw1. cbn. wp_steps. split; [done|]. by destruct (newest_by _ _).
Qed.

Lemma revalidate_authority_live p w :
  sees p (w_db w) ->
  wp (revalidate_authority_snapshot p) (fun r w' => r = Ok tt /\ w_db w' = w_db w) w.
Proof.
  intros [(row & m & Hrow & Hm & Hst & Hcs & Hpid & Hlease) Hcp Hws].
  unfold revalidate_authority_snapshot, get_run_for_reserve, get_run_with_conn.
  wp_steps. apply wp_query_live. intros w1 Hw1. rewrite Hrow, Hm. cbn. wp_steps.
  rewrite !bool_decide_eq_false_2 by auto. wp_steps.
  eapply wp_consequence; [apply load_checkpoint_identity_live|]. intros r w2 [Hw2 ->]. rewrite Hw1 in *.
  rewrite bool_decide_eq_false_2 by (rewrite Hcp; auto). unfold get_wait_state. wp_steps.
  apply wp_query_live. intros w3 Hw3. rewrite Hw2 in *.
  destruct (select_first (wait_of_run _) _) as [wr|]; [destruct Hws as (ws & -> & Hws)|]; cbn; wp_steps;
    rewrite bool_decide_eq_false_2 by (rewrite Hws; auto);
    wp_steps; (eapply wp_consequence; [apply load_issue_lease_live|]); intros r w4 [-> Hw4];
    rewrite Hw3 in *; rewrite bool_decide_eq_false_2 by (rewrite Hlease; auto); by wp_steps.
Qed.

(** The epoch is exactly the one the request expects, and can advance. *)
Definition epoch_exact (p : PreparedRecovery) (d : Db) : Prop :=
  match Epoch.current d (run_id_of p) with
  | None => expected_epoch p = 0%Z
  | Some e => e = expected_epoch p /\ (0 <= e < i64_max)%Z
  end.

(** Nobody holds the request: it was never seen, or its owner's lease is over
    and its attempt still open. *)
Inductive claimable (p : PreparedRecovery) (d : Db) : Prop :=
| ClaimFresh :
    select_first (Operations.has_key (logical_request_key p)) (recovery_operations d) = None ->
    exists_where (Operations.has_id (operation_id p)) (recovery_operations d) = false ->
    claimable p d
| ClaimAbandoned row id :
    select_first (Operations.has_key (logical_request_key p)) (recovery_operations d) = Some row ->
    op_capsule_envelope_digest (or_operation row) = ec_envelope_digest (ra_capsule (authority p)) ->
    Operations.is_pending row = true ->
    (forall n, Operations.lease_expired (env_clock n) row = true) ->
    op_execution_attempt_id (or_operation row) = Some id ->
    count_where (Attempts.unfinalized id) (recovery_attempts d) = 1 ->
    claimable p d.

(** A recovery may go on: the preparation is current, its step recoverable and
    its workspace still owned. *)
Record admissible (p : PreparedRecovery) (d : Db) : Prop := mkAdmissible {
  ad_sees : sees p d;
  ad_epoch : epoch_exact p d;
  ad_workspace : revalidate_continue_workspace_authorization p = Ok tt;
  ad_strategy : check_strategy_refusal p = None;
  ad_seq : (attempts_seq d < i64_max)%Z;
  ad_claim : claimable p d
}.

Lemma revalidate_epoch_live p w :
  epoch_exact p (w_db w) -> wp (revalidate_epoch p) (fun r w' => r = Ok None /\ w_db w' = w_db w) w.
Proof.
  unfold revalidate_epoch, Epoch.read_epoch, epoch_exact, Epoch.current. intros He. wp_steps.
  apply wp_query_live. intros w1 Hw1. destruct (select_first _ _) as [r|]; cbn in *.
  - destruct He as [<- He]. unfold get_i64, u64_or_zero. rewrite (proj2 (Z.leb_le _ _)) by lia. cbn. wp_steps.
    rewrite (proj2 (Z.ltb_ge _ _)) by lia. rewrite bool_decide_eq_false_2 by auto. by wp_steps.
  - wp_steps. rewrite bool_decide_eq_false_2 by auto. by wp_steps.
Qed.

Lemma pending_operation row :
  Operations.is_pending row = true ->
  exists op, Operations.map_operation_row row = Ok op /\ op_status op = OperationStatus.Pending.
Proof.
  intros Hp%bool_decide_eq_true. unfold Operations.map_operation_row. rewrite Hp. by eexists.
Qed.

Lemma adoptable_one d k row t :
  ledger_wf d -> select_first (Operations.has_key k) (recovery_operations d) = Some row ->
  Operations.is_pending row = true -> Operations.lease_expired t row = true ->
  count_where (Operations.adoptable (row_operation_id row) t) (recovery_operations d) = 1.
Proof.
  intros Hwf [Hr _]%select_first_Some Hp Hl.
  assert (0 < count_where (Operations.adoptable (row_operation_id row) t) (recovery_operations d)).
  { apply count_where_pos. exists row. split; [done|]. unfold Operations.adoptable. rewrite Hp, Hl.
    rewrite (proj2 (has_id_key _ _)) by done. done. }
  assert (count_where (Operations.adoptable (row_operation_id row) t) (recovery_operations d) <= 1); [|lia].
  apply (count_id_unique d _ (row_operation_id row)); [done|]. unfold Operations.adoptable. intros r. rewrite !andb_true_iff. tauto.
Qed.

Lemma resolve_existing_live p w :
  ledger_wf (w_db w) -> claimable p (w_db w) ->
  wp (resolve_existing_operation p)
    (fun r w' => (exists ops, w_db w' = (w_db w) <| recovery_operations := ops |>) /\
       ((r = Ok ExistingNotFound /\ w_db w' = w_db w) \/ exists v, r = Ok (AdoptedPending v))) w.
Proof.
  intros Hwf Hc. unfold resolve_existing_operation, Operations.lookup_logical_operation. wp_steps.
  apply wp_query_live. intros w1 Hw1. destruct Hc as [Hk _|row id Hrow Hcap Hp Hl Hid Hu].
  - rewrite Hk. cbn. wp_steps. split; [exists (recovery_operations (w_db w1)); rewrite Hw1; by destruct (w_db w)|].
    by left.
  - destruct (pending_operation row Hp) as (op & Hop & Hst).
    destruct (map_operation_row_id _ _ Hop) as (Ho & Ha & Hc & _). rewrite Hrow, Hop. cbn.
    unfold resolve_existing_status, resolve_pending, capsule_matches. rewrite Hst, Hc, Hcap.
    rewrite bool_decide_eq_true_2 by done. cbn. wp_steps.
    match goal with Hw : w_db ?w' = w_db w1 |- wp _ _ ?w' => rewrite Hw1 in Hw; rename Hw into Hw2 end.
    unfold Operations.try_adopt_pending. wp_steps.
    eapply wp_execute_live; [reflexivity|]. intros w3 Hw3. rewrite Hw2 in *.
    rewrite Ho, (adoptable_one _ _ _ _ Hwf Hrow Hp (Hl _)). cbn. wp_steps.
    unfold resolve_adopt_outcome. rewrite Ha, Hid. cbn. wp_steps. split; [by eexists|]. right. by eexists.
Qed.

Lemma cas_statement_advances p next t d :
  ledger_wf d -> epoch_exact p d ->
  exists d', Epoch.cas_statement (run_id_of p) next (i64_saturating (expected_epoch p)) t d = Ok (1, d') /\
    d' = d <| recovery_epochs := recovery_epochs d' |>.
Proof.
  intros Hwf He.
  destruct (Epoch.cas_statement (run_id_of p) next (i64_saturating (expected_epoch p)) t d) as [[n d']|e] eqn:Ec.
  2:{ unfold Epoch.cas_statement in Ec. by destruct (exists_where _ _). }
  destruct (cas_statement_spec _ _ _ _ _ _ _ Hwf Ec) as (Hd & _ & Hn). exists d'. split; [|done].
  unfold epoch_exact in He. destruct (Epoch.current d (run_id_of p)) as [e|]; [|by destruct Hn as [-> _]].
  destruct He as [-> He]. unfold i64_saturating in Hn. rewrite Z.min_l, Z.eqb_refl in Hn by lia.
  by destruct Hn as [-> _].
Qed.

Lemma cas_live p w :
  ledger_wf (w_db w) -> epoch_exact p (w_db w) ->
  wp (perform_epoch_cas p)
    (fun r w' => (exists to, r = Ok (CasAdvanced to)) /\
       exists epochs, w_db w' = (w_db w) <| recovery_epochs := epochs |>) w.
Proof.
  intros Hwf He. unfold perform_epoch_cas, Epoch.cas_advance_epoch. wp_steps.
  match goal with |- wp (execute (Epoch.cas_statement _ ?next _ ?t)) _ ?w1 =>
    destruct (cas_statement_advances p next t (w_db w) Hwf He) as (d & Hcas & Hd);
    assert (Hw1 : w_db w1 = w_db w) by done end.
  eapply wp_execute_live; [rewrite Hw1; exact Hcas|]. intros w2 Hw2. rewrite decide_False by done. wp_steps. cbn. wp_steps.
  split; [by eexists|]. eexists. rewrite Hw2. exact Hd.
Qed.

Lemma allocate_attempt_live p epoch w :
  (attempts_seq (w_db w) < i64_max)%Z ->
  wp (allocate_attempt p epoch)
    (fun r w' => (exists id, r = Ok id) /\
       recovery_operations (w_db w') = recovery_operations (w_db w)) w.
Proof.
  intros Hseq. unfold allocate_attempt, Attempts.record_attempt_start, Attempts.canonical_snapshot_bytes,
    Attempts.snapshot_text. wp_steps. cbn.
  destruct (snapshot_prints default_snapshot) as (bytes & -> & Hutf). cbn. wp_steps. rewrite Hutf. cbn. wp_steps.
  match goal with |- wp _ _ ?w1 => assert (Hw1 : w_db w1 = w_db w) by done end.
  eapply wp_execute_live.
  { unfold Attempts.insert_attempt. rewrite Hw1, (proj2 (Z.ltb_lt _ _) Hseq). reflexivity. }
  intros w2 Hw2. cbn. rewrite Hw2. split; [by eexists|done].
Qed.

Lemma fresh_reservation_live p w :
  ledger_wf (w_db w) -> epoch_exact p (w_db w) -> (attempts_seq (w_db w) < i64_max)%Z ->
  exists_where (Operations.has_key (logical_request_key p)) (recovery_operations (w_db w)) = false ->
  exists_where (Operations.has_id (operation_id p)) (recovery_operations (w_db w)) = false ->
  wp (fresh_reservation p) (fun r w' => exists v, r = Ok (Fresh v)) w.
Proof.
  intros Hwf He Hseq Hkey Hid. unfold fresh_reservation, insert_pending_operation, Operations.insert_pending.
  wp_steps. eapply wp_consequence; [by apply cas_live|]. intros r w1 [[to ->] [epochs Hw1]]. cbn. wp_steps.
  eapply wp_consequence; [apply allocate_attempt_live; by rewrite Hw1|].
  intros r w2 [[id ->] Hw2]. rewrite Hw1 in Hw2. cbn in Hw2. cbn. wp_steps.
  match goal with |- wp _ _ ?w3 => assert (Hw3 : recovery_operations (w_db w3) = recovery_operations (w_db w))
    by congruence end.
  eapply wp_execute_live.
  { unfold Operations.insert_operation, row_operation_id, row_request_key. rewrite Hw3. cbn.
    rewrite Hid, Hkey. reflexivity. }
  intros w4 _. wp_steps. by eexists.
Qed.

Lemma revalidations_live p (k : M Db RecoveryError Reservation) Q w :
  sees p (w_db w) -> epoch_exact p (w_db w) -> revalidate_continue_workspace_authorization p = Ok tt ->
  check_strategy_refusal p = None -> (forall w', w_db w' = w_db w -> wp k Q w') ->
  wp (stale ← revalidate_epoch p;
      match stale with
      | Some outcome => mret (NotReserved outcome)
      | None =>
          revalidate_authority_snapshot p;;
          lift_res (revalidate_continue_workspace_authorization p);;
          match check_strategy_refusal p with
          | Some outcome => mret (NotReserved outcome)
          | None => k
          end
      end) Q w.
Proof.
  intros Hsees He Hws Hst Hk. wp_steps. eapply wp_consequence; [by apply revalidate_epoch_live|].
  intros r w1 [-> Hw1]. wp_steps.
  eapply wp_consequence; [apply revalidate_authority_live; by rewrite Hw1|]. intros r w2 [-> Hw2].
  wp_steps. rewrite Hws, Hst. apply Hk. congruence.
Qed.

Lemma reserve_live p w :
  ledger_wf (w_db w) -> admissible p (w_db w) ->
  wp (reserve p) (fun r w' => exists v, r = Ok (Proceed v)) w.
Proof.
  intros Hwf [Hsees He Hws Hst Hseq Hc]. unfold reserve. wp_steps. apply wp_transaction_if_live. intros w1 Hw1.
  unfold reserve_body. wp_steps.
  eapply wp_consequence.
  { apply wp_and; [apply resolve_existing_live; by rewrite Hw1|apply resolve_existing_wp; by rewrite Hw1]. }
  intros r w2 [[[ops Hops] [[-> Hw2]|[v ->]]] Hr]; rewrite Hw1 in *.
  - apply revalidations_live; rewrite ?Hw2; [done..|]. intros w3 Hw3.
    destruct Hr as [_ Hkey]. eapply wp_consequence.
    { apply fresh_reservation_live; rewrite Hw3, ?Hw2; try done.
      - apply exists_where_false, select_first_None, Hkey.
      - by inversion Hc; congruence. }
    intros r w4 [v ->] w5 Hw5. wp_steps. by eexists.
  - apply revalidations_live; rewrite ?Hops; [by destruct Hsees|done..|]. intros w3 Hw3. wp_steps.
    intros w4 Hw4. wp_steps. by eexists.
Qed.

(** What the finalization of [v] needs. *)
Record finishable (v : ReservedRecovery) (d : Db) : Prop := mkFinishable {
  fi_attempt : count_where (Attempts.unfinalized (rv_attempt_id v)) (recovery_attempts d) = 1;
  fi_operation : count_where (Operations.finalizable (rv_operation_id v)) (recovery_operations d) = 1;
  fi_id : (- 2 ^ 63 <= rv_attempt_id v <= i64_max)%Z
}.

Lemma finalizable_one d r id :
  ledger_wf d -> r ∈ recovery_operations d -> Operations.is_pending r = true -> row_operation_id r = id ->
  count_where (Operations.finalizable id) (recovery_operations d) = 1.
Proof.
  intros Hwf Hr Hp <-.
  assert (0 < count_where (Operations.finalizable (row_operation_id r)) (recovery_operations d)).
  { apply count_where_pos. exists r. split; [done|]. unfold Operations.finalizable. rewrite Hp.
    by rewrite (proj2 (has_id_key _ _)). }
  assert (count_where (Operations.finalizable (row_operation_id r)) (recovery_operations d) <= 1); [|lia].
  apply (count_id_unique d _ (row_operation_id r)); [done|]. unfold Operations.finalizable.
  intros r'. rewrite andb_true_iff. tauto.
Qed.

Lemma unfinalized_above d id :
  ledger_wf d -> (attempts_seq d < id)%Z -> count_where (Attempts.unfinalized id) (recovery_attempts d) = 0.
Proof.
  intros Hwf Hid. apply count_where_0. intros a Ha.
  pose proof (proj1 (Forall_forall _ _) (wf_attempts_seq _ Hwf) a Ha) as Hle. cbn in Hle.
  unfold Attempts.unfinalized. rewrite (proj2 (Z.eqb_neq _ _)) by lia. done.
Qed.

Lemma reserves_finishable p d v d' :
  ledger_wf d -> ledger_wf d' -> claimable p d -> (attempts_seq d < i64_max)%Z ->
  reserves p d v d' -> finishable v d'.
Proof.
  intros Hwf Hwf' Hc Hseq Hr. revert Hwf'.
  destruct Hr as [d1 text t1 t2 lease Hkey epoch id _ Hd1 _|row op id t Hrow Hop _ Hid Hp _]; intros Hwf'.
  - apply (f_equal recovery_operations) in Hd1 as Hops. apply (f_equal recovery_attempts) in Hd1 as Hatt.
    cbn in Hops, Hatt. clear Hd1. pose proof (wf_seq _ Hwf). constructor; cbn [rv_attempt_id rv_operation_id].
    + rewrite Hatt, count_where_app. rewrite unfinalized_above; [|done|lia].
      unfold count_where, select_where, Attempts.unfinalized. cbn. by rewrite Z.eqb_refl.
    + assert (Hin : exists r, r ∈ recovery_operations d1 /\ Operations.is_pending r = true /\
                       row_operation_id r = operation_id p).
      { eexists. split; [rewrite Hops; apply elem_of_app; right; by apply list_elem_of_singleton|done]. }
      destruct Hin as (r & Hr & Hp & Hid). by eapply finalizable_one.
    + unfold id, i64_max in *. lia.
  - destruct (map_operation_row_id _ _ Hop) as (Ho & Ha & _). rewrite Ha in Hid.
    destruct Hc as [|row' id' Hrow' _ _ _ Hid' Hu]; [congruence|].
    assert (row' = row) as -> by congruence. assert (id' = id) as -> by congruence.
    apply select_first_Some in Hrow as [Hr _]. constructor; cbn.
    + exact Hu.
    + rewrite Ho. rewrite count_where_update; [by eapply finalizable_one|].
      intros r _ _. reflexivity.
    + assert (Hpos : 0 < count_where (Attempts.unfinalized id) (recovery_attempts d)) by lia.
      apply count_where_pos in Hpos as (a & Hain & Hun). unfold Attempts.unfinalized in Hun.
      apply andb_true_iff in Hun as [Hun _]. apply Z.eqb_eq in Hun.
      pose proof (proj1 (Forall_forall _ _) (wf_attempts_seq _ Hwf) a Hain) as Hle. cbn in Hle.
      unfold i64_max in *. lia.
Qed.

Lemma append_attempt_outcome_live id st s rr cd w :
  count_where (Attempts.unfinalized id) (recovery_attempts (w_db w)) = 1 ->
  wp (Attempts.append_attempt_outcome id st s rr cd)
    (fun r w' => r = Ok tt /\ recovery_operations (w_db w') = recovery_operations (w_db w)) w.
Proof.
  intros Hc. unfold Attempts.append_attempt_outcome, Attempts.canonical_snapshot_bytes, Attempts.snapshot_text.
  wp_steps. destruct (snapshot_prints s) as (bytes & -> & Hutf). cbn. wp_steps. rewrite Hutf. cbn. wp_steps.
  match goal with |- wp _ _ ?w1 => assert (Hw1 : w_db w1 = w_db w) by done end.
  eapply wp_execute_live; [reflexivity|]. intros w2 Hw2. rewrite Hw1 in *.
  rewrite Hc, decide_True by done. wp_steps. by rewrite Hw2.
Qed.

Lemma finalize_completed_live id attempt st w :
  count_where (Operations.finalizable id) (recovery_operations (w_db w)) = 1 ->
  (- 2 ^ 63 <= attempt <= i64_max)%Z ->
  wp (Operations.finalize_completed id (json_to_string (completed_outcome attempt st)))
    (fun r _ => r = Ok attempt) w.
Proof.
  intros Hc Hid. unfold Operations.finalize_completed, Operations.update_operations. wp_steps.
  match goal with |- wp _ _ ?w1 => assert (Hw1 : w_db w1 = w_db w) by done end.
  eapply wp_execute_live; [reflexivity|]. intros w2 _. rewrite Hw1, Hc, decide_True by done. wp_steps.
  unfold Operations.attempt_id_from_outcome. rewrite outcome_roundtrip by done. cbn.
  change (ok_or (Operations.json_i64_member "attempt_id" (completed_outcome attempt st))
            (FromSqlConversionFailure 0) = Ok attempt).
  unfold Operations.json_i64_member, completed_outcome. by simplify_map_eq.
Qed.

Lemma finalize_live p v x w :
  finishable v (w_db w) ->
  wp (finalize p v x)
    (fun r _ => r = Ok (Recovered (step_id p) (rv_attempt_id v) (rv_operation_id v))) w.
Proof.
  intros [Ha Ho Hid]. unfold finalize, finalize_body. apply wp_transaction_if_live. intros w1 Hw1. wp_steps.
  eapply wp_consequence; [apply append_attempt_outcome_live; by rewrite Hw1|]. intros r w2 [-> Hw2]. cbn.
  wp_steps. eapply wp_consequence; [apply finalize_completed_live; [by rewrite Hw2, Hw1|done]|].
  intros r w3 ->. cbn. wp_steps. done.
Qed.

Lemma prepare_live workspace request w p w0 :
  prepare workspace request w = (Ok p, w0) ->
  w_db w0 = w_db w /\ sees p (w_db w) /\ run_id_of p = rq_run_id request /\ step_id p = rq_step_id request /\
  anchor_workspace_ownership (workspace_path p) (run_id_of p) (ra_strategy (authority p))
    = Ok (verified_workspace p, ra_workspace_authorization (authority p)).
Proof.
  intros Hrun. enough (Hw : wp (prepare workspace request) (fun r w0 =>
    w_db w0 = w_db w /\ forall p, r = Ok p -> sees p (w_db w) /\ run_id_of p = rq_run_id request /\
      step_id p = rq_step_id request /\
      anchor_workspace_ownership (workspace_path p) (run_id_of p) (ra_strategy (authority p))
        = Ok (verified_workspace p, ra_workspace_authorization (authority p))) w).
  { unfold wp in Hw. rewrite Hrun in Hw. destruct Hw as [? Hw]. destruct (Hw p eq_refl). tauto. }
  unfold prepare, load_capsule_v1, Attempts.latest_for_step, Attempts.read_newest, get_run_with_conn. wp_steps.
  apply wp_query_live. intros w1 Hw1. destruct (select_first (capsule_of _) _) as [cr|]; [|done].
  destruct (load_capsule_row _ cr) as [c|] eqn:Ec; cbn; [|done].
  apply load_capsule_row_Ok in Ec as [Hc Hv]. rewrite Hv. wp_steps. cbn. wp_steps.
  destruct (resolve_step_def c _) as [sd|]; cbn; [wp_steps|done].
  apply wp_query_live. intros w2 Hw2. destruct (match newest_by _ _ with Some _ => _ | None => _ end) as [sa|];
    cbn; [|by rewrite Hw2, Hw1]. wp_steps.
  destruct (anchor_workspace_ownership _ _ _) as [[an au]|] eqn:Ean; cbn; wp_steps; [|by rewrite Hw2, Hw1].
  apply wp_query_live. intros w3 Hw3. rewrite Hw2, Hw1 in *.
  destruct (select_first (run_named _) _) as [row|] eqn:Erow; cbn; wp_steps; [|done].
  destruct (map_run_row row) as [m|] eqn:Em; cbn; wp_steps; cbn; [|done]. wp_steps.
  eapply wp_consequence; [apply load_checkpoint_identity_live|]. intros r w4 [Hw4 ->]. rewrite Hw3 in *. wp_steps.
  unfold get_wait_state. apply wp_query_live. intros w5 Hw5. rewrite Hw4 in *.
  destruct (select_first (wait_of_run _) _) as [wr|] eqn:Ewr; [destruct (row_to_wait_state wr) as [ws|] eqn:Ews|];
    cbn; try done; wp_steps; (eapply wp_consequence; [apply load_issue_lease_live|]); intros r w6 [-> Hw6];
    rewrite Hw5 in *; wp_steps; (split; [done|]); intros q [= <-]; unfold run_id_of; cbn; rewrite Hc;
    (split; [|by split_and!]); constructor; unfold run_id_of; cbn; rewrite ?Hc, ?Ewr; try done.
  - by exists row, m.
  - by exists ws.
  - by exists row, m.
Qed.

(** A workspace nobody touched between the phases is still the owner's. *)
Lemma workspace_stays p :
  disk_at AtReserve = disk_at AtPrepare ->
  anchor_workspace_ownership (workspace_path p) (run_id_of p) (ra_strategy (authority p))
    = Ok (verified_workspace p, ra_workspace_authorization (authority p)) ->
  revalidate_continue_workspace_authorization p = Ok tt.
Proof.
  intros Hd. unfold anchor_workspace_ownership, revalidate_continue_workspace_authorization,
    reverify_workspace_marker_for_continue, adjudicate_at. rewrite Hd.
  case_bool_decide as Hs; [done|].
  assert (ra_strategy (authority p) = RecoveryStrategy.ContinueWorkspace) as ->
    by (destruct (ra_strategy (authority p)); try done; by destruct Hs).
  destruct (fst _) as [v| |]; try done. intros [= <- <-]. cbn.
  rewrite bool_decide_eq_false_2 by auto. by rewrite bool_decide_eq_true_2.
Qed.

(** An executor that returns, and leaves the ledger to the protocol. *)
Definition executes (executor : RecoveryExecutor) : Prop :=
  forall i w, exists x w', executor i w = (Ok x, w') /\
    recovery_attempts (w_db w') = recovery_attempts (w_db w) /\
    recovery_operations (w_db w') = recovery_operations (w_db w).

(** C15: a request nobody holds completes.  When no statement fails and nobody
    touches the workspace in between, a request that prepares, expects the
    run's epoch and names a recoverable step is recovered: the one attempt is
    executed and recorded, whether the request is new or was left pending by a
    process whose lease is over. *)
Theorem unheld_request_completes workspace request executor w p w0 :
  executes executor -> disk_at AtReserve = disk_at AtPrepare ->
  ledger_wf (w_db w) -> (attempts_seq (w_db w) < i64_max)%Z ->
  prepare workspace request w = (Ok p, w0) ->
  check_strategy_refusal p = None -> epoch_exact p (w_db w) -> claimable p (w_db w) ->
  exists attempt operation w',
    recover_with_executor workspace request executor w
      = (Ok (Recovered (rq_step_id request) attempt operation), w').
Proof.
  intros Hexec Hdisk Hwf Hseq Hprep Hst He Hc.
  destruct (prepare_live _ _ _ _ _ Hprep) as (Hw0 & Hsees & Hid & Hstep & Hanchor).
  assert (Had : admissible p (w_db w)) by (constructor; try done; by apply workspace_stays).
  unfold recover_with_executor, recover_with_observer_and_executor, observe, NoOpRecoveryPhaseObserver.
  unfold mbind, M_bind, try. rewrite Hprep. rewrite <- Hw0 in Hwf, Had, Hc, Hseq.
  pose proof (reserve_live p w0 Hwf Had) as [v Hv]. pose proof (reserve_refines p w0 Hwf) as Hr.
  pose proof (evolves_elim _ _ (reserve_evolves p) Hwf) as [Hwf1 _].
  destruct (reserve p w0) as [r w1]. cbn in Hv, Hwf1. subst r. destruct Hr as [Hr _].
  pose proof (reserves_finishable _ _ _ _ Hwf Hwf1 Hc Hseq Hr) as [Ha Ho Hi].
  unfold execute_phase, map_err. destruct (Hexec (invocation_of p v workspace) w1) as (x & w2 & Hx & Hatt & Hops).
  rewrite Hx. cbn. rewrite <- Hatt in Ha. rewrite <- Hops in Ho.
  pose proof (finalize_live p v x w2 ltac:(by constructor)) as Hf. unfold wp in Hf.
  destruct (finalize p v x w2) as [r w3]. cbn in Hf. subst r. rewrite <- Hstep. by eexists _, _, _.
Qed.
End Progress.

(** ** Samples *)

Section Samples.
#[local] Existing Instance calm.
#[local] Existing Instance identity_digest.
#[local] Existing Instance sample_capsule_codec.
#[local] Existing Instance sample_recovery_codec.
#[local] Existing Instance sample_workflow_decoder.
#[local] Existing Instance sample_text.
#[local] Existing Instance sample_disk.
#[local] Existing Instance sample_process.

#[local] Instance sample_recovery_laws : RecoveryCodecLaws sample_recovery_codec.
Proof.
  split; [|by eexists]. intros a s Ha. cbn [json_from_str json_to_string sample_recovery_codec].
  assert (Hp : sample_json_print (completed_outcome a s) = be_bytes 8 (a + 2 ^ 63)%Z +:+ s).
  { unfold sample_json_print, completed_outcome. by simplify_map_eq. }
  assert (Hlen : 8 = String.length (be_bytes 8 (a + 2 ^ 63)%Z)) by (by rewrite length_be_bytes).
  rewrite Hp. unfold sample_json_parse. rewrite length_append, substring_prefix by done.
  rewrite substring_suffix by (done || lia). rewrite be_value_bytes, Z.mod_small by (unfold i64_max in *; lia).
  do 2 f_equal. lia.
Qed.

Example recover_keeps_types_witness :
  let w' := snd (recover_with_executor "/w" (sample_request "watch_pr_checks" 0) sample_executor recovery_world) in
  length (recovery_operations (w_db w')) = 1 /\ ledger_ok (w_db w').
Proof.
  split; [vm_compute; reflexivity|].
  apply (recover_keeps_types "/w" (sample_request "watch_pr_checks" 0) NoOpRecoveryPhaseObserver sample_executor
           recovery_world); [by intros w|by intros i w|].
  split; [exact recovery_world_wf|constructor].
Defined.

Lemma sample_executor_executes : executes sample_executor.
Proof. intros i w. by eexists _, _. Qed.

Example unheld_request_completes_witness :
  exists attempt operation w',
    recover_with_executor "/w" (sample_request "watch_pr_checks" 0) sample_executor recovery_world
      = (Ok (Recovered "watch_pr_checks" attempt operation), w').
Proof.
  assert (Hp : prepare "/w" (sample_request "watch_pr_checks" 0) recovery_world =
               (Ok sample_prepared, snd (prepare "/w" (sample_request "watch_pr_checks" 0) recovery_world)))
    by (vm_compute; reflexivity).
  refine (unheld_request_completes "/w" (sample_request "watch_pr_checks" 0) sample_executor recovery_world
            sample_prepared _ sample_executor_executes _ recovery_world_wf _ Hp _ _ _);
    [reflexivity|by_computation|reflexivity|reflexivity|].
  apply ClaimFresh; vm_compute; reflexivity.
Defined.
End Samples.
