(* ===== verification/Runner.v ===== *)
(** The engine runner's state and its persistence ([engine/error.rs],
    [engine/instance.rs], [engine/runner.rs] and the files of [engine/runner/]):
    how a runner is built, what it writes to the registry, how a failing step's
    provenance is captured, and how the issue lease is protected on the way.

    The loop that drives it is in [TransitionLoop].  What the runner calls
    outside this code is a [Host]: the file system's answer about workspace
    ownership, the merge probe behind a merge-required completion, renderings
    of third-party values, the process id. *)
From S2P Require Import Prelude Effects Sql Status Schema Transition Checkpoints Leases Runs TypedMerge StepContext.

(** ** Errors *)

(** What a persistence error's message renders. *)
Inductive Cause :=
| CauseText (message : string)
| CauseSql (e : SqlError)
| CauseStore (e : PersistenceError)
| CauseSerde (e : SerdeError)
| CauseCompletion (e : SqlError)
| CauseMerge (o : MergeCompletionOutcome).

Record OwnershipFailureDetails := mkOwnershipFailureDetails {
  of_failed_step : string;
  of_reason : string
}.

Inductive EngineError :=
| StepExecutionError (step_id message : string)
| TransitionNotFound (step_id : string) (outcome : StepOutcome.t)
| LoopLimitExceeded (step_id : string)
| RetryLimitExceeded (step_id : string)
| PersistenceFailed (cause : Cause)
| InvalidState (message : string)
| StepNotFound (step_id : string)
| ToolUnavailable (message : string)
| OwnershipFailure (details : OwnershipFailureDetails).

(** [From<PersistenceError> for EngineError] and the closures that convert a
    [rusqlite::Error]. *)
Definition of_store (e : PersistenceError) : EngineError := PersistenceFailed (CauseStore e).
Definition of_sql (e : SqlError) : EngineError := PersistenceFailed (CauseSql e).
Definition of_serde (e : SerdeError) : EngineError := PersistenceFailed (CauseSerde e).
Definition persistence_text (message : string) : EngineError := PersistenceFailed (CauseText message).

(** The derived [Debug] of an outcome. *)
Definition outcome_debug (o : StepOutcome.t) : string :=
  match o with
  | StepOutcome.Success => "Success"
  | StepOutcome.Retryable => "Retryable"
  | StepOutcome.Fatal => "Fatal"
  | StepOutcome.Fixable => "Fixable"
  | StepOutcome.Abandon => "Abandon"
  | StepOutcome.Wait => "Wait"
  end.

(** ** Instances and outcomes *)

Record WorkflowInstance := mkWorkflowInstance {
  workflow_type : WorkflowType;
  config : WorkflowConfig;
  wi_run_id : string;
  current_state : string
}.

Definition create_with_run_id (wt : WorkflowType) (cfg : WorkflowConfig) (run : string)
    : WorkflowInstance :=
  mkWorkflowInstance wt cfg run (default "" (sd_step_id <$> head (steps wt))).

Record RunContext := mkRunContext {
  rx_daemon_managed : bool;
  rx_log_path : option string;
  rx_artifact_root : option string;
  rx_workspace_path : option string;
  rx_repository : option string;
  rx_issue_number : option Z;
  rx_pr_number : option Z;
  rx_head_sha : option string;
  rx_workspace_authorization : option WorkspaceAuthorization;
  rx_launch_provenance : option LaunchProvenance
}.

Inductive RunOutcome :=
| RSuccess
| RFailure (step_id reason : string)
| RAbandoned (step_id reason : string)
| RInterrupted (step_id : string)
| RWaitingExternal (step_id reason : string).

(** ** The host *)

(** What a step executor returns: its result, and what it wrote to the
    context on the way.  It is lent the whole world: an executor may read the
    clock and write the database. *)
Record ExecResult := mkExecResult {
  er_result : Res EngineError StepOutcome.t;
  er_writes : list ContextWrite
}.
Definition Executor := StepContext -> Json -> World Db -> ExecResult * World Db.
Definition ExecutorRegistry := gmap string Executor.

Class Host := {
  render_cause : Cause -> string;
  to_rfc3339 : Z -> string;
  object_to_string : gmap string Json -> option string;
  process_id : Z;
  temp_dir_join : string -> string;
  workspace_ownership_evidence_exists : World Db -> string -> bool;
  verify_workspace_ownership : World Db -> string -> string -> option string;
  complete_merge_required_run : string -> string -> World Db -> MergeCompletionOutcome * World Db;
  target_path_variables : WorkflowConfig -> string -> list (string * string);
  scope_control_variables : WorkflowConfig -> list (string * string)
}.

Record EngineRunner := mkEngineRunner {
  instance : WorkflowInstance;
  er_retry_count : Z;
  er_edge_loop_counts : gmap string Z;
  max_retries : Z;
  max_loops : Z;
  interrupted : bool;
  registry : ExecutorRegistry;
  context : StepContext;
  run_context : RunContext;
  persist_registry : bool;
  pending_failure_cleanup : option FailureCleanupState;
  terminal_ownership_failure : bool
}.

Global Instance eta_instance : Eta WorkflowInstance := fun i =>
  mkWorkflowInstance (workflow_type i) (config i) (wi_run_id i) (current_state i).
Global Instance eta_run_context : Eta RunContext := fun x =>
  mkRunContext (rx_daemon_managed x) (rx_log_path x) (rx_artifact_root x) (rx_workspace_path x)
    (rx_repository x) (rx_issue_number x) (rx_pr_number x) (rx_head_sha x)
    (rx_workspace_authorization x) (rx_launch_provenance x).
Global Instance eta_runner : Eta EngineRunner := fun r =>
  mkEngineRunner (instance r) (er_retry_count r) (er_edge_loop_counts r) (max_retries r)
    (max_loops r) (interrupted r) (registry r) (context r) (run_context r) (persist_registry r)
    (pending_failure_cleanup r) (terminal_ownership_failure r).

Definition transition_to (state : string) (r : EngineRunner) : EngineRunner :=
  r <| instance := (instance r) <| current_state := state |> |>.

Definition run_of (r : EngineRunner) : string := wi_run_id (instance r).
Definition steps_of (r : EngineRunner) : list StepDef := steps (workflow_type (instance r)).
Definition transitions_of (r : EngineRunner) : list Schema.TransitionDef :=
  transitions (workflow_type (instance r)).

(** ** Building a runner's context ([runner/support.rs]) *)

Definition bool_text (b : bool) : string := if b then "true" else "false".

Section Support.
Context `{Host}.

Definition resolve_final_work_dir (i : WorkflowInstance) (rx : option RunContext) : string :=
  match rx ≫= rx_workspace_path with
  | Some workspace_path => workspace_path
  | None =>
      match wc_variables (config i) !! "work_dir" with
      | Some work_dir => work_dir
      | None => temp_dir_join (wi_run_id i)
      end
  end.

(** A run of [context.set] calls. *)
Definition set_all (c : StepContext) (pairs : list (string * string)) : StepContext :=
  fold_left (fun c kv => set c (fst kv) (snd kv)) pairs c.

Definition seed_parent_orchestration_config (c : StepContext) (i : WorkflowInstance) : StepContext :=
  let cfg := wc_parent_orchestration (config i) in
  set_all c
    ([("parent_orchestration.auto_merge_children", bool_text (auto_merge_children cfg));
      ("parent_orchestration.wait_for_human_merge", bool_text (wait_for_human_merge cfg));
      ("parent_orchestration.merge_poll_interval_seconds", pretty (merge_poll_interval_seconds cfg))]
     ++ match max_child_merge_wait_seconds cfg with
        | Some max_wait => [("parent_orchestration.max_child_merge_wait_seconds", pretty max_wait)]
        | None => []
        end
     ++ [("parent_orchestration.child_workflow_type_id", child_workflow_type_id cfg);
         ("parent_orchestration.child_config_id", child_config_id cfg)]).

Definition seed_run_context (c : StepContext) (rx : RunContext) : StepContext :=
  set_all c
    ([("daemon_managed_claim", bool_text (rx_daemon_managed rx))]
     ++ match rx_workspace_path rx with
        | Some workspace_path => [("work_dir", workspace_path); ("workspace_path", workspace_path)]
        | None => []
        end
     ++ match rx_artifact_root rx with
        | Some artifact_root => [("artifact_root", artifact_root); ("artifact_dir", artifact_root)]
        | None => []
        end
     ++ match rx_repository rx with Some repository => [("target_repo", repository)] | None => [] end
     ++ match rx_issue_number rx with
        | Some number => [("issue_number", pretty number); ("primary_issue_number", pretty number)]
        | None => []
        end).

Definition build_step_context (i : WorkflowInstance) (rx : option RunContext) : StepContext :=
  let work_dir := resolve_final_work_dir i rx in
  let c :=
    match rx with
    | Some rx => for_run work_dir (wi_run_id i) (rx_daemon_managed rx)
    | None => new work_dir (wi_run_id i)
    end in
  let c :=
    match rx ≫= rx_workspace_authorization with
    | Some auth => set_workspace_authorization c auth
    | None => c
    end in
  let c := set_all c (map_to_list (wc_variables (config i))) in
  let c := seed_parent_orchestration_config c i in
  let c := match rx with Some rx => seed_run_context c rx | None => c end in
  let c := set c "work_dir" (sc_work_dir c) in
  let c := set_all c (target_path_variables (config i) (sc_work_dir c)) in
  set_all c (scope_control_variables (config i)).
End Support.

(** ** The registry *)

Definition contains_step_type (reg : ExecutorRegistry) (step_type : string) : bool :=
  bool_decide (is_Some (reg !! step_type)).

Definition register (reg : ExecutorRegistry) (step_type : string) (e : Executor)
    : ExecutorRegistry := <[step_type := e]> reg.

Definition registered_step_types (reg : ExecutorRegistry) : gset string := dom reg.

Definition dispatch (reg : ExecutorRegistry) (step_type : string) (c : StepContext) (params : Json)
    : World Db -> ExecResult * World Db := fun w =>
  match reg !! step_type with
  | None =>
      (mkExecResult (Err (StepExecutionError step_type
         ("No executor registered for step type '" ++ step_type ++ "'"))) [], w)
  | Some execute => execute c params w
  end.

(** ** Operations of the runner *)

Section Operations.
Context `{Env} `{Host} `{JsonCodec}.

(** [Display for EngineError]. *)
Definition engine_error_to_string (e : EngineError) : string :=
  match e with
  | StepExecutionError step_id message => "step execution failed: " ++ step_id ++ " - " ++ message
  | TransitionNotFound step_id outcome =>
      "transition not found from " ++ step_id ++ " with outcome " ++ outcome_debug outcome
  | LoopLimitExceeded step_id => "loop limit exceeded at step " ++ step_id
  | RetryLimitExceeded step_id => "retry limit exceeded for step " ++ step_id
  | PersistenceFailed cause => "persistence error: " ++ render_cause cause
  | InvalidState message => "invalid state: " ++ message
  | StepNotFound step_id => "step not found: " ++ step_id
  | ToolUnavailable message => message
  | OwnershipFailure details =>
      "workspace ownership failure before cleanup step " ++ of_failed_step details ++ ": "
      ++ of_reason details
  end.

(** *** Metadata and events ([runner/construction.rs]) *)

Definition first_step_id (r : EngineRunner) : option string := sd_step_id <$> head (steps_of r).

Definition build_metadata (r : EngineRunner) (s : RunStatus.t) : M Db EngineError RunMetadata :=
  t ← now;
  let rx := run_context r in
  mret ((RunMeta.new (run_of r) (wt_workflow_type_id (workflow_type (instance r)))
          (wc_config_id (config (instance r))) t)
        <| status := s |> <| process_pid := Some process_id |>
        <| log_path := rx_log_path rx |> <| artifact_root := rx_artifact_root rx |>
        <| workspace_path := rx_workspace_path rx |> <| repository := rx_repository rx |>
        <| issue_number := rx_issue_number rx |> <| pr_number := rx_pr_number rx |>
        <| head_sha := rx_head_sha rx |> <| launch_provenance := rx_launch_provenance rx |>).

Definition persist_metadata (m : RunMetadata) : M Db EngineError unit :=
  ignore (persist_run_with_conn m).

(** [.ok().flatten()]: a row that cannot be read is no row. *)
Definition load_metadata (r : EngineRunner) : M Db EngineError (option RunMetadata) :=
  m ← try (get_run_with_conn (run_of r));
  mret (match m with Ok found => found | Err _ => None end).

Definition record_event (r : EngineRunner) (event_type : EventType.t) (step_id outcome : string)
    (details : option string) : M Db EngineError unit :=
  t ← now;
  ignore (append_typed_event_with_conn (run_of r) step_id outcome event_type details t).

Definition persist_initial_run (r : EngineRunner) : M Db EngineError unit :=
  if persist_registry r then
    existing ← load_metadata r;
    match existing with
    | Some _ => mret tt
    | None =>
        metadata ← build_metadata r RunStatus.Starting;
        persist_metadata (metadata <| current_step := first_step_id r |>)
    end
  else mret tt.

Definition with_run_context (r : EngineRunner) (rx : RunContext) : M Db EngineError EngineRunner :=
  let r := r <| run_context := rx |> in
  (if persist_registry r then
     metadata ← build_metadata r RunStatus.Starting;
     persist_metadata (metadata <| current_step := first_step_id r |>)
   else mret tt);;
  mret r.

Definition attach_workspace_authorization (r : EngineRunner) (auth : WorkspaceAuthorization)
    : EngineRunner :=
  r <| run_context := (run_context r) <| rx_workspace_authorization := Some auth |> |>
    <| context := set_workspace_authorization (context r) auth |>.

(** [load_checkpoint_state]: an unreadable checkpoint counts as none. *)
Definition load_checkpoint_state (run : string) : M Db EngineError (Z * gmap string Z) :=
  found ← try (load_checkpoint_with_conn run);
  mret (match found with
        | Ok (Some cp) =>
            (retry_count (state_snapshot cp), edge_loop_counts (state_snapshot cp))
        | _ => (0%Z, ∅)
        end).

(** The runner both constructors build. *)
Definition make_runner (i : WorkflowInstance) (reg : ExecutorRegistry) (rx : RunContext)
    (retries : Z) (counts : gmap string Z) (persist : bool) : EngineRunner :=
  mkEngineRunner i retries counts (rc_max_retries (wc_runtime (config i)))
    (default 10%Z (wc_max_iterations (config i))) false reg
    (build_step_context i (Some rx)) rx persist None false.

(** The in-memory runner; its database starts empty. *)
Definition with_context (i : WorkflowInstance) (reg : ExecutorRegistry) (rx : RunContext)
    : EngineRunner := make_runner i reg rx 0 ∅ false.

Definition with_db_path_and_context (i : WorkflowInstance) (reg : ExecutorRegistry)
    (rx : RunContext) : M Db EngineError EngineRunner :=
  '(retries, counts) ← load_checkpoint_state (wi_run_id i);
  let r := make_runner i reg rx retries counts true in
  persist_initial_run r;;
  mret r.

(** *** Snapshots ([runner.rs]) *)

(** The [u32] sum of the counts. *)
Definition loop_count_of (r : EngineRunner) : Z :=
  as_u32 (map_fold (fun _ n acc => (n + acc)%Z) 0%Z (er_edge_loop_counts r)).

Definition runner_snapshot (r : EngineRunner) (status : string) : StateSnapshot :=
  mkStateSnapshot (er_retry_count r) (loop_count_of r) (er_edge_loop_counts r)
    (checkpoint_values (context r)) status.

Definition create_checkpoint (r : EngineRunner) (step_id status : string)
    : M Db EngineError Checkpoint :=
  t ← now; mret (mkCheckpoint (run_of r) step_id (runner_snapshot r status) t).

(** *** The lease heartbeat ([runner/lease_coordination.rs]) *)

Definition heartbeat_owned_lease (r : EngineRunner) : M Db EngineError unit :=
  if negb (daemon_managed_claim (context r)) then mret tt
  else
    metadata ← load_metadata r;
    match metadata with
    | None => mret tt
    | Some metadata =>
        match repository metadata, RunMeta.issue_lease_number metadata with
        | Some repo, Some number =>
            found ← try (get_lease_for_issue repo number);
            match found with
            | Ok (Some lease) =>
                if bool_decide (l_run_id lease = Some (run_of r))
                then ignore (touch_owned_running_lease_heartbeat (lease_id lease) (run_of r))
                else mret tt
            | _ => mret tt
            end
        | _, _ => mret tt
        end
    end.

(** *** Completion ([runner/completion.rs]) *)

Definition status_for_completion (outcome : RunOutcome) (merge_required : bool) : RunStatus.t :=
  match outcome with
  | RSuccess =>
      if merge_required then runner_completion_for_merge_required else RunStatus.Completed
  | RFailure _ _ => RunStatus.Failed
  | RAbandoned _ _ => RunStatus.Abandoned
  | RInterrupted _ => RunStatus.Paused
  | RWaitingExternal _ _ => RunStatus.WaitingExternal
  end.

(** A call into the host, which may change the world. *)
Definition host_call {A} (f : World Db -> A * World Db) : M Db EngineError A := fun w =>
  let '(a, w') := f w in (Ok a, w').

Definition record_run_completion (r : EngineRunner) (outcome : RunOutcome) (final_step_id : string)
    : M Db EngineError unit :=
  if negb (persist_registry r) then mret tt
  else
    let status0 := status_for_completion outcome (wc_merge_required (config (instance r))) in
    loaded ← load_metadata r;
    metadata ← match loaded with Some m => mret m | None => build_metadata r status0 end;
    t ← now;
    let metadata := RunMeta.set_current_step final_step_id t (metadata <| status := status0 |>) in
    map_err (fun e => PersistenceFailed (CauseCompletion e)) (persist_run_with_conn metadata);;
    if bool_decide (status0 = RunStatus.ReviewReady) then
      merged ← host_call (complete_merge_required_run (run_of r) (sc_work_dir (context r)));
      match merged with
      | MergeMerged =>
          record_event r EventType.TerminalState final_step_id (RunStatus.to_string RunStatus.Merged) None
      | MergeNotYetMerged => mret tt
      | other => throw (PersistenceFailed (CauseMerge other))
      end
    else record_event r EventType.TerminalState final_step_id (RunStatus.to_string status0) None.

(** *** Failure cleanup ([runner/failure_cleanup.rs]) *)

Definition failure_cleanup_stepdef (step_id : string) (s : StepDef) : bool :=
  (sd_step_id s =?s step_id) && bool_decide (sd_terminal s = Some true)
  && (sd_step_type s =?s "failure_cleanup").

Definition is_failure_cleanup_step (r : EngineRunner) (step_id : string) : bool :=
  existsb (failure_cleanup_stepdef step_id) (steps_of r).

Definition SAFE_FAILURE_CATEGORIES : list string :=
  ["process_error"; "agent_failure"; "no_diff"; "idle_timeout"; "timeout"; "push_failure";
   "validation_failure"].

Definition is_safe_failure_category (category : string) : bool :=
  bool_decide (category ∈ SAFE_FAILURE_CATEGORIES).

Definition public_failure_reason (step : string) (outcome : StepOutcome.t)
    (llxprt_category : option string) : string :=
  let plain := StepOutcome.to_string outcome +:+ " outcome at " +:+ step in
  match llxprt_category with
  | Some category =>
      if is_safe_failure_category category
      then category +:+ " (" +:+ StepOutcome.to_string outcome +:+ " at " +:+ step +:+ ")"
      else plain
  | None => plain
  end.

Definition checkpoint_reference (step : string) (cp : Checkpoint) : string :=
  step +:+ "@" +:+ to_rfc3339 (cp_timestamp cp).

Definition build_failure_cleanup_state (r : EngineRunner) (step next_step : string)
    (outcome : StepOutcome.t) (cp : Checkpoint) : M Db EngineError FailureCleanupState :=
  t ← now;
  mret (mkFailureCleanupState FailureCleanup.SCHEMA_VERSION step (StepOutcome.to_string outcome)
    (public_failure_reason step outcome (get (context r) (step ++ "." ++ "llxprt_failure_reason")))
    (checkpoint_reference step cp) (state_snapshot cp) next_step false t None None false).

Definition build_terminal_ownership_failure_state (r : EngineRunner) (step : string)
    (outcome : StepOutcome.t) (cleanup : string) (cp : Checkpoint)
    : M Db EngineError FailureCleanupState :=
  t ← now;
  mret (mkFailureCleanupState FailureCleanup.SCHEMA_VERSION step (StepOutcome.to_string outcome)
    ("workspace ownership denied before cleanup step " ++ cleanup)
    (checkpoint_reference step cp) (state_snapshot cp) cleanup false t None None true).

(** The lease of the run's issue, for the two functions below: [None] when the
    run has no authority over a lease. *)
Definition lease_issue (r : EngineRunner) (m : RunMetadata) : option (string * Z) :=
  if negb (daemon_managed_claim (context r)) then None
  else
    match repository m, RunMeta.issue_lease_number m with
    | Some repo, Some number => Some (repo, number)
    | _, _ => None
    end.

Definition protect_failure_cleanup_lease (r : EngineRunner) (m : RunMetadata)
    : M Db EngineError unit :=
  match lease_issue r m with
  | None => mret tt
  | Some (repo, number) =>
      found ← map_err of_sql (get_lease_for_issue repo number);
      match found with
      | None =>
          throw (persistence_text ("issue lease for " ++ repo ++ "#" ++ pretty number
            ++ " is missing; cannot protect failure cleanup for run " ++ run_of r
            ++ " without a durable lease"))
      | Some lease =>
          if negb (bool_decide (l_run_id lease = Some (run_of r))) then
            throw (persistence_text
              ("issue lease " ++ lease_id lease ++ " is not owned by run " ++ run_of r))
          else
            protected ← map_err of_sql
              (update_lease_status_conditional (lease_id lease) LeaseStatus.CleanupAbandoned
                 [LeaseStatus.Running; LeaseStatus.CleanupAbandoned] None (Some (run_of r)));
            if (protected : bool) then mret tt
            else throw (persistence_text
              ("issue lease " ++ lease_id lease ++ " could not be protected for failure cleanup"))
      end
  end.

Definition fail_owned_lease_for_ownership_denial (r : EngineRunner) (m : RunMetadata)
    : M Db EngineError unit :=
  match lease_issue r m with
  | None => mret tt
  | Some (repo, number) =>
      found ← map_err of_sql (get_lease_for_issue repo number);
      match found with
      | None => mret tt
      | Some lease =>
          if negb (bool_decide (l_run_id lease = Some (run_of r))) then mret tt
          else
            _failed ← map_err of_sql
              (update_lease_status_conditional (lease_id lease) LeaseStatus.Failed
                 [LeaseStatus.Running] None (Some (run_of r)));
            mret tt
      end
  end.

Definition missing_from_registry (r : EngineRunner) : EngineError :=
  persistence_text ("persistent run " ++ run_of r ++ " is missing from the registry").

(** How the step's registry update ends: the lease first, then the row. *)
Definition save_step_metadata (r : EngineRunner) (protect : bool) (metadata : RunMetadata)
    : M Db EngineError unit :=
  (if protect then protect_failure_cleanup_lease r metadata else mret tt);;
  map_err of_sql (persist_run_with_conn metadata).

Definition persist_registry_step_state (r : EngineRunner) (step : string) (outcome : StepOutcome.t)
    (failure terminal_failure : option FailureCleanupState) : M Db EngineError unit :=
  found ← map_err of_sql (get_run_with_conn (run_of r));
  match found with
  | None => throw (missing_from_registry r)
  | Some metadata =>
      t1 ← now;
      let metadata :=
        RunMeta.set_previous_step_and_outcome step (StepOutcome.to_string outcome) t1 metadata in
      t2 ← now;
      let metadata := RunMeta.set_next_step_candidates
        (Transition.compute_next_step_candidates (transitions_of r) step) t2 metadata in
      metadata ←
        match terminal_failure, failure with
        | Some state, _ =>
            let status' :=
              if bool_decide (outcome = StepOutcome.Success) then RunStatus.Abandoned
              else RunStatus.Failed in
            t3 ← now;
            let metadata := RunMeta.set_current_step (failed_step state) t3
              (metadata <| failure_cleanup := Some state |> <| status := status' |>) in
            t4 ← now;
            map_err of_store (append_typed_event_with_conn (run_of r) (failed_step state)
              (RunStatus.to_string status') EventType.TerminalState None t4);;
            mret metadata
        | None, Some state => mret (metadata <| failure_cleanup := Some state |>)
        | None, None => mret metadata
        end;
      save_step_metadata r
        (bool_decide (is_Some failure) || bool_decide (is_Some terminal_failure)) metadata
  end.

Inductive OwnershipVerification := NotApplicable | Owned.

(** Is a failing outcome about to enter a cleanup step? *)
Definition entering_cleanup (r : EngineRunner) (outcome : StepOutcome.t) (next_step : option string)
    : bool :=
  match next_step with
  | Some next => bool_decide (outcome <> StepOutcome.Success) && is_failure_cleanup_step r next
  | None => false
  end.

(** The answer in a world; [Err(OwnershipFailure)] is its only error. *)
Definition workspace_verdict (r : EngineRunner) (outcome : StepOutcome.t)
    (next_step : option string) (w : World Db) : Res EngineError OwnershipVerification :=
  if negb (entering_cleanup r outcome next_step) then Ok NotApplicable
  else
    let workspace := sc_work_dir (context r) in
    let evidence_exists := workspace_ownership_evidence_exists w workspace in
    let ownership_required := daemon_managed_claim (context r) in
    if negb evidence_exists && negb ownership_required then Ok NotApplicable
    else
      match verify_workspace_ownership w workspace (run_of r) with
      | None => Ok Owned
      | Some reason =>
          Err (OwnershipFailure (mkOwnershipFailureDetails (default "" next_step) reason))
      end.

Definition verify_failure_cleanup_workspace (r : EngineRunner) (outcome : StepOutcome.t)
    (next_step : option string) : M Db EngineError (Res EngineError OwnershipVerification) :=
  fun w => (Ok (workspace_verdict r outcome next_step w), w).

(** The provenance a cleanup step ends with. *)
Definition terminal_state_for_step (r : EngineRunner) (step : string) (outcome : StepOutcome.t)
    : M Db EngineError (option FailureCleanupState) :=
  if negb (is_failure_cleanup_step r step) then mret None
  else
    metadata ← load_metadata r;
    match opt_or (metadata ≫= failure_cleanup) (pending_failure_cleanup r) with
    | None =>
        throw (persistence_text "failure cleanup completed without failed-work provenance")
    | Some terminal =>
        if bool_decide (outcome = StepOutcome.Success) then
          t ← now;
          mret (Some (terminal <| cleanup_succeeded := true |>
                               <| cleanup_completed_at := Some t |>))
        else mret (Some terminal)
    end.

Definition failure_states_for_step (r : EngineRunner) (step : string) (outcome : StepOutcome.t)
    (next_step : option string) (cp : Checkpoint)
    : M Db EngineError (option FailureCleanupState * option FailureCleanupState) :=
  failure ←
    match next_step with
    | Some next =>
        if entering_cleanup r outcome (Some next)
        then state ← build_failure_cleanup_state r step next outcome cp; mret (Some state)
        else mret None
    | None => mret None
    end;
  terminal ← terminal_state_for_step r step outcome;
  mret (failure, terminal).

Definition persist_terminal_ownership_failure_registry (r : EngineRunner) (step : string)
    (outcome : StepOutcome.t) (cleanup : string) (failure : FailureCleanupState)
    : M Db EngineError unit :=
  found ← map_err of_sql (get_run_with_conn (run_of r));
  match found with
  | None => throw (missing_from_registry r)
  | Some metadata =>
      t1 ← now;
      let metadata :=
        RunMeta.set_previous_step_and_outcome step (StepOutcome.to_string outcome) t1 metadata in
      t2 ← now;
      let metadata := RunMeta.set_next_step_candidates [cleanup] t2 metadata in
      t3 ← now;
      let metadata := RunMeta.set_current_step step t3
        (metadata <| failure_cleanup := Some failure |> <| status := RunStatus.Failed |>) in
      t4 ← now;
      map_err of_store (append_typed_event_with_conn (run_of r) step
        (RunStatus.to_string RunStatus.Failed) EventType.TerminalState None t4);;
      fail_owned_lease_for_ownership_denial r metadata;;
      map_err of_sql (persist_run_with_conn metadata)
  end.

(** The transaction of [persist_terminal_ownership_failure]. *)
Definition ownership_failure_body (r : EngineRunner) (step : string) (outcome : StepOutcome.t)
    (cleanup : string) (cp : Checkpoint) (failure : FailureCleanupState) : M Db EngineError unit :=
  map_err of_store (save_checkpoint_with_conn cp);;
  t ← now;
  map_err of_store (append_typed_event_with_conn (run_of r) step (StepOutcome.to_string outcome)
    EventType.StepOutcome None t);;
  if persist_registry r
  then persist_terminal_ownership_failure_registry r step outcome cleanup failure
  else mret tt.

Definition persist_terminal_ownership_failure (r : EngineRunner) (step : string)
    (outcome : StepOutcome.t) (next_step : option string) (details : OwnershipFailureDetails)
    : M Db EngineError EngineRunner :=
  cp ← create_checkpoint r step "completed";
  let cleanup := default (of_failed_step details) next_step in
  failure ← build_terminal_ownership_failure_state r step outcome cleanup cp;
  transaction of_sql (ownership_failure_body r step outcome cleanup cp failure);;
  mret (r <| pending_failure_cleanup := Some failure |> <| terminal_ownership_failure := true |>).

(** The transaction of [persist_step_result]. *)
Definition step_result_body (r : EngineRunner) (step : string) (outcome : StepOutcome.t)
    (cp : Checkpoint) (failure terminal_failure : option FailureCleanupState)
    : M Db EngineError unit :=
  map_err of_store (save_checkpoint_with_conn cp);;
  t ← now;
  map_err of_store (append_typed_event_with_conn (run_of r) step (StepOutcome.to_string outcome)
    EventType.StepOutcome (details object_to_string (context r) step) t);;
  if persist_registry r
  then persist_registry_step_state r step outcome failure terminal_failure
  else mret tt.

Definition persist_step_result (r : EngineRunner) (step : string) (outcome : StepOutcome.t)
    (next_step : option string) : M Db EngineError EngineRunner :=
  verified ← verify_failure_cleanup_workspace r outcome next_step;
  match verified with
  | Err (OwnershipFailure details) =>
      persist_terminal_ownership_failure r step outcome next_step details
  | Err other => throw other
  | Ok _ =>
      cp ← create_checkpoint r step "completed";
      '(failure, terminal_failure) ← failure_states_for_step r step outcome next_step cp;
      transaction of_sql (step_result_body r step outcome cp failure terminal_failure);;
      mret (match terminal_failure, failure with
            | Some state, _ => r <| pending_failure_cleanup := Some state |>
            | None, Some state => r <| pending_failure_cleanup := Some state |>
            | None, None => r
            end)
  end.

Definition pause_for_external_wait (r : EngineRunner) (step_id : string)
    : M Db EngineError RunOutcome :=
  cp ← create_checkpoint r step_id CHECKPOINT_STATUS_WAITING;
  map_err of_store (save_checkpoint_with_conn cp);;
  let outcome :=
    RWaitingExternal step_id "External condition still pending at watch limit" in
  record_run_completion r outcome step_id;;
  mret outcome.

(** [support.rs] *)
Definition run_outcome_without_transition (step_id : string) (outcome : StepOutcome.t) : RunOutcome :=
  match outcome with
  | StepOutcome.Success => RSuccess
  | StepOutcome.Fatal => RFailure step_id "Fatal error occurred"
  | StepOutcome.Fixable => RFailure step_id "Fixable error with no recovery transition"
  | StepOutcome.Retryable => RFailure step_id "Retryable error with no recovery transition"
  | _ => RFailure step_id "Unexpected outcome"
  end.

Definition finish_without_transition (r : EngineRunner) (step : string) (outcome : StepOutcome.t)
    : M Db EngineError (RunOutcome * EngineRunner) :=
  if is_failure_cleanup_step r step then
    metadata ← load_metadata r;
    match opt_or (metadata ≫= failure_cleanup) (pending_failure_cleanup r) with
    | None =>
        throw (persistence_text "failure cleanup completed without failed-work provenance")
    | Some failure =>
        let r := r <| pending_failure_cleanup := Some failure |> in
        if bool_decide (outcome = StepOutcome.Success)
        then mret (RAbandoned (failed_step failure) (failure_reason failure), r)
        else mret (RFailure (failed_step failure)
               ("failure cleanup step " ++ cleanup_step failure ++ " ended with "
                ++ StepOutcome.to_string outcome ++ "; original failure: "
                ++ failure_reason failure), r)
    end
  else if bool_decide (outcome = StepOutcome.Wait) then
    o ← pause_for_external_wait r step; mret (o, r)
  else if bool_decide (outcome = StepOutcome.Retryable) then
    let o := RFailure step "Retryable error with no recovery transition" in
    record_run_completion r o step;; mret (o, r)
  else
    let o := run_outcome_without_transition step outcome in
    record_run_completion r o step;; mret (o, r).
(** ** Public reasons *)

(** A public failure reason leaks nothing.  The reason recorded for a
    failing step is one of eight texts fixed by the step, the outcome and the
    known categories, whatever the steps wrote to the context; and the reason
    recorded for a denied workspace is fixed by the cleanup step alone. *)
Theorem failure_reason_public (r : EngineRunner) (step next : string) (outcome : StepOutcome.t)
    (cp : Checkpoint) (w : World Db) :
  wp (build_failure_cleanup_state r step next outcome cp)
     (fun res _ => exists f, res = Ok f /\
        failure_reason f ∈ public_failure_reason step outcome <$>
          (None :: (Some <$> SAFE_FAILURE_CATEGORIES))) w /\
  wp (build_terminal_ownership_failure_state r step outcome next cp)
     (fun res _ => exists f, res = Ok f /\
        failure_reason f = "workspace ownership denied before cleanup step " +:+ next) w.
Proof.
  unfold build_failure_cleanup_state, build_terminal_ownership_failure_state.
  split; wp_steps; eexists; (split; [done|]); [|done]. cbn [failure_reason].
  set (category := get _ _). apply list_elem_of_fmap.
  destruct category as [c|]; [destruct (is_safe_failure_category c) eqn:Es|].
  - exists (Some c). split; [done|]. right. apply list_elem_of_fmap. exists c.
    by apply bool_decide_eq_true in Es.
  - exists None. split; [|left]. unfold public_failure_reason. by rewrite Es.
  - exists None. split; [done|left].
Qed.

End Operations.
