(* ===== verification/OwnershipSteps.v ===== *)
(** Publishing ownership of a workspace: the provisioning of the bootstrap
    marker ([engine/continuation/workspace_marker.rs]), its promotion to the
    durable one ([durable_publication.rs], [engine/workspace_ownership.rs]) and
    the two graph steps that verify and promote
    ([components/software_change/workspace_ownership.rs]). *)
From S2P Require Import Prelude Digest Sql Status Schema RunPaths StepContext Ownership Runner.
From Stdlib Require String.

Section Publication.
Context `{ErrorText}.

(** [m?] of a call without context. *)
Definition os {A} (r : Res Errno A) : Res IoError A := res_map_err OsError r.

(** *** Directories relative to a descriptor *)

Definition open_or_create_directory (parent_fd : Fd) (name display what sync_action sync_display : string)
    : Sys (Res IoError Fd) :=
  found ← call (OpenatDir parent_fd name);
  match found with
  | Ok fd => mret (Ok fd)
  | Err e =>
      if (e =? ENOENT)%Z then
        created ← call (Mkdirat parent_fd name);
        match created with
        | Err e =>
            if (e =? EEXIST)%Z then
              _ <-? (r ← call (SyncDir parent_fd); mret (rustix sync_action sync_display r));;
              (r ← call (OpenatDir parent_fd name);
               mret (rustix ("open " +:+ what +:+ " after creation") display r))
            else mret (Err (io_error ("create " +:+ what) display e))
        | Ok _ =>
            _ <-? (r ← call (SyncDir parent_fd); mret (rustix sync_action sync_display r));;
            (r ← call (OpenatDir parent_fd name);
             mret (rustix ("open " +:+ what +:+ " after creation") display r))
        end
      else mret (Err (io_error ("open " +:+ what) display e))
  end.

Definition open_or_create_bootstrap_directory (workspace_fd : Fd) : Sys (Res IoError Fd) :=
  open_or_create_directory workspace_fd ".luther" ".luther" ".luther directory"
    "sync workspace directory" ".".

Definition open_or_create_luther_directory (git_fd : Fd) : Sys (Res IoError Fd) :=
  open_or_create_directory git_fd "luther" DURABLE_OWNER_DIR ".git/luther directory"
    "sync .git directory" ".git".

Definition open_git_directory_relative (workspace_fd : Fd) : Sys (Res IoError Fd) :=
  r ← call (OpenatDir workspace_fd ".git");
  mret (rustix "open .git directory relative to workspace" ".git" r).

(** *** Publication without replacement *)

Definition validate_descriptor_regular (fd : Fd) (expected_len : nat) : Sys (Res IoError unit) :=
  st <-? (r ← call (Fstat fd);
          mret (rustix "stat durable temp descriptor" ".git/luther/.workspace-owner.tmp" r));;
  if negb (is_file st) then invalid InvalidInput "durable marker temp file is not a regular file"
  else if negb (st_size st =? Z.of_nat expected_len)%Z then
    invalid InvalidData "durable marker temp file size changed after write"
  else mret (Ok tt).

Definition temp_name (uuid : string) : string := ".workspace-owner.tmp." +:+ uuid.

(** The closure of [publish_marker_relative]. *)
Definition write_and_link (dir_fd fd : Fd) (temp : string) (bytes : Bytes) (display : string)
    : Sys (Res IoError unit) :=
  _ <-? (r ← call (WriteAll fd bytes); mret (os r));;
  _ <-? (r ← call (SyncFile fd); mret (os r));;
  owned <-? (r ← call (DupFile fd);
             mret (res_map_err (fun e => CustomError OtherKind
                     ("clone marker temp fd: " +:+ os_error_display e)) r));;
  _ <-? validate_descriptor_regular owned (String.length bytes);;
  linked ← call (Linkat dir_fd temp OWNER_FILE);
  match linked with
  | Err e =>
      if (e =? EEXIST)%Z then
        _ ← call (Unlinkat dir_fd temp);
        invalid AlreadyExists "entity already exists"
      else mret (Err (io_error "link marker without replacement" display e))
  | Ok _ =>
      _ <-? (r ← call (SyncDir dir_fd); mret (rustix "sync marker directory" display r));;
      _ ← call (Unlinkat dir_fd temp);
      mret (Ok tt)
  end.

Definition publish_marker_relative (dir_fd : Fd) (bytes : Bytes) (display : string)
    : Sys (Res IoError unit) :=
  uuid ← call NewUuid;
  let temp := temp_name uuid in
  created ← call (CreateExcl dir_fd temp);
  match created with
  | Err e => mret (Err (io_error "create marker temp file" (with_file_name display temp) e))
  | Ok fd =>
      result ← write_and_link dir_fd fd temp bytes display;
      match result with
      | Ok _ => mret (Ok tt)
      | Err e => _ ← call (Unlinkat dir_fd temp); mret (Err e)
      end
  end.

Definition publish_bootstrap_marker (workspace_fd : Fd) (bytes : Bytes) : Sys (Res IoError unit) :=
  luther_fd <-? open_or_create_bootstrap_directory workspace_fd;;
  publish_marker_relative luther_fd bytes BOOTSTRAP_OWNER_MARKER.

Definition publish_durable_marker (luther_fd : Fd) (bytes : Bytes) : Sys (Res IoError unit) :=
  publish_marker_relative luther_fd bytes DURABLE_OWNER_MARKER.

(** *** Reading a marker through its descriptor *)

Definition require_regular_at (dir : Fd) (name display : string) : Sys (Res IoError unit) :=
  st <-? (r ← call (Statat dir name); mret (rustix "stat marker" display r));;
  if negb (is_file st) then
    invalid InvalidInput ("workspace ownership marker is not a regular file: " +:+ display
                          +:+ " (mode " +:+ octal (st_mode st) +:+ ")")
  else mret (Ok tt).

Definition read_owned_descriptor (fd : Fd) (display : string) : Sys (Res IoError Bytes) :=
  st <-? (r ← call (Fstat fd); mret (rustix "stat owned descriptor" display r));;
  if negb (is_file st) then
    invalid InvalidInput ("workspace ownership marker is not a regular file: " +:+ display
                          +:+ " (mode " +:+ octal (st_mode st) +:+ ")")
  else if (st_size st <? 0)%Z then
    invalid InvalidInput "workspace ownership marker size exceeds supported range"
  else if (MAX_MARKER_BYTES <? st_size st)%Z then
    invalid InvalidData "workspace ownership marker exceeds maximum size"
  else read_fd_to_end fd.

Definition read_bootstrap_bytes (workspace_fd : Fd) : Sys (Res IoError Bytes) :=
  luther_fd <-? (r ← call (OpenatDir workspace_fd ".luther");
                 mret (rustix "open .luther directory" ".luther" r));;
  _ <-? require_regular_at luther_fd OWNER_FILE BOOTSTRAP_OWNER_MARKER;;
  fd <-? (r ← call (OpenatFile luther_fd OWNER_FILE);
          mret (rustix "open bootstrap marker" BOOTSTRAP_OWNER_MARKER r));;
  read_owned_descriptor fd BOOTSTRAP_OWNER_MARKER.

Definition read_durable_marker_bytes (luther_fd : Fd) : Sys (Res IoError Bytes) :=
  _ <-? require_regular_at luther_fd OWNER_FILE DURABLE_OWNER_MARKER;;
  fd <-? (r ← call (OpenatFile luther_fd OWNER_FILE);
          mret (rustix "open durable marker for re-validation" DURABLE_OWNER_MARKER r));;
  read_owned_descriptor fd DURABLE_OWNER_MARKER.

(** *** Promotion *)

(** The last check of a promotion, after the publication. *)
Definition confirm_durable (luther_fd : Fd) (expected : Bytes) : Sys (Res IoError unit) :=
  durable_bytes <-? read_durable_marker_bytes luther_fd;;
  if negb (durable_bytes =?s expected) then
    invalid InvalidData "promoted durable marker bytes do not match bootstrap evidence"
  else mret (Ok tt).

Definition promote_via_anchor (anchor : WorkspaceAnchor) (run_id : string) : Sys (Res IoError unit) :=
  let expected := run_id in
  bootstrap_bytes <-? read_bootstrap_bytes (anchor_fd anchor);;
  if negb (bootstrap_bytes =?s expected) then
    invalid InvalidData "bootstrap marker bytes do not match expected run id"
  else
    git_fd <-? open_git_directory_relative (anchor_fd anchor);;
    luther_fd <-? open_or_create_luther_directory git_fd;;
    published ← publish_durable_marker luther_fd bootstrap_bytes;
    match published with
    | Ok _ => confirm_durable luther_fd expected
    | Err e =>
        match io_kind e with
        | AlreadyExists =>
            existing <-? read_durable_marker_bytes luther_fd;;
            if negb (existing =?s expected) then
              invalid AlreadyExists "concurrent durable marker does not match bootstrap evidence"
            else confirm_durable luther_fd expected
        | _ => mret (Err e)
        end
    end.

Definition ensure_durable_with_anchor (canonical run_id : string) : Sys (Res IoError unit) :=
  anchor <-? open_anchor canonical;;
  reason ← verify_anchored anchor canonical run_id;
  match reason with
  | Some reason => invalid InvalidData reason
  | None =>
      git ← call (Lstat (join canonical ".git"));
      match git with
      | Err e => mret (if (e =? ENOENT)%Z then Ok tt else Err (OsError e))
      | Ok _ =>
          durable ← snapshot_durable_marker (anchor_fd anchor) run_id;
          if bool_decide (durable = Absent) then promote_via_anchor anchor run_id else mret (Ok tt)
      end
  end.

Definition ensure_durable_workspace_ownership (workspace run_id : string) : Sys (Res IoError unit) :=
  symlinked ← reject_symlinked_workspace_root workspace;
  match symlinked with
  | Some reason => invalid InvalidData reason
  | None =>
      canonical <-? (r ← canonicalize workspace; mret (os r));;
      ensure_durable_with_anchor canonical run_id
  end.

(** *** Is there evidence at all? *)

Inductive PathEntry := EntryAbsent | EntryPresent.

Global Instance path_entry_eq_dec : EqDecision PathEntry.
Proof. solve_decision. Defined.

Definition path_entry_exists_one_hop (parent_fd : Fd) (leaf : string) : Sys PathEntry :=
  found ← call (Statat parent_fd leaf);
  mret match found with
       | Ok _ => EntryPresent
       | Err e => if (e =? ENOENT)%Z then EntryAbsent else EntryPresent
       end.

Definition path_entry_exists_two_hops (workspace_fd : Fd) (parent_name leaf display : string)
    : Sys PathEntry :=
  opened ← open_directory_relative workspace_fd parent_name (default display (parent display));
  match opened with
  | Opened fd => path_entry_exists_one_hop fd leaf
  | DirNotFound => mret EntryAbsent
  | DirRejected _ => mret EntryPresent
  end.

Definition path_entry_exists_three_hops (workspace_fd : Fd) (hop1 hop2 leaf display : string)
    : Sys PathEntry :=
  opened ← open_directory_relative workspace_fd hop1 hop1;
  match opened with
  | DirNotFound => mret EntryAbsent
  | DirRejected _ => mret EntryPresent
  | Opened hop1_fd =>
      opened ← open_directory_relative hop1_fd hop2 (default display (parent display));
      match opened with
      | DirNotFound => mret EntryAbsent
      | DirRejected _ => mret EntryPresent
      | Opened hop2_fd => path_entry_exists_one_hop hop2_fd leaf
      end
  end.

Definition anchored_evidence_exists (workspace_fd : Fd) : Sys bool :=
  bootstrap ← path_entry_exists_two_hops workspace_fd ".luther" OWNER_FILE BOOTSTRAP_OWNER_MARKER;
  if bool_decide (bootstrap <> EntryAbsent) then mret true
  else
    durable ← path_entry_exists_three_hops workspace_fd ".git" "luther" OWNER_FILE DURABLE_OWNER_MARKER;
    mret (bool_decide (durable <> EntryAbsent)).

Inductive MarkerState := Present | AbsentEntry | UninspectableEntry.

Definition marker_state (marker : string) : Sys MarkerState :=
  found ← call (Lstat marker);
  mret match found with
       | Ok _ => Present
       | Err e => if (e =? ENOENT)%Z then AbsentEntry else UninspectableEntry
       end.

Definition path_based_evidence_exists (workspace : string) : Sys bool :=
  bootstrap ← marker_state (join workspace BOOTSTRAP_OWNER_MARKER);
  match bootstrap with
  | AbsentEntry =>
      durable ← marker_state (join workspace DURABLE_OWNER_MARKER);
      mret (if durable is AbsentEntry then false else true)
  | _ => mret true
  end.

Definition workspace_ownership_evidence_exists (workspace : string) : Sys bool :=
  found ← canonicalize workspace;
  match found with
  | Err _ => path_based_evidence_exists workspace
  | Ok canonical =>
      anchored ← open_anchor canonical;
      match anchored with
      | Ok anchor => anchored_evidence_exists (anchor_fd anchor)
      | Err _ => path_based_evidence_exists workspace
      end
  end.
End Publication.

(** ** Provisioning *)

(** [str::trim(..).is_empty()]: only white space, as UTF-8. *)
Fixpoint blank (s : string) : bool :=
  match s with
  | EmptyString => true
  | String c s1 =>
      if between 9 13 c || between 32 32 c then blank s1
      else match s1 with
      | EmptyString => false
      | String c1 s2 =>
          if between 194 194 c then (between 133 133 c1 || between 160 160 c1) && blank s2
          else match s2 with
          | EmptyString => false
          | String c2 s3 =>
              (between 225 225 c && between 154 154 c1 && between 128 128 c2
               || between 226 226 c && between 128 128 c1
                  && (between 128 138 c2 || between 168 169 c2 || between 175 175 c2)
               || between 226 226 c && between 129 129 c1 && between 159 159 c2
               || between 227 227 c && between 128 128 c1 && between 128 128 c2)
              && blank s3
          end
      end
  end.

(** [name.to_str().is_some_and(|v| v.starts_with(".workspace-owner.tmp."))] *)
Definition name_is_temp (name : string) : bool :=
  utf8_valid name && String.prefix ".workspace-owner.tmp." name.

Inductive ExistingMarker := ValidMarker | NoMarker.

Section Provisioning.
Context `{ErrorText}.

Definition read_marker_bounded (marker : string) : Sys (Res IoError string) :=
  meta <-? (r ← call (Lstat marker); mret (os r));;
  if is_symlink meta then
    invalid InvalidInput ("workspace ownership marker is a symlink: " +:+ marker)
  else if negb (is_file meta) then
    invalid InvalidInput ("workspace ownership marker is not a regular file: " +:+ marker)
  else if (MAX_MARKER_BYTES <? st_size meta)%Z then
    invalid InvalidData "workspace ownership marker exceeds maximum size"
  else
    fd <-? (r ← call (OpenRead marker); mret (os r));;
    bytes <-? read_fd_to_end fd;;
    if utf8_valid bytes then mret (Ok bytes)
    else invalid InvalidData ("workspace ownership marker is not valid UTF-8: " +:+ utf8_error_display bytes).

Definition inspect_existing_marker (marker run_id : string) : Sys (Res IoError unit) :=
  meta <-? (r ← call (Lstat marker); mret (os r));;
  if is_symlink meta then
    invalid InvalidInput ("workspace owner marker is a symlink and must be a regular file: " +:+ marker)
  else if is_dir meta then
    invalid InvalidInput ("workspace owner marker is a directory and must be a regular file: " +:+ marker)
  else if negb (is_file meta) then
    invalid InvalidInput ("workspace owner marker is not a regular file: " +:+ marker)
  else
    existing <-? read_marker_bounded marker;;
    if blank existing then
      invalid InvalidData ("workspace owner marker is empty and cannot establish ownership: " +:+ marker)
    else if negb (existing =?s run_id) then
      invalid AlreadyExists ("workspace owner marker belongs to run '" +:+ existing +:+ "' not '"
                             +:+ run_id +:+ "'")
    else mret (Ok tt).

Definition marker_exists (marker : string) : Sys bool :=
  found ← call (Lstat marker); mret (is_ok found).

Definition bootstrap_workspace_creation (workspace : string) : Sys (Res IoError bool) :=
  created ← call (CreateDir workspace);
  match created with
  | Ok _ => mret (Ok true)
  | Err e =>
      match kind_of_errno e with
      | AlreadyExists => mret (Ok false)
      | NotFound =>
          _ <-? match parent workspace with
                | Some p => r ← call (CreateDirAll p); mret (os r)
                | None => mret (Ok tt)
                end;;
          created ← call (CreateDir workspace);
          mret match created with
               | Ok _ => Ok true
               | Err e => match kind_of_errno e with AlreadyExists => Ok false | _ => Err (OsError e) end
               end
      | _ => mret (Err (OsError e))
      end
  end.

Definition resolve_existing_marker (marker run_id : string) : Sys (Res IoError ExistingMarker) :=
  found ← call (Lstat marker);
  match found with
  | Ok _ => _ <-? inspect_existing_marker marker run_id;; mret (Ok ValidMarker)
  | Err e => mret (if (e =? ENOENT)%Z then Ok NoMarker else Err (OsError e))
  end.

Definition resolve_unclaimable_workspace (workspace marker run_id : string) : Sys (Res IoError unit) :=
  exists_now ← marker_exists marker;
  if exists_now : bool then inspect_existing_marker marker run_id
  else
    invalid AlreadyExists
      ("refusing to adopt pre-existing workspace without ownership marker or interrupted-publication evidence: "
       +:+ workspace).

Fixpoint luther_entries_claimable (dir run_id : string) (entries : list (Res Errno string))
    (found_temp : bool) : Sys (Res IoError bool) :=
  match entries with
  | [] => mret (Ok found_temp)
  | entry :: rest =>
      name <-? mret (os entry);;
      meta <-? (r ← call (Lstat (join dir name)); mret (os r));;
      if negb (name_is_temp name) || is_symlink meta || negb (is_file meta) then mret (Ok false)
      else
        contents <-? read_marker_bounded (join dir name);;
        if negb (contents =?s run_id) then mret (Ok false)
        else luther_entries_claimable dir run_id rest true
  end.

Definition luther_dir_is_claimable (path run_id : string) : Sys (Res IoError bool) :=
  meta <-? (r ← call (Lstat path); mret (os r));;
  if is_symlink meta || negb (is_dir meta) then mret (Ok false)
  else
    entries <-? (r ← call (ReadDir path); mret (os r));;
    luther_entries_claimable path run_id entries false.

Fixpoint workspace_entries_evidence (workspace run_id : string) (entries : list (Res Errno string))
    (found_evidence : bool) : Sys (Res IoError bool) :=
  match entries with
  | [] => mret (Ok found_evidence)
  | entry :: rest =>
      name <-? mret (os entry);;
      if name =?s ".luther" then
        claimable <-? luther_dir_is_claimable (join workspace name) run_id;;
        if negb claimable then mret (Ok false)
        else workspace_entries_evidence workspace run_id rest true
      else mret (Ok false)
  end.

Definition workspace_has_interrupted_publication_evidence (workspace run_id : string)
    : Sys (Res IoError bool) :=
  entries <-? (r ← call (ReadDir workspace); mret (os r));;
  workspace_entries_evidence workspace run_id entries false.

(** The verdict on what was just published. *)
Definition published_verdict (v : AnchoredMarkerVerdict) : Res IoError unit :=
  match v with
  | Trusted => Ok tt
  | Absent =>
      Err (CustomError InvalidData "bootstrap owner publication produced no ownership evidence")
  | RejectedMarker reason => Err (CustomError InvalidData reason)
  end.

Definition provision_workspace_owner_marker_once (workspace run_id : string) : Sys (Res IoError unit) :=
  symlinked ← reject_symlinked_workspace_root workspace;
  match symlinked with
  | Some reason => invalid InvalidInput reason
  | None =>
  created_by_this_launch <-? bootstrap_workspace_creation workspace;;
  symlinked ← reject_symlinked_workspace_root workspace;
  match symlinked with
  | Some reason => invalid InvalidInput reason
  | None =>
  let marker := join workspace BOOTSTRAP_OWNER_MARKER in
  existing <-? resolve_existing_marker marker run_id;;
  match existing with
  | ValidMarker => mret (Ok tt)
  | NoMarker =>
  claimable <-? (if created_by_this_launch : bool then mret (Ok true)
                 else workspace_has_interrupted_publication_evidence workspace run_id);;
  if negb claimable then resolve_unclaimable_workspace workspace marker run_id
  else
    canonical <-? (r ← canonicalize workspace; mret (os r));;
    anchor <-? open_anchor canonical;;
    _ <-? publish_bootstrap_marker (anchor_fd anchor) run_id;;
    verdict ← snapshot_bootstrap_marker (anchor_fd anchor) run_id;
    mret (published_verdict verdict)
  end end end.

(** The errors after which a provisioning is tried again. *)
Definition retryable (e : IoError) : bool :=
  match io_kind e with NotFound | AlreadyExists | InvalidData => true | _ => false end.

Fixpoint provision_attempts (n : nat) (workspace run_id : string) : Sys (Res IoError unit) :=
  match n with
  | O => provision_workspace_owner_marker_once workspace run_id
  | S n =>
      once ← provision_workspace_owner_marker_once workspace run_id;
      match once with
      | Ok _ => mret (Ok tt)
      | Err e =>
          if retryable e then
            let marker := join workspace BOOTSTRAP_OWNER_MARKER in
            inspected ← inspect_existing_marker marker run_id;
            match inspected with
            | Ok _ => mret (Ok tt)
            | Err marker_error =>
                present ← marker_exists marker;
                if present : bool then mret (Err marker_error)
                else provision_attempts n workspace run_id
            end
          else mret (Err e)
      end
  end.

Definition provision_workspace_owner_marker (workspace run_id : string) : Sys (Res IoError unit) :=
  provision_attempts 100 workspace run_id.

Definition provision_workspace_ownership (workspace run_id : string) : Sys (Res IoError unit) :=
  git ← call (Lstat (join workspace ".git"));
  match git with
  | Err e =>
      if (e =? ENOENT)%Z then provision_workspace_owner_marker workspace run_id
      else mret (Err (OsError e))
  | Ok _ => ensure_durable_workspace_ownership workspace run_id
  end.
End Provisioning.

(** ** The graph steps *)

Section Steps.
Context `{ErrorText}.

Definition STEP_ID : string := "workspace_ownership".
Definition VERIFY_STEP_ID : string := "workspace_ownership_verify".

Definition ownership_fatal (detail : string) : EngineError := StepExecutionError STEP_ID detail.
Definition verify_fatal (detail : string) : EngineError := StepExecutionError VERIFY_STEP_ID detail.

Definition promotion_failed (e : IoError) : EngineError :=
  ownership_fatal ("failed to promote workspace ownership: " +:+ io_display e).

(** The promotion of the step: through the descriptor whose identity was
    authorized, or through a fresh one. *)
Definition promote_step (authorization' : option WorkspaceAuthorization) (work_dir run_id : string)
    : Sys (Res EngineError unit) :=
  match authorization' with
  | Some authorized =>
      verdict ← adjudicate_workspace_ownership work_dir run_id;
      match verdict with
      | Ownership.NoEvidence => mret (Err (ownership_fatal "workspace ownership evidence disappeared"))
      | Ownership.Rejected reason => mret (Err (ownership_fatal reason))
      | Ownership.Owned verified =>
          if bool_decide (authorization verified <> authorized) then
            mret (Err (ownership_fatal "workspace identity changed after ownership verification"))
          else
            promoted ← promote_via_anchor verified run_id;
            mret (res_map_err promotion_failed promoted)
      end
  | None =>
      ensured ← ensure_durable_workspace_ownership work_dir run_id;
      mret (res_map_err promotion_failed ensured)
  end.

(** [WorkspaceOwnershipExecutor::execute] *)
Definition workspace_ownership_step (c : StepContext) : Sys (Res EngineError StepOutcome.t * StepContext) :=
  let work_dir := sc_work_dir c in
  let run_id := sc_run_id c in
  evidence_exists ← workspace_ownership_evidence_exists work_dir;
  if negb evidence_exists then
    if daemon_managed_claim c then
      mret (Err (ownership_fatal "workspace ownership evidence is missing for daemon-managed run"), c)
    else mret (Ok StepOutcome.Success, set c "workspace_ownership_skipped" "true")
  else
    reason ← Ownership.verify_workspace_ownership work_dir run_id;
    match reason with
    | Some reason => mret (Err (ownership_fatal reason), c)
    | None =>
        promoted ← promote_step (workspace_authorization c) work_dir run_id;
        match promoted with
        | Err e => mret (Err e, c)
        | Ok _ =>
            reason ← Ownership.verify_workspace_ownership work_dir run_id;
            match reason with
            | Some reason =>
                mret (Err (ownership_fatal
                        ("workspace ownership verification failed after promotion: " +:+ reason)), c)
            | None => mret (Ok StepOutcome.Success, set c "workspace_ownership_promoted" "true")
            end
        end
    end.

Definition handle_no_evidence (c : StepContext) (daemon_managed : bool)
    : Res EngineError StepOutcome.t * StepContext :=
  if daemon_managed then
    (Err (verify_fatal "workspace ownership evidence is missing for daemon-managed run"), c)
  else (Ok StepOutcome.Success, set c "workspace_ownership_verify_no_evidence" "true").

(** [WorkspaceOwnershipVerifyExecutor::execute] *)
Definition workspace_ownership_verify_step (c : StepContext)
    : Sys (Res EngineError StepOutcome.t * StepContext) :=
  verdict ← adjudicate_workspace_ownership (sc_work_dir c) (sc_run_id c);
  mret match verdict with
       | Ownership.NoEvidence => handle_no_evidence c (daemon_managed_claim c)
       | Ownership.Rejected reason => (Err (verify_fatal reason), c)
       | Ownership.Owned verified =>
           (Ok StepOutcome.Success,
            set (set_workspace_authorization c (authorization verified))
              "workspace_ownership_verified" "true")
       end.
End Steps.

(** ** Nothing is replaced *)

(** The file was created by this history, exclusively, in this directory, under a
    temporary name it drew. *)
Definition own_temp (past : History) (dir : Fd) (name : string) (fd : Fd) : Prop :=
  (exists uuid, name = temp_name uuid /\ NewUuid ↦ uuid ∈ past) /\ CreateExcl dir name ↦ Ok fd ∈ past.

(** What is harmless to what other processes own, after [past]: a file is created
    only exclusively, under a name just drawn; bytes, those of the run id, go only
    into such a file; a marker appears only by a link, which never replaces, of such
    a file once it is complete; only such a file's name is removed; and the only
    directories made are the workspace, its parents and the marker directories. *)
Definition provisioning_permitted (workspace run_id : string) (past : History) (ev : Event) : Prop :=
  match projT1 ev with
  | CreateExcl _ name => exists uuid, name = temp_name uuid /\ NewUuid ↦ uuid ∈ past
  | WriteAll fd bytes => bytes = run_id /\ exists dir name, own_temp past dir name fd
  | Linkat dir from to =>
      to = OWNER_FILE /\ exists fd, own_temp past dir from fd /\
        WriteAll fd run_id ↦ Ok tt ∈ past /\ SyncFile fd ↦ Ok tt ∈ past
  | Unlinkat dir name => exists fd, own_temp past dir name fd
  | Mkdirat _ name => name ∈ [".luther"; "luther"]
  | CreateDir path => path = workspace
  | CreateDirAll path => parent workspace = Some path
  | RenamePath _ _ | RemoveDirAll _ | RemoveFile _ | Spawn _ => False
  | _ => True
  end.
#[global] Arguments provisioning_permitted : simpl never.

Section Careful.
Context `{ErrorText} (workspace run_id : string).

Abbreviation permitted := (provisioning_permitted workspace run_id).

(** A computation that is harmless whatever it finds, behind any history. *)
Definition discreet {A} (m : Sys A) : Prop :=
  forall past, always m (fun h _ => guarded permitted past h) [].

Lemma discreet_ret {A} (a : A) : discreet (mret a).
Proof. done. Qed.

(** The rule of sequences, where what follows may rely on what came before. *)
Lemma guarded_seq {A B} past (m : Sys A) (f : A -> Sys B) (P : History -> A -> Prop) :
  always m (fun h a => guarded permitted past h /\ P h a) [] ->
  (forall h a, P h a -> always (f a) (fun h' _ => guarded permitted (past ++ h) h') []) ->
  always (m ≫= f) (fun h _ => guarded permitted past h) [].
Proof.
  intros Hm Hf. eapply always_seq; [apply Hm|]. intros t a [Ht HP].
  eapply always_mono; [by apply Hf|]. intros t' b Ht'. by apply guarded_app.
Qed.

Lemma discreet_bind {A B} (m : Sys A) (f : A -> Sys B) :
  discreet m -> (forall a, discreet (f a)) -> discreet (m ≫= f).
Proof.
  intros Hm Hf past. eapply (guarded_seq past m f (fun _ _ => True)).
  - eapply always_mono; [apply (Hm past)|]. intros t a Ht. by split.
  - intros h a _. apply Hf.
Qed.

Lemma discreet_io_bind {A B} (m : Sys (Res IoError A)) (f : A -> Sys (Res IoError B)) :
  discreet m -> (forall a, discreet (f a)) -> discreet (io_bind m f).
Proof. intros Hm Hf. apply discreet_bind; [done|]. intros [a|e]; [apply Hf|done]. Qed.

Lemma discreet_call c : (forall past r, permitted past (c ↦ r)) -> discreet (call c).
Proof. intros Hc past r. split; [apply Hc|done]. Qed.

Lemma own_temp_more past past' dir name fd : own_temp past dir name fd -> own_temp (past ++ past') dir name fd.
Proof. intros [(uuid & ? & ?) ?]. split; [exists uuid; split; [done|]|]; apply elem_of_app; by left. Qed.
End Careful.

Create HintDb discreet discriminated.
#[export] Hint Constants Opaque : discreet.
Ltac discreet_step :=
  match goal with
  | |- discreet _ _ (mret _) => apply discreet_ret
  | |- discreet _ _ (invalid _ _) => apply discreet_ret
  | |- discreet _ _ (io_bind _ _) => apply discreet_io_bind; [|intros ?]
  | |- discreet _ _ (mbind _ _) => apply discreet_bind; [|intros ?]
  | |- discreet _ _ (call _) => apply discreet_call; intros ? ?; unfold provisioning_permitted; cbn; first [exact I|done|by eauto]
  | |- discreet _ _ (canonicalize _) => unfold canonicalize
  | |- discreet _ _ (match ?x with _ => _ end) => destruct x eqn:?
  end.
Ltac discreet_auto := repeat (discreet_step || (solve [eauto with discreet nocore])).

(** Every answer to the calls of a straight line of them. *)
Ltac answers :=
  repeat (cbn;
    lazymatch goal with
    | |- forall _ : Res _ unit, _ => intros [[]|?]
    | |- forall _ : Res _ _, _ => intros [?|?]
    | |- forall _, _ => intros ?
    | |- context [if ?b then _ else _] => destruct b
    end).

Section CarefulOperations.
Context `{ErrorText} (workspace run_id : string).
Abbreviation discreet := (discreet workspace run_id).

Lemma discreet_components cs : discreet (reject_symlinked_components cs).
Proof. induction cs; cbn [reject_symlinked_components]; discreet_auto. Qed.
Lemma discreet_root path : discreet (reject_symlinked_workspace_root path).
Proof. apply discreet_components. Qed.
Lemma discreet_read_fd fd : discreet (read_fd_to_end fd).
Proof. unfold read_fd_to_end. discreet_auto. Qed.
Hint Resolve discreet_components discreet_root discreet_read_fd : discreet.

Lemma discreet_snapshots fd :
  discreet (snapshot_bootstrap_marker fd run_id) /\ discreet (snapshot_durable_marker fd run_id).
Proof.
  unfold snapshot_bootstrap_marker, snapshot_durable_marker, snapshot_marker_two_hops,
    snapshot_marker_one_hop, open_directory_relative, open_marker_descriptor, classify_opened_marker.
  split; discreet_auto.
Qed.

Lemma discreet_snapshot_bootstrap fd : discreet (snapshot_bootstrap_marker fd run_id).
Proof. apply discreet_snapshots. Qed.
Lemma discreet_snapshot_durable fd : discreet (snapshot_durable_marker fd run_id).
Proof. apply discreet_snapshots. Qed.
Lemma discreet_anchor path : discreet (open_anchor path).
Proof. unfold open_anchor. discreet_auto. Qed.
Lemma discreet_durable_directory path : discreet (validate_durable_directory path).
Proof. unfold validate_durable_directory. discreet_auto. Qed.
Hint Resolve discreet_snapshot_bootstrap discreet_snapshot_durable discreet_anchor
  discreet_durable_directory : discreet.

Lemma discreet_verify_anchored anchor path : discreet (verify_anchored anchor path run_id).
Proof. unfold verify_anchored. discreet_auto. Qed.

Lemma discreet_validate fd n : discreet (validate_descriptor_regular fd n).
Proof. unfold validate_descriptor_regular. discreet_auto. Qed.
Hint Resolve discreet_verify_anchored discreet_validate : discreet.

(** The publication writes the run id into the file it created, links it when it
    is complete, and removes its name. *)
Lemma write_and_link_guarded past dir fd temp display :
  own_temp past dir temp fd ->
  always (write_and_link dir fd temp run_id display)
    (fun h _ => guarded (provisioning_permitted workspace run_id) past h) [].
Proof.
  intros Hown. unfold write_and_link, io_bind.
  assert (Hrem : forall past' r, provisioning_permitted workspace run_id (past ++ past') (Unlinkat dir temp ↦ r)).
  { intros past' r. exists fd. by apply own_temp_more. }
  assert (Hlink : forall past' r, WriteAll fd run_id ↦ Ok tt ∈ past' -> SyncFile fd ↦ Ok tt ∈ past' ->
    provisioning_permitted workspace run_id (past ++ past') (Linkat dir temp OWNER_FILE ↦ r)).
  { intros past' r Hw Hs. split; [done|]. exists fd. split; [by apply own_temp_more|].
    split; apply elem_of_app; by right. }
  assert (Hwrite : forall r, provisioning_permitted workspace run_id past (WriteAll fd run_id ↦ r)).
  { intros r. split; [done|]. by exists dir, temp. }
  unfold validate_descriptor_regular, invalid. answers; cbn; rewrite <- ?app_assoc; cbn [app]; split_and!;
    first [exact I|apply Hwrite|apply Hrem|apply Hlink; set_solver].
Qed.
End CarefulOperations.

#[export] Hint Resolve discreet_root discreet_read_fd discreet_snapshot_bootstrap discreet_snapshot_durable
  discreet_anchor discreet_durable_directory discreet_verify_anchored discreet_validate : discreet.

Section CarefulPublication.
Context `{ErrorText} (workspace run_id : string).
Abbreviation discreet := (discreet workspace run_id).

Lemma discreet_publish dir display : discreet (publish_marker_relative dir run_id display).
Proof.
  intros past. unfold publish_marker_relative. apply always_call. intros uuid. apply always_call.
  set (past' := (past ++ [NewUuid ↦ uuid]) ++ [CreateExcl dir (temp_name uuid) ↦ Ok 0]).
  assert (Huuid : forall r, provisioning_permitted workspace run_id (past ++ [NewUuid ↦ uuid])
                              (CreateExcl dir (temp_name uuid) ↦ r)).
  { intros r. exists uuid. split; [done|]. apply elem_of_app. right. left. }
  intros [fd|e]; [|by repeat split].
  assert (Hown : own_temp ((past ++ [NewUuid ↦ uuid]) ++ [CreateExcl dir (temp_name uuid) ↦ Ok fd])
                   dir (temp_name uuid) fd).
  { split; [exists uuid; split; [done|]|]; rewrite !elem_of_app; set_solver. }
  eapply always_mono.
  - eapply guarded_seq.
    + eapply always_mono; [apply write_and_link_guarded, Hown|]. intros t r Ht. split; [exact Ht|].
      instantiate (1 := fun _ _ => True). done.
    + intros h [u|e] _; [done|]. intros r. split; [|done]. exists fd. by apply own_temp_more.
  - intros h a Hh. split; [done|]. split; [apply Huuid|exact Hh].
Qed.

Lemma discreet_directory fd name display what action path :
  name ∈ [".luther"; "luther"] ->
  discreet (open_or_create_directory fd name display what action path).
Proof. intros Hname. unfold open_or_create_directory. discreet_auto. Qed.

Lemma discreet_luther_directory fd : discreet (open_or_create_luther_directory fd).
Proof. unfold open_or_create_luther_directory. apply discreet_directory. right. left. Qed.
Lemma discreet_bootstrap_directory fd : discreet (open_or_create_bootstrap_directory fd).
Proof. unfold open_or_create_bootstrap_directory. apply discreet_directory. left. Qed.

Lemma discreet_read_durable fd : discreet (read_durable_marker_bytes fd).
Proof. unfold read_durable_marker_bytes, require_regular_at, read_owned_descriptor. discreet_auto. Qed.
Hint Resolve discreet_publish discreet_read_durable : discreet.

Lemma discreet_confirm fd : discreet (confirm_durable fd run_id).
Proof. unfold confirm_durable. discreet_auto. Qed.
Hint Resolve discreet_confirm : discreet.

Lemma discreet_promote anchor : discreet (promote_via_anchor anchor run_id).
Proof.
  unfold promote_via_anchor, read_bootstrap_bytes, require_regular_at, read_owned_descriptor,
    open_git_directory_relative.
  apply discreet_io_bind; [discreet_auto|intros bytes].
  case_bool_decide as Hb; cbn [negb]; [subst bytes|discreet_auto].
  apply discreet_io_bind; [discreet_auto|intros git].
  apply discreet_io_bind; [apply discreet_luther_directory|intros luther].
  unfold publish_durable_marker. discreet_auto.
Qed.
Hint Resolve discreet_promote : discreet.

Lemma discreet_ensure path : discreet (ensure_durable_workspace_ownership path run_id).
Proof. unfold ensure_durable_workspace_ownership, ensure_durable_with_anchor. discreet_auto. Qed.

Lemma discreet_publish_bootstrap fd : discreet (publish_bootstrap_marker fd run_id).
Proof.
  unfold publish_bootstrap_marker. apply discreet_io_bind; [apply discreet_bootstrap_directory|intros luther].
  discreet_auto.
Qed.
Hint Resolve discreet_ensure discreet_publish_bootstrap : discreet.

Lemma discreet_read_bounded path : discreet (read_marker_bounded path).
Proof. unfold read_marker_bounded. discreet_auto. Qed.
Hint Resolve discreet_read_bounded : discreet.

Lemma discreet_inspect path : discreet (inspect_existing_marker path run_id).
Proof. unfold inspect_existing_marker. discreet_auto. Qed.
Hint Resolve discreet_inspect : discreet.

Lemma discreet_luther_entries dir entries found :
  discreet (luther_entries_claimable dir run_id entries found).
Proof. revert found. induction entries; intros; cbn [luther_entries_claimable]; discreet_auto. Qed.
Hint Resolve discreet_luther_entries : discreet.

Lemma discreet_entries entries found :
  discreet (workspace_entries_evidence workspace run_id entries found).
Proof.
  revert found. induction entries; intros; cbn [workspace_entries_evidence];
    unfold luther_dir_is_claimable; discreet_auto.
Qed.
Hint Resolve discreet_entries : discreet.

Lemma discreet_once : discreet (provision_workspace_owner_marker_once workspace run_id).
Proof.
  unfold provision_workspace_owner_marker_once, bootstrap_workspace_creation, resolve_existing_marker,
    workspace_has_interrupted_publication_evidence, resolve_unclaimable_workspace, marker_exists.
  discreet_auto.
Qed.
Hint Resolve discreet_once : discreet.

Lemma discreet_attempts n : discreet (provision_attempts n workspace run_id).
Proof. induction n; cbn [provision_attempts]; unfold marker_exists; discreet_auto. Qed.
End CarefulPublication.

(** C17: establishing ownership never touches what other processes own, however
    they race with it.  Whatever the file system answers to
    [provision_workspace_ownership], event by event: a file is created only
    exclusively, under a temporary name that was drawn for it; every byte written is of
    the run id and goes into a file it created so; a marker appears only by a link,
    which does not replace, of such a file after all of the run id was written and
    synced; only the name of a file it created itself, in the directory it created
    it in, is removed; no directory is made but the workspace, its parent chain and
    the marker directories; and nothing else is changed. *)
Theorem provisioning_never_replaces `{ErrorText} (workspace run_id : string) :
  always (provision_workspace_ownership workspace run_id)
    (fun h _ => guarded (provisioning_permitted workspace run_id) [] h) [].
Proof.
  enough (Hd : discreet workspace run_id (provision_workspace_ownership workspace run_id)) by apply Hd.
  unfold provision_workspace_ownership, provision_workspace_owner_marker.
  apply discreet_bind; [by apply discreet_call|]. intros [st|e]; [apply discreet_ensure|].
  destruct (e =? ENOENT)%Z; [apply discreet_attempts|apply discreet_ret].
Qed.

(** A step that trusts the workspace ran an adjudication that owned it last. *)
Lemma verify_owned `{ErrorText} {S} (handle : forall c, S -> answer c * S) ws rid s s' :
  run handle (Ownership.verify_workspace_ownership ws rid) s = (None, s') ->
  exists anchor, run handle (adjudicate_workspace_ownership ws rid) s = (Ownership.Owned anchor, s').
Proof.
  rewrite verify_is_adjudicate.
  destruct (run handle (adjudicate_workspace_ownership ws rid) s) as [[anchor| |reason] s1]; cbn;
    intros [=]; subst. by exists anchor.
Qed.

Lemma promote_step_errors `{ErrorText} {S} (handle : forall c, S -> answer c * S) auth ws rid s e s' :
  run handle (promote_step auth ws rid) s = (Err e, s') -> exists detail, e = ownership_fatal detail.
Proof.
  assert (Hp : forall (r : Res IoError unit), res_map_err promotion_failed r = Err e ->
               exists detail, e = ownership_fatal detail).
  { intros [[]|io]; cbn; [done|]. intros [= <-]. unfold promotion_failed. by eauto. }
  unfold promote_step. destruct auth as [authorized|]; rewrite run_bind.
  - destruct (run handle (adjudicate_workspace_ownership _ _) s) as [[anchor| |reason] s1];
      [|cbn; intros [= <- _]; by eauto..].
    case_bool_decide; [cbn; intros [= <- _]; by eauto|]. rewrite run_bind.
    destruct (run handle (promote_via_anchor _ _) s1) as [r s2]. cbn. intros [= Hr _]. by apply (Hp r).
  - destruct (run handle (ensure_durable_workspace_ownership _ _) s) as [r s2]. cbn.
    intros [= Hr _]. by apply (Hp r).
Qed.

(** The gate before a workflow may mutate a workspace.  On every file
    system: the verify step succeeds only when its adjudication owned the
    workspace, and then the authorization of the context is the identity of
    that very directory unless an earlier one was set, or on a run the daemon
    does not manage when there is no evidence at all.  The promotion step of a
    daemon-managed run succeeds only if the last thing it did is an
    adjudication that owned the workspace.  Neither changes an authorization
    that is set, and an error leaves the context as it was. *)
Theorem ownership_step_gate `{ErrorText} {S} (handle : forall c, S -> answer c * S)
    (c : StepContext) (s : S) :
  (let '((r, c'), s') := run handle (workspace_ownership_verify_step c) s in
   match r with
   | Ok o =>
       o = StepOutcome.Success /\
       match run handle (adjudicate_workspace_ownership (sc_work_dir c) (sc_run_id c)) s with
       | (Ownership.Owned anchor, _) =>
           workspace_authorization c' = opt_or (workspace_authorization c) (Some (authorization anchor))
       | (Ownership.NoEvidence, _) =>
           daemon_managed c = false /\ workspace_authorization c' = workspace_authorization c
       | (Ownership.Rejected _, _) => False
       end
   | Err e => c' = c /\ exists detail, e = verify_fatal detail
   end) /\
  (let '((r, c'), s') := run handle (workspace_ownership_step c) s in
   match r with
   | Ok o =>
       o = StepOutcome.Success /\ workspace_authorization c' = workspace_authorization c /\
       (daemon_managed c = true -> exists s1 anchor,
          run handle (adjudicate_workspace_ownership (sc_work_dir c) (sc_run_id c)) s1
          = (Ownership.Owned anchor, s'))
   | Err e => c' = c /\ exists detail, e = ownership_fatal detail
   end).
Proof.
  split.
  - unfold workspace_ownership_verify_step. rewrite run_bind.
    destruct (run handle (adjudicate_workspace_ownership _ _) s) as [[anchor| |reason] s1]; cbn.
    + split; [done|]. unfold set, set_workspace_authorization.
      destruct (workspace_authorization c) eqn:Ea; cbn; destruct (current_step_id c); cbn; by rewrite ?Ea.
    + unfold handle_no_evidence, daemon_managed_claim, set. destruct (daemon_managed c); cbn; [by eauto|].
      split_and!; [done..|]. by destruct (current_step_id c).
    + by eauto.
  - unfold workspace_ownership_step. rewrite run_bind.
    destruct (run handle (workspace_ownership_evidence_exists _) s) as [[|] s1]; cbn [negb].
    2:{ unfold daemon_managed_claim. destruct (daemon_managed c) eqn:Ed; cbn; [by eauto|].
        unfold set. by destruct (current_step_id c). }
    rewrite run_bind.
    destruct (run handle (Ownership.verify_workspace_ownership _ _) s1) as [[reason|] s2]; [cbn; by eauto|].
    rewrite run_bind.
    destruct (run handle (promote_step _ _ _) s2) as [[[]|e] s3] eqn:Ep.
    2:{ cbn. split; [done|]. by eapply promote_step_errors. }
    rewrite run_bind.
    destruct (run handle (Ownership.verify_workspace_ownership _ _) s3) as [[reason|] s4] eqn:Ev;
      cbn; [by eauto|].
    split_and!; [done|unfold set; by destruct (current_step_id c)|]. intros _.
    destruct (verify_owned _ _ _ _ _ Ev) as [anchor Ha]. by exists s3, anchor.
Qed.
