(* ===== verification/Migration.v ===== *)
(** Ownership of a workspace for a run that resumes
    ([engine/continuation/resume_authorization.rs]), and the operator's
    migration of a run from before the ownership markers
    ([engine/continuation/legacy_ownership_migration.rs],
    [persistence/legacy_migration_state.rs]).

    The migration is a durable state machine: the intent is a row of the
    database, then the marker is published on disk, then one transaction records
    the completion.  A retry goes on from where a crash left it. *)
From S2P Require Import Prelude Effects Text Sql Status Schema Checkpoints Runs StepContext Ownership Host Provenance OwnershipSteps.

(** ** Resume authorization *)

Record PreparedResume := mkPreparedResume {
  pr_workspace_path : string;
  pr_authorization : WorkspaceAuthorization
}.

Inductive ResumeAuthorizationError :=
| NoWorkspacePath
| CannotCanonicalize (path reason : string)
| OwnershipRejected (reason : string)
| NoOwnershipEvidence.

(** [Display] *)
Definition resume_authorization_display (e : ResumeAuthorizationError) : string :=
  match e with
  | NoWorkspacePath => "missing persisted workspace_path for resume authorization"
  | CannotCanonicalize path reason => "cannot canonicalize workspace '" +:+ path +:+ "': " +:+ reason
  | OwnershipRejected reason => "workspace ownership rejected: " +:+ reason
  | NoOwnershipEvidence => "no workspace ownership evidence for resume"
  end.

Definition prepare_resume_authorization `{ErrorText} (workspace_path : option string) (rid : string)
    : Sys (Res ResumeAuthorizationError PreparedResume) :=
  match workspace_path with
  | None => mret (Err NoWorkspacePath)
  | Some path =>
      verdict ← adjudicate_workspace_ownership path rid;
      match verdict with
      | Owned verified =>
          canonical ← call (Ownership.Canonicalize path);
          mret (match canonical with
                | Ok p => Ok (mkPreparedResume p (authorization verified))
                | Err e => Err (CannotCanonicalize path (os_error_display e))
                end)
      | NoEvidence => mret (Err NoOwnershipEvidence)
      | Rejected reason => mret (Err (OwnershipRejected reason))
      end
  end.

(** ** The durable state machine *)

Module MigrationStatus.
Inductive t := Pending | Completed.

Definition as_str (s : t) : string := match s with Pending => "pending" | Completed => "completed" end.
Definition parse_str (s : string) : option t :=
  if s =?s "pending" then Some Pending else if s =?s "completed" then Some Completed else None.

#[global] Instance eq_dec : EqDecision t.
Proof. solve_decision. Defined.

Lemma parse_as_str s : parse_str (as_str s) = Some s.
Proof. by destruct s. Qed.
End MigrationStatus.

Record MigrationStateRow := mkMigrationStateRow {
  ms_run_id : string;
  ms_workspace_path : string;
  ms_intent_at : Z;
  ms_completed_at : option Z;
  ms_status : MigrationStatus.t
}.

Inductive GuardedCompletionOutcome := Transitioned | AlreadyDone | MissingRow.

Definition migration_of (run : string) (r : MigrationRow) : bool := mg_run_id r =?s run.

Definition row_to_migration (r : MigrationRow) : Res SqlError MigrationStateRow :=
  s ← ok_or (MigrationStatus.parse_str (mg_status r)) (FromSqlConversionFailure 4);
  mret (mkMigrationStateRow (mg_run_id r) (mg_workspace_path r) (mg_intent_at r) (mg_completed_at r) s).

Definition migration_row (run : string) (d : Db) : option MigrationRow :=
  select_first (migration_of run) (legacy_migrations d).

Definition pending_of (run : string) (r : MigrationRow) : bool :=
  migration_of run r && (mg_status r =?s MigrationStatus.as_str MigrationStatus.Pending).

Definition completed_row (now : Z) (r : MigrationRow) : MigrationRow :=
  r <| mg_status := MigrationStatus.as_str MigrationStatus.Completed |> <| mg_completed_at := Some now |>.

Section State.
Context `{Env}.

(** [CREATE TABLE IF NOT EXISTS]: the table is there, empty where no migration
    was ever tried. *)
Definition init_legacy_migration_table : M Db SqlError unit := ensure_table.

Definition persist_migration_intent (run workspace : string) (now : Z) : M Db SqlError bool :=
  execute (fun d =>
    if exists_where (migration_of run) (legacy_migrations d) then Ok (false, d)
    else Ok (true, d <| legacy_migrations := legacy_migrations d ++
                          [mkMigrationRow run workspace now None (MigrationStatus.as_str MigrationStatus.Pending)] |>)).

Definition record_migration_completion (run : string) (now : Z) : M Db SqlError unit :=
  execute (fun d =>
    Ok (tt, d <| legacy_migrations := update_where (migration_of run) (completed_row now) (legacy_migrations d) |>)).

Definition load_migration_state (run : string) : M Db SqlError (option MigrationStateRow) :=
  query (fun d =>
    match migration_row run d with
    | Some row => Some <$> row_to_migration row
    | None => Ok None
    end).

Definition guarded_complete_migration_in_transaction (run : string) (now : Z)
    : M Db SqlError GuardedCompletionOutcome :=
  updated ← execute (fun d =>
    Ok (count_where (pending_of run) (legacy_migrations d),
        d <| legacy_migrations := update_where (pending_of run) (completed_row now) (legacy_migrations d) |>));
  if bool_decide (0 < updated) then mret Transitioned
  else
    found ← load_migration_state run;
    mret (match found with
          | Some row => if decide (ms_status row = MigrationStatus.Completed) then AlreadyDone else MissingRow
          | None => MissingRow
          end).

Definition migration_is_durable_completed {E} (run : string) : M Db E bool :=
  found ← try (load_migration_state run);
  mret (match found with
        | Ok (Some row) => bool_decide (ms_status row = MigrationStatus.Completed)
        | _ => false
        end).

(** An unreadable state counts as pending. *)
Definition migration_is_pending {E} (run : string) : M Db E bool :=
  found ← try (load_migration_state run);
  mret (match found with
        | Ok (Some row) => bool_decide (ms_status row = MigrationStatus.Pending)
        | Ok None => false
        | Err _ => true
        end).
End State.

(** ** The migration *)

Definition MIGRATION_AUDIT_STEP : string := "legacy_ownership_migration".

Inductive LegacyMigrationOutcome := Migrated | AlreadyCompleted | IdempotentlyCompleted.
#[global] Instance migration_outcome_eq_dec : EqDecision LegacyMigrationOutcome.
Proof. solve_decision. Defined.

(** What an [Io] error was built from; the code keeps its text. *)
Inductive MigrationFault :=
| FaultText (text : string)
| FaultIo (e : IoError)
| FaultSql (e : SqlError)
| FaultPersistence (e : PersistenceError).

Inductive LegacyMigrationError :=
| LRunNotFound (run : string)
| NotLegacyRow (run : string)
| MissingWorkspacePath (run : string)
| WorkspaceMismatch (run supplied persisted : string)
| UnsafeWorkspace (reason : string)
| ForeignMarker (reason : string)
| ConflictingIntent (run expected found : string)
| PendingMarkerMissing (reason : string)
| LIo (fault : MigrationFault).

Definition from_sql (e : SqlError) : LegacyMigrationError := LIo (FaultSql e).
Definition from_io (e : IoError) : LegacyMigrationError := LIo (FaultIo e).

Section Migration.
Context `{Env} `{Process} `{ErrorText} `{Os} `{JsonPrinter}.

Definition legacy_run (run : string) : M Db LegacyMigrationError RunMetadata :=
  found ← map_err from_sql (get_run_with_conn run);
  lift_res (ok_or found (LRunNotFound run)).

Definition validate_legacy_row (run : string) : M Db LegacyMigrationError unit :=
  m ← legacy_run run;
  match launch_provenance m with
  | None => mret tt
  | Some p => if is_migrated p then mret tt else throw (NotLegacyRow run)
  end.

Definition validate_workspace_match (run workspace : string) : M Db LegacyMigrationError unit :=
  m ← legacy_run run;
  persisted ← lift_res (ok_or (workspace_path m) (MissingWorkspacePath run));
  if bool_decide (workspace <> persisted) then throw (WorkspaceMismatch run workspace persisted)
  else mret tt.

Definition migration_already_completed (run : string) : M Db LegacyMigrationError bool :=
  migration_is_durable_completed run.

Definition persist_migration_intent_if_needed (run workspace : string) : M Db LegacyMigrationError unit :=
  existing ← map_err from_sql (load_migration_state run);
  match existing with
  | Some row =>
      if bool_decide (ms_workspace_path row <> workspace) then
        throw (ConflictingIntent run workspace (ms_workspace_path row))
      else mret tt
  | None => mret tt
  end;;
  t ← now;
  map_err from_sql (persist_migration_intent run workspace t);;
  mret tt.

Definition validate_workspace_safety (workspace rid : string) : Sys (Res LegacyMigrationError unit) :=
  symlinked ← reject_symlinked_workspace_root workspace;
  match symlinked with
  | Some reason => mret (Err (UnsafeWorkspace reason))
  | None =>
      canonical ← call (Ownership.Canonicalize workspace);
      match canonical with
      | Err e => mret (Err (UnsafeWorkspace ("cannot canonicalize: " +:+ os_error_display e)))
      | Ok canonical =>
          found ← call (Lstat canonical);
          match found with
          | Err e => mret (Err (UnsafeWorkspace ("cannot inspect: " +:+ os_error_display e)))
          | Ok st =>
              if negb (is_dir st) then mret (Err (UnsafeWorkspace "workspace path is not a directory"))
              else
                verdict ← adjudicate_workspace_ownership canonical rid;
                mret (match verdict with
                      | Owned _ | NoEvidence => Ok tt
                      | Rejected reason => Err (ForeignMarker reason)
                      end)
          end
      end
  end.

Definition verify_published_marker (anchor : WorkspaceAnchor) (rid : string)
    : Sys (Res LegacyMigrationError unit) :=
  verdict ← snapshot_bootstrap_marker (anchor_fd anchor) rid;
  mret (match verdict with
        | Trusted => Ok tt
        | Absent => Err (LIo (FaultText "ownership evidence missing after legacy migration publication"))
        | RejectedMarker reason => Err (LIo (FaultText reason))
        end).

(** Whether the marker was the run's already. *)
Definition publish_or_reconcile_migration_marker (workspace rid : string)
    : Sys (Res LegacyMigrationError bool) :=
  canonical ← call (Ownership.Canonicalize workspace);
  match canonical with
  | Err e => mret (Err (UnsafeWorkspace ("cannot canonicalize: " +:+ os_error_display e)))
  | Ok canonical =>
      opened ← open_anchor canonical;
      match opened with
      | Err e => mret (Err (from_io e))
      | Ok anchor =>
          verdict ← snapshot_bootstrap_marker (anchor_fd anchor) rid;
          match verdict with
          | Trusted => mret (Ok true)
          | Absent | RejectedMarker _ =>
              published ← publish_bootstrap_marker (anchor_fd anchor) rid;
              match published with
              | Err e => mret (Err (from_io e))
              | Ok _ =>
                  verified ← verify_published_marker anchor rid;
                  mret (match verified with Ok _ => Ok false | Err e => Err e end)
              end
          end
      end
  end.

(** [UPDATE runs SET launch_provenance = ? WHERE run_id = ? AND launch_provenance IS NULL] *)
Definition unprovenanced (run : string) (r : RunRow) : bool :=
  run_named run r && bool_decide (launch_provenance r = None).
Definition tagged_row (p : LaunchProvenance) (r : RunRow) : RunRow := r <| launch_provenance := Some p |>.

Definition migrated_provenance (config_root : string) : LaunchProvenance :=
  migrated LegacyOwnershipMigration (encode_config_root config_root).

Definition tag_migrated_provenance (run config_root : string) : M Db LegacyMigrationError unit :=
  m ← legacy_run run;
  if bool_decide (is_Some (launch_provenance m)) then mret tt
  else
    map_err from_sql (execute (fun d =>
      Ok (tt, d <| runs := update_where (unprovenanced run) (tagged_row (migrated_provenance config_root)) (runs d) |>))).

(** The details of the audit event. *)
Definition completion_details (run : string) (now : Z) : string :=
  json_to_vec (JObject (list_to_map
    [("operation", JString "legacy_ownership_migration"); ("detail", JString "completed");
     ("run_id", JString run); ("completed_at", JString (to_rfc3339 now))])).

Definition record_completion_body (run config_root : string) (t : Z)
    : M Db LegacyMigrationError GuardedCompletionOutcome :=
  outcome ← map_err from_sql (guarded_complete_migration_in_transaction run t);
  match outcome with
  | Transitioned =>
      map_err (fun e => LIo (FaultPersistence e))
        (append_typed_event_with_conn run MIGRATION_AUDIT_STEP "completed" EventType.TerminalState
           (Some (completion_details run t)) t);;
      tag_migrated_provenance run config_root
  | AlreadyDone | MissingRow => mret tt
  end;;
  mret outcome.

Definition record_completion (run config_root : string) : M Db LegacyMigrationError GuardedCompletionOutcome :=
  t ← now;
  transaction from_sql (record_completion_body run config_root t).

Definition interpret_migration_completion (already_owned : bool) (completion : GuardedCompletionOutcome)
    : Res LegacyMigrationError LegacyMigrationOutcome :=
  match already_owned, completion with
  | _, AlreadyDone => Ok AlreadyCompleted
  | true, Transitioned => Ok IdempotentlyCompleted
  | false, Transitioned => Ok Migrated
  | _, MissingRow =>
      Err (LIo (FaultText "guarded completion reported missing row after intent was persisted"))
  end.

Definition migrate_legacy_ownership (run workspace config_root : string)
    : M Db LegacyMigrationError LegacyMigrationOutcome :=
  map_err from_sql init_legacy_migration_table;;
  validate_legacy_row run;;
  validate_workspace_match run workspace;;
  completed ← migration_already_completed run;
  if (completed : bool) then mret AlreadyCompleted
  else
    persist_migration_intent_if_needed run workspace;;
    (safe ← sys (validate_workspace_safety workspace run); lift_res safe);;
    already_owned ← (r ← sys (publish_or_reconcile_migration_marker workspace run); lift_res r);
    completion ← record_completion run config_root;
    lift_res (interpret_migration_completion already_owned completion).
End Migration.

(** ** Lemmas *)

(** The primary key of the table. *)
Definition migrations_ok (d : Db) : Prop := NoDup (mg_run_id <$> legacy_migrations d).
#[global] Instance migrations_ok_dec d : Decision (migrations_ok d).
Proof. unfold migrations_ok. apply _. Defined.

Lemma migration_of_same run (a b : MigrationRow) :
  migration_of run a = true -> migration_of run b = true -> mg_run_id a = mg_run_id b.
Proof. intros ->%bool_decide_eq_true Hb%bool_decide_eq_true. done. Qed.

(** A legacy run's state is completed, or pending. *)
Definition completed_in (run : string) (d : Db) : Prop :=
  exists row, migration_row run d = Some row /\
    mg_status row = MigrationStatus.as_str MigrationStatus.Completed.
Definition pending_in (run : string) (d : Db) : Prop :=
  exists row, migration_row run d = Some row /\ pending_of run row = true.

Lemma pending_not_completed run d : pending_in run d -> completed_in run d -> False.
Proof.
  intros (row & Hrow & Hp) (row' & Hrow' & Hc). rewrite Hrow in Hrow'. injection Hrow' as <-.
  unfold pending_of in Hp. rewrite Hc in Hp. apply andb_true_iff in Hp as [_ Hp]. by vm_compute in Hp.
Qed.

(** The database after the intent: it is there already, or it is the last row. *)
Definition intended (run workspace : string) (d d' : Db) : Prop :=
  d' = d \/
  migration_row run d = None /\ exists t, d' = d <| legacy_migrations := legacy_migrations d ++
    [mkMigrationRow run workspace t None (MigrationStatus.as_str MigrationStatus.Pending)] |>.

Section Lemmas.
Context `{Env}.

Lemma load_migration_wp run (w : World Db) :
  wp (load_migration_state run) (fun r w' => w_db w' = w_db w /\
    match r with
    | Ok (Some row) => exists stored, migration_row run (w_db w) = Some stored /\
        mg_status stored = MigrationStatus.as_str (ms_status row) /\
        mg_workspace_path stored = ms_workspace_path row
    | Ok None => migration_row run (w_db w) = None
    | Err _ => True
    end) w.
Proof.
  unfold load_migration_state. wp_run; (split; [done|]); [done|].
  destruct (migration_row run (w_db w)) as [stored|]; [|done].
  unfold row_to_migration. destruct (MigrationStatus.parse_str (mg_status stored)) as [s|] eqn:Es; cbn; [|done].
  exists stored. split; [done|]. split; [|done]. unfold MigrationStatus.parse_str in Es.
  repeat case_bool_decide; by simplify_eq.
Qed.

Lemma intent_wp run workspace t (w : World Db) :
  wp (persist_migration_intent run workspace t) (fun r w' =>
    match r with Ok _ => intended run workspace (w_db w) (w_db w') | Err _ => w_db w' = w_db w end) w.
Proof.
  unfold persist_migration_intent. wp_run; [done|..].
  - destruct (exists_where _ _); done.
  - unfold intended. destruct (exists_where (migration_of run) (legacy_migrations (w_db w))) eqn:E;
      simplify_eq; [by left|right]. split; [|eauto].
    apply select_first_None. by apply exists_where_false.
Qed.

(** The guarded transition: only a pending row, once. *)
Lemma guarded_complete_wp run t (w : World Db) :
  migrations_ok (w_db w) ->
  wp (guarded_complete_migration_in_transaction run t) (fun r w' =>
    match r with
    | Ok Transitioned =>
        pending_in run (w_db w) /\ completed_in run (w_db w') /\
        w_db w' = (w_db w) <| legacy_migrations :=
          update_where (pending_of run) (completed_row t) (legacy_migrations (w_db w)) |>
    | Ok AlreadyDone => w_db w' = w_db w /\ completed_in run (w_db w)
    | Ok MissingRow | Err _ => w_db w' = w_db w
    end) w.
Proof.
  intros Hok. unfold guarded_complete_migration_in_transaction. wp_steps.
  apply wp_execute; [done|done|]. intros n d w1 [= <- <-] Hw1. wp_steps.
  assert (Hkeep : forall r, pending_of run r = true ->
            migration_of run r = true /\ migration_of run (completed_row t r) = true)
    by (intros r [? _]%andb_true_iff; done).
  pose proof (guarded_update (R := MigrationRow) mg_run_id (migration_of run) (pending_of run) (completed_row t)
                _ Hok (migration_of_same run) Hkeep) as Hg.
  destruct (bool_decide (0 < _)); wp_steps.
  - destruct Hg as (old & Hold & Hp & Hnew). rewrite Hw1. split_and!; [by exists old| |done].
    exists (completed_row t old). by split.
  - destruct Hg as [Hsame _]. eapply wp_consequence; [apply load_migration_wp|].
    assert (Hdb : w_db w1 = w_db w) by (rewrite Hw1, Hsame; by destruct (w_db w)).
    rewrite Hdb. intros [[row|]|e] w2 [Hw2 Hrow]; wp_steps; [|done..].
    case_decide as Hs; [|done]. split; [done|]. destruct Hrow as (stored & ? & Hst & _).
    exists stored. split; [done|]. by rewrite Hst, Hs.
Qed.

Context `{Process} `{ErrorText} `{Os} `{JsonPrinter}.

(** The one audit event of a completion. *)
Definition audit_event (run : string) (t : Z) : EventRecord :=
  mkEventRecord run MIGRATION_AUDIT_STEP "completed" (EventType.to_string EventType.TerminalState)
    (Some (completion_details run t)) t.

(** The database after the completing transaction. *)
Definition completed_db (run config_root : string) (t : Z) (d : Db) : Db :=
  d <| legacy_migrations := update_where (pending_of run) (completed_row t) (legacy_migrations d) |>
    <| events := events d ++ [audit_event run t] |>
    <| runs := update_where (unprovenanced run) (tagged_row (migrated_provenance config_root)) (runs d) |>.

Lemma legacy_run_wp run (w : World Db) :
  wp (legacy_run run) (fun r w' => w_db w' = w_db w /\
    forall m, r = Ok m -> exists row, run_row run (w_db w) = Some row /\ map_run_row row = Ok m) w.
Proof.
  unfold legacy_run. wp_steps. eapply wp_consequence; [apply get_run_wp|].
  intros [[m|]|e] w1 [Hw1 Hm]; wp_steps; (split; [done|]); try done.
  intros m' [= <-]. by destruct Hm as (_ & _ & row).
Qed.

Lemma map_run_row_provenance row m : map_run_row row = Ok m -> launch_provenance m = launch_provenance row.
Proof. unfold map_run_row. destruct (parse_run_status 3 (status row)); [|done]. by intros [= <-]. Qed.

(** Tagging is the guarded update, whichever way it goes. *)
Lemma tag_wp run config_root (w : World Db) :
  runs_ok (w_db w) ->
  wp (tag_migrated_provenance run config_root) (fun r w' =>
    r = Ok tt -> w_db w' = (w_db w) <| runs :=
      update_where (unprovenanced run) (tagged_row (migrated_provenance config_root)) (runs (w_db w)) |>) w.
Proof.
  intros Hok. unfold tag_migrated_provenance. wp_steps. eapply wp_consequence; [apply legacy_run_wp|].
  intros [m|e] w1 [Hw1 Hm]; wp_steps; [|done]. destruct (Hm _ eq_refl) as (row & Hrow & Hmap).
  wp_if Ep.
  - intros _. rewrite Hw1. rewrite update_where_none; [by destruct (w_db w)|].
    intros r Hr. destruct (unprovenanced run r) eqn:E; [|done]. unfold unprovenanced in E. bool_hyps.
    assert (Hsame : run_row run (w_db w) = Some r).
    { apply (select_first_key (R := RunRow) run_id); try done. intros r' Hr'. by apply (run_named_same run). }
    rewrite Hrow in Hsame. injection Hsame as <-. apply map_run_row_provenance in Hmap.
    rewrite Hmap in Ep. bool_hyps. destruct Ep as [? Hp]. congruence.
  - apply wp_execute; [done|done|]. intros [] d w2 [= <-] Hw2 _. by rewrite Hw2, Hw1.
Qed.

Lemma record_completion_wp run config_root (w : World Db) :
  migrations_ok (w_db w) -> runs_ok (w_db w) ->
  wp (record_completion run config_root) (fun r w' =>
    match r with
    | Ok Transitioned =>
        pending_in run (w_db w) /\ completed_in run (w_db w') /\
        exists t, w_db w' = completed_db run config_root t (w_db w)
    | Ok AlreadyDone => w_db w' = w_db w /\ completed_in run (w_db w)
    | Ok MissingRow | Err _ => w_db w' = w_db w
    end) w.
Proof.
  intros Hm Hr. unfold record_completion. wp_steps. apply wp_transaction; [congruence|].
  intros w1 Hw1. unfold record_completion_body. wp_steps.
  eapply wp_consequence; [apply guarded_complete_wp; congruence|].
  assert (Hdb : w_db w1 = w_db w) by congruence. rewrite Hdb. clear Hw1.
  intros [[| |]|e] w2 Hg; wp_steps; [|by intros w3 ->..|done].
  destruct Hg as (Hp & Hc & Hw2). eapply wp_consequence; [apply append_event_wp|].
  intros [[]|e] w3 Hw3; wp_steps; [|done]. eapply wp_consequence; [apply tag_wp; by rewrite Hw3, Hw2|].
  intros [[]|e] w4 Hw4; wp_steps; [|done]. specialize (Hw4 eq_refl). intros w5 Hw5.
  assert (Hfinal : w_db w5 = completed_db run config_root (env_clock (w_clock w)) (w_db w)).
  { rewrite Hw5, Hw4, Hw3, Hw2. by destruct (w_db w). }
  split_and!; [done| |by eexists]. rewrite Hfinal. rewrite Hw2 in Hc. exact Hc.
Qed.
End Lemmas.

(** ** The marker *)

(** The last thing seen through a descriptor is the run's own marker. *)
Definition marker_through (rid : string) (anchor : WorkspaceAnchor) (h : History) : Prop :=
  exists before seen, h = before ++ seen /\ marker_chain rid (anchor_fd anchor) [".luther"] seen Trusted.
Definition marker_seen (rid : string) (h : History) : Prop := exists anchor, marker_through rid anchor h.

Section Marker.
Context `{ErrorText}.

Lemma marker_through_after rid anchor h h' : marker_through rid anchor h' -> marker_through rid anchor (h ++ h').
Proof. intros (before & seen & -> & Hc). exists (h ++ before), seen. by rewrite app_assoc. Qed.

Lemma verified_seen rid anchor :
  always (verify_published_marker anchor rid)
    (fun h r => match r with Ok _ => marker_through rid anchor h | Err _ => True end) [].
Proof.
  unfold verify_published_marker. eapply always_seq; [apply bootstrap_always|].
  intros t [| |reason] Hv; cbn [always mret Sys_ret]; [done| |done]. rewrite app_nil_r. by exists [], t.
Qed.

(** The publication succeeds only on the run's own marker, read back through
    the descriptor it held from the beginning. *)
Lemma publication_seen workspace rid :
  always (publish_or_reconcile_migration_marker workspace rid)
    (fun h r => match r with Ok _ => marker_seen rid h | Err _ => True end) [].
Proof.
  unfold publish_or_reconcile_migration_marker. apply always_call. intros [canonical|e]; [|done].
  eapply always_seq; [apply always_True|]. intros t0 [anchor|e] _; [|done].
  eapply always_seq; [apply bootstrap_always|]. intros t1 v Hv.
  destruct (decide (v = Trusted)) as [->|Hne].
  { cbn [always mret Sys_ret]. exists anchor. rewrite app_nil_r, app_comm_cons.
    apply marker_through_after. by exists [], t1. }
  assert (Hpub : always (published ← publish_bootstrap_marker (anchor_fd anchor) rid;
      match published with
      | Err e => mret (Err (from_io e))
      | Ok _ => verified ← verify_published_marker anchor rid;
                mret (match verified with Ok _ => Ok false | Err e => Err e end)
      end)
    (fun h (r : Res LegacyMigrationError bool) => match r with
       | Ok _ => marker_seen rid ((Ownership.Canonicalize workspace ↦ Ok canonical) :: t0 ++ t1 ++ h)
       | Err _ => True end) []).
  { eapply always_seq; [apply always_True|]. intros t2 [[]|e] _; [|done].
    eapply always_seq; [apply verified_seen|]. intros t3 [[]|e] Hs; [|done].
    cbn [always mret Sys_ret]. exists anchor. rewrite app_comm_cons.
    do 3 apply marker_through_after. rewrite app_nil_r. exact Hs. }
  by destruct v.
Qed.
End Marker.

(** ** Exactly one completion *)

Lemma intended_ok run workspace d d' : migrations_ok d -> intended run workspace d d' -> migrations_ok d'.
Proof.
  intros Hok [->|[Hnone [t ->]]]; [done|]. unfold migrations_ok in *. cbn. rewrite fmap_app.
  apply NoDup_app. split; [done|]. split; [|apply NoDup_singleton].
  intros k (r & -> & Hr)%list_elem_of_fmap Hk. apply list_elem_of_singleton in Hk. cbn in Hk.
  unfold migration_row in Hnone. rewrite select_first_None in Hnone. specialize (Hnone r Hr).
  unfold migration_of in Hnone. by apply bool_decide_eq_false in Hnone.
Qed.

(** The intent changes nothing but the migration rows, and completes none. *)
Lemma intended_frame run workspace d d' :
  intended run workspace d d' ->
  runs d' = runs d /\ events d' = events d /\ forall other, completed_in other d' <-> completed_in other d.
Proof.
  intros [->|[Hnone [t ->]]]; [done|]. split_and!; [done|done|]. intros other.
  unfold completed_in, migration_row. cbn. rewrite select_first_app.
  destruct (select_first (migration_of other) (legacy_migrations d)) as [r|]; [done|].
  unfold select_first, migration_of. cbn. case_bool_decide; [|done].
  split; [intros (row & [= <-] & Hs); by vm_compute in Hs|by intros (row & ? & _)].
Qed.

Section Theorems.
Context `{Env} `{Process} `{ErrorText} `{Os} `{JsonPrinter}.

(** The run is a legacy run in that workspace. *)
Definition legacy_in (run workspace : string) (d : Db) : Prop :=
  exists row, run_row run d = Some row /\ workspace_path row = Some workspace /\
    (launch_provenance row = None \/ exists p, launch_provenance row = Some p /\ is_migrated p = true).

(** What the file system showed at two moments of the migration. *)
Definition disk_evidence (run workspace : string) (already_owned : bool) : Prop :=
  (exists n, fst (Ownership.run os_handle (validate_workspace_safety workspace run) (os_at n)) = Ok tt) /\
  exists n,
    fst (Ownership.run os_handle (publish_or_reconcile_migration_marker workspace run) (os_at n)) = Ok already_owned /\
    marker_seen run (trace os_handle (publish_or_reconcile_migration_marker workspace run) (os_at n)).

Lemma validate_legacy_wp run (w : World Db) :
  wp (validate_legacy_row run) (fun r w' => w_db w' = w_db w /\
    (r = Ok tt -> exists row, run_row run (w_db w) = Some row /\
       (launch_provenance row = None \/ exists p, launch_provenance row = Some p /\ is_migrated p = true))) w.
Proof.
  unfold validate_legacy_row. wp_steps.
  eapply wp_consequence; [apply legacy_run_wp|]. intros [m|e] w1 [Hw1 Hm]; wp_steps; [|by split].
  destruct (Hm _ eq_refl) as (row & Hrow & Hmap). apply map_run_row_provenance in Hmap as Hp. rewrite Hp.
  destruct (launch_provenance row) as [p|] eqn:E; [wp_if Emig|wp_steps]; split; try done; intros _; exists row; eauto.
Qed.

Lemma validate_match_wp run workspace (w : World Db) :
  wp (validate_workspace_match run workspace) (fun r w' => w_db w' = w_db w /\
    (r = Ok tt -> exists row, run_row run (w_db w) = Some row /\ workspace_path row = Some workspace)) w.
Proof.
  unfold validate_workspace_match. wp_steps.
  eapply wp_consequence; [apply legacy_run_wp|]. intros [m|e] w1 [Hw1 Hm]; wp_steps; [|by split].
  destruct (Hm _ eq_refl) as (row & Hrow & Hmap).
  destruct (workspace_path m) as [path|] eqn:Epath; cbn [ok_or]; wp_steps; [|by split].
  wp_if Ews; (split; [done|]); [done|]. intros _. bool_hyps. exists row. split; [done|].
  apply dec_stable in Ews. subst. rewrite <- Epath. unfold map_run_row in Hmap.
  destruct (parse_run_status 3 (status row)); [|done]. by injection Hmap as <-.
Qed.

Lemma already_completed_wp run (w : World Db) :
  wp (migration_already_completed run) (fun r w' => w_db w' = w_db w /\
    exists b, r = Ok b /\ (b = true -> completed_in run (w_db w))) w.
Proof.
  unfold migration_already_completed, migration_is_durable_completed. wp_steps.
  eapply wp_consequence; [apply load_migration_wp|].
  intros [[row|]|e] w1 [Hw1 Hrow]; wp_steps; (split; [done|]); eexists; (split; [reflexivity|]); try done.
  intros Hs. bool_hyps. destruct Hrow as (stored & ? & Hst & _). exists stored. by rewrite Hst, Hs.
Qed.

Lemma persist_intent_wp run workspace (w : World Db) :
  wp (persist_migration_intent_if_needed run workspace) (fun _ w' =>
    intended run workspace (w_db w) (w_db w')) w.
Proof.
  unfold persist_migration_intent_if_needed. wp_steps. eapply wp_consequence; [apply load_migration_wp|].
  intros [existing|e] w1 [Hw1 _]; wp_steps; [|by left].
  destruct existing as [row|]; [wp_if Ews; [by left|]|wp_steps].
  all: eapply wp_consequence; [apply intent_wp|].
  all: intros [[]|e] w3 Hw3; wp_steps; db_eqs; try done; by left.
Qed.

(** What a migration that completed found and left. *)
Definition newly_completed (run workspace config_root : string) (already_owned : bool) (d d' : Db) : Prop :=
  legacy_in run workspace d /\ ~ completed_in run d /\ completed_in run d' /\
  (exists d1 t, intended run workspace d d1 /\ pending_in run d1 /\ d' = completed_db run config_root t d1) /\
  disk_evidence run workspace already_owned.

Definition migration_result (run workspace config_root : string) (d d' : Db)
    (r : Res LegacyMigrationError LegacyMigrationOutcome) : Prop :=
  match r with
  | Ok Migrated => newly_completed run workspace config_root false d d'
  | Ok IdempotentlyCompleted => newly_completed run workspace config_root true d d'
  | Ok AlreadyCompleted => d' = d /\ completed_in run d
  | Err _ => intended run workspace d d'
  end.

(** The migration of a legacy run completes once, on evidence.  It answers
    that it migrated only where the run is a legacy run in that workspace, not
    yet completed, whose workspace was safe and whose own marker was the last
    thing seen through the descriptor held since before it was published; then
    the completion, the one audit event and the provenance tag are in the
    database together.  A completed migration is left alone, and an error
    leaves at most the durable intent to go on from. *)
Theorem migration_completes_once run workspace config_root (w : World Db) :
  migrations_ok (w_db w) -> runs_ok (w_db w) ->
  wp (migrate_legacy_ownership run workspace config_root)
     (fun r w' => migration_result run workspace config_root (w_db w) (w_db w') r) w.
Proof.
  intros Hm Hr. unfold migrate_legacy_ownership, init_legacy_migration_table, ensure_table. wp_steps.
  apply wp_execute; [by left|done|]. intros [] d w1 [= <-] Hw1. wp_steps.
  eapply wp_consequence; [apply validate_legacy_wp|]. rewrite Hw1.
  intros [[]|e] w2 [Hw2 Hlegacy]; wp_steps; [|by left]. destruct (Hlegacy eq_refl) as (row & Hrow & Hprov).
  eapply wp_consequence; [apply validate_match_wp|]. rewrite Hw2.
  intros [[]|e] w3 [Hw3 Hmatch]; wp_steps; [|by left]. destruct (Hmatch eq_refl) as (row' & Hrow' & Hpath).
  rewrite Hrow in Hrow'. injection Hrow' as <-.
  eapply wp_consequence; [apply already_completed_wp|]. rewrite Hw3.
  intros r w4 [Hw4 (b & -> & Hb)]; wp_steps. wp_if Eb; [by split; [|apply Hb]|].
  eapply wp_consequence; [apply persist_intent_wp|]. rewrite Hw4. intros [[]|e] w5 Hint; wp_steps; [|done].
  apply wp_sys. intros n safe w6 Hsafe Hw6. wp_steps. destruct safe as [[]|e]; [|by rewrite Hw6].
  wp_steps. apply wp_sys. intros n' owned w7 Howned Hw7. wp_steps. destruct owned as [already_owned|e]; [|by rewrite Hw7, Hw6].
  assert (Hdb : w_db w7 = w_db w5) by congruence. clear Hw6 Hw7.
  destruct (intended_frame _ _ _ _ Hint) as (Hruns & _ & Hcomp).
  wp_steps. eapply wp_consequence; [apply record_completion_wp; rewrite Hdb|].
  { by eapply intended_ok. } { unfold runs_ok in *. by rewrite Hruns. }
  rewrite Hdb. intros [[| |]|e] w8 Hw8; wp_steps; [| | by destruct already_owned; cbn; rewrite Hw8|by rewrite Hw8].
  - destruct Hw8 as (Hpending & Hcompleted & t & Hw8).
    assert (Hnew : newly_completed run workspace config_root already_owned (w_db w) (w_db w8)).
    { split_and!; [by exists row| |done|by exists (w_db w5), t|].
      - intros Hc. apply Hcomp in Hc. by eapply pending_not_completed.
      - split; [by exists n|]. exists n'. split; [done|].
        pose proof (always_run os_handle _ _ [] (os_at n') (publication_seen workspace run)) as Hseen.
        rewrite Howned in Hseen. exact Hseen. }
    by destruct already_owned.
  - destruct Hw8 as [Hw8 Hc]. apply Hcomp in Hc.
    assert (Hsame : w_db w5 = w_db w).
    { destruct Hint as [?|[Hnone _]]; [done|]. destruct Hc as (r & Hr' & _). congruence. }
    destruct already_owned; cbn; by rewrite Hw8, Hsame.
Qed.

(** The audit events of the run's completion. *)
Definition is_audit (run : string) (e : EventRecord) : bool :=
  (ev_run_id e =?s run) && (ev_step_id e =?s MIGRATION_AUDIT_STEP) && (ev_outcome e =?s "completed").

(** Every run has as many audits of its migration as completions: one or none. *)
Definition audited_once (d : Db) : Prop :=
  migrations_ok d /\ runs_ok d /\
  forall run, (completed_in run d -> count_where (is_audit run) (events d) = 1) /\
              (~ completed_in run d -> count_where (is_audit run) (events d) = 0).

Lemma intended_audited run workspace d d' : audited_once d -> intended run workspace d d' -> audited_once d'.
Proof.
  intros (Hm & Hr & Ha) Hi. destruct (intended_frame _ _ _ _ Hi) as (Hruns & Hev & Hc).
  split; [by eapply intended_ok|]. unfold runs_ok in *. rewrite Hruns, Hev. split; [done|].
  intros other. rewrite Hc. apply Ha.
Qed.

Lemma completed_audited run config_root t d :
  audited_once d -> pending_in run d -> audited_once (completed_db run config_root t d).
Proof.
  intros (Hm & Hr & Ha) Hp. pose proof Hp as (row & Hrow & Hpend). split_and!.
  - unfold migrations_ok in *. cbn. by rewrite update_where_column.
  - unfold runs_ok in *. cbn. by rewrite update_where_column.
  - intros other. unfold completed_db, completed_in, migration_row. cbn.
    rewrite count_where_app, select_first_update_key by done. fold (migration_row other d).
    destruct (Ha other) as [Hone Hzero]. destruct (decide (other = run)) as [->|Hne].
    + rewrite Hrow. cbn. rewrite Hpend. unfold count_where at 2 4, select_where. cbn.
      unfold is_audit at 2 4. cbn. rewrite bool_decide_eq_true_2 by done. cbn.
      rewrite Hzero by (intros Hc; by eapply pending_not_completed). split; [done|].
      intros []. by exists (completed_row t row).
    + unfold count_where at 2 4, select_where. cbn. unfold is_audit at 2 4. cbn.
      rewrite (bool_decide_eq_false_2 (run = other)) by congruence. cbn. rewrite Nat.add_0_r.
      assert (Hother : (fun r => if pending_of run r then completed_row t r else r) <$> migration_row other d
                       = migration_row other d).
      { destruct (migration_row other d) as [r|] eqn:Er; [|done]. cbn.
        apply select_first_Some in Er as [_ Hid]. unfold migration_of in Hid. bool_hyps.
        unfold pending_of, migration_of. by rewrite bool_decide_eq_false_2 by congruence. }
      rewrite Hother. by split.
Qed.

(** Exactly one audit.  As long as every run has one audit event if its
    migration is completed and none if it is not, that stays so: whatever a
    migration of any run returns, and in the two writes it consists of, the
    intent and the completing transaction, so that other connections may write
    in between. *)
Theorem migration_audited_once run workspace config_root now' :
  keeps audited_once (migrate_legacy_ownership run workspace config_root) /\
  keeps audited_once (persist_migration_intent run workspace now') /\
  keeps audited_once (record_completion run config_root).
Proof.
  split_and!; intros w Hok; pose proof Hok as (Hm & Hr & _).
  - pose proof (migration_completes_once run workspace config_root w Hm Hr) as Hmig. unfold wp in Hmig.
    destruct (migrate_legacy_ownership _ _ _ w) as [[[| |]|e] w']; cbn in *.
    2: { destruct Hmig as [-> _]. done. }
    3: { by eapply intended_audited. }
    all: destruct Hmig as (_ & _ & _ & (d1 & t & Hint & Hp & ->) & _).
    all: apply completed_audited; [by eapply intended_audited|done].
  - pose proof (intent_wp run workspace now' w) as Hi. unfold wp in Hi.
    destruct (persist_migration_intent _ _ _ w) as [[b|e] w']; cbn in *; [by eapply intended_audited|by rewrite Hi].
  - pose proof (record_completion_wp run config_root w Hm Hr) as Hc. unfold wp in Hc.
    destruct (record_completion _ _ w) as [[[| |]|e] w']; cbn in *; [|by destruct Hc as [-> _]|by rewrite Hc..].
    destruct Hc as (Hp & _ & t & ->). by apply completed_audited.
Qed.
End Theorems.

(** ** A migration *)

#[local] Existing Instances calm plain_text.
#[local] Instance migrating_process : Process := {| process_id := 42; to_rfc3339 t := pretty t |}.
#[local] Instance migrating_os : Os := {|
  os_pid_alive _ _ := false;
  os_is_dir _ _ := true;
  os_files := unit;
  os_handle := sample_handle "run-1";
  os_at _ := tt
|}.
#[local] Instance audit_printer : JsonPrinter := {| json_to_vec _ := "{}"; config_bytes _ := "" |}.

Definition legacy_db : Db :=
  empty_db <| runs := [bind_run_metadata_params ((RunMeta.new "run-1" "wf" "cfg" 1%Z)
                         <| workspace_path := Some "/w" |>)] |>.

Example legacy_migrates :
  let first := migrate_legacy_ownership "run-1" "/w" "/cfg" (start legacy_db) in
  fst first = Ok IdempotentlyCompleted /\
  fst (migrate_legacy_ownership "run-1" "/w" "/cfg" (snd first)) = Ok AlreadyCompleted /\
  fst (migration_is_pending (E := SqlError) "run-1" (snd first)) = Ok false.
Proof. vm_compute. done. Qed.

Lemma migration_completes_once_witness :
  let w := start legacy_db in
  migrations_ok (w_db w) /\ runs_ok (w_db w) /\
  newly_completed "run-1" "/w" "/cfg" true (w_db w) (w_db (snd (migrate_legacy_ownership "run-1" "/w" "/cfg" w))).
Proof.
  assert (Hm : migrations_ok (w_db (start legacy_db))) by by_computation.
  assert (Hr : runs_ok (w_db (start legacy_db))) by by_computation.
  intros w. split; [exact Hm|]. split; [exact Hr|].
  pose proof (migration_completes_once "run-1" "/w" "/cfg" w Hm Hr) as Hc. unfold wp in Hc.
  assert (Hrun : fst (migrate_legacy_ownership "run-1" "/w" "/cfg" w) = Ok IdempotentlyCompleted) by (vm_compute; reflexivity).
  rewrite Hrun in Hc. exact Hc.
Defined.

Lemma migration_audited_once_witness :
  audited_once legacy_db /\
  audited_once (w_db (snd (migrate_legacy_ownership "run-1" "/w" "/cfg" (start legacy_db)))).
Proof.
  assert (Hok : audited_once legacy_db).
  { split; [by_computation|]. split; [by_computation|]. intros run.
    split; [intros (row & Hrow & _); discriminate Hrow|reflexivity]. }
  split; [exact Hok|].
  exact (proj1 (migration_audited_once "run-1" "/w" "/cfg" 5%Z) (start legacy_db) Hok).
Defined.
