(* ===== verification/ResumePreparation.v ===== *)
(** Preparing a waiting run's lease for its resume
    ([daemon/launcher/resume_preparation.rs]): every check that only reads, and
    only then the compare-and-set that takes the lease.

    Reading and overriding the workflow's files ([workflow/config_loader.rs],
    [workflow/target_profile.rs]) is the [WorkflowResolver]; its answers may
    change from one question to the next. *)
From S2P Require Import Prelude Effects Text Sql Status Schema Checkpoints Leases RemoteClaim Runs WaitStates Launcher StepContext Ownership Host Continuation Provenance Digest OwnershipSteps Migration.

Definition DAEMON_CONFIG_ROOT : string := "config".

Class WorkflowResolver := {
  resolve_workflow_type : nat -> string -> string -> option WorkflowType;
  (** [resolve_workflow_config], then [apply_target_profile_overrides] with the
      overrides of the run's record *)
  resolve_effective_config : nat -> RunMetadata -> string -> option WorkflowConfig;
  canonical_path : nat -> string -> option string
}.

#[global] Instance eta_workflow_config : Eta WorkflowConfig := fun c =>
  mkWorkflowConfig (wc_config_id c) (wc_workflow_type_id c) (wc_runtime c) (wc_max_iterations c)
    (wc_variables c) (wc_parent_orchestration c) (wc_merge_required c) (wc_merge_strategy c)
    (wc_command_manifest c).

Section Preparation.
Context `{Env} `{Process} `{Rfc3339} `{ErrorText} `{Os} `{OptionDebug} `{ContinuationErrorText}.
Context `{Sha256} `{JsonPrinter} `{WorkflowResolver}.

Definition resolve_resume_run_id (lease : IssueLease) : option string := l_run_id lease.

Definition validate_resume_workflow_type (m : RunMetadata) : option string :=
  if str_is_empty (workflow_type_id m) then None else Some (workflow_type_id m).

Definition verify_not_ownership_denied_terminal (m : RunMetadata) : bool :=
  negb (RunMeta.is_ownership_denied_terminal m).

Definition verify_no_pending_legacy_migration (run : string) : M Db SqlError bool :=
  pending ← migration_is_pending run; mret (negb pending).

Definition verify_resume_workspace_ownership (m : RunMetadata) (run : string) : M Db SqlError bool :=
  match workspace_path m with
  | None => mret false
  | Some workspace =>
      refused ← sys (verify_workspace_ownership workspace run);
      mret (bool_decide (refused = None))
  end.

(** The claim's facts, which the launched config had among its variables. *)
Definition claim_variables (receipt : ClaimMetadataReceipt) (c : WorkflowConfig) : WorkflowConfig :=
  let text (b : bool) := if b then "true" else "false" in
  c <| wc_variables := <["claim_label_added" := text (label_added receipt)]>
                         (<["claim_assignment_added" := text (assignment_added receipt)]>
                            (<["daemon_managed_claim" := "true"]> (wc_variables c))) |>.

Definition verify_resume_provenance (m : RunMetadata) (receipt : ClaimMetadataReceipt)
    : M Db SqlError (option string) :=
  match launch_provenance m with
  | None => mret (Some DAEMON_CONFIG_ROOT)
  | Some p =>
      match decode_config_root (canonical_config_root p) with
      | Ok (Some root) =>
          workflow_type ← observe (fun n => resolve_workflow_type n (workflow_type_id m) root);
          match workflow_type with
          | None => mret None
          | Some wt =>
              config ← observe (fun n => resolve_effective_config n m root);
              match config with
              | None => mret None
              | Some c =>
                  canonicalize ← observe canonical_path;
                  mret (match verify_provenance canonicalize (Some p) wt (claim_variables receipt c) root Allowed with
                        | Match | Legacy => Some root
                        | Mismatch _ => None
                        end)
              end
          end
      | Ok None | Err _ => mret None
      end
  end.

Definition resume_request (run : string) : ContinuationRequest := mkContinuationRequest run Resume true.

Definition verify_resume_continuation_authorization (m : RunMetadata) (run : string) : M Db SqlError bool :=
  if str_is_empty (default "" (current_step m)) then mret false
  else
    v ← map_err (fun _ => ToSqlConversionFailure) (validate_continuation (resume_request run));
    mret (ok v).

(** The lease and the record speak of the same issue and config. *)
Definition same_binding (lease : IssueLease) (m : RunMetadata) : bool :=
  bool_decide (l_config_id lease = config_id m) && bool_decide (repository m = Some (issue_repo lease))
  && bool_decide (RunMeta.issue_lease_number m = Some (l_issue_number lease)).

Definition validate_resume_read_only (lease : IssueLease) : M Db SqlError (option Launcher.PreparedResume) :=
  match resolve_resume_run_id lease with
  | None => mret None
  | Some run =>
      found ← get_claim_metadata (lease_id lease);
      match found with
      | None => mret None
      | Some receipt =>
          found ← get_run_with_conn run;
          match found with
          | None => mret None
          | Some m =>
              match validate_resume_workflow_type m with
              | None => mret None
              | Some workflow_type =>
                  if negb (same_binding lease m) then mret None
                  else if negb (verify_not_ownership_denied_terminal m) then mret None
                  else
                    settled ← verify_no_pending_legacy_migration run;
                    if negb settled then mret None
                    else
                      owned ← verify_resume_workspace_ownership m run;
                      if negb owned then mret None
                      else
                        root ← verify_resume_provenance m receipt;
                        match root with
                        | None => mret None
                        | Some config_root =>
                            authorized ← verify_resume_continuation_authorization m run;
                            mret (if (authorized : bool) then
                                    Some (Launcher.mkPreparedResume run workflow_type (config_id m) config_root
                                            (assignment_added receipt) (label_added receipt))
                                  else None)
                        end
              end
          end
      end
  end.

Definition prepare_resume_lease (lease : IssueLease) : M Db SqlError (Res SkipReason Launcher.PreparedResume) :=
  prepared ← validate_resume_read_only lease;
  match prepared with
  | None => mret (Err InvalidLeaseState)
  | Some p =>
      acquired ← acquire_resume_lease (lease_id lease) (pr_run_id p);
      mret (if (acquired : bool) then Ok p else Err InvalidLeaseState)
  end.

(** [launcher.rs]: prepare, run the engine again, settle the lease.  [resume]
    is the launcher's second method. *)
Definition resume_lease (resume : LaunchRequest -> M Db string WorkflowLaunchResult) (lease : IssueLease)
    : M Db SqlError LaunchOutcome :=
  prepared ← prepare_resume_lease lease;
  match prepared with
  | Err reason => mret (Skipped reason)
  | Ok p =>
      let claimed := into_claimed_launch p lease in
      result ← try (resume (cl_request claimed));
      finish_lease_after_result (cl_lease_id claimed) (lr_run_id (cl_request claimed)) result
  end.
End Preparation.

(** ** Lemmas *)

Section Lemmas.
Context `{Env} `{Process} `{Rfc3339} `{ErrorText} `{Os} `{OptionDebug} `{ContinuationErrorText}.

Lemma keeps_list_checkpoints P run : keeps P (list_checkpoints run).
Proof. unfold list_checkpoints. keeps_auto. Qed.
#[local] Hint Resolve keeps_list_checkpoints : eff.

Lemma keeps_select P rq m : keeps P (select_checkpoint rq m).
Proof.
  assert (Hrewind : forall run target, keeps P (select_rewind_checkpoint run target)).
  { intros. unfold select_rewind_checkpoint, checkpoint_of_step, get_checkpoint_for_step. keeps_auto. }
  assert (Hbound : forall run, keeps P (select_failed_cleanup_checkpoint run m)).
  { intros. unfold select_failed_cleanup_checkpoint. keeps_auto. }
  assert (Hresume : forall run, keeps P (select_resume_checkpoint run m)).
  { intros. unfold select_resume_checkpoint, select_latest, load_checkpoint_before_step. keeps_auto; apply Hbound. }
  unfold select_checkpoint, select_retry_checkpoint. keeps_auto; first [apply Hresume|apply Hbound|apply Hrewind].
Qed.

Lemma keeps_validate P rq : keeps P (validate_continuation rq).
Proof.
  unfold validate_continuation, get_run_with_conn, check_resumable_status, running_claim_is_available,
    check_workspace, check_cleanup_workspace_ownership, is_directory, pid_alive, checkpoint_is_authorized,
    for_resume, get_wait_state. keeps_auto. apply keeps_select.
Qed.

Context `{Sha256} `{JsonPrinter} `{WorkflowResolver}.

(** The config root a resume may be launched from: the daemon's own for a run
    without provenance, otherwise the recorded one, where the resolved workflow
    and config still have the recorded digests. *)
Definition trusted_root (m : RunMetadata) (receipt : ClaimMetadataReceipt) (root : string) : Prop :=
  match launch_provenance m with
  | None => root = DAEMON_CONFIG_ROOT
  | Some p =>
      decode_config_root (canonical_config_root p) = Ok (Some root) /\
      exists n1 n2 n3 wt c, resolve_workflow_type n1 (workflow_type_id m) root = Some wt /\
        resolve_effective_config n2 m root = Some c /\
        verify_provenance (canonical_path n3) (Some p) wt (claim_variables receipt c) root Allowed = Match
  end.

(** What every check before the compare-and-set found. *)
Definition resumable (lease : IssueLease) (d : Db) (p : Launcher.PreparedResume) : Prop :=
  exists m row receipt workspace n,
    l_run_id lease = Some (pr_run_id p) /\
    run_row (pr_run_id p) d = Some row /\ map_run_row row = Ok m /\
    receipt_of (lease_id lease) d = Some receipt /\
    same_binding lease m = true /\ workflow_type_id m <> "" /\
    RunMeta.is_ownership_denied_terminal m = false /\ ~ pending_in (pr_run_id p) d /\
    workspace_path m = Some workspace /\
    fst (Ownership.run os_handle (verify_workspace_ownership workspace (pr_run_id p)) (os_at n)) = None /\
    trusted_root m receipt (pr_config_root p) /\ default "" (current_step m) <> "" /\
    (exists (w0 : World Db) v, w_db w0 = d /\
       fst (validate_continuation (resume_request (pr_run_id p)) w0) = Ok v /\ ok v = true) /\
    p = Launcher.mkPreparedResume (pr_run_id p) (workflow_type_id m) (config_id m) (pr_config_root p)
          (assignment_added receipt) (label_added receipt).

Lemma provenance_wp m receipt (w : World Db) :
  wp (verify_resume_provenance m receipt) (fun r w' => w_db w' = w_db w /\
    forall root, r = Ok (Some root) -> trusted_root m receipt root) w.
Proof.
  unfold verify_resume_provenance, trusted_root. destruct (launch_provenance m) as [p|]; wp_steps.
  2: { split; [done|]. by intros root [= <-]. }
  destruct (decode_config_root _) as [[root|]|e]; wp_steps; [|by split..].
  destruct (resolve_workflow_type _ _ root) as [wt|] eqn:Et; wp_steps; [|by split].
  destruct (resolve_effective_config _ m root) as [c|] eqn:Ec; wp_steps; [|by split; [congruence|]].
  split; [congruence|]. intros root'.
  destruct (verify_provenance _ _ _ _ _ _) eqn:Ev; intros [= <-]; (split; [done|]); [eauto 10|].
  cbn in Ev. unfold verify_some_provenance in Ev. by repeat case_match.
Qed.

Lemma pending_wp {E} run (w : World Db) :
  wp (migration_is_pending run : M Db E bool) (fun r w' => w_db w' = w_db w /\
    exists b, r = Ok b /\ (b = false -> ~ pending_in run (w_db w))) w.
Proof.
  unfold migration_is_pending. wp_steps. eapply wp_consequence; [apply load_migration_wp|].
  intros [[row|]|e] w1 [Hw1 Hrow]; wp_steps; (split; [done|]); eexists; (split; [reflexivity|]); [| |done].
  - intros Hs. bool_hyps. intros (stored & Hst & Hp). destruct Hrow as (stored' & Hst' & Hstatus & _).
    rewrite Hst in Hst'. injection Hst' as <-. unfold pending_of in Hp. bool_hyps. rewrite Hstatus in *.
    by destruct (ms_status row).
  - intros _ (stored & Hst & _). congruence.
Qed.

Lemma validate_resume_wp lease (w : World Db) :
  wp (validate_resume_read_only lease) (fun r w' => w_db w' = w_db w /\
    forall p, r = Ok (Some p) -> resumable lease (w_db w) p) w.
Proof.
  unfold validate_resume_read_only, resolve_resume_run_id.
  destruct (l_run_id lease) as [run|] eqn:Erun; wp_steps; [|by split].
  unfold get_claim_metadata. apply wp_query; intros w1 Hw1; wp_steps; [by split|].
  change (select_first _ (claim_metadata (w_db w))) with (receipt_of (lease_id lease) (w_db w)).
  destruct (receipt_of _ _) as [receipt|] eqn:Ereceipt; wp_steps; [|by split].
  eapply wp_consequence; [apply get_run_wp|]. rewrite Hw1. clear Hw1 w1.
  intros [[m|]|e] w2 [Hw2 Hm]; wp_steps; [|by split..]. destruct Hm as (_ & _ & row & Hrow & Hmap).
  unfold validate_resume_workflow_type, str_is_empty. case_bool_decide as Hwt; wp_steps; [by split|].
  wp_if Ebind; [by split|]. wp_if Edenied; [by split|]. unfold verify_not_ownership_denied_terminal in Edenied.
  unfold verify_no_pending_legacy_migration. wp_steps.
  eapply wp_consequence; [apply pending_wp|]. rewrite Hw2. clear Hw2 w2.
  intros r w3 [Hw3 (b & -> & Hb)]; wp_steps. wp_if Ep; [by split|].
  unfold verify_resume_workspace_ownership. destruct (workspace_path m) as [workspace|] eqn:Ews; wp_steps; [|by split].
  apply wp_sys. intros n refused w4 Hrefused Hw4. wp_steps. rewrite Hw3 in Hw4. wp_if Eo; [by split|].
  eapply wp_consequence; [apply provenance_wp|]. rewrite Hw4. clear Hw4 w4 Hw3 w3.
  intros [[root|]|e] w5 [Hw5 Hroot]; wp_steps; [|by split..].
  unfold verify_resume_continuation_authorization, str_is_empty. wp_if Ecur; [by split|].
  eapply wp_consequence.
  { apply wp_and; [apply wp_result|]. apply (wp_read_only (validate_continuation (resume_request run))).
    read_only_auto. apply keeps_validate. }
  intros r w6 [-> Hw6]. destruct (fst (validate_continuation _ w5)) as [v|e] eqn:Ev; wp_steps;
    (split; [congruence|]); [|done]. intros p. destruct (ok v) eqn:Eok; [intros [= <-]|done]. cbn. bool_hyps. subst.
  exists m, row, receipt, workspace, n. cbn. split_and!; eauto 10.
Qed.
End Lemmas.

(** A lease is taken for a resume only after every check has passed on the
    state it is taken in: the lease names a run of the same config, repository
    and issue, with a receipt, not denied ownership, with no migration pending,
    in a workspace verified to be its own, whose provenance trusts the config
    root it will be launched from, and whose continuation validates.  Then the
    run's own lease goes from ready-to-resume to running and nothing else
    changes; in every other case, errors included, nothing changes at all. *)
Theorem resume_taken_when_valid `{Env} `{Process} `{Rfc3339} `{ErrorText} `{Os} `{OptionDebug}
    `{ContinuationErrorText} `{Sha256} `{JsonPrinter} `{WorkflowResolver} (lease : IssueLease) (w : World Db) :
  leases_ok (w_db w) ->
  wp (prepare_resume_lease lease) (fun r w' =>
    match r with
    | Ok (Ok p) =>
        resumable lease (w_db w) p /\
        moved (lease_id lease) (pr_run_id p) [LeaseStatus.ReadyToResume] LeaseStatus.Running (w_db w) (w_db w')
    | Ok (Err _) | Err _ => w_db w' = w_db w
    end) w.
Proof.
  intros [Hids _]. unfold prepare_resume_lease. wp_steps. eapply wp_consequence; [apply validate_resume_wp|].
  intros [[p|]|e] w1 [Hw1 Hp]; wp_steps; [|done..]. specialize (Hp _ eq_refl).
  unfold acquire_resume_lease. wp_steps. eapply wp_consequence; [apply transition_wp; by rewrite Hw1|].
  rewrite Hw1. intros [[|s owner|]|e] w2 Hw2; wp_steps; [by split|by destruct Hw2..|done].
Qed.

(** ** A resume *)

#[local] Existing Instances calm plain_text migrating_process decimal_rfc3339 short_debug short_errors audit_printer.
#[local] Instance resuming_os : Os := {|
  os_pid_alive _ _ := false;
  os_is_dir _ _ := true;
  os_files := unit;
  os_handle := sample_handle "run-1";
  os_at _ := tt
|}.
#[local] Instance no_hash : Sha256 := fun s => s.
#[local] Instance no_files : WorkflowResolver := {|
  resolve_workflow_type _ _ _ := None;
  resolve_effective_config _ _ _ := None;
  canonical_path _ p := Some p
|}.

Definition waiting_run : RunMetadata :=
  (failed_run RunStatus.ReadyToResume "watch_pr_checks") <| workspace_path := Some "/w" |>.
Definition ready_db : Db :=
  (failed_db waiting_run "watch_pr_checks" "waiting")
    <| issue_leases := [mkLease "l7" "o/r" 7 "cfg" (Some "run-1") "ready_to_resume" 1 1 1] |>
    <| claim_metadata := [mkClaimMetadataReceipt "l7" "bot" "working" true true false] |>.
Definition ready_lease : IssueLease := row_to_lease (mkLease "l7" "o/r" 7 "cfg" (Some "run-1") "ready_to_resume" 1 1 1).

Lemma resume_taken_when_valid_witness :
  let w := start ready_db in
  let p := Launcher.mkPreparedResume "run-1" "wf" "cfg" "config" true true in
  leases_ok (w_db w) /\ resumable ready_lease (w_db w) p /\
  moved "l7" "run-1" [LeaseStatus.ReadyToResume] LeaseStatus.Running (w_db w)
    (w_db (snd (prepare_resume_lease ready_lease w))).
Proof.
  assert (Hok : leases_ok (w_db (start ready_db))) by by_computation.
  intros w p. split; [exact Hok|].
  pose proof (resume_taken_when_valid ready_lease w Hok) as Hr. unfold wp in Hr.
  assert (Hrun : fst (prepare_resume_lease ready_lease w) = Ok (Ok p)) by (vm_compute; reflexivity).
  rewrite Hrun in Hr. exact Hr.
Defined.
