(* ===== verification/Scheduler.v ===== *)
(** The scheduler's pass ([daemon/scheduler.rs], [scheduler/polling.rs],
    [scheduler/dispatch.rs]): finish the remote cleanups still owed, poll the
    external waits, take the leases to resume and to launch while there is
    capacity, run them and settle every lease.

    The state is the local database beside the remote service, as in
    [Discovery].  The launcher's threads and the pollers are parameters: a thread
    may change both states in any way before it is joined. *)
From S2P Require Import Prelude Effects Text Sql Status Schema RunPaths Leases RemoteClaim Runs WaitStates PollApply Launcher Discovery StepContext Ownership Host Continuation Provenance Digest Migration ResumePreparation.
From Stdlib Require String.

Definition MAX_SKIPPED_POLL_DETAILS : nat := 100.
Definition MAX_LEASE_STATE_PRESERVED_DETAILS : nat := 100.
Definition MAX_ARTIFACT_WARNING_DETAILS : nat := 100.

(** ** The summary of a pass *)

Record LeaseStatePreservedDetail := mkLeaseStatePreservedDetail {
  lp_run_id : string;
  lp_current_status : option LeaseStatus.t;
  lp_current_run_id : option string
}.

Record ArtifactWarningDetail := mkArtifactWarningDetail {
  aw_run_id : string;
  aw_phase : ArtifactPhase;
  aw_error : string
}.

Inductive SkippedPollReason :=
| LeaseTransitionRejected
| WaitStateMoved              (** [WaitStateConcurrentTransition] *)
| RunStatusMoved              (** [RunStatusConcurrentTransition] *)
| RunMissing.

Record SkippedPollDetail := mkSkippedPollDetail {
  sp_run_id : string;
  sp_lease_id : option string;
  sp_step_id : string;
  sp_reason : SkippedPollReason;
  sp_lease_transition_reason : option string
}.

Record RunSummary := mkRunSummary {
  sm_eligible : nat;
  sm_launched : nat;
  sm_resumed : nat;
  sm_suspended : nat;
  sm_failed : nat;
  lease_states_preserved : nat;
  lease_state_preserved_details : list LeaseStatePreservedDetail;
  lease_state_preserved_details_dropped : nat;
  sm_skipped : nat;
  pollable_waits : nat;
  polls_applied : nat;
  skipped_polls : nat;
  skipped_poll_details : list SkippedPollDetail;
  skipped_poll_details_dropped : nat;
  artifact_warnings : list ArtifactWarningDetail;
  artifact_warnings_dropped : nat
}.

#[global] Instance eta_summary : Eta RunSummary := fun s =>
  mkRunSummary (sm_eligible s) (sm_launched s) (sm_resumed s) (sm_suspended s) (sm_failed s)
    (lease_states_preserved s) (lease_state_preserved_details s)
    (lease_state_preserved_details_dropped s) (sm_skipped s) (pollable_waits s) (polls_applied s)
    (skipped_polls s) (skipped_poll_details s) (skipped_poll_details_dropped s)
    (artifact_warnings s) (artifact_warnings_dropped s).

(** [RunSummary::default()] *)
Definition empty_summary : RunSummary := mkRunSummary 0 0 0 0 0 0 [] 0 0 0 0 0 [] 0 [] 0.

Definition record_lease_state_preserved (d : LeaseStatePreservedDetail) (s : RunSummary) : RunSummary :=
  let s := s <| lease_states_preserved := S (lease_states_preserved s) |> in
  if bool_decide (length (lease_state_preserved_details s) < MAX_LEASE_STATE_PRESERVED_DETAILS)
  then s <| lease_state_preserved_details := lease_state_preserved_details s ++ [d] |>
  else s <| lease_state_preserved_details_dropped := S (lease_state_preserved_details_dropped s) |>.

Definition record_skipped_poll (d : SkippedPollDetail) (s : RunSummary) : RunSummary :=
  let s := s <| skipped_polls := S (skipped_polls s) |> in
  if bool_decide (length (skipped_poll_details s) < MAX_SKIPPED_POLL_DETAILS)
  then s <| skipped_poll_details := skipped_poll_details s ++ [d] |>
  else s <| skipped_poll_details_dropped := S (skipped_poll_details_dropped s) |>.

Definition record_artifact_warning (d : ArtifactWarningDetail) (s : RunSummary) : RunSummary :=
  if bool_decide (length (artifact_warnings s) < MAX_ARTIFACT_WARNING_DETAILS)
  then s <| artifact_warnings := artifact_warnings s ++ [d] |>
  else s <| artifact_warnings_dropped := S (artifact_warnings_dropped s) |>.

(** [saturating_add] of two [usize]s *)
Definition usize_max : Z := (2 ^ 64 - 1)%Z.
Definition artifact_warning_count (s : RunSummary) : Z :=
  Z.min usize_max (Z.of_nat (length (artifact_warnings s)) + Z.of_nat (artifact_warnings_dropped s)).

(** ** Targets and capacity *)

(** [FinalizePanic] is the panic of indexing the queries out of range. *)
Inductive SchedulerError :=
| SchedPollApply (e : PollApplyError)
| SchedSqlite (e : SqlError)
| TargetsQueriesMismatch (targets queries : nat)
| FinalizePanic (index : nat).

Record SchedulerTarget := mkSchedulerTarget {
  st_config_id : string;
  st_discovery : DiscoveryConfig;
  st_path_bases : DaemonPathBases;
  st_parent_path_bases : gmap string DaemonPathBases;
  st_config_root : string
}.

Record CapacityLimits := mkCapacityLimits { cl_global : Z; cl_per_config : Z; cl_per_repository : Z }.

(** [iter().filter_map(f).max()] *)
Definition max_of (f : SchedulerTarget -> option Z) (targets : list SchedulerTarget) : option Z :=
  fold_left (fun best t => match f t with
                           | Some z => Some (from_option (Z.max z) z best)
                           | None => best
                           end) targets None.

Definition config_limit (cfg : DiscoveryConfig) : option Z :=
  opt_or (max_concurrent_runs_per_config cfg) (max_concurrent_runs cfg).

Definition capacity_limits (targets : list SchedulerTarget) : CapacityLimits :=
  mkCapacityLimits
    (default u32_max (max_of (fun t => max_concurrent_active_runs (st_discovery t)) targets))
    (default 1%Z (max_of (fun t => config_limit (st_discovery t)) targets))
    (default u32_max (max_of (fun t => max_concurrent_runs_per_repository (st_discovery t)) targets)).

Definition dispatch_parallelism (limits : CapacityLimits) (unit_count : nat) : nat :=
  Nat.max 1 (Z.to_nat (Z.min (Z.of_nat unit_count) (cl_global limits))).

#[global] Instance eta_discovery_config : Eta DiscoveryConfig := fun c =>
  mkDiscoveryConfig (enabled c) (dc_repo c) (include_labels c) (exclude_labels c) (active_parent_label c)
    (issue_states c) (approval_label c) (approval_actor c) (claim_assignee c) (claim_label c)
    (milestone_order c) (max_concurrent_runs c) (poll_interval_secs c) (max_concurrent_active_runs c)
    (max_concurrent_runs_per_repository c) (max_concurrent_runs_per_config c) (route_parent_issues c)
    (parent_workflow_type_id c) (parent_config_id c) (skip_children_of_active_parents c).

Definition parent_capacity_discovery (cfg : DiscoveryConfig) (limits : CapacityLimits)
    : Res SqlError DiscoveryConfig :=
  let limit := default (cl_per_config limits) (config_limit cfg) in
  if decide (limit <= u32_max)%Z
  then Ok (cfg <| max_concurrent_runs := Some limit |> <| max_concurrent_runs_per_config := Some limit |>)
  else Err (IntegralValueOutOfRange 0 (Z.min limit i64_max)).

(** The configs a launch may run under: the targets' own, and for a parent that
    no target names, the capacity of the first target that routes to it. *)
Definition parent_launch_discoveries (targets : list SchedulerTarget) (limits : CapacityLimits)
    : gmap string DiscoveryConfig :=
  let '(discoveries, derived) :=
    fold_left (fun '(discoveries, derived) t =>
      let discoveries := <[st_config_id t := st_discovery t]> discoveries in
      match parent_config_id (st_discovery t) with
      | None => (discoveries, derived)
      | Some parent_id =>
          match parent_capacity_discovery (st_discovery t) limits with
          | Ok discovery =>
              (discoveries, match derived !! parent_id with
                            | Some _ => derived
                            | None => <[parent_id := discovery]> derived
                            end)
          | Err _ => (discoveries, derived)
          end
      end) targets (∅, ∅) in
  discoveries ∪ derived.

Definition launch_discovery_for (target : SchedulerTarget) (launch_config_id : string)
    (limits : CapacityLimits) (parents : gmap string DiscoveryConfig) : Res SqlError DiscoveryConfig :=
  if launch_config_id =?s st_config_id target then Ok (st_discovery target)
  else match parents !! launch_config_id with
       | Some discovery => Ok discovery
       | None => parent_capacity_discovery (st_discovery target) limits
       end.

Definition path_bases_for (target : SchedulerTarget) (launch_config_id : string) : DaemonPathBases :=
  if launch_config_id =?s st_config_id target then st_path_bases target
  else default (mkDaemonPathBases None None) (st_parent_path_bases target !! launch_config_id).

(** A config a target names itself replaces one derived for it. *)
Definition upsert_resume_config_target (config_id : string) (discovery : DiscoveryConfig) (direct : bool)
    (m : gmap string (DiscoveryConfig * bool)) : gmap string (DiscoveryConfig * bool) :=
  match m !! config_id with
  | Some (_, existing_direct) =>
      if direct && negb existing_direct then <[config_id := (discovery, true)]> m else m
  | None => <[config_id := (discovery, direct)]> m
  end.

(** The order of a [BTreeMap]'s keys. *)
Definition key_order {A} (a b : string * A) : Prop := String.leb (fst a) (fst b) = true.
#[global] Instance key_order_dec {A} : RelDecision (@key_order A).
Proof. intros a b. unfold key_order. apply _. Defined.

Definition resume_config_map (targets : list SchedulerTarget) (limits : CapacityLimits)
    : gmap string (DiscoveryConfig * bool) :=
  fold_left (fun m t =>
    let m := upsert_resume_config_target (st_config_id t) (st_discovery t) true m in
    match parent_config_id (st_discovery t) with
    | None => m
    | Some parent_id =>
        match parent_capacity_discovery (st_discovery t) limits with
        | Ok discovery => upsert_resume_config_target parent_id discovery false m
        | Err _ => m
        end
    end) targets ∅.

Definition resume_config_targets (targets : list SchedulerTarget) (limits : CapacityLimits)
    : list (string * DiscoveryConfig) :=
  merge_sort key_order (map_to_list (fst <$> resume_config_map targets limits)).

(** ** The pass *)

(** A target's connection to the remote service: what reads and what claims. *)
Record Query (R : Type) := mkQuery { query_claims : GithubIssueQuery R; query_reads : IssueQuery R }.
Arguments query_claims {R}.
Arguments query_reads {R}.

Record DispatchUnit := mkDispatchUnit {
  du_lease_id : string;
  du_request : LaunchRequest;
  du_resume : bool;
  du_query_index : option nat
}.

(** What runs beside the scheduler: the launcher's threads, joined with their
    result or the text of their panic; the pollers; the generator of run ids;
    the files the poll's artifacts are written to. *)
Class Daemon (R : Type) := {
  join_unit : DispatchUnit -> M (Db * R) string (Res string WorkflowLaunchResult);
  poll : nat -> WaitStateRecord -> PollDecision;
  fresh_run : nat -> string;
  artifact_failure : ArtifactPhase -> PollDecision -> option string
}.

Inductive PrepareLaunchOutcome :=
| Ready (unit : DispatchUnit)
| LaunchSkipped
| LaunchFailed.

Definition was_applied (o : ConditionalLeaseStatusOutcome) : bool :=
  match o with Applied => true | _ => false end.

Section Pass.
Context `{Env} `{Process} `{Rfc3339} `{ErrorText} `{Os} `{OptionDebug} `{ContinuationErrorText}.
Context `{Sha256} `{JsonPrinter} `{WorkflowResolver} `{StringsDebug}.
Context {R : Type} `{Daemon R}.

(** A statement of the scheduler itself. *)
Definition sql {A} (m : M Db SqlError A) : M (Db * R) SchedulerError A := map_err SchedSqlite (on_local m).

Definition has_capacity (cfg : DiscoveryConfig) (config_id repo : string) (limits : CapacityLimits)
    : M (Db * R) SchedulerError bool :=
  let per_config := default (cl_per_config limits) (config_limit cfg) in
  let per_repository := default (cl_per_repository limits) (max_concurrent_runs_per_repository cfg) in
  active ← sql count_active_leases;
  if negb (bool_decide (Z.of_nat active < cl_global limits)%Z) then mret false
  else
    in_config ← sql (count_active_leases_for_config config_id);
    if negb (bool_decide (Z.of_nat in_config < per_config)%Z) then mret false
    else
      in_repository ← sql (count_active_leases_for_repository repo);
      mret (bool_decide (Z.of_nat in_repository < per_repository)%Z).

(** *** Cleanups still owed *)

Definition reconcile_cleanup (q : Query R) (cleanup : PendingClaimCleanup) : M (Db * R) SchedulerError unit :=
  let lease := cm_lease_id (pc_receipt cleanup) in
  proceed ←
    (if bool_decide (pc_lease_status cleanup = LeaseStatus.Claimed) then
       transition ← sql (update_lease_status_conditional_outcome lease LeaseStatus.Pending
                           [LeaseStatus.Claimed] None None);
       mret (was_applied transition)
     else mret true);
  if negb proceed then mret tt
  else
    cleaned ← try (on_remote (@reconcile_pending_cleanup R (query_claims q) cleanup));
    match cleaned with
    | Err _ => mret tt
    | Ok _ =>
        sql (upsert_claim_metadata ((pc_receipt cleanup) <| cleanup_pending := false |>));;
        if bool_decide (pc_lease_status cleanup = LeaseStatus.Claimed)
           || bool_decide (pc_lease_status cleanup = LeaseStatus.Pending)
        then sql (update_lease_status_conditional_outcome lease LeaseStatus.Abandoned
                    [LeaseStatus.Pending] None None);; mret tt
        else mret tt
    end.

Definition reconcile_claim_cleanups (targets : list SchedulerTarget) (queries : list (Query R))
    : M (Db * R) SchedulerError unit :=
  for_each (fun '(target, q) =>
    match dc_repo (st_discovery target) with
    | None => mret tt
    | Some repo =>
        cleanups ← sql (list_pending_claim_cleanups repo);
        for_each (reconcile_cleanup q) cleanups
    end) (zip targets queries).

(** *** Leases to resume *)

Definition prepare_resume_unit (lease : IssueLease) : M Db SqlError (option DispatchUnit) :=
  prepared ← prepare_resume_lease lease;
  mret (match prepared with
        | Err _ => None
        | Ok p =>
            let claimed := into_claimed_launch p lease in
            Some (mkDispatchUnit (cl_lease_id claimed) (cl_request claimed) true None)
        end).

Definition collect_resume_lease (config_id : string) (discovery : DiscoveryConfig) (limits : CapacityLimits)
    (units : list DispatchUnit) (lease : IssueLease) : M (Db * R) SchedulerError (list DispatchUnit) :=
  room ← has_capacity discovery config_id (issue_repo lease) limits;
  if negb room then mret units
  else
    prepared ← try (on_local (prepare_resume_unit lease));
    mret (match prepared with Ok (Some unit) => units ++ [unit] | Ok None | Err _ => units end).

Definition collect_resume_units (targets : list SchedulerTarget) (limits : CapacityLimits)
    : M (Db * R) SchedulerError (list DispatchUnit) :=
  fold_each (fun units '(config_id, discovery) =>
    listed ← try (on_local (list_ready_to_resume_leases config_id));
    match listed with
    | Err _ => mret units
    | Ok leases => fold_each (collect_resume_lease config_id discovery limits) units leases
    end) [] (resume_config_targets targets limits).

(** *** Issues to launch *)

Definition receipt_for (lease : string) (cfg : DiscoveryConfig) (own : ClaimOwnership) (pending : bool)
    : ClaimMetadataReceipt :=
  mkClaimMetadataReceipt lease (default "" (claim_assignee cfg)) (default "" (claim_label cfg))
    (own_assignment own) (own_label own) pending.

Definition persist_claim_ownership (lease : string) (cfg : DiscoveryConfig) (own : ClaimOwnership) (pending : bool)
    : M Db SqlError unit :=
  upsert_claim_metadata (receipt_for lease cfg own pending);;
  found ← get_claim_metadata lease;
  match found with Some _ => mret tt | None => throw QueryReturnedNoRows end.

Definition abandon_failed_claim (q : Query R) (cfg : DiscoveryConfig) (claimed : ClaimedLaunch)
    (own : ClaimOwnership) : M (Db * R) SchedulerError unit :=
  let lease := cl_lease_id claimed in
  let request := cl_request claimed in
  cleaned ← try (on_remote (@cleanup_remote_claim R (query_claims q) (lr_repo request) (lr_issue_number request)
                              (receipt_for lease cfg own true)));
  sql (persist_claim_ownership lease cfg own (match cleaned with Ok _ => false | Err _ => true end));;
  sql (update_lease_status_conditional_outcome lease LeaseStatus.Abandoned
         [LeaseStatus.Claimed; LeaseStatus.Pending] (Some (lr_run_id request)) None);;
  mret tt.

Definition apply_claim_ownership (own : ClaimOwnership) (workflow_type : option string) (r : LaunchRequest)
    : LaunchRequest :=
  mkLaunchRequest (lr_config_id r) workflow_type (lr_run_id r) (lr_repo r) (lr_issue_number r)
    true (own_assignment own) (own_label own) (lr_work_dir r) (lr_artifact_dir r) (lr_config_root r).

Definition acquire_claimed_launch (target : SchedulerTarget) (routed : RoutedIssue) (discovery : DiscoveryConfig)
    (config_id : string) : M (Db * R) SchedulerError (Res PrepareLaunchOutcome ClaimedLaunch) :=
  uuid ← observe fresh_run;
  claimed ← try (on_local (claim_for_launch_pending (ri_issue routed) discovery config_id
                             (path_bases_for target config_id) (st_config_root target) uuid));
  mret (match claimed with
        | Ok (Ok c) => Ok c
        | Ok (Err _) => Err LaunchSkipped
        | Err _ => Err LaunchFailed
        end).

(** The claim on the remote, applied and read back. *)
Definition claim_remotely (q : Query R) (cfg : DiscoveryConfig) (issue : GithubIssue) (own : ClaimOwnership)
    : M R GithubError unit :=
  @apply_remote_claim R (query_claims q) cfg issue own;;
  @verify_remote_claim R (query_claims q) cfg (i_number issue).

Definition finish_claim (q : Query R) (query_index : nat) (routed : RoutedIssue) (cfg : DiscoveryConfig)
    (claimed : ClaimedLaunch) (own : ClaimOwnership) : M (Db * R) SchedulerError PrepareLaunchOutcome :=
  let lease := cl_lease_id claimed in
  sql (persist_claim_ownership lease cfg own true);;
  result ← try (on_remote (claim_remotely q cfg (ri_issue routed) own));
  match result with
  | Err _ => abandon_failed_claim q cfg claimed own;; mret LaunchFailed
  | Ok _ =>
      transition ← sql (update_lease_status_conditional_outcome lease LeaseStatus.Running
                          [LeaseStatus.Claimed] (Some (lr_run_id (cl_request claimed))) None);
      if negb (was_applied transition) then
        abandon_failed_claim q cfg claimed own;; mret LaunchFailed
      else
        sql (persist_claim_ownership lease cfg own false);;
        mret (Ready (mkDispatchUnit lease
                       (apply_claim_ownership own (ri_workflow_type_id routed) (cl_request claimed))
                       false (Some query_index)))
  end.

Definition prepare_launch_unit (target : SchedulerTarget) (q : Query R) (query_index : nat)
    (routed : RoutedIssue) (limits : CapacityLimits) (parents : gmap string DiscoveryConfig)
    : M (Db * R) SchedulerError PrepareLaunchOutcome :=
  let repo := default "" (dc_repo (st_discovery target)) in
  let config_id := default (st_config_id target) (ri_config_id routed) in
  discovery ← map_err SchedSqlite (lift_res (launch_discovery_for target config_id limits parents));
  room ← has_capacity discovery config_id repo limits;
  if negb room then mret LaunchSkipped
  else
    acquired ← acquire_claimed_launch target routed discovery config_id;
    match acquired with
    | Err outcome => mret outcome
    | Ok claimed =>
        inspected ← try (on_remote (@inspect_remote_claim R (query_claims q) discovery (ri_issue routed)));
        match inspected with
        | Err _ => abandon_failed_claim q discovery claimed no_ownership;; mret LaunchFailed
        | Ok own => finish_claim q query_index routed discovery claimed own
        end
    end.

Definition collect_launch_unit (target : SchedulerTarget) (q : Query R) (query_index : nat)
    (limits : CapacityLimits) (parents : gmap string DiscoveryConfig)
    (collected : list DispatchUnit * RunSummary) (routed : RoutedIssue)
    : M (Db * R) SchedulerError (list DispatchUnit * RunSummary) :=
  let '(units, summary) := collected in
  outcome ← prepare_launch_unit target q query_index routed limits parents;
  mret (match outcome with
        | Ready unit => (units ++ [unit], summary)
        | LaunchSkipped => (units, summary <| sm_skipped := S (sm_skipped summary) |>)
        | LaunchFailed => (units, summary <| sm_failed := S (sm_failed summary) |>)
        end).

(** [iter().zip(..).enumerate()] *)
Definition enumerate {A} (l : list A) : list (nat * A) := imap (fun i a => (i, a)) l.

Definition collect_target (limits : CapacityLimits) (parents : gmap string DiscoveryConfig)
    (collected : list DispatchUnit * RunSummary) (turn : nat * (SchedulerTarget * Query R))
    : M (Db * R) SchedulerError (list DispatchUnit * RunSummary) :=
  let '(query_index, (target, q)) := turn in
  let '(units, summary) := collected in
  active ← sql (count_active_leases_for_config (st_config_id target));
  found ← try (@discover _ _ R (query_reads q) (st_discovery target) (Z.of_nat active));
  match found with
  | Err _ => mret (units, summary)
  | Ok result =>
      let summary := summary <| sm_eligible := sm_eligible summary + length (eligible result) |> in
      fold_each (collect_launch_unit target q query_index limits parents) (units, summary) (eligible result)
  end.

Definition collect_launch_units (targets : list SchedulerTarget) (queries : list (Query R))
    (limits : CapacityLimits) (units : list DispatchUnit) (summary : RunSummary)
    : M (Db * R) SchedulerError (list DispatchUnit * RunSummary) :=
  fold_each (collect_target limits (parent_launch_discoveries targets limits)) (units, summary)
    (enumerate (zip targets queries)).

(** *** External waits ([scheduler/polling.rs]) *)

Definition skip_detail (wait : WaitStateRecord) (run step : string) (reason : SkippedPollReason)
    : SkippedPollDetail := mkSkippedPollDetail run (ws_lease_id wait) step reason None.

Definition record_warnings (wait : WaitStateRecord) (warnings : list ArtifactWarning) (s : RunSummary)
    : RunSummary :=
  fold_left (fun s w => record_artifact_warning
               (mkArtifactWarningDetail (ws_run_id wait) (phase w) (warning_error w)) s) warnings s.

Definition record_poll (wait : WaitStateRecord) (applied : Res PollApplyError PollApplyOutcome) (s : RunSummary)
    : Res PollApplyError RunSummary :=
  match applied with
  | Ok Committed => Ok (s <| polls_applied := S (polls_applied s) |>)
  | Ok (CommittedWithArtifactWarnings w rest) =>
      Ok (record_warnings wait (w :: rest) (s <| polls_applied := S (polls_applied s) |>))
  | Err (PollLeaseTransitionRejected run lease reason) =>
      Ok (record_skipped_poll
            (mkSkippedPollDetail run (Some lease) (resume_step wait) LeaseTransitionRejected (Some reason)) s)
  | Err (WaitStateConcurrentTransition run) =>
      Ok (record_skipped_poll (skip_detail wait run (resume_step wait) WaitStateMoved) s)
  | Err (RunStatusConcurrentTransition run step) =>
      Ok (record_skipped_poll (skip_detail wait run step RunStatusMoved) s)
  | Err (PollRunMissing run step) => Ok (record_skipped_poll (skip_detail wait run step RunMissing) s)
  | Err (PollSqlite e) => Err (PollSqlite e)
  | Err (PollPersistence e) => Err (PollPersistence e)
  end.

Definition poll_wait (s : RunSummary) (wait : WaitStateRecord) : M Db PollApplyError RunSummary :=
  decision ← observe (fun n => poll (R := R) n wait);
  applied ← try (apply_poll_decision (artifact_failure (R := R)) wait decision);
  lift_res (record_poll wait applied s).

Definition poll_due_waits : M Db PollApplyError RunSummary :=
  t ← now;
  waits ← map_err PollSqlite (list_pollable_wait_states t);
  fold_each poll_wait (empty_summary <| pollable_waits := length waits |>) waits.

(** *** Dispatch ([scheduler/dispatch.rs]) *)

Definition record_outcome (outcome : LaunchOutcome) (was_resume : bool) (s : RunSummary) : RunSummary :=
  match outcome with
  | Launched _ true =>
      if was_resume then s <| sm_resumed := S (sm_resumed s) |> else s <| sm_launched := S (sm_launched s) |>
  | Launched _ false => s <| sm_failed := S (sm_failed s) |>
  | LaunchWaiting _ => s <| sm_suspended := S (sm_suspended s) |>
  | LeaseStatePreserved run current owner =>
      record_lease_state_preserved (mkLeaseStatePreservedDetail run current owner) s
  | Skipped _ => s <| sm_skipped := S (sm_skipped s) |>
  end.

(** The remote half of a launch that failed is taken back, or owed. *)
Definition finalize_claim_after_outcome (queries : list (Query R)) (u : DispatchUnit) (outcome : LaunchOutcome)
    : M (Db * R) SchedulerError unit :=
  match du_resume u, outcome with
  | false, Launched _ false =>
      match du_query_index u with
      | None => found ← sql (get_claim_metadata (du_lease_id u)); mret tt
      | Some query_index =>
          found ← sql (get_claim_metadata (du_lease_id u));
          match found with
          | None => mret tt
          | Some receipt =>
              let owed := receipt <| cleanup_pending := true |> in
              sql (upsert_claim_metadata owed);;
              match queries !! query_index with
              | None => throw (FinalizePanic query_index)
              | Some q =>
                  cleaned ← try (on_remote (@cleanup_remote_claim R (query_claims q)
                                   (lr_repo (du_request u)) (lr_issue_number (du_request u)) owed));
                  match cleaned with
                  | Ok _ => sql (upsert_claim_metadata (owed <| cleanup_pending := false |>))
                  | Err _ => mret tt
                  end
              end
          end
      end
  | _, _ => mret tt
  end.

(** The result of a thread: what it returned, or that it panicked. *)
Definition thread_result (u : DispatchUnit) (joined : Res string (Res string WorkflowLaunchResult))
    : Res string WorkflowLaunchResult :=
  match joined with
  | Ok result => result
  | Err panic =>
      Err ("launcher thread panicked for lease=" +:+ du_lease_id u +:+ " run="
           +:+ lr_run_id (du_request u) +:+ ": " +:+ panic)
  end.

(** One thread joined and its lease settled; the first error is kept, and the
    others of the chunk are still settled.  A panic goes straight up. *)
Definition settle_unit (queries : list (Query R)) (acc : option SqlError * RunSummary) (u : DispatchUnit)
    : M (Db * R) SchedulerError (option SqlError * RunSummary) :=
  let '(first_error, s) := acc in
  joined ← try (join_unit u);
  finished ← try (on_local (finish_lease_after_result (du_lease_id u) (lr_run_id (du_request u))
                              (thread_result u joined)));
  match finished with
  | Err e => mret (opt_or first_error (Some e), s)
  | Ok outcome =>
      finalized ← try (finalize_claim_after_outcome queries u outcome);
      match finalized with
      | Ok _ => mret (first_error, record_outcome outcome (du_resume u) s)
      | Err (SchedSqlite e) => mret (opt_or first_error (Some e), record_outcome outcome (du_resume u) s)
      | Err e => throw e
      end
  end.

Definition dispatch_unit_chunk (queries : list (Query R)) (s : RunSummary) (units : list DispatchUnit)
    : M (Db * R) SchedulerError RunSummary :=
  '(first_error, s) ← fold_each (settle_unit queries) (None, s) units;
  match first_error with
  | None => mret s
  | Some e => throw (SchedSqlite e)
  end.

Definition dispatch_units (queries : list (Query R)) (units : list DispatchUnit) (max_parallel : nat)
    (s : RunSummary) : M (Db * R) SchedulerError RunSummary :=
  fold_each (dispatch_unit_chunk queries) s (chunks (Nat.max max_parallel 1) units).

(** *** The whole pass, and the loop *)

Definition run_multi_target_once_with_poller (targets : list SchedulerTarget) (queries : list (Query R))
    : M (Db * R) SchedulerError RunSummary :=
  if bool_decide (length targets <> length queries)
  then throw (TargetsQueriesMismatch (length targets) (length queries))
  else
    reconcile_claim_cleanups targets queries;;
    summary ← map_err SchedPollApply (on_local poll_due_waits);
    let limits := capacity_limits targets in
    units ← collect_resume_units targets limits;
    '(units, summary) ← collect_launch_units targets queries limits units summary;
    dispatch_units queries units (dispatch_parallelism limits (length units)) summary.

Definition run_once_with_bases (cfg : DiscoveryConfig) (q : Query R) (config_id : string)
    (bases : DaemonPathBases) (parent_bases : gmap string DaemonPathBases)
    : M (Db * R) SchedulerError RunSummary :=
  run_multi_target_once_with_poller [mkSchedulerTarget config_id cfg bases parent_bases "config"] [q].

End Pass.

(** ** Preparing a launch *)

(** The statement that rewrites the receipt touches nothing else, and where it
    fails the receipt is the one before or the new one. *)
Lemma persist_wp `{Env} lease cfg own pending (w : World Db) :
  wp (persist_claim_ownership lease cfg own pending) (fun r w' =>
    issue_leases (w_db w') = issue_leases (w_db w) /\
    (receipt_of lease (w_db w') = Some (receipt_for lease cfg own pending) \/
     is_ok r = false /\ w_db w' = w_db w)) w.
Proof.
  unfold persist_claim_ownership, upsert_claim_metadata, get_claim_metadata. wp_steps.
  apply wp_execute; intros; wp_steps; [by split; [congruence|right]..|].
  match goal with Hu : upsert_receipt _ _ = Ok (?u, _) |- _ => destruct u; apply upsert_receipt_spec in Hu as [Hl Hr] end.
  subst. apply wp_query; intros w2 Hw2; wp_steps; rewrite ?Hw2; [by split; [done|left]|].
  case_match; wp_steps; rewrite Hw2; by (split; [done|left]).
Qed.

(** The leases running are leases that were. *)
Definition running_from (rows : list LeaseRow) (d : Db) : Prop :=
  forall row, row ∈ issue_leases d -> l_status row = "running" -> row ∈ rows.

Section Running.
Context `{Env}.

Lemma running_from_update rows p f d n d' :
  (forall r, l_status (f r) <> "running") ->
  running_from rows d -> update_leases p f d = Ok (n, d') -> running_from rows d'.
Proof.
  intros Hf Hd [= <- <-] row. cbn. unfold update_where. rewrite list_elem_of_fmap.
  intros (r & -> & Hr). destruct (p r); [|by apply Hd]. intros Hs. by destruct (Hf r).
Qed.

Lemma keeps_running_outcome rows lease s expected new owner :
  LeaseStatus.as_str s <> "running" ->
  keeps (running_from rows) (update_lease_status_conditional_outcome lease s expected new owner).
Proof.
  intros Hs. unfold update_lease_status_conditional_outcome, update_lease_status_conditional, conditional_update. keeps_auto.
  apply keeps_execute. intros d n d'. by apply running_from_update.
Qed.

Lemma keeps_running_receipt rows lease cfg own pending :
  keeps (running_from rows) (persist_claim_ownership lease cfg own pending).
Proof.
  intros w Hw. destruct (persist_wp lease cfg own pending w) as [Hl _]. unfold running_from. by rewrite Hl.
Qed.

Lemma running_from_claim rows row d r d' :
  l_status row <> "running" -> running_from rows d -> claim_statement row d = Ok (r, d') -> running_from rows d'.
Proof.
  intros Hs Hd. unfold claim_statement. destruct (id_taken _ _ _); [done|].
  destruct (select_first _ _) as [old|].
  - destruct (lease_status_in _ old); [|by intros [= <- <-]]. intros [= <- <-] x. cbn.
    unfold update_where. rewrite list_elem_of_fmap. intros [y [-> Hy]]. destruct (lease_on _ _ y); [|by apply Hd].
    done.
  - intros [= <- <-] x. cbn. rewrite elem_of_app, list_elem_of_singleton. intros [Hx| ->]; [by apply Hd|done].
Qed.

Lemma keeps_running_claim rows issue cfg config_id bases config_root uuid :
  keeps (running_from rows) (claim_for_launch_pending issue cfg config_id bases config_root uuid).
Proof.
  unfold claim_for_launch_pending, claim_for_launch_with_state, acquire_lease_with_receipt, try_claim,
    upsert_claim_metadata, count_active_leases_for_config, update_lease_status.
  keeps_auto; try (apply keeps_explicit_transaction; keeps_auto).
  all: apply keeps_execute; intros d x d' Hd Hx.
  all: first [eapply running_from_claim; [|exact Hd|exact Hx]; discriminate
             |eapply running_from_update; [|exact Hd|exact Hx]; discriminate|idtac].
  destruct x. apply upsert_receipt_spec in Hx as [Hl _]. unfold running_from. by rewrite Hl.
Qed.
End Running.

Section Launches.
Context `{Env} {R : Type} (view : R -> View) (q : Query R) `{!GithubLaws (query_claims q) view}.

Definition remote_view (w : World (Db * R)) : View := view (snd (w_db w)).

Lemma wp_local {E A} (m : M Db E A) (Q : Res E A -> World (Db * R) -> Prop) w :
  wp m (fun r w' => forall w'', local_db w'' = w_db w' -> remote_view w'' = remote_view w -> Q r w'') (local_of w) ->
  wp (on_local m) Q w.
Proof.
  intros HQ. apply wp_on_local. eapply wp_consequence; [exact HQ|]. intros r w' Hr w'' <- Hv. apply Hr; [done|].
  unfold remote_view. by rewrite Hv.
Qed.

Lemma wp_remote {E A} (m : M R E A) (Q : Res E A -> World (Db * R) -> Prop) w :
  wp m (fun r w' => forall w'', remote_view w'' = view (w_db w') -> local_db w'' = local_db w -> Q r w'') (remote_of w) ->
  wp (on_remote m) Q w.
Proof.
  intros HQ. apply wp_on_remote. eapply wp_consequence; [exact HQ|]. intros r w' Hr w'' <- Hd. by apply Hr.
Qed.

(** A cleanup is owed: the lease's receipt says what is ours, and is pending. *)
Definition owed (lease : string) (cfg : DiscoveryConfig) (own : ClaimOwnership) (d : Db) : Prop :=
  receipt_of lease d = Some (receipt_for lease cfg own true).

(** Either the issue's claim left no trace on the remote or its cleanup is owed. *)
Definition no_debt (lease : string) (cfg : DiscoveryConfig) (own : ClaimOwnership) (v0 : View)
    (w : World (Db * R)) : Prop :=
  (forall repo' number', remote_view w repo' number' = v0 repo' number') \/ owed lease cfg own (local_db w).

Lemma keeps_receipts_outcome m lease s expected new owner :
  keeps (fun d => claim_metadata d = m) (update_lease_status_conditional_outcome lease s expected new owner).
Proof.
  unfold update_lease_status_conditional_outcome, update_lease_status_conditional, conditional_update. keeps_auto.
  apply keeps_execute. by intros d n d' Hd [= <- <-].
Qed.

(** Failing a claim: its cleanup succeeds on the remote, or is owed. *)
Lemma abandon_wp cfg claimed own (w : World (Db * R)) :
  let request := cl_request claimed in
  owed (cl_lease_id claimed) cfg own (local_db w) ->
  wp (abandon_failed_claim q cfg claimed own) (fun _ w' =>
    edited (lr_repo request) (lr_issue_number request)
      (cleaned own (default "" (claim_assignee cfg)) (default "" (claim_label cfg))) (remote_view w) (remote_view w') \/
    owed (cl_lease_id claimed) cfg own (local_db w')) w.
Proof.
  intros request Howed. unfold abandon_failed_claim, sql. wp_steps. apply wp_remote.
  eapply wp_consequence; [apply (cleanup_wp view)|]. cbn [assignment_added label_added cm_assignee cm_label receipt_for].
  intros cleanup w1 Hclean w2 Hv2 Hd2. wp_steps. apply wp_local.
  eapply wp_consequence; [apply persist_wp|]. intros persisted w3 [_ Hrec] w4 Hd4 Hv4.
  assert (Hdone : edited (lr_repo request) (lr_issue_number request)
      (cleaned own (default "" (claim_assignee cfg)) (default "" (claim_label cfg))) (remote_view w) (remote_view w4) \/
    owed (cl_lease_id claimed) cfg own (local_db w4)).
  { rewrite Hd4, Hv4, Hv2. destruct Hrec as [Hrec|[_ ->]]; [|right].
    - destruct cleanup as [[]|e]; [left|by right]. destruct own. by apply Hclean.
    - change (owed (cl_lease_id claimed) cfg own (local_db w2)). by rewrite Hd2. }
  clear Hrec Hd4 Hv4 Hclean w3 w2 w1 Hv2 Hd2. destruct persisted; wp_steps; [|exact Hdone]. apply wp_local.
  eapply wp_consequence; [eapply wp_kept; [apply (keeps_receipts_outcome (claim_metadata (local_db w4)))|done]|].
  intros r w5 Hm w6 Hd6 Hv6. destruct r; wp_steps; rewrite Hv6; unfold owed, receipt_of in *; by rewrite Hd6, Hm.
Qed.

Definition running_for (lease run : string) (d : Db) : Prop :=
  exists row, lease_row lease d = Some row /\ l_status row = "running" /\ l_run_id row = Some run.

(** What a launch made ready says its claim added to the issue, and what it
    stands on. *)
Definition added_by (u : DispatchUnit) : ClaimOwnership :=
  mkClaimOwnership (lr_claim_assignment_added (du_request u)) (lr_claim_label_added (du_request u)).
Definition launch_ready (cfg : DiscoveryConfig) (number : Z) (u : DispatchUnit) (w : World (Db * R)) : Prop :=
  running_for (du_lease_id u) (lr_run_id (du_request u)) (local_db w) /\
  receipt_of (du_lease_id u) (local_db w) = Some (receipt_for (du_lease_id u) cfg (added_by u) false) /\
  verified cfg number (remote_view w) /\ du_resume u = false.

(** The abandoned claim has no debt. *)
Lemma abandon_no_debt cfg claimed own number v0 (w : World (Db * R)) :
  let request := cl_request claimed in
  lr_repo request = default "" (dc_repo cfg) -> lr_issue_number request = number ->
  owed (cl_lease_id claimed) cfg own (local_db w) ->
  undone_by_cleanup cfg number own v0 (remote_view w) ->
  wp (abandon_failed_claim q cfg claimed own) (fun _ w' => no_debt (cl_lease_id claimed) cfg own v0 w') w.
Proof.
  intros request Hrepo <- Howed Hundone. eapply wp_consequence; [by apply abandon_wp|].
  intros _ w' [Hc|Ho]; [left|by right]. apply Hundone. by rewrite <- Hrepo.
Qed.

Lemma claim_remotely_wp cfg issue own (w : World R) :
  inspected cfg (i_number issue) own (view (w_db w)) ->
  wp (claim_remotely q cfg issue own) (fun r w' =>
    undone_by_cleanup cfg (i_number issue) own (view (w_db w)) (view (w_db w')) /\
    (r = Ok tt -> verified cfg (i_number issue) (view (w_db w')))) w.
Proof.
  intros Hins. unfold claim_remotely. wp_steps. eapply wp_consequence; [by apply (apply_undone_wp view)|].
  intros [[]|e] w1 Hundone; [|by split]. eapply wp_consequence.
  { apply wp_and; [apply (verify_wp view)|apply (verified_wp view)]. }
  intros r w2 [Hsame Hver]. split; [|exact Hver]. eapply undone_same; [exact Hundone|exact Hsame].
Qed.

Lemma take_running_wp lease run (w : World Db) :
  NoDup (lease_id <$> issue_leases (w_db w)) ->
  wp (update_lease_status_conditional_outcome lease LeaseStatus.Running [LeaseStatus.Claimed] (Some run) None)
     (fun r w' => claim_metadata (w_db w') = claim_metadata (w_db w) /\
        match r with Ok Applied => running_for lease run (w_db w') | _ => w_db w' = w_db w end) w.
Proof.
  intros Hids. eapply wp_consequence; [by apply conditional_outcome_wp|].
  intros [[|s owner|]|e] w'; [|by intros [-> _]|by intros [-> _]|by intros ->].
  intros (old & t & Hold & _ & Hnew & Hd). split; [by rewrite Hd|]. by eexists.
Qed.

Lemma keeps_running_abandon rows cfg claimed own :
  keeps (fun d => running_from rows (fst d)) (abandon_failed_claim q cfg claimed own).
Proof.
  unfold abandon_failed_claim, sql. keeps_auto; first [apply keeps_running_receipt|by apply keeps_running_outcome].
Qed.

Lemma finish_claim_wp rows query_index routed cfg claimed own (w : World (Db * R)) :
  let number := i_number (ri_issue routed) in
  let lease := cl_lease_id claimed in
  lr_repo (cl_request claimed) = default "" (dc_repo cfg) -> lr_issue_number (cl_request claimed) = number ->
  NoDup (lease_id <$> issue_leases (local_db w)) ->
  inspected cfg number own (remote_view w) -> running_from rows (local_db w) ->
  wp (finish_claim q query_index routed cfg claimed own) (fun r w' =>
    match r with
    | Ok (Ready u) => du_lease_id u = lease /\ launch_ready cfg number u w' /\ added_by u = own
    | Ok LaunchSkipped => False
    | Ok LaunchFailed => no_debt lease cfg own (remote_view w) w' /\ running_from rows (local_db w')
    | Err _ => no_debt lease cfg own (remote_view w) w' \/
               running_for lease (lr_run_id (cl_request claimed)) (local_db w')
    end) w.
Proof.
  intros number lease Hrepo Hnumber Hids Hins Hfrom. unfold finish_claim, sql. wp_steps. apply wp_local.
  eapply wp_consequence; [apply persist_wp|]. intros r w1 [Hl1 Hrec] w2 Hd2 Hv2.
  destruct r as [[]|e]; wp_steps; [|left; left; by rewrite Hv2].
  assert (Howed : owed lease cfg own (local_db w2)) by (unfold owed; rewrite Hd2; by destruct Hrec as [?|[? _]]).
  apply wp_remote. eapply wp_consequence; [by apply claim_remotely_wp; rewrite <- Hv2 in Hins|].
  intros r w3 [Hundone Hver] w4 Hv4 Hd4. change (view (w_db (remote_of w2))) with (remote_view w2) in Hundone.
  rewrite <- Hv4, Hv2 in Hundone. rewrite <- Hd4 in Howed.
  assert (Hfrom4 : running_from rows (local_db w4)) by (unfold running_from; by rewrite Hd4, Hd2, Hl1).
  assert (Habandon : forall w', owed lease cfg own (local_db w') -> running_from rows (local_db w') ->
    remote_view w' = remote_view w4 ->
    wp (abandon_failed_claim q cfg claimed own) (fun _ w'' =>
      no_debt lease cfg own (remote_view w) w'' /\ running_from rows (local_db w'')) w').
  { intros w' Ho Hf Hv. apply (wp_keeps (fun d => running_from rows (fst d))); [apply keeps_running_abandon|done|].
    eapply abandon_no_debt; try done. by rewrite Hv. }
  destruct r as [[]|e]; wp_steps.
  2: { eapply wp_consequence; [by apply Habandon|]. intros [[]|e'] w5 [Hdebt Hf]; wp_steps; auto. }
  apply wp_local. eapply wp_consequence.
  { apply (take_running_wp _ (lr_run_id (cl_request claimed))). change (NoDup (lease_id <$> issue_leases (local_db w4))).
    by rewrite Hd4, Hd2, Hl1. }
  change (w_db (local_of w4)) with (local_db w4). intros r w5 [Hmeta Hrun] w6 Hd6 Hv6.
  assert (Howed6 : owed lease cfg own (local_db w6)) by (unfold owed, receipt_of in *; by rewrite Hd6, Hmeta).
  rewrite <- Hd6 in Hrun. destruct r as [transition|e]; wp_steps; [|by left; right].
  destruct (was_applied transition) eqn:Et; cbn [negb].
  2: { wp_steps. eapply wp_consequence; [apply Habandon; try done|].
       - destruct transition; [done|by rewrite Hrun..].
       - intros [[]|e'] w7 [Hdebt Hf]; wp_steps; auto. }
  destruct transition; try done. wp_steps. apply wp_local.
  eapply wp_consequence; [apply persist_wp|]. intros r w7 [Hl7 Hrec7] w8 Hd8 Hv8.
  assert (Hrun8 : running_for lease (lr_run_id (cl_request claimed)) (local_db w8)).
  { unfold running_for, lease_row. by rewrite Hd8, Hl7. }
  destruct r as [[]|e]; wp_steps; [|by right]. split; [done|].
  assert (Hadded : forall u, lr_claim_assignment_added (du_request u) = own_assignment own ->
    lr_claim_label_added (du_request u) = own_label own -> added_by u = own).
  { intros u Ha Hl. unfold added_by. rewrite Ha, Hl. by destruct own. }
  unfold launch_ready. rewrite Hadded by done.
  cbn. split_and!; [done| |by rewrite Hv8, Hv6, Hv4; apply Hver|done|done].
  destruct Hrec7 as [Hrec7|[? _]]; [|done]. by rewrite Hd8.
Qed.

(** The lease of an issue. *)
Definition leased (lease repo : string) (number : Z) (d : Db) : Prop :=
  exists row, issue_row repo number d = Some row /\ lease_id row = lease.

Lemma keeps_leased_outcome lease repo number id s expected new owner :
  keeps (leased lease repo number) (update_lease_status_conditional_outcome id s expected new owner).
Proof.
  unfold update_lease_status_conditional_outcome, update_lease_status_conditional, conditional_update. keeps_auto.
  apply keeps_execute. intros d n d' (row & Hrow & Hid) [= <- <-]. unfold leased, issue_row in *. cbn.
  rewrite select_first_update_key, Hrow by done. cbn. eexists. split; [done|]. by case_match.
Qed.

Lemma keeps_leased_receipt lease repo number id cfg own pending :
  keeps (leased lease repo number) (persist_claim_ownership id cfg own pending).
Proof.
  intros w Hw. destruct (persist_wp id cfg own pending w) as [Hl _]. unfold leased, issue_row. by rewrite Hl.
Qed.

Lemma keeps_leased_abandon lease repo number cfg claimed own :
  keeps (fun d => leased lease repo number (fst d)) (abandon_failed_claim q cfg claimed own).
Proof.
  unfold abandon_failed_claim, sql. keeps_auto; first [apply keeps_leased_receipt|apply keeps_leased_outcome].
Qed.

Lemma keeps_leased_finish lease repo number query_index routed cfg claimed own :
  keeps (fun d => leased lease repo number (fst d)) (finish_claim q query_index routed cfg claimed own).
Proof.
  unfold finish_claim, sql.
  keeps_auto; first [apply keeps_leased_receipt|apply keeps_leased_outcome|apply keeps_leased_abandon].
Qed.

Lemma keeps_local_remote {E A} (P : R -> Prop) (m : M Db E A) :
  keeps (fun d => P (snd d)) (on_local m : M (Db * R) E A).
Proof. intros w HP. unfold on_local. by destruct (m (local_of w)). Qed.

(** With nothing owned there is nothing to take back. *)
Lemma abandon_nothing_wp rows cfg claimed (w : World (Db * R)) :
  running_from rows (local_db w) ->
  wp (abandon_failed_claim q cfg claimed no_ownership) (fun _ w' =>
    (forall repo number, remote_view w' repo number = remote_view w repo number) /\
    running_from rows (local_db w')) w.
Proof.
  intros Hfrom. apply (wp_keeps (fun d => running_from rows (fst d))); [apply keeps_running_abandon|done|].
  unfold abandon_failed_claim. apply wp_bind, wp_try, wp_remote. eapply (wp_consequence _ (fun _ w' =>
    forall repo number, view (w_db w') repo number = remote_view w repo number)).
  { unfold cleanup_remote_claim. wp_steps. eapply wp_consequence; [apply get_issue_law|].
    by intros [[i|]|e] w1 [Hv _]; wp_steps. }
  intros r w1 Hv w2 Hv2 _.
  apply (wp_kept (fun d => forall repo number, view (snd d) repo number = remote_view w repo number)).
  - unfold sql. keeps_auto; apply (keeps_local_remote (fun v => forall repo number, view v repo number = _)).
  - intros repo number. change (remote_view w2 repo number = remote_view w repo number). by rewrite Hv2.
Qed.
End Launches.

Section Capacity.
Context `{Env} {R : Type}.

Definition total_active (d : Db) : nat := count_where lease_active (issue_leases d).

Definition active_in_repository (repo : string) (d : Db) : nat :=
  count_where (fun r => (issue_repo r =?s repo) && lease_active r) (issue_leases d).

Lemma wp_local_query {A} (f : Db -> Res SqlError A) (Q : Res SqlError A -> World (Db * R) -> Prop) w :
  (forall w', w_db w' = w_db w -> Q (Err SqliteFailure) w') ->
  (forall w', w_db w' = w_db w -> Q (f (fst (w_db w))) w') ->
  wp (on_local (query f)) Q w.
Proof.
  intros Hf Hok. unfold wp, on_local, query. destruct (env_fault _); [apply Hf|apply Hok]; cbn; by destruct (w_db w).
Qed.

(** Room under every limit, on the leases as they are. *)
Definition room (cfg : DiscoveryConfig) (config_id repo : string) (limits : CapacityLimits) (d : Db) : Prop :=
  (Z.of_nat (total_active d) < cl_global limits)%Z /\
  (Z.of_nat (active_leases config_id d) < default (cl_per_config limits) (config_limit cfg))%Z /\
  (Z.of_nat (active_in_repository repo d) <
     default (cl_per_repository limits) (max_concurrent_runs_per_repository cfg))%Z.

Lemma has_capacity_wp cfg config_id repo limits (w : World (Db * R)) :
  wp (has_capacity cfg config_id repo limits) (fun r w' => w_db w' = w_db w /\
    (r = Ok true -> room cfg config_id repo limits (fst (w_db w)))) w.
Proof.
  unfold has_capacity, sql, room. wp_steps. apply wp_local_query; intros w1 Hw1; wp_steps; [done|].
  wp_if E1; [done|]. apply wp_local_query; intros w2 Hw2; wp_steps; rewrite Hw1 in Hw2; [done|]. wp_if E2; [done|].
  apply wp_local_query; intros w3 Hw3; wp_steps; rewrite Hw2 in Hw3; [done|].
  split; [done|]. rewrite Hw1 in E2. rewrite Hw2. intros [= E3]. bool_hyps.
  by split_and!.
Qed.
End Capacity.

(** Counting the active leases of some kind: what an operation may add. *)
Section Counting.
Context `{Env} `{Process} `{Rfc3339} `{ErrorText} `{Os} `{OptionDebug} `{ContinuationErrorText}.
Context `{Sha256} `{JsonPrinter} `{WorkflowResolver}.
Context (kind : LeaseRow -> bool).
Hypothesis kind_kept : forall (status : LeaseStatus.t) new t r, kind (cas_row status new t r) = kind r.

Definition counted (r : LeaseRow) : bool := kind r && lease_active r.
Definition at_most (n : nat) (d : Db) : Prop := leases_ok d /\ count_where counted (issue_leases d) <= n.

Lemma at_most_le n m d : n <= m -> at_most n d -> at_most m d.
Proof. intros Hnm [Hok Hn]. split; [done|lia]. Qed.

Lemma at_most_same n d d' : issue_leases d' = issue_leases d -> at_most n d -> at_most n d'.
Proof. intros Hl. unfold at_most, leases_ok. by rewrite Hl. Qed.

(** A move between statuses that activates no lease. *)
Definition activates_none (status : LeaseStatus.t) (expected : list LeaseStatus.t) : Prop :=
  forall new t r, lease_status_in expected r = true -> lease_active (cas_row status new t r) = true ->
    lease_active r = true.

Lemma keeps_at_most_outcome n lease status expected new owner :
  activates_none status expected ->
  keeps (at_most n) (update_lease_status_conditional_outcome lease status expected new owner).
Proof.
  intros Hexp. unfold update_lease_status_conditional_outcome, update_lease_status_conditional, conditional_update.
  keeps_auto. apply keeps_execute. intros d m d' [Hok Hn] Hu. split; [eapply update_leases_ok; [|exact Hok|exact Hu]; done|].
  injection Hu as <- <-. cbn. etrans; [apply count_where_update_le|exact Hn].
  intros r _ Hg [Hk Ha]%andb_true_iff. rewrite kind_kept in Hk.
  apply andb_true_iff in Hg as [[_ Hs]%andb_true_iff _]. apply andb_true_iff. split; [done|by eapply Hexp].
Qed.

Lemma keeps_at_most_receipt n receipt : keeps (at_most n) (upsert_claim_metadata receipt).
Proof. apply keeps_execute. intros d [] d' Hd [Hl _]%upsert_receipt_spec. by eapply at_most_same. Qed.

Lemma keeps_at_most_persist n lease cfg own pending : keeps (at_most n) (persist_claim_ownership lease cfg own pending).
Proof. unfold persist_claim_ownership, get_claim_metadata. keeps_auto. apply keeps_at_most_receipt. Qed.

Lemma keeps_at_most_abandon n lease : keeps (at_most n) (update_lease_status lease LeaseStatus.Abandoned None).
Proof.
  unfold update_lease_status. keeps_auto. apply keeps_execute. intros d m d' [Hok Hn] Hu.
  split; [eapply update_leases_ok; [|exact Hok|exact Hu]; done|]. injection Hu as <- <-. cbn.
  etrans; [apply count_where_update_le|exact Hn]. intros r _ _ [_ Ha]%andb_true_iff. discriminate Ha.
Qed.

(** A claim for a launch adds one lease at most. *)
Lemma claim_pending_wp n issue cfg config_id bases config_root uuid (w : World Db) :
  at_most n (w_db w) ->
  wp (claim_for_launch_pending issue cfg config_id bases config_root uuid) (fun _ w' => at_most (S n) (w_db w')) w.
Proof.
  intros Hn. pose proof (at_most_le n (S n) (w_db w) ltac:(lia) Hn) as HSn.
  unfold claim_for_launch_pending, claim_for_launch_with_state. apply wp_bind.
  eapply (wp_consequence _ (fun _ w' => at_most (S n) (w_db w'))).
  - apply wp_explicit_transaction; [intros e w' Hw'; by rewrite Hw'|]. intros w1 Hw1. wp_steps.
    eapply (wp_consequence _ (fun _ w2 => at_most (S n) (w_db w2))).
    + destruct Hn as [Hok Hn]. rewrite <- Hw1 in Hok, Hn. eapply wp_consequence.
      { eapply wp_and; [by apply (try_claim_counted counted)|]. eapply wp_kept; [apply keeps_try_claim|exact Hok]. }
      intros r w2 [Hc Hok2]. split; [done|lia].
    + intros [[l|]|e] w2 Hw2; wp_steps; try (intros w3 Hw3; rewrite Hw3; auto).
      eapply wp_consequence; [by eapply wp_kept; [apply keeps_at_most_receipt|]|].
      intros [[]|e] w3 Hw3; wp_steps; intros w4 Hw4; rewrite Hw4; auto.
  - intros [[l|]|e] w1 Hw1; [|done..]. eapply wp_kept; [|exact Hw1]. unfold count_active_leases_for_config.
    keeps_auto; apply keeps_at_most_abandon.
Qed.

(** Taking a waiting lease adds one at most. *)
Lemma prepare_resume_at_most n lease (w : World Db) :
  at_most n (w_db w) -> wp (prepare_resume_unit lease) (fun _ w' => at_most (S n) (w_db w')) w.
Proof.
  intros Hn. pose proof (at_most_le n (S n) (w_db w) ltac:(lia) Hn) as HSn.
  unfold prepare_resume_unit, prepare_resume_lease. wp_steps.
  eapply wp_consequence; [apply validate_resume_wp|]. intros [[p|]|e] w1 [Hw1 _]; wp_steps; try by rewrite Hw1.
  unfold acquire_resume_lease. wp_steps. rewrite <- Hw1 in Hn, HSn. destruct Hn as [Hok Hn].
  eapply wp_consequence; [eapply wp_and; [apply conditional_outcome_wp, Hok|]|].
  { eapply wp_kept; [apply keeps_conditional_outcome|exact Hok]. }
  intros r w2 [Hr Hok2]. assert (Hw2 : at_most (S n) (w_db w2)).
  { destruct r as [[|s o|]|e]; [|destruct Hr as [-> _]; exact HSn..|rewrite Hr; exact HSn].
    destruct Hr as (old & t & Hold & _ & _ & Hdb). split; [done|]. rewrite Hdb. cbn.
    etrans; [apply (count_where_update_one lease_id); [apply Hok|]|by apply le_n_S].
    intros x y Hx Hy. unfold cas_guard, lease_named in *. by bool_hyps; congruence. }
  by destruct r as [[]|e]; wp_steps.
Qed.
End Counting.

Section CapacityKept.
Context `{Env} `{Process} `{Rfc3339} `{ErrorText} `{Os} `{OptionDebug} `{ContinuationErrorText}.
Context `{Sha256} `{JsonPrinter} `{WorkflowResolver} `{StringsDebug}.
Context {R : Type} `{Daemon R}.

(** The search for issues only reads the database. *)
Lemma keeps_discover `{IssueQuery R} (P : Db -> Prop) cfg active :
  keeps (fun d => P (fst d)) (discover cfg active).
Proof.
  unfold discover, discover_with. keeps_auto.
  generalize (order_issues cfg a) as issues. intros issues.
  generalize (empty_cache, mkDiscoveryResult [] []). induction issues as [|issue issues IH]; intros acc; cbn.
  - apply keeps_ret.
  - apply keeps_bind; [|done]. unfold visit, local_dynamic_skip, get_lease_for_issue, remote_dynamic_skip,
      has_active_parent. keeps_auto.
Qed.

Definition any (_ : LeaseRow) : bool := true.

(** As many leases active as there were, or as the limit lets. *)
Definition within (n : nat) (limits : CapacityLimits) (d : Db) : Prop :=
  at_most any (Nat.max n (Z.to_nat (cl_global limits))) d.

Lemma room_within cfg config_id repo limits n d :
  room cfg config_id repo limits d -> within n limits d ->
  exists m, S m <= Nat.max n (Z.to_nat (cl_global limits)) /\ at_most any m d.
Proof.
  intros [Hroom _] [Hok _]. exists (total_active d). split; [lia|]. by split.
Qed.

Lemma within_from n limits m d : S m <= Nat.max n (Z.to_nat (cl_global limits)) -> at_most any (S m) d -> within n limits d.
Proof. apply at_most_le. Qed.

Lemma claimed_activates_none : activates_none LeaseStatus.Running [LeaseStatus.Claimed].
Proof. intros new t r Hs _. cbn in Hs. rewrite orb_false_r in Hs. unfold lease_active. by rewrite Hs. Qed.
#[local] Hint Resolve claimed_activates_none : core.

Lemma keeps_within_finish q query_index routed cfg claimed own n limits :
  keeps (fun d => within n limits (fst d)) (finish_claim (R := R) q query_index routed cfg claimed own).
Proof.
  unfold finish_claim, abandon_failed_claim, sql, within.
  keeps_auto; first [apply keeps_at_most_persist|by apply keeps_at_most_outcome].
Qed.

Lemma keeps_within_abandon q cfg claimed own n limits :
  keeps (fun d => within n limits (fst d)) (abandon_failed_claim (R := R) q cfg claimed own).
Proof.
  unfold abandon_failed_claim, sql, within.
  keeps_auto; first [apply keeps_at_most_persist|by apply keeps_at_most_outcome].
Qed.

Lemma wp_within {E A} (m : M Db E A) n limits cfg config_id repo (w : World (Db * R)) :
  room cfg config_id repo limits (fst (w_db w)) -> within n limits (fst (w_db w)) ->
  (forall k w, at_most any k (w_db w) -> wp m (fun _ w' => at_most any (S k) (w_db w')) w) ->
  wp (on_local m) (fun _ w' => within n limits (fst (w_db w'))) w.
Proof.
  intros Hroom Hn Hm. destruct (room_within _ _ _ _ _ _ Hroom Hn) as (k & Hk & Hmost).
  apply wp_on_local. eapply wp_consequence; [by apply Hm|]. intros r w1 Hw1 w2 <- _. by eapply within_from.
Qed.

Lemma within_resume config_id discovery limits n units lease (w : World (Db * R)) :
  within n limits (fst (w_db w)) ->
  wp (collect_resume_lease config_id discovery limits units lease) (fun _ w' => within n limits (fst (w_db w'))) w.
Proof.
  intros Hn. unfold collect_resume_lease. wp_steps. eapply wp_consequence; [apply has_capacity_wp|].
  intros [[]|e] w1 [Hw1 Hroom]; cbn [negb]; wp_steps; rewrite ?Hw1; try done. specialize (Hroom eq_refl).
  rewrite <- Hw1 in Hroom, Hn. eapply wp_consequence; [eapply wp_within; [exact Hroom|exact Hn|]|].
  - intros k w' Hk. by apply prepare_resume_at_most.
  - by intros r w2 Hw2; wp_steps.
Qed.

Lemma within_launch target q query_index routed limits parents n (w : World (Db * R)) :
  within n limits (fst (w_db w)) ->
  wp (prepare_launch_unit target q query_index routed limits parents) (fun _ w' => within n limits (fst (w_db w'))) w.
Proof.
  intros Hn. unfold prepare_launch_unit. wp_steps.
  destruct (launch_discovery_for _ _ _ _) as [discovery|e]; wp_steps; [|done].
  eapply wp_consequence; [apply has_capacity_wp|].
  intros [[]|e] w1 [Hw1 Hroom]; cbn [negb]; wp_steps; rewrite ?Hw1; try done. specialize (Hroom eq_refl).
  rewrite <- Hw1 in Hroom, Hn. unfold acquire_claimed_launch. wp_steps.
  match goal with Hw : w_db _ = w_db w1 |- _ => rewrite <- Hw in Hroom, Hn end.
  eapply wp_consequence; [eapply wp_within; [exact Hroom|exact Hn|]|].
  - intros k w2 Hk. by apply claim_pending_wp.
  - intros [[c|reason]|e] w2 Hw2; wp_steps; try done.
    eapply wp_consequence; [apply (wp_kept (fun d => within n limits (fst d))); [apply keeps_on_remote|exact Hw2]|].
    intros [own|e] w3 Hw3; wp_steps.
    + eapply (wp_kept (fun d => within n limits (fst d))); [apply keeps_within_finish|exact Hw3].
    + eapply wp_consequence; [apply (wp_kept (fun d => within n limits (fst d))); [apply keeps_within_abandon|exact Hw3]|].
      by intros [[]|e'] w4 Hw4; wp_steps.
Qed.

Lemma within_target limits parents n acc turn (w : World (Db * R)) :
  within n limits (fst (w_db w)) ->
  wp (collect_target limits parents acc turn) (fun _ w' => within n limits (fst (w_db w'))) w.
Proof.
  intros Hn. destruct turn as [i [target q]], acc as [units summary]. unfold collect_target, sql. wp_steps.
  apply wp_local_query; intros w1 Hw1; wp_steps; rewrite <- Hw1 in Hn; [done|].
  eapply wp_consequence; [apply (wp_kept (fun d => within n limits (fst d))); [apply keeps_discover|exact Hn]|].
  intros [result|e] w2 Hw2; wp_steps; [|done]. eapply wp_consequence.
  - apply (wp_fold_each (fun _ w => within n limits (fst (w_db w))) (fun _ w => within n limits (fst (w_db w))));
      [|exact Hw2]. clear. intros [units summary] routed w _ Hn. unfold collect_launch_unit. wp_steps.
    eapply wp_consequence; [by apply within_launch|]. by intros [[]|e] w1 Hw1; wp_steps.
  - by intros [] w3 Hw3.
Qed.

(** C23: capacity is respected.  Whatever the leases, issues and remote services
    are, collecting the leases to resume and the issues to launch ends with at
    most as many active leases as there were before, or as the global limit
    lets, however many targets compete for them and whatever fails on the way;
    leases stay unique per id and per issue. *)
Theorem capacity_respected (targets : list SchedulerTarget) (queries : list (Query R))
    (limits : CapacityLimits) (summary : RunSummary) (w : World (Db * R)) :
  leases_ok (fst (w_db w)) ->
  wp (units ← collect_resume_units targets limits; collect_launch_units targets queries limits units summary)
     (fun _ w' => leases_ok (fst (w_db w')) /\
        (Z.of_nat (total_active (fst (w_db w'))) <=
           Z.max (Z.of_nat (total_active (fst (w_db w)))) (cl_global limits))%Z) w.
Proof.
  intros Hok. set (n := total_active (fst (w_db w))).
  enough (wp (units ← collect_resume_units targets limits; collect_launch_units targets queries limits units summary)
            (fun _ w' => within n limits (fst (w_db w'))) w) as Hw.
  { eapply wp_consequence; [exact Hw|]. intros r w' [Hok' Hn]. split; [exact Hok'|].
    change (count_where (counted any) (issue_leases (fst (w_db w')))) with (total_active (fst (w_db w'))) in Hn. lia. }
  assert (Hn : within n limits (fst (w_db w))) by (split; [exact Hok|apply Nat.le_max_l]). clearbody n. clear Hok.
  set (I := fun w => within n limits (fst (w_db (w : World (Db * R))))).
  wp_steps. unfold collect_resume_units, collect_launch_units. eapply wp_consequence.
  - apply (wp_fold_each (fun _ => I) (fun _ => I)); [|exact Hn]. clear. intros units [config_id discovery] w _ Hn. wp_steps.
    eapply wp_consequence; [apply (wp_kept (fun d => within n limits (fst d))); [|exact Hn]|].
    { unfold list_ready_to_resume_leases. keeps_auto. }
    intros [leases|e] w1 Hw1; wp_steps; [|done]. apply (wp_fold_each (fun _ => I) (fun _ => I)); [|exact Hw1].
    clear. intros units lease w _ Hn. eapply wp_consequence; [by apply within_resume|]. by intros [].
  - intros [units|e] w1 Hw1; [|done]. eapply wp_consequence.
    + apply (wp_fold_each (fun _ => I) (fun _ => I)); [|exact Hw1]. clear. intros acc turn w _ Hn.
      eapply wp_consequence; [by apply within_target|]. by intros [].
    + by intros [].
Qed.
End CapacityKept.

Section Prepared.
Context `{Env} `{Process} `{StringsDebug} {R : Type} `{Daemon R}.
Context (view : R -> View) (q : Query R) `{!GithubLaws (query_claims q) view}.

(** The remote as it was: every issue's assignees and labels. *)
Definition remote_kept (v0 : View) (w : World (Db * R)) : Prop :=
  forall repo' number', remote_view view w repo' number' = v0 repo' number'.

(** Nothing of a claim is left on the remote, or the receipt of the issue's lease
    owes its cleanup: exactly what the issue did not carry before. *)
Definition settled_or_owed (cfg : DiscoveryConfig) (number : Z) (v0 : View) (w : World (Db * R)) : Prop :=
  remote_kept v0 w \/
  exists lease own, leased lease (default "" (dc_repo cfg)) number (local_db w) /\
    inspected cfg number own v0 /\ owed lease cfg own (local_db w).

Lemma acquire_launch_wp target routed discovery config_id rows (w : World (Db * R)) :
  leases_ok (local_db w) -> running_from rows (local_db w) ->
  wp (acquire_claimed_launch target routed discovery config_id) (fun r w' =>
    remote_view view w' = remote_view view w /\ leases_ok (local_db w') /\ running_from rows (local_db w') /\
    match r with
    | Ok (Ok c) => lr_repo (cl_request c) = default "" (dc_repo discovery) /\
        lr_issue_number (cl_request c) = i_number (ri_issue routed) /\
        free_issue (default "" (dc_repo discovery)) (i_number (ri_issue routed)) (local_db w) /\
        leased (cl_lease_id c) (default "" (dc_repo discovery)) (i_number (ri_issue routed)) (local_db w')
    | Ok (Err outcome) => outcome = LaunchSkipped \/ outcome = LaunchFailed
    | Err _ => False
    end) w.
Proof.
  intros Hok Hfrom. unfold acquire_claimed_launch. wp_steps.
  match goal with Hw : w_db _ = w_db w |- _ => rename Hw into Hw1 end.
  assert (Hd1 : local_db w' = local_db w) by (unfold local_db; by rewrite Hw1).
  assert (Hv1 : remote_view view w' = remote_view view w) by (unfold remote_view; by rewrite Hw1).
  rewrite <- Hd1 in Hok, Hfrom |- *. rewrite <- Hv1. apply (wp_local view). eapply wp_consequence.
  { apply wp_and; [by apply claim_wp|]. apply (wp_and _ (fun _ w' => leases_ok (w_db w'))).
    - by eapply wp_kept; [apply keeps_claim_for_launch|].
    - by eapply wp_kept; [apply (keeps_running_claim rows)|]. }
  intros r w2 (Hc & Hok2 & Hfrom2) w3 Hd3 Hv3. wp_steps. rewrite Hd3. split_and!; [done..|].
  destruct r as [[c|reason]|e]; [|by left|by right].
  destruct Hc as (_ & ? & (row & Hrow & Hid & _) & _ & _ & _ & ? & ? & _). split_and!; try done. by exists row.
Qed.

End Prepared.

(** ** The account of a pass *)

(** What became of the units and issues of a pass, in all. *)
Definition outcomes (s : RunSummary) : nat :=
  sm_launched s + sm_resumed s + sm_suspended s + sm_failed s + lease_states_preserved s + sm_skipped s.

(** The details kept are bounded, and with those dropped they are all. *)
Definition details_ok (s : RunSummary) : Prop :=
  length (lease_state_preserved_details s) <= MAX_LEASE_STATE_PRESERVED_DETAILS /\
  lease_states_preserved s = length (lease_state_preserved_details s) + lease_state_preserved_details_dropped s /\
  length (skipped_poll_details s) <= MAX_SKIPPED_POLL_DETAILS /\
  skipped_polls s = length (skipped_poll_details s) + skipped_poll_details_dropped s /\
  length (artifact_warnings s) <= MAX_ARTIFACT_WARNING_DETAILS.

(** The waits polled are each applied or skipped. *)
Definition polled (k : nat) (s : RunSummary) : Prop := polls_applied s + skipped_polls s = k.

(** The rest of the summary a step leaves alone. *)
Definition same_polls (s s' : RunSummary) : Prop :=
  pollable_waits s' = pollable_waits s /\ polls_applied s' = polls_applied s /\ skipped_polls s' = skipped_polls s.

Lemma preserved_details d s :
  details_ok s -> details_ok (record_lease_state_preserved d s).
Proof.
  unfold record_lease_state_preserved, details_ok. destruct s. case_bool_decide; cbn in *;
    rewrite ?length_app; cbn; lia.
Qed.

Lemma record_outcome_accounts outcome was_resume s :
  details_ok s ->
  details_ok (record_outcome outcome was_resume s) /\ same_polls s (record_outcome outcome was_resume s) /\
  outcomes (record_outcome outcome was_resume s) = S (outcomes s) /\
  sm_eligible (record_outcome outcome was_resume s) = sm_eligible s.
Proof.
  intros Hs.
  destruct outcome as [run success|run|run current owner|reason]; cbn [record_outcome]; [destruct success, was_resume|..].
  all: try (destruct s; unfold outcomes, same_polls, details_ok in *; cbn in *; lia).
  split; [by apply preserved_details|]. unfold record_lease_state_preserved, outcomes, same_polls.
  case_bool_decide; destruct s; cbn; lia.
Qed.

(** A unit's lease does not run for its run. *)
Definition settled (u : DispatchUnit) (d : Db) : Prop :=
  forall row, lease_row (du_lease_id u) d = Some row -> l_run_id row = Some (lr_run_id (du_request u)) ->
    l_status row <> "running".

Section Dispatching.
Context `{Env} {R : Type} `{Daemon R}.

(** What is asked of the threads: each keeps the uniqueness of leases, and does
    not set another unit's lease running. *)
Definition threads_fenced (units : list DispatchUnit) : Prop :=
  forall u, u ∈ units -> keeps (fun d => leases_ok (fst d)) (join_unit (R := R) u) /\
    forall u', u' ∈ units -> du_lease_id u' <> du_lease_id u -> keeps (fun d => settled u' (fst d)) (join_unit (R := R) u).

Lemma settled_leases u d d' : issue_leases d' = issue_leases d -> settled u d -> settled u d'.
Proof. intros Hl. unfold settled, lease_row. by rewrite Hl. Qed.

(** The cleanup after a failed launch writes receipts only. *)
Lemma finalize_claim_leases queries u outcome (w : World (Db * R)) :
  wp (finalize_claim_after_outcome queries u outcome)
     (fun _ w' => issue_leases (fst (w_db w')) = issue_leases (fst (w_db w))) w.
Proof.
  set (P d := issue_leases d = issue_leases (fst (w_db w))). apply (wp_kept (fun d => P (fst d))); [|done].
  assert (Hu : forall receipt, keeps P (upsert_claim_metadata receipt)).
  { intros receipt. apply keeps_execute. intros d [] d' Hd [Hl _]%upsert_receipt_spec. unfold P. by rewrite Hl. }
  clearbody P. unfold finalize_claim_after_outcome, sql, get_claim_metadata. keeps_auto.
Qed.

Lemma keeps_finish lease run result : keeps leases_ok (finish_lease_after_result lease run result).
Proof.
  unfold finish_lease_after_result, finalize_exact_owner_lease, finalize_terminal_lease,
    finalize_ownership_denied_lease, compensate_lease_after_launch_error, has_pollable_external_wait,
    update_lease_status_conditional, classify_rejected_or_missing.
  keeps_auto.
Qed.

(** Settling one unit: its own lease, and no one else's. *)
Lemma finish_settles u result (w : World Db) :
  leases_ok (w_db w) ->
  wp (finish_lease_after_result (du_lease_id u) (lr_run_id (du_request u)) result) (fun r w' =>
    leases_ok (w_db w') /\ (is_ok r = true -> settled u (w_db w')) /\
    forall u', du_lease_id u' <> du_lease_id u -> settled u' (w_db w) -> settled u' (w_db w')) w.
Proof.
  intros Hok. eapply wp_consequence.
  { eapply wp_keeps; [apply keeps_finish|exact Hok|]. apply finish_wp, Hok. }
  intros [o|e] w' [Hr Hok']; [|by rewrite Hr]. destruct Hr as (target & Hdest & Hcase).
  assert (Hcase' : moved (du_lease_id u) (lr_run_id (du_request u)) (sources result) target (w_db w) (w_db w') \/
     w_db w' = w_db w /\ (preserved (du_lease_id u) (lr_run_id (du_request u)) (sources result) (w_db w) o \/
       already_denied (du_lease_id u) (lr_run_id (du_request u)) (w_db w) o))
    by (destruct Hcase as [[Hm _]|[Hd [Hp|[_ Hp]]]]; auto).
  pose proof (settled_not_running _ _ _ _ _ _ o Hdest Hcase') as Hset.
  split_and!; [done..|]. intros u' Hne Hu' row Hrow. apply Hu'.
  destruct Hcase' as [(old & new & _ & _ & _ & _ & _ & _ & _ & Hother & _)|[Hd _]]; [|by rewrite <- Hd].
  by rewrite <- Hother.
Qed.


(** Some of the units are settled and counted, and these are left. *)
Definition dispatched (units todo : list DispatchUnit) (s0 s : RunSummary) (w : World (Db * R)) : Prop :=
  exists seen, units = seen ++ todo /\ leases_ok (fst (w_db w)) /\ details_ok s /\ same_polls s0 s /\
    sm_eligible s = sm_eligible s0 /\ outcomes s = outcomes s0 + length seen /\
    forall u, u ∈ seen -> settled u (fst (w_db w)).

Lemma settle_unit_wp queries units u todo s0 s (w : World (Db * R)) :
  NoDup (du_lease_id <$> units) -> threads_fenced units -> dispatched units (u :: todo) s0 s w ->
  wp (settle_unit queries (None, s) u) (fun r w' =>
    match r with
    | Ok (None, s') => dispatched units todo s0 s' w'
    | Ok (Some _, _) | Err _ => True
    end) w.
Proof.
  intros Hnd Hthreads (seen & Hunits & Hok & Hdet & Hpoll & Hel & Hout & Hseen).
  assert (Hin : u ∈ units) by (rewrite Hunits, elem_of_app, elem_of_cons; auto).
  destruct (Hthreads u Hin) as [Hjoin Hother].
  assert (Hne : forall u', u' ∈ seen -> du_lease_id u' <> du_lease_id u).
  { intros u' Hu' Heq. rewrite Hunits, fmap_app, NoDup_app in Hnd. destruct Hnd as (_ & Hd & _).
    apply (Hd (du_lease_id u')); [by apply list_elem_of_fmap_2|]. rewrite Heq. cbn. by left. }
  unfold settle_unit. apply wp_bind, wp_try. eapply (wp_consequence _ (fun _ w' => leases_ok (fst (w_db w')) /\
    forall u', u' ∈ seen -> settled u' (fst (w_db w')))).
  { split; [by apply Hjoin|]. intros u' Hu'. apply (Hother u'); [|by apply Hne|by apply Hseen].
    rewrite Hunits, elem_of_app. by left. }
  clear Hok Hseen. intros joined w1 [Hok Hseen]. apply wp_bind, wp_try, wp_on_local.
  eapply wp_consequence; [by apply finish_settles|]. intros finished w2 (Hok2 & Hset & Hother2) w3 Hw3 _.
  assert (Hd3 : w_db w2 = fst (w_db w3)) by by rewrite <- Hw3. rewrite Hd3 in Hok2, Hset, Hother2. clear Hd3 Hw3 w2.
  destruct finished as [outcome|e]; wp_steps; [|done].
  eapply wp_consequence; [apply finalize_claim_leases|]. intros finalized w4 Hl.
  assert (Hd : dispatched units todo s0 (record_outcome outcome (du_resume u) s) w4).
  { destruct (record_outcome_accounts outcome (du_resume u) s Hdet) as (Hdet' & Hpoll' & Hout' & Hel').
    cbn beta in Hl. exists (seen ++ [u]). rewrite <- app_assoc. split_and!; [done| |done| |congruence| |].
    - unfold leases_ok. by rewrite Hl.
    - unfold same_polls in *. intuition congruence.
    - rewrite Hout', Hout, length_app. cbn. lia.
    - intros u'. rewrite elem_of_app, list_elem_of_singleton.
      intros [Hu'| ->]; (eapply settled_leases; [exact Hl|]); [|by apply Hset].
      apply Hother2; [by apply Hne|by apply Hseen]. }
  destruct finalized as [[]|[| | |]]; by wp_steps.
Qed.

(** The first error stays. *)
Lemma settle_unit_error queries e s u (w : World (Db * R)) fe s' w' :
  settle_unit queries (Some e, s) u w = (Ok (fe, s'), w') -> fe <> None.
Proof.
  unfold settle_unit. intros Hrun. run_inv; try done.
Qed.

Lemma dispatch_chunk_wp queries units chunk todo s0 s (w : World (Db * R)) :
  NoDup (du_lease_id <$> units) -> threads_fenced units -> dispatched units (chunk ++ todo) s0 s w ->
  wp (dispatch_unit_chunk queries s chunk) (fun r w' =>
    match r with Ok s' => dispatched units todo s0 s' w' | Err _ => True end) w.
Proof.
  intros Hnd Hthreads Hd. unfold dispatch_unit_chunk. apply wp_bind.
  eapply wp_consequence.
  - apply (wp_fold_each_rest (fun rest acc w => acc.1 = None -> dispatched units (rest ++ todo) s0 acc.2 w)
             (fun _ _ => True)); [|by intros _].
    clear s w Hd. intros u rest [[e|] s] w Hd; cbn in Hd.
    + unfold wp. destruct (settle_unit queries (Some e, s) u w) as [[[fe s']|e'] w'] eqn:Hrun; [|done].
      intros Hfe. by apply settle_unit_error in Hrun.
    + eapply wp_consequence; [by apply (settle_unit_wp _ _ _ _ _ _ _ Hnd Hthreads (Hd eq_refl))|].
      by intros [[[e|] s']|e] w' Hw'.
  - intros [[[e|] s']|e] w' Hw'; wp_steps; [done| |done]. by apply Hw'.
Qed.
End Dispatching.

(** C24: dispatch settles and counts every unit.  The threads may do anything to
    the store and the remote service, as long as leases stay unique and a thread
    does not set another unit's lease running.  When the dispatch of units of
    distinct leases reports success, however they were cut into chunks: no
    unit's lease is left running for its run, each unit was counted exactly
    once, as launched, resumed, suspended, failed, preserved or skipped, and the
    bounded lists of details add up with what was dropped. *)
Theorem dispatch_settles_all `{Env} {R : Type} `{Daemon R} (queries : list (Query R))
    (units : list DispatchUnit) (max_parallel : nat) (s : RunSummary) (w : World (Db * R))
    (Hok : leases_ok (fst (w_db w))) (Hdetails : details_ok s)
    (Hdistinct : NoDup (du_lease_id <$> units)) (Hthreads : threads_fenced (R := R) units) :
  wp (dispatch_units queries units max_parallel s) (fun r w' =>
    match r with
    | Ok s' => leases_ok (fst (w_db w')) /\ (forall u, u ∈ units -> settled u (fst (w_db w'))) /\
        outcomes s' = outcomes s + length units /\ details_ok s' /\ same_polls s s'
    | Err _ => True
    end) w.
Proof.
  unfold dispatch_units. eapply wp_consequence.
  - apply (wp_fold_each_rest (fun rest s' w => dispatched units (concat rest) s s' w) (fun _ _ => True)).
    + intros chunk rest s' w' Hd. by apply dispatch_chunk_wp.
    + exists []. rewrite concat_chunks by lia. cbn. split_and!; try done. by intros u Hu%elem_of_nil.
  - intros [s'|e] w'; [|done]. intros (seen & -> & Hok' & Hdet & Hpoll & Hel & Hout & Hseen).
    rewrite app_nil_r. by split_and!.
Qed.

(** [k] more units or issues are accounted for, of which [e] are newly eligible. *)
Definition tally (e k : nat) (s s' : RunSummary) : Prop :=
  details_ok s -> details_ok s' /\ same_polls s s' /\ outcomes s' = outcomes s + k /\
    sm_eligible s' = sm_eligible s + e.

Lemma tally_trans e k e' k' s s1 s2 : tally e k s s1 -> tally e' k' s1 s2 -> tally (e + e') (k + k') s s2.
Proof.
  unfold tally, same_polls. intros H1 H2 Hs. destruct (H1 Hs) as (Hd1 & Hp1 & Ho1 & He1).
  destruct (H2 Hd1) as (Hd2 & Hp2 & Ho2 & He2). split_and!; try done; intuition lia.
Qed.

Lemma tally_refl s : tally 0 0 s s.
Proof. unfold tally, same_polls. intros Hs. split_and!; try done; lia. Qed.

Section Account.
Context `{Env} `{Process} `{Rfc3339} `{ErrorText} `{Os} `{OptionDebug} `{ContinuationErrorText}.
Context `{Sha256} `{JsonPrinter} `{WorkflowResolver} `{StringsDebug}.
Context {R : Type} `{Daemon R}.

Lemma settle_counts queries fe s u s' (w w' : World (Db * R)) :
  settle_unit queries (fe, s) u w = (Ok (None, s'), w') -> fe = None /\ tally 0 1 s s'.
Proof.
  unfold settle_unit. intros Hrun. destruct fe; run_inv; try done; (split; [done|]); intros Hs.
  match goal with |- context [record_outcome ?o ?r s] => destruct (record_outcome_accounts o r s Hs) as (? & ? & Ho & He) end.
  split_and!; try done; lia.
Qed.

Lemma dispatch_counts queries units n s (w : World (Db * R)) :
  wp (dispatch_units queries units n s)
     (fun r _ => match r with Ok s' => tally 0 (length units) s s' | Err _ => True end) w.
Proof.
  assert (Hchunk : forall chunk s (w : World (Db * R)), wp (dispatch_unit_chunk queries s chunk)
    (fun r _ => match r with Ok s' => tally 0 (length chunk) s s' | Err _ => True end) w).
  { clear. intros chunk s w. unfold dispatch_unit_chunk. apply wp_bind. eapply wp_consequence.
    - apply (wp_fold_each_rest (fun rest acc _ => acc.1 = None ->
               exists k, k + length rest = length chunk /\ tally 0 k s acc.2) (fun _ _ => True)).
      + intros u rest [fe s1] w1 Hk. unfold wp.
        destruct (settle_unit queries (fe, s1) u w1) as [[[[e'|] s2]|e'] w2] eqn:Hrun; [done| |done].
        apply settle_counts in Hrun as [-> Hone]. intros _. destruct (Hk eq_refl) as (k & Hlen & Ht).
        cbn in *. exists (k + 1). split; [lia|]. exact (tally_trans _ _ _ _ _ _ _ Ht Hone).
      + intros _. exists 0. split; [done|apply tally_refl].
    - intros [[[e|] s1]|e] w1 Hw1; wp_steps; [done| |done]. destruct (Hw1 eq_refl) as (k & Hlen & Ht).
      cbn in *. by replace (length chunk) with k by lia. }
  unfold dispatch_units. eapply wp_consequence.
  - apply (wp_fold_each_rest (fun rest s1 _ => exists k, k + length (concat rest) = length units /\ tally 0 k s s1)
             (fun _ _ => True)).
    + intros chunk rest s1 w1 (k & Hlen & Ht). eapply wp_consequence; [apply Hchunk|]. intros [s2|e] w2 Hc; [|done].
      cbn in Hlen. rewrite length_app in Hlen. exists (k + length chunk). split; [lia|].
      exact (tally_trans _ _ _ _ _ _ _ Ht Hc).
    + exists 0. rewrite concat_chunks by lia. split; [done|apply tally_refl].
  - intros [s1|e] w1 Hw1; [|done]. destruct Hw1 as (k & Hlen & Ht). cbn in Hlen. by replace (length units) with k by lia.
Qed.

(** What is collected is eligible: a unit, or counted as skipped or failed. *)
Definition collected (from to : list DispatchUnit * RunSummary) : Prop :=
  exists e k, length to.1 + k = length from.1 + e /\ tally e k from.2 to.2.

Lemma collect_target_counts limits parents acc turn (w : World (Db * R)) :
  wp (collect_target limits parents acc turn)
     (fun r _ => match r with Ok acc' => collected acc acc' | Err _ => True end) w.
Proof.
  destruct acc as [units s], turn as [i [target q]]. unfold collect_target. wp_steps.
  eapply wp_consequence; [apply wp_result|]. intros r w1 _. destruct r as [active|e]; wp_steps; [|done].
  eapply wp_consequence; [apply wp_result|]. intros r w2 _. destruct r as [result|e]; wp_steps.
  2: { exists 0, 0. split; [done|apply tally_refl]. }
  set (s1 := s <| sm_eligible := _ |>).
  assert (Hs1 : forall k s2, tally 0 k s1 s2 -> tally (length (eligible result)) k s s2).
  { unfold tally, same_polls, s1, outcomes, details_ok. cbn. intuition lia. }
  eapply wp_consequence.
  - apply (wp_fold_each_rest (fun rest acc _ => exists k, length acc.1 + length rest + k = length units + length (eligible result)
             /\ tally 0 k s1 acc.2) (fun _ _ => True)).
    + intros routed rest [units2 s2] w3 (k & Hlen & Ht). unfold collect_launch_unit. wp_steps.
      eapply wp_consequence; [apply wp_result|]. intros r w4 _. destruct r as [[u| |]|e]; wp_steps; [..|done]; cbn in *.
      * exists k. split; [rewrite length_app; cbn; lia|done].
      * exists (k + 1). split; [lia|]. apply (tally_trans 0 k 0 1 _ _ _ Ht). unfold tally, same_polls, outcomes, details_ok. cbn. intuition lia.
      * exists (k + 1). split; [lia|]. apply (tally_trans 0 k 0 1 _ _ _ Ht). unfold tally, same_polls, outcomes, details_ok. cbn. intuition lia.
    + exists 0. split; [cbn; lia|apply tally_refl].
  - intros [[units2 s2]|e] w3 Hw3; [|done]. destruct Hw3 as (k & Hlen & Ht). exists (length (eligible result)), k. cbn in *. split; [lia|by apply Hs1].
Qed.

(** The summary of the polls alone. *)
Definition poll_summary (waits done : nat) (s : RunSummary) : Prop :=
  details_ok s /\ outcomes s = 0 /\ sm_eligible s = 0 /\ pollable_waits s = waits /\
  polls_applied s + skipped_polls s = done.

Lemma skipped_poll_counts d waits n s :
  poll_summary waits n s -> poll_summary waits (S n) (record_skipped_poll d s).
Proof.
  unfold record_skipped_poll, poll_summary, details_ok, outcomes. destruct s. case_bool_decide; cbn in *;
    rewrite ?length_app; cbn; lia.
Qed.

Lemma warnings_count wait warnings waits n s :
  poll_summary waits n s -> poll_summary waits n (record_warnings wait warnings s).
Proof.
  unfold record_warnings. revert s. induction warnings as [|warning warnings IH]; intros s Hs; [done|]. cbn. apply IH.
  unfold record_artifact_warning, poll_summary, details_ok, outcomes in *. destruct s.
  case_bool_decide; cbn in *; rewrite ?length_app; cbn; lia.
Qed.

Lemma record_poll_counts wait applied waits n s s' :
  poll_summary waits n s -> record_poll wait applied s = Ok s' -> poll_summary waits (S n) s'.
Proof.
  intros Hs. assert (Ha : poll_summary waits (S n) (s <| polls_applied := S (polls_applied s) |>)).
  { unfold poll_summary, details_ok, outcomes in *. destruct s. cbn in *. lia. }
  unfold record_poll. destruct applied as [[|warning rest]|[]]; intros [= <-];
    first [exact Ha|by apply (warnings_count wait (warning :: rest))|by apply skipped_poll_counts].
Qed.

Lemma poll_due_waits_counts (w : World Db) :
  wp (poll_due_waits (R := R)) (fun r _ =>
    match r with Ok s => poll_summary (pollable_waits s) (pollable_waits s) s | Err _ => True end) w.
Proof.
  unfold poll_due_waits. wp_steps. eapply wp_consequence; [apply wp_result|].
  intros r w1 _. destruct r as [waits|e]; wp_steps; [|done]. eapply wp_consequence.
  - apply (wp_fold_each_rest (fun rest s _ => exists n, n + length rest = length waits /\ poll_summary (length waits) n s)
             (fun _ _ => True)).
    + intros wait rest s w2 (n & Hn & Hs). unfold poll_wait. wp_steps.
      eapply wp_consequence; [apply wp_result|]. intros applied w3 _. wp_steps.
      destruct (record_poll wait applied s) as [s'|e] eqn:Er; [|done]. cbn in Hn. exists (S n). split; [lia|].
      by eapply record_poll_counts.
    + exists 0. split; [done|]. unfold poll_summary, details_ok, outcomes. cbn. lia.
  - intros [s|e] w2 Hw2; [|done]. destruct Hw2 as (n & Hn & Hs). cbn in Hn. destruct Hs as (? & ? & ? & Hp & ?).
    rewrite Hp. unfold poll_summary. split_and!; try done; lia.
Qed.

(** The summary of a pass accounts for everything the pass did.  When a
    pass reports success, the resumed leases it collected together with the
    issues it found eligible are each counted exactly once as launched, resumed,
    suspended, failed, preserved or skipped; each wait that was due was either
    applied or skipped; and the kept details, at most a hundred of each kind,
    add up with what was dropped. *)
Theorem pass_accounts (targets : list SchedulerTarget) (queries : list (Query R)) (w : World (Db * R)) :
  wp (run_multi_target_once_with_poller targets queries) (fun r _ =>
    match r with
    | Ok s =>
        (exists units (w1 w2 : World (Db * R)), collect_resume_units targets (capacity_limits targets) w1 = (Ok units, w2) /\
           outcomes s = sm_eligible s + length units) /\
        polls_applied s + skipped_polls s = pollable_waits s /\ details_ok s
    | Err _ => True
    end) w.
Proof.
  unfold run_multi_target_once_with_poller. destruct (bool_decide _); [by apply wp_throw|]. apply wp_bind.
  eapply wp_consequence; [apply wp_result|]. intros [[]|e] w1 _; [|done]. apply wp_bind, wp_map_err, wp_on_local.
  eapply wp_consequence; [apply poll_due_waits_counts|]. intros [s0|e] w2 Hs0 w3 _ _; [|done]. cbn [res_map_err].
  cbv zeta. apply wp_bind. unfold wp at 1.
  destruct (collect_resume_units targets _ w3) as [[units|e] w4] eqn:Hresume; [|done]. cbn [fst snd].
  apply wp_bind. eapply wp_consequence.
  - apply (wp_fold_each (fun acc _ => collected (units, s0) acc) (fun _ _ => True)).
    + intros acc turn w5 _ Hacc. eapply wp_consequence; [apply collect_target_counts|].
      intros [acc'|e] w6 Hw6; [|done]. destruct Hacc as (e & k & Hl & Ht), Hw6 as (e' & k' & Hl' & Ht').
      exists (e + e'), (k + k'). split; [lia|exact (tally_trans _ _ _ _ _ _ _ Ht Ht')].
    + exists 0, 0. split; [done|apply tally_refl].
  - intros [[units' s1]|e] w5 Hw5; [|done]. eapply wp_consequence; [apply dispatch_counts|].
    intros [s|e] w6 Hs; [|done]. destruct Hw5 as (e & k & Hl & Ht). cbn in Hl, Ht, Hs.
    destruct Hs0 as (Hdet & Hout & Hel & _ & Hpolls). pose proof (tally_trans _ _ _ _ _ _ _ Ht Hs Hdet) as (Hd & Hp & Ho & He).
    unfold same_polls in Hp. split_and!; [|lia|done]. exists units, w3, w4. split; [done|lia].
Qed.
End Account.

(** ** A pass *)

#[local] Existing Instances calm plain_text migrating_process decimal_rfc3339 short_debug short_errors audit_printer
  resuming_os no_hash no_files sample_debug sample_laws.

(** The remote's one issue, approved and without a pull request. *)
#[local] Instance listing : IssueQuery GithubIssue := {|
  list_issues _ _ _ := fun w => (Ok [w_db w], w);
  latest_label_actor _ _ _ := mret None;
  has_open_pr_for_issue _ _ := mret false;
  get_parent_issue _ _ := mret None;
  list_sub_issues _ _ := mret []
|}.
Definition sample_connection : Query GithubIssue := mkQuery _ sample_query listing.

(** Threads that complete at once. *)
#[local] Instance prompt_threads : Daemon GithubIssue := {|
  join_unit _ := mret (Ok CompletedSuccess);
  poll _ wait := PollApply.ready wait JNull;
  fresh_run _ := "u";
  artifact_failure _ _ := None
|}.

Definition sample_target : SchedulerTarget :=
  mkSchedulerTarget "cfg" claiming_config sample_bases ∅ "config".
Definition sample_limits : CapacityLimits := capacity_limits [sample_target].
Definition sample_store : World (Db * GithubIssue) := start (empty_db, candidate).

Definition sample_unit : DispatchUnit :=
  mkDispatchUnit "lease-o/r-42-101"
    (mkLaunchRequest "cfg" None "run-u" "o/r" 42 true true true (Some "/tmp/work/issue-42/run-u") None "config") false (Some 0).

#[local] Abbreviation sample_prepare :=
  (prepare_launch_unit sample_target sample_connection 0 (ordinary candidate) sample_limits ∅).


#[local] Abbreviation sample_collect :=
  (units ← collect_resume_units [sample_target] sample_limits;
   collect_launch_units [sample_target] [sample_connection] sample_limits units empty_summary).

Lemma capacity_respected_witness :
  let w := sample_store in
  leases_ok (fst (w_db w)) /\ is_ok (fst (sample_collect w)) = true /\
  let d' := fst (w_db (snd (sample_collect w))) in
  leases_ok d' /\ total_active d' = 1 /\
  (Z.of_nat (total_active d') <= Z.max (Z.of_nat (total_active (fst (w_db w)))) (cl_global sample_limits))%Z.
Proof.
  intros w. assert (Hok : leases_ok (fst (w_db w))) by by_computation.
  split_and!; [exact Hok|by vm_compute|]. intros d'.
  pose proof (wp_value _ _ _ _ eq_refl
    (capacity_respected [sample_target] [sample_connection] sample_limits empty_summary w Hok)) as [Hok' Hle].
  split_and!; [exact Hok'|by vm_compute|exact Hle].
Defined.

(** Threads that leave the store alone are fenced. *)
Lemma prompt_fenced units : threads_fenced (R := GithubIssue) units.
Proof. intros u _. split; [by intros w|by intros u' _ _ w]. Qed.

Definition claimed_store : World (Db * GithubIssue) := snd (sample_prepare sample_store).
#[local] Abbreviation sample_dispatch := (dispatch_units [sample_connection] [sample_unit] 4 empty_summary).

Lemma dispatch_settles_all_witness :
  let w := claimed_store in
  leases_ok (fst (w_db w)) /\ details_ok empty_summary /\
  exists s', fst (sample_dispatch w) = Ok s' /\ sm_launched s' = 1 /\
    settled sample_unit (fst (w_db (snd (sample_dispatch w)))) /\ outcomes s' = outcomes empty_summary + 1.
Proof.
  intros w. assert (Hok : leases_ok (fst (w_db w))) by by_computation.
  assert (Hd : details_ok empty_summary) by (unfold details_ok; cbn; lia).
  split_and!; [exact Hok|exact Hd|].
  assert (Hrun : fst (sample_dispatch w) = Ok (empty_summary <| sm_launched := 1 |>)) by by vm_compute.
  pose proof (wp_value _ _ _ _ Hrun (dispatch_settles_all [sample_connection] [sample_unit] 4 empty_summary w Hok Hd
                ltac:(apply NoDup_singleton) (prompt_fenced _))) as (_ & Hset & Hout & _).
  eexists. split; [exact Hrun|]. split_and!; [reflexivity|apply Hset; by left|exact Hout].
Defined.

(** An abandoned claim whose label could not be removed yet. *)
Definition indebted_db : Db :=
  empty_db <| issue_leases := [mkLease "old" "o/r" 42 "cfg" None "abandoned" 1 1 1] |>
           <| claim_metadata := [mkClaimMetadataReceipt "old" "acoliver" "Luther working" true true true] |>.

(** Claiming the issue again overwrites the receipt: nothing is owed any more,
    and since the label and the assignee are there, the next claim owns neither. *)
Lemma reclaim_forgets_owed_cleanup :
  let d := w_db (snd (acquire_lease_with_receipt "o/r" 42 "cfg" claiming_config (start indebted_db))) in
  length (pending_join "o/r" indebted_db) = 1 /\ pending_join "o/r" d = [] /\
  exists lease, claim_metadata d = [first_receipt lease claiming_config].
Proof. intros d. split_and!; [by vm_compute..|]. exists "lease-o/r-42-100". by vm_compute. Qed.
