(* ===== verification/SchedulerLoop.v ===== *)
(** The scheduler's loop ([daemon/scheduler.rs], [run_loop]): startup recovery of
    stale leases, then a pass and a sleep until the shutdown flag is seen.

    A shutdown is obeyed: the flag is loaded once per pass and five times per
    second of sleep, and nothing the program runs in between takes a load back. *)
From S2P Require Import Prelude Effects Text Sql Status Schema Leases RemoteClaim Runs WaitStates PollApply Launcher Discovery StepContext Ownership Host Continuation Provenance Digest Migration ResumePreparation Scheduler.

Section Loop.
Context `{Env} `{Process} `{Rfc3339} `{ErrorText} `{Os} `{OptionDebug} `{ContinuationErrorText}.
Context `{Sha256} `{JsonPrinter} `{WorkflowResolver} `{StringsDebug}.
Context {R : Type} `{Daemon R}.

(** The naps of a sleep, and whether the shutdown was asked for in one. *)
Fixpoint sleep_with_shutdown (ticks : nat) : M (Db * R) SchedulerError bool :=
  match ticks with
  | 0 => mret false
  | S ticks => asked ← load_interrupt; if (asked : bool) then mret true else sleep_with_shutdown ticks
  end.

(** [None] when the fuel is out before the shutdown is seen. *)
Fixpoint run_passes (fuel : nat) (target : SchedulerTarget) (q : Query R)
    : M (Db * R) SchedulerError (option unit) :=
  match fuel with
  | 0 => mret None
  | S fuel =>
      asked ← load_interrupt;
      if (asked : bool) then mret (Some tt)
      else
        run_multi_target_once_with_poller [target] [q];;
        sleep_with_shutdown (Z.to_nat (Z.min u64_max
          (default 300%Z (poll_interval_secs (st_discovery target)) * 5)));;
        run_passes fuel target q
  end.

Definition run_loop (fuel : nat) (target : SchedulerTarget) (q : Query R) (stale_timeout_secs : Z)
    : M (Db * R) SchedulerError (option unit) :=
  sql (mark_stale_leases stale_timeout_secs);;
  sql (mark_stale_ready_to_resume_leases stale_timeout_secs);;
  run_passes fuel target q.
End Loop.

(** ** The flag is never loaded backwards *)

(** What [m] runs does not take back a load of the shutdown flag. *)
Definition steady {D E A} (m : M D E A) : Prop := forall w, w_intr w <= w_intr (snd (m w)).

Section Steady.
Context `{Env}.

Lemma steady_ret {D E A} (a : A) : steady (mret a : M D E A).
Proof. by intros w. Qed.
Lemma steady_throw {D E A} (e : E) : steady (throw e : M D E A).
Proof. by intros w. Qed.
Lemma steady_lift_res {D E A} (r : Res E A) : steady (lift_res r : M D E A).
Proof. by intros w. Qed.
Lemma steady_bind {D E A B} (m : M D E A) (f : A -> M D E B) :
  steady m -> (forall a, steady (f a)) -> steady (mbind f m).
Proof.
  intros Hm Hf w. specialize (Hm w). unfold mbind, M_bind. destruct (m w) as [[a|e] w1]; cbn in *; [|done].
  etrans; [exact Hm|apply Hf].
Qed.
Lemma steady_map_err {D E F A} (f : E -> F) (m : M D E A) : steady m -> steady (map_err f m).
Proof. intros Hm w. specialize (Hm w). unfold map_err. by destruct (m w). Qed.
Lemma steady_try {D E F A} (m : M D E A) : steady m -> steady (try m : M D F _).
Proof. intros Hm w. specialize (Hm w). unfold try. by destruct (m w). Qed.
Lemma steady_ignore {D E F A} (m : M D E A) : steady m -> steady (ignore m : M D F _).
Proof. intros Hm w. specialize (Hm w). unfold ignore. by destruct (m w). Qed.
Lemma steady_now {D E} : steady (now : M D E Z).
Proof. by intros w. Qed.
Lemma steady_observe {D E A} (f : nat -> A) : steady (observe f : M D E A).
Proof. by intros w. Qed.
Lemma steady_load_interrupt {D E} : steady (load_interrupt : M D E bool).
Proof. intros w. cbn. lia. Qed.
Lemma steady_query {D A} (f : D -> Res SqlError A) : steady (query f).
Proof. intros w. unfold query. by destruct (env_fault _). Qed.
Lemma steady_execute {D A} (f : D -> Res SqlError (A * D)) : steady (execute f).
Proof.
  intros w. unfold execute. destruct (env_fault _); [done|]. by destruct (f (w_db w)) as [[]|].
Qed.
Lemma steady_transaction {D E A} (g : SqlError -> E) (m : M D E A) : steady m -> steady (transaction g m).
Proof.
  intros Hm w. unfold transaction, map_err, query. destruct (env_fault _); cbn; [done|].
  specialize (Hm (next_stmt w)). destruct (m (next_stmt w)) as [[a|e] w2]; cbn in *; [|done].
  by destruct (env_fault (w_stmt w2)).
Qed.
Lemma steady_transaction_if {D E A} (g : SqlError -> E) (h : A -> SqlError -> E) c (m : M D E A) :
  steady m -> steady (transaction_if g h c m).
Proof.
  intros Hm w. unfold transaction_if, map_err, query. destruct (env_fault _); cbn; [done|].
  specialize (Hm (next_stmt w)). destruct (m (next_stmt w)) as [[a|e] w2]; cbn in *; [|done].
  destruct (c a); [|done]. by destruct (env_fault (w_stmt w2)).
Qed.
Lemma steady_explicit {A} (m : M Db SqlError A) : steady m -> steady (explicit_transaction m).
Proof.
  intros Hm w. unfold explicit_transaction, query. destruct (env_fault _); cbn; [done|].
  specialize (Hm (next_stmt w)). destruct (m (next_stmt w)) as [[a|e] w2]; cbn in *; by destruct (env_fault (w_stmt w2)).
Qed.
Lemma steady_fold_each {D E A S} (f : S -> A -> M D E S) s l : (forall s a, steady (f s a)) -> steady (fold_each f s l).
Proof.
  intros Hf. revert s. induction l as [|a l IH]; intros s; [apply steady_ret|]. by apply steady_bind.
Qed.
Lemma steady_on_local {D R E A} (m : M D E A) : steady m -> steady (on_local m : M (D * R) E A).
Proof. intros Hm w. specialize (Hm (local_of w)). unfold on_local. by destruct (m (local_of w)). Qed.
Lemma steady_on_remote {D R E A} (m : M R E A) : steady m -> steady (on_remote m : M (D * R) E A).
Proof. intros Hm w. specialize (Hm (remote_of w)). unfold on_remote. by destruct (m (remote_of w)). Qed.
End Steady.

Create HintDb steady discriminated.
#[export] Hint Resolve steady_ret steady_throw steady_lift_res steady_now steady_observe steady_load_interrupt
  steady_query steady_execute : steady.

Ltac head_of t := lazymatch t with ?f _ => head_of f | _ => t end.

(** Peel a combinator, split a match of the code, or enter the definition. *)
Ltac steady_step :=
  lazymatch goal with
  | |- steady (mbind _ _) => apply steady_bind; [|intros ?]
  | |- steady (map_err _ _) => apply steady_map_err
  | |- steady (try _) => apply steady_try
  | |- steady (ignore _) => apply steady_ignore
  | |- steady (transaction _ _) => apply steady_transaction
  | |- steady (transaction_if _ _ _ _) => apply steady_transaction_if
  | |- steady (explicit_transaction _) => apply steady_explicit
  | |- steady (fold_each _ _ _) => apply steady_fold_each; intros ? ?
  | |- steady (on_local _) => apply steady_on_local
  | |- steady (on_remote _) => apply steady_on_remote
  | |- steady (match ?x with _ => _ end) => destruct x
  | |- steady (let _ := _ in _) => cbv zeta
  end.
Ltac steady_enter := lazymatch goal with |- steady ?m => let h := head_of m in unfold h end.
Ltac steady_auto := repeat first [steady_step|solve [eauto 2 with steady]|progress cbv zeta|steady_enter].

(** What is asked of the code around the scheduler: a shutdown, once asked for,
    is not taken back by a request to the remote service or by a thread. *)
Class Steadfast {R} (q : Query R) `{Daemon R} := {
  steady_get_issue repo number : steady (@get_issue R (query_claims q) repo number);
  steady_add_label repo number x : steady (@add_label R (query_claims q) repo number x);
  steady_remove_label repo number x : steady (@remove_label R (query_claims q) repo number x);
  steady_add_assignee repo number x : steady (@add_assignee R (query_claims q) repo number x);
  steady_remove_assignee repo number x : steady (@remove_assignee R (query_claims q) repo number x);
  steady_list_issues repo labels states : steady (@list_issues R (query_reads q) repo labels states);
  steady_latest_label_actor repo number x : steady (@latest_label_actor R (query_reads q) repo number x);
  steady_has_open_pr repo number : steady (@has_open_pr_for_issue R (query_reads q) repo number);
  steady_get_parent_issue repo number : steady (@get_parent_issue R (query_reads q) repo number);
  steady_list_sub_issues repo number : steady (@list_sub_issues R (query_reads q) repo number);
  steady_join_unit u : steady (join_unit (R := R) u)
}.
#[export] Hint Resolve steady_get_issue steady_add_label steady_remove_label steady_add_assignee
  steady_remove_assignee steady_list_issues steady_latest_label_actor steady_has_open_pr
  steady_get_parent_issue steady_list_sub_issues steady_join_unit : steady.

Section Pass.
Context `{Env} `{Process} `{Rfc3339} `{ErrorText} `{Os} `{OptionDebug} `{ContinuationErrorText}.
Context `{Sha256} `{JsonPrinter} `{WorkflowResolver} `{StringsDebug}.
Context {R : Type} `{Daemon R} (q : Query R) `{!Steadfast q}.

Lemma steady_discover cfg active : steady (@discover _ _ R (query_reads q) cfg active).
Proof.
  unfold discover, discover_with. apply steady_bind; [steady_auto|]. intros issues. apply steady_bind; [|intros ?; steady_auto].
  generalize (order_issues cfg issues). clear issues. intros issues.
  generalize (empty_cache, mkDiscoveryResult [] []). induction issues as [|issue issues IH]; intros acc; [apply steady_ret|].
  apply steady_bind; [|done]. steady_auto; unfold cached_lookups; cbn iota beta; steady_auto.
Qed.

Lemma steady_prepare_resume lease : steady (prepare_resume_unit lease).
Proof. steady_auto. Qed.

Lemma steady_poll : steady (poll_due_waits (R := R)).
Proof. steady_auto. Qed.

Lemma steady_finalize u outcome : steady (finalize_claim_after_outcome [q] u outcome).
Proof.
  assert (Hq : forall n q', [q] !! n = Some q' -> q' = q).
  { intros n q' Hn. by apply list_elem_of_lookup_2, list_elem_of_singleton in Hn. }
  unfold finalize_claim_after_outcome.
  repeat match goal with
         | |- steady (match [q] !! ?n with _ => _ end) =>
             destruct ([q] !! n) as [q'|] eqn:Eq; [apply Hq in Eq as ->|]
         | _ => steady_step
         end; steady_auto.
Qed.

Lemma steady_pass target : steady (run_multi_target_once_with_poller [target] [q]).
Proof.
  pose proof steady_discover. pose proof steady_prepare_resume. pose proof steady_poll. pose proof steady_finalize.
  unfold run_multi_target_once_with_poller. steady_step; [steady_auto|]. apply steady_bind; [|intros ?].
  { unfold reconcile_claim_cleanups, for_each. cbn [zip zip_with fold_each]. steady_auto. }
  steady_step; [steady_auto|]. steady_step; [steady_auto|]. 
  apply steady_bind; [|intros [units summary]; steady_auto].
  unfold collect_launch_units, enumerate. cbn [zip zip_with imap fold_each]. steady_auto.
Qed.

Lemma steady_sleep ticks : steady (sleep_with_shutdown (R := R) ticks).
Proof. induction ticks as [|ticks IH]; [apply steady_ret|]. cbn. steady_auto; exact IH. Qed.

(** From a load of the flag that is not yet past the last refusal, one pass of
    fuel is enough for each load left. *)
Lemma run_passes_stops target refusals fuel (w : World (Db * R)) :
  (forall n, refusals <= n -> env_interrupt n = true) -> refusals - w_intr w < fuel ->
  fst (run_passes fuel target q w) <> Ok None.
Proof.
  intros Hasked. revert w. induction fuel as [|fuel IH]; intros w Hfuel; [lia|].
  cbn [run_passes]. unfold mbind at 1, M_bind at 1, load_interrupt. cbn beta iota.
  destruct (env_interrupt (w_intr w)) eqn:Ei; [done|].
  assert (Hbefore : w_intr w < refusals).
  { destruct (decide (refusals <= w_intr w)) as [Hle|]; [|lia]. apply Hasked in Hle. congruence. }
  set (w1 := mkWorld (w_db w) (w_clock w) (w_stmt w) (S (w_intr w))).
  unfold mbind, M_bind. pose proof (steady_pass target w1) as Hpass.
  destruct (run_multi_target_once_with_poller [target] [q] w1) as [[s|e] w2]; [|done]. cbn [fst snd] in *.
  match goal with |- context [sleep_with_shutdown ?t w2] => pose proof (steady_sleep t w2) as Hsleep;
    destruct (sleep_with_shutdown t w2) as [[b|e] w3] end; [|done]. cbn [fst snd] in *.
  apply IH. cbn in Hpass. lia.
Qed.
End Pass.

(** C25: a shutdown is obeyed.  Once the flag stays set, the scheduler's loop
    ends: as many passes as there are loads of the flag left to refuse, and one
    more, are enough for it to return, having seen the flag, or with the error
    of a pass; every pass and every sleep it runs comes to its own end.  And a
    loop started when the flag is set already runs no pass. *)
Theorem shutdown_obeyed `{Env} `{Process} `{Rfc3339} `{ErrorText} `{Os} `{OptionDebug} `{ContinuationErrorText}
    `{Sha256} `{JsonPrinter} `{WorkflowResolver} `{StringsDebug} {R : Type} `{Daemon R} (q : Query R)
    `{!Steadfast q} (target : SchedulerTarget) (stale_timeout_secs : Z) (refusals fuel : nat) (w : World (Db * R))
    (Hasked : forall n, refusals <= n -> env_interrupt n = true) (Hfuel : refusals - w_intr w < fuel) :
  fst (run_loop fuel target q stale_timeout_secs w) <> Ok None /\
  (env_interrupt (w_intr w) = true ->
     run_passes fuel target q w = (Ok (Some tt), mkWorld (w_db w) (w_clock w) (w_stmt w) (S (w_intr w)))).
Proof.
  split.
  - unfold run_loop, mbind, M_bind.
    assert (Hs1 : steady (sql (mark_stale_leases stale_timeout_secs) : M (Db * R) _ _)) by steady_auto.
    assert (Hs2 : steady (sql (mark_stale_ready_to_resume_leases stale_timeout_secs) : M (Db * R) _ _)) by steady_auto.
    specialize (Hs1 w). destruct (sql _ w) as [[n1|e] w1]; [|done].
    specialize (Hs2 w1). destruct (sql _ w1) as [[n2|e] w2]; [|done]. cbn in *.
    apply (run_passes_stops q target refusals); [done|]. lia.
  - intros Hi. destruct fuel as [|fuel]; [lia|]. cbn. unfold mbind, M_bind, load_interrupt. by rewrite Hi.
Qed.

(** ** A loop *)

#[local] Existing Instances plain_text migrating_process decimal_rfc3339 short_debug short_errors audit_printer
  resuming_os no_hash no_files sample_debug sample_query listing prompt_threads.

(** The flag is set from the third load on. *)
#[local] Instance soon_asked : Env := {|
  env_clock n := (100 + Z.of_nat n)%Z;
  env_fault _ := false;
  env_interrupt n := bool_decide (2 <= n)
|}.

#[local] Instance sample_steadfast : Steadfast sample_connection.
Proof.
  split; intros; intros w; try done; cbn; unfold sample_edit; by destruct (decide _).
Qed.

Lemma shutdown_obeyed_witness :
  let w := sample_store in
  (forall n, 2 <= n -> env_interrupt n = true) /\ 2 - w_intr w < 3 /\
  fst (run_loop 3 sample_target sample_connection 60 w) <> Ok None /\
  fst (run_loop 3 sample_target sample_connection 60 w) = Ok (Some tt).
Proof.
  intros w. assert (Hasked : forall n, 2 <= n -> env_interrupt n = true) by by intros n Hn; apply bool_decide_eq_true.
  assert (Hfuel : 2 - w_intr w < 3) by (cbn; lia). split_and!; [exact Hasked|exact Hfuel| |by vm_compute].
  exact (proj1 (shutdown_obeyed sample_connection sample_target 60 2 3 w Hasked Hfuel)).
Defined.
