(* ===== verification/ScopeCharter.v ===== *)
(** The task charter of scope control
    ([components/software_change/scope_control/model.rs], [config_validation.rs],
    the policy types of [workflow/schema.rs]): the configured policy and its
    validation, the draft a run assembles, what is checked of it, and the
    canonical charter it is normalized into.  What serde and regex do is a
    parameter: a codec per type, a predicate on patterns. *)
From S2P Require Import Prelude Text Digest RunPaths.
From Stdlib Require Import Ascii.

(** ** Paths and ordered sets of strings *)

Global Instance Component_eq_dec : EqDecision Component.
Proof. solve_decision. Defined.

(** [Path::starts_with]: whole components. *)
Definition path_starts_with (path prefix : string) : bool :=
  bool_decide (components prefix `prefix_of` components path).

(** A [BTreeSet<String>] read in order; sorting it again changes nothing. *)
Definition btree_set (l : list string) : list string := merge_sort String.le (remove_dups l).

(** [str::replace] of a character. *)
Fixpoint replace_char (c d : ascii) (s : string) : string :=
  match s with
  | "" => ""
  | String x rest => String (if decide (x = c) then d else x) (replace_char c d rest)
  end.

(** [str::strip_prefix] *)
Fixpoint strip_prefix (p s : string) : option string :=
  match p, s with
  | "", _ => Some s
  | String a p', String b s' => if decide (a = b) then strip_prefix p' s' else None
  | String _ _, "" => None
  end.

Definition str_rev (s : string) : string := String.rev s.

(** [str::strip_suffix], [str::starts_with], [str::ends_with] *)
Definition strip_suffix (p s : string) : option string := str_rev <$> strip_prefix (str_rev p) (str_rev s).
Definition starts_with (s p : string) : bool := bool_decide (is_Some (strip_prefix p s)).
Definition ends_with (s p : string) : bool := bool_decide (is_Some (strip_suffix p s)).

(** [str::trim_end_matches] of a character *)
Definition trim_end_char (c : ascii) (s : string) : string := str_rev (trim_start_char c (str_rev s)).

(** A component that may leave the repository. *)
Definition unsafe_component (c : Component) : bool :=
  match c with ParentDir | RootDir => true | CurDir | Normal _ => false end.

Definition unsafe_path (path : string) : bool := existsb unsafe_component (components path).

(** ** The configured policy *)

Record ScopeBudgetConfig := mkBudget {
  max_files_changed : Z;
  max_added_lines : Z;
  max_new_modules : Z;
  max_dependencies_added : Z;
  max_public_apis_added : Z
}.

Record ScopeReviewCapsConfig := mkReviewCaps {
  initial_full_reviews : Z;
  max_delta_reviews : Z;
  final_acceptance_reviews : Z;
  max_mutating_remediation_rounds : Z
}.

Record ScopeSubsystemConfig := mkSubsystem { sub_id : string; sub_paths : list string }.

Record ScopeDependencyManifestConfig := mkManifest { mf_path : string; mf_sections : list string }.

Record ScopeMeasurementConfig := mkMeasurementConfig {
  source_extensions : list string;
  public_api_regexes : list string;
  disable_rename_inference : bool;
  enumerate_untracked : bool
}.

Record ScopeControlConfig := mkScopeControl {
  enabled : bool;
  sc_budget : ScopeBudgetConfig;
  sc_review_caps : ScopeReviewCapsConfig;
  sc_subsystems : list ScopeSubsystemConfig;
  dependency_manifests : list ScopeDependencyManifestConfig;
  mandatory_command_groups : list string;
  partial_compile_command : option string;
  partial_compile_group : option string;
  sc_measurement : ScopeMeasurementConfig;
  sc_mandatory_gates : list string
}.

(** The draft and the canonical charter repeat these three structs field by
    field under names of their own. *)
Definition DraftBudget : Type := ScopeBudgetConfig.
Definition DraftReviewCaps : Type := ScopeReviewCapsConfig.
Definition DraftSubsystem : Type := ScopeSubsystemConfig.
Definition CanonicalBudget : Type := ScopeBudgetConfig.
Definition CanonicalReviewCaps : Type := ScopeReviewCapsConfig.

Global Instance ScopeBudgetConfig_eq_dec : EqDecision ScopeBudgetConfig.
Proof. solve_decision. Defined.
Global Instance ScopeReviewCapsConfig_eq_dec : EqDecision ScopeReviewCapsConfig.
Proof. solve_decision. Defined.
Global Instance ScopeSubsystemConfig_eq_dec : EqDecision ScopeSubsystemConfig.
Proof. solve_decision. Defined.

(** The command manifest, as far as the policy names it: the ids of its
    commands and its groups. *)
Record CommandManifest := mkCommandManifest {
  command_ids : list string;
  manifest_groups : gmap string (list string)
}.

(** ** Drafts and charters *)

Record TaskCharterDraft := mkDraft {
  td_charter_id : string;
  td_issue_number : Z;
  td_run_id : string;
  td_merge_base : string;
  td_acceptance_criteria : list string;
  td_non_goals : list string;
  td_subsystems : list DraftSubsystem;
  td_budget : DraftBudget;
  td_review_caps : DraftReviewCaps;
  td_mandatory_gates : list string
}.

Record CanonicalTaskCharter := mkCharter {
  schema_version : Z;
  charter_id : string;
  issue_number : Z;
  run_id : string;
  merge_base : string;
  acceptance_criteria : list string;
  non_goals : list string;
  subsystems : gmap string (list string);
  budget : CanonicalBudget;
  review_caps : CanonicalReviewCaps;
  mandatory_gates : list string;
  digest : string
}.
Global Instance CanonicalTaskCharter_eta : Eta CanonicalTaskCharter := fun c => mkCharter
  (schema_version c) (charter_id c) (issue_number c) (run_id c) (merge_base c)
  (acceptance_criteria c) (non_goals c) (subsystems c) (budget c) (review_caps c)
  (mandatory_gates c) (digest c).

Global Instance CanonicalTaskCharter_eq_dec : EqDecision CanonicalTaskCharter.
Proof. solve_decision. Defined.

Definition CHARTER_SCHEMA_VERSION : Z := 1.

(** [serde] for a type whose impls are derived: [serde_json::to_vec],
    [to_string_pretty], [from_slice]; a parse that fails says why. *)
Class Serde (A : Type) := {
  to_vec : A -> Bytes;
  to_string_pretty : A -> Bytes;
  from_slice : Bytes -> Res string A
}.

(** What was written for [a] is read back as [a]. *)
Definition reads_back {A} `{Serde A} (a : A) : Prop := from_slice (to_string_pretty a) = Ok a.

(** ** Normalization *)

Fixpoint strip_repeated_from (prev_was_slash : bool) (s : string) : string :=
  match s with
  | "" => ""
  | String c rest =>
      if decide (c = "/"%char)
      then if prev_was_slash then strip_repeated_from true rest
           else String c (strip_repeated_from true rest)
      else String c (strip_repeated_from false rest)
  end.
Definition strip_repeated_slashes (s : string) : string := strip_repeated_from false s.

Definition normalize_path_prefix (path : string) : string :=
  let forward := replace_char "\" "/" path in
  let stripped := default forward (strip_prefix "./" forward) in
  trim_end_char "/" (strip_repeated_slashes stripped).

Definition canonical_paths (sub : DraftSubsystem) : list string :=
  btree_set (normalize_path_prefix <$> sub_paths sub).

(** [collect] into a [BTreeMap]: the last entry of a key stays. *)
Definition add_subsystem (m : gmap string (list string)) (sub : DraftSubsystem) : gmap string (list string) :=
  <[sub_id sub := canonical_paths sub]> m.
Definition canonical_subsystems (subs : list DraftSubsystem) : gmap string (list string) :=
  foldl add_subsystem ∅ subs.

Section Digest.
Context `{Sha256} `{Serde CanonicalTaskCharter}.

Definition compute_digest (c : CanonicalTaskCharter) : string :=
  sha256_hex (to_vec (c <| digest := "" |>)).

Definition normalize_charter (draft : TaskCharterDraft) : CanonicalTaskCharter :=
  let canonical := {|
    schema_version := CHARTER_SCHEMA_VERSION;
    charter_id := td_charter_id draft;
    issue_number := td_issue_number draft;
    run_id := td_run_id draft;
    merge_base := td_merge_base draft;
    acceptance_criteria := btree_set (td_acceptance_criteria draft);
    non_goals := btree_set (td_non_goals draft);
    subsystems := canonical_subsystems (td_subsystems draft);
    budget := td_budget draft;
    review_caps := td_review_caps draft;
    mandatory_gates := btree_set (td_mandatory_gates draft);
    digest := ""
  |} in
  canonical <| digest := compute_digest canonical |>.
End Digest.

(** ** Validation of a draft *)

(** [if bad { return Err(..) }] *)
Definition refuse_if {E} (bad : bool) (e : E) : Res E unit := if bad then Err e else Ok tt.

Definition validate_draft_required_fields (d : TaskCharterDraft) : Res string unit :=
  refuse_if (str_is_empty (td_charter_id d)) "charter_id must not be empty";;
  refuse_if (str_is_empty (td_run_id d)) "run_id must not be empty";;
  refuse_if (str_is_empty (td_merge_base d)) "merge_base must not be empty";;
  refuse_if (td_issue_number d =? 0)%Z "issue_number must be positive";;
  refuse_if (bool_decide (td_acceptance_criteria d = [])) "acceptance_criteria must not be empty";;
  refuse_if (bool_decide (td_non_goals d = [])) "non_goals must not be empty";;
  refuse_if (match td_subsystems d with [] => true | _ => false end) "subsystems must not be empty";;
  refuse_if (bool_decide (td_mandatory_gates d = [])) "mandatory_gates must not be empty".

Definition validate_draft_budgets_positive (d : TaskCharterDraft) : Res string unit :=
  let b := td_budget d in
  let r := td_review_caps d in
  refuse_if (max_files_changed b =? 0)%Z "charter budget max_files_changed must be positive";;
  refuse_if (max_added_lines b =? 0)%Z "charter budget max_added_lines must be positive";;
  refuse_if (max_new_modules b =? 0)%Z "charter budget max_new_modules must be positive";;
  refuse_if (max_public_apis_added b =? 0)%Z "charter budget max_public_apis_added must be positive";;
  refuse_if (initial_full_reviews r =? 0)%Z "charter review_caps initial_full_reviews must be positive";;
  refuse_if (max_delta_reviews r =? 0)%Z "charter review_caps max_delta_reviews must be positive";;
  refuse_if (final_acceptance_reviews r =? 0)%Z "charter review_caps final_acceptance_reviews must be positive";;
  refuse_if (max_mutating_remediation_rounds r =? 0)%Z
    "charter review_caps max_mutating_remediation_rounds must be positive".

Definition exceeds_ceiling (metric : string) (drafted ceiling : Z) : string :=
  "charter budget " +:+ metric +:+ " (" +:+ pretty drafted +:+ ") exceeds configured ceiling (" +:+
  pretty ceiling +:+ ")".

Definition validate_budget_ceiling (draft : DraftBudget) (ceiling : ScopeBudgetConfig) : Res string unit :=
  let check metric (f : ScopeBudgetConfig -> Z) :=
    refuse_if (f ceiling <? f draft)%Z (exceeds_ceiling metric (f draft) (f ceiling)) in
  check "max_files_changed" max_files_changed;;
  check "max_added_lines" max_added_lines;;
  check "max_new_modules" max_new_modules;;
  check "max_dependencies_added" max_dependencies_added;;
  check "max_public_apis_added" max_public_apis_added.

(** [is_path_within] of [model.rs]. *)
Definition is_path_within (path prefix : string) : bool :=
  (path =?s prefix) || path_starts_with path prefix.

(** [config_map.get]: of two configured subsystems with one id, the later. *)
Definition configured_subsystem (config : list ScopeSubsystemConfig) (id : string)
    : option ScopeSubsystemConfig :=
  foldl (fun found sub => if sub_id sub =?s id then Some sub else found) None config.

Definition quoted (s : string) : string := "'" +:+ s +:+ "'".

Fixpoint check_subsystem_paths (id : string) (prefixes paths : list string) : Res string unit :=
  match paths with
  | [] => Ok tt
  | path :: rest =>
      refuse_if (negb (existsb (is_path_within (normalize_path_prefix path)) prefixes))
        ("charter subsystem " +:+ quoted id +:+ " path " +:+ quoted path +:+
         " is not within configured prefixes");;
      check_subsystem_paths id prefixes rest
  end.

Fixpoint check_subsystems (config : list ScopeSubsystemConfig) (seen : list string)
    (subs : list DraftSubsystem) : Res string unit :=
  match subs with
  | [] => Ok tt
  | sub :: rest =>
      let id := sub_id sub in
      refuse_if (bool_decide (id ∈ seen)) ("duplicate charter subsystem id " +:+ quoted id);;
      refuse_if (existsb unsafe_path (sub_paths sub))
        ("charter subsystem " +:+ quoted id +:+ " has unsafe path");;
      match configured_subsystem config id with
      | None => Err ("charter subsystem " +:+ quoted id +:+ " is not in configured subsystems")
      | Some config_sub =>
          check_subsystem_paths id (normalize_path_prefix <$> sub_paths config_sub) (sub_paths sub);;
          check_subsystems config (id :: seen) rest
      end
  end.

Definition validate_subsystems (draft_subs : list DraftSubsystem) (config_subs : list ScopeSubsystemConfig)
    : Res string unit := check_subsystems config_subs [] draft_subs.

Definition validate_draft_against_config (draft : TaskCharterDraft) (config : ScopeControlConfig)
    : Res string unit :=
  validate_draft_required_fields draft;;
  validate_draft_budgets_positive draft;;
  validate_budget_ceiling (td_budget draft) (sc_budget config);;
  validate_subsystems (td_subsystems draft) (sc_subsystems config).

(** ** Validation of the policy ([config_validation.rs]) *)

Module Policy.

(** [if bad { errors.push(..) }] *)
Definition push_if (bad : bool) (error : string) : list string := if bad then [error] else [].

Definition validate_budget (sc : ScopeControlConfig) : list string :=
  let b := sc_budget sc in
  push_if (max_files_changed b =? 0)%Z "budget.max_files_changed must be positive" ++
  push_if (max_added_lines b =? 0)%Z "budget.max_added_lines must be positive" ++
  push_if (max_new_modules b =? 0)%Z "budget.max_new_modules must be positive" ++
  push_if (max_public_apis_added b =? 0)%Z "budget.max_public_apis_added must be positive".

Definition validate_review_caps (sc : ScopeControlConfig) : list string :=
  let r := sc_review_caps sc in
  push_if (negb (initial_full_reviews r =? 1)%Z) "review_caps.initial_full_reviews must be exactly 1" ++
  push_if (max_delta_reviews r =? 0)%Z "review_caps.max_delta_reviews must be positive" ++
  push_if (negb (final_acceptance_reviews r =? 1)%Z)
    "review_caps.final_acceptance_reviews must be exactly 1" ++
  push_if (max_mutating_remediation_rounds r =? 0)%Z
    "review_caps.max_mutating_remediation_rounds must be positive".

(** A loop over [l] that also knows which keys it saw before. *)
Fixpoint each_seen {A} (key : A -> string) (f : bool -> A -> list string) (seen : list string) (l : list A)
    : list string :=
  match l with
  | [] => []
  | a :: rest => f (bool_decide (key a ∈ seen)) a ++ each_seen key f (key a :: seen) rest
  end.

Definition validate_repo_relative_path (value : string) : Res string unit :=
  if str_is_empty value then Err "must not be empty"
  else if unsafe_path value then Err "must be a relative path under the repository root"
  else Ok tt.

(** The message of a path that is refused. *)
Definition path_error (context : string -> string) (path : string) : list string :=
  match validate_repo_relative_path path with Ok _ => [] | Err msg => [context msg] end.

Definition subsystem_path_errors (id : string) (duplicate : bool) (path : string) : list string :=
  path_error (fun msg => "subsystem " +:+ quoted id +:+ " path " +:+ quoted path +:+ ": " +:+ msg) path ++
  push_if duplicate ("subsystem " +:+ quoted id +:+ " has duplicate path " +:+ quoted path).

(** An empty id is reported and the entry skipped, so it never counts as seen;
    an empty string seen once changes no later answer. *)
Definition subsystem_errors (duplicate : bool) (sub : ScopeSubsystemConfig) : list string :=
  if str_is_empty (sub_id sub) then ["subsystem id must not be empty"]
  else
    push_if duplicate ("duplicate subsystem id " +:+ quoted (sub_id sub)) ++
    push_if (bool_decide (sub_paths sub = []))
      ("subsystem " +:+ quoted (sub_id sub) +:+ " must declare at least one path") ++
    each_seen id (subsystem_path_errors (sub_id sub)) [] (sub_paths sub).

Definition validate_subsystems (sc : ScopeControlConfig) : list string :=
  push_if (match sc_subsystems sc with [] => true | _ => false end) "subsystems must not be empty" ++
  each_seen sub_id subsystem_errors [] (sc_subsystems sc).

Definition section_errors (path : string) (duplicate : bool) (section : string) : list string :=
  push_if (str_is_empty section)
    ("dependency manifest " +:+ quoted path +:+ " sections must not be empty") ++
  push_if duplicate
    ("dependency manifest " +:+ quoted path +:+ " has duplicate section " +:+ quoted section).

Definition manifest_errors (duplicate : bool) (m : ScopeDependencyManifestConfig) : list string :=
  path_error (fun msg => "dependency manifest path " +:+ quoted (mf_path m) +:+ ": " +:+ msg) (mf_path m) ++
  push_if duplicate ("duplicate dependency manifest path " +:+ quoted (mf_path m)) ++
  each_seen id (section_errors (mf_path m)) [] (mf_sections m).

Definition validate_dependency_manifests (sc : ScopeControlConfig) : list string :=
  each_seen mf_path manifest_errors [] (dependency_manifests sc).

Definition validate_measurement (valid_regex : string -> bool) (sc : ScopeControlConfig) : list string :=
  let m := sc_measurement sc in
  (if bool_decide (source_extensions m = [])
   then ["measurement.source_extensions must not be empty"]
   else push_if (existsb str_is_empty (source_extensions m))
          "measurement.source_extensions must not contain empty entries") ++
  (public_api_regexes m ≫= fun pattern =>
     push_if (negb (valid_regex pattern))
       ("measurement.public_api_regexes contains invalid regex " +:+ quoted pattern)) ++
  push_if (negb (disable_rename_inference m))
    "measurement.disable_rename_inference must be true for deterministic measurement" ++
  push_if (negb (enumerate_untracked m))
    "measurement.enumerate_untracked must be true for deterministic measurement".

Definition unknown_group (field group : string) : string :=
  "scope_control " +:+ field +:+ " " +:+ quoted group +:+ " is not a known manifest group".

Definition validate_command_manifest_references (command_manifest : option CommandManifest)
    (sc : ScopeControlConfig) : list string :=
  if bool_decide (mandatory_command_groups sc = []) && bool_decide (partial_compile_command sc = None) &&
     bool_decide (partial_compile_group sc = None) then []
  else match command_manifest with
  | None =>
      push_if (bool_decide (mandatory_command_groups sc <> []))
        "scope_control mandatory_command_groups require a command_manifest" ++
      push_if (bool_decide (is_Some (partial_compile_group sc)))
        "scope_control partial_compile_group requires a command_manifest" ++
      push_if (bool_decide (is_Some (partial_compile_command sc)))
        "scope_control partial_compile_command requires a command_manifest"
  | Some manifest =>
      let unknown group := bool_decide (manifest_groups manifest !! group = None) in
      (mandatory_command_groups sc ≫= fun group =>
         push_if (unknown group) (unknown_group "mandatory_command_group" group)) ++
      (if partial_compile_command sc is Some cmd then
         push_if (bool_decide (cmd ∉ command_ids manifest))
           ("scope_control partial_compile_command " +:+ quoted cmd +:+ " is not a known manifest command")
       else []) ++
      (if partial_compile_group sc is Some group then
         push_if (unknown group) (unknown_group "partial_compile_group" group)
       else [])
  end.

Definition gate_errors (duplicate : bool) (gate : string) : list string :=
  push_if (str_is_empty gate) "scope_control mandatory_gates must not contain empty entries" ++
  push_if duplicate ("scope_control mandatory_gates must not contain duplicate " +:+ quoted gate).

Definition validate_mandatory_gates (sc : ScopeControlConfig) : list string :=
  push_if (bool_decide (sc_mandatory_gates sc = []))
    "scope_control mandatory_gates must not be empty when scope control is enabled" ++
  each_seen id gate_errors [] (sc_mandatory_gates sc).

(** [validate_scope_control] of a workflow config's profile and manifest; its
    error is the message of the [ConfigError]. *)
Definition validate_scope_control (valid_regex : string -> bool) (profile : option ScopeControlConfig)
    (command_manifest : option CommandManifest) : Res string unit :=
  match profile with
  | None => Ok tt
  | Some sc =>
      if negb (enabled sc) then Ok tt
      else
        let errors :=
          validate_budget sc ++ validate_review_caps sc ++ validate_subsystems sc ++
          validate_dependency_manifests sc ++ validate_measurement valid_regex sc ++
          validate_command_manifest_references command_manifest sc ++ validate_mandatory_gates sc in
        match errors with
        | [] => Ok tt
        | _ => Err ("invalid scope_control config: " +:+ join_with "; " errors)
        end
  end.

Definition active_scope_control (sc : ScopeControlConfig) : option ScopeControlConfig :=
  if enabled sc then Some sc else None.
End Policy.

(** ** Ordered sets *)

Lemma elem_of_btree_set x l : x ∈ btree_set l <-> x ∈ l.
Proof. unfold btree_set. by rewrite merge_sort_Permutation, elem_of_remove_dups. Qed.

Lemma btree_set_ext l l' : (forall x, x ∈ l <-> x ∈ l') -> btree_set l = btree_set l'.
Proof.
  intros Heq. unfold btree_set. apply (Sorted_unique String.le); [apply Sorted_merge_sort, _..|].
  rewrite !merge_sort_Permutation. apply NoDup_Permutation; [apply NoDup_remove_dups..|].
  intros x. by rewrite !elem_of_remove_dups.
Qed.

Lemma btree_set_nil l : btree_set l = [] <-> l = [].
Proof.
  split; [|by intros ->]. intros H. destruct l as [|x l]; [done|].
  assert (x ∈ btree_set (x :: l)) as Hx by (apply elem_of_btree_set; constructor).
  rewrite H in Hx. by apply elem_of_nil in Hx.
Qed.

(** ** Refusals *)

Lemma refuse_if_Ok {E A} (bad : bool) (e : E) (k : Res E A) (a : A) :
  (refuse_if bad e;; k) = Ok a <-> bad = false /\ k = Ok a.
Proof. destruct bad; cbn; naive_solver. Qed.

Lemma refuse_last_Ok {E} (bad : bool) (e : E) : refuse_if bad e = Ok tt <-> bad = false.
Proof. destruct bad; cbn; naive_solver. Qed.

Lemma unit_bind_Ok {E A} (m : Res E unit) (k : Res E A) (a : A) :
  (m;; k) = Ok a <-> m = Ok tt /\ k = Ok a.
Proof. destruct m as [[]|]; cbn; naive_solver. Qed.

Ltac refusals := rewrite ?refuse_if_Ok, ?unit_bind_Ok, ?refuse_last_Ok.

(** ** What a validated draft is *)

Definition subsystem_admitted (config : list ScopeSubsystemConfig) (sub : DraftSubsystem) : Prop :=
  (forall p, p ∈ sub_paths sub -> unsafe_path p = false) /\
  exists c, configured_subsystem config (sub_id sub) = Some c /\
    forall p, p ∈ sub_paths sub -> exists q, q ∈ sub_paths c /\
      is_path_within (normalize_path_prefix p) (normalize_path_prefix q) = true.

Record budget_admitted (b ceiling : ScopeBudgetConfig) : Prop := {
  files_within : (max_files_changed b <= max_files_changed ceiling)%Z /\ max_files_changed b <> 0%Z;
  lines_within : (max_added_lines b <= max_added_lines ceiling)%Z /\ max_added_lines b <> 0%Z;
  modules_within : (max_new_modules b <= max_new_modules ceiling)%Z /\ max_new_modules b <> 0%Z;
  dependencies_within : (max_dependencies_added b <= max_dependencies_added ceiling)%Z;
  apis_within : (max_public_apis_added b <= max_public_apis_added ceiling)%Z /\ max_public_apis_added b <> 0%Z
}.

Definition caps_admitted (r : DraftReviewCaps) : Prop :=
  (initial_full_reviews r <> 0 /\ max_delta_reviews r <> 0 /\ final_acceptance_reviews r <> 0 /\
   max_mutating_remediation_rounds r <> 0)%Z.

Definition fields_present (d : TaskCharterDraft) : Prop :=
  td_charter_id d <> "" /\ td_run_id d <> "" /\ td_merge_base d <> "" /\ td_issue_number d <> 0%Z /\
  td_acceptance_criteria d <> [] /\ td_non_goals d <> [] /\ td_subsystems d <> [] /\
  td_mandatory_gates d <> [].

Record draft_admitted (d : TaskCharterDraft) (config : ScopeControlConfig) : Prop := {
  admitted_fields : fields_present d;
  admitted_budget : budget_admitted (td_budget d) (sc_budget config);
  admitted_caps : caps_admitted (td_review_caps d);
  admitted_ids : NoDup (sub_id <$> td_subsystems d);
  admitted_subsystems : forall sub, sub ∈ td_subsystems d -> subsystem_admitted (sc_subsystems config) sub
}.

Lemma required_fields_Ok d : validate_draft_required_fields d = Ok tt <-> fields_present d.
Proof.
  unfold validate_draft_required_fields, fields_present, str_is_empty. refusals.
  rewrite !bool_decide_eq_false, Z.eqb_neq. destruct (td_subsystems d); naive_solver.
Qed.

Lemma budgets_Ok d ceiling :
  validate_draft_budgets_positive d = Ok tt /\ validate_budget_ceiling (td_budget d) ceiling = Ok tt <->
  budget_admitted (td_budget d) ceiling /\ caps_admitted (td_review_caps d).
Proof.
  unfold validate_draft_budgets_positive, validate_budget_ceiling, caps_admitted. cbn zeta beta.
  refusals. rewrite !Z.eqb_neq, !Z.ltb_ge. split; [|intros [[] ?]]; intuition (try constructor; done).
Qed.

Lemma existsb_false {A} (f : A -> bool) l : existsb f l = false <-> forall a, a ∈ l -> f a = false.
Proof.
  induction l as [|a l IH]; cbn; [split; [intros _ ? []%elem_of_nil|done]|].
  rewrite orb_false_iff, IH. setoid_rewrite elem_of_cons. naive_solver.
Qed.

Lemma existsb_true {A} (f : A -> bool) l : existsb f l = true <-> exists a, a ∈ l /\ f a = true.
Proof. rewrite existsb_exists. by setoid_rewrite list_elem_of_In. Qed.

Lemma subsystem_paths_Ok id prefixes paths :
  check_subsystem_paths id prefixes paths = Ok tt <->
  forall p, p ∈ paths -> exists q, q ∈ prefixes /\ is_path_within (normalize_path_prefix p) q = true.
Proof.
  induction paths as [|p paths IH]; cbn; [split; [intros _ ? []%elem_of_nil|done]|].
  rewrite refuse_if_Ok, negb_false_iff, existsb_true, IH. setoid_rewrite elem_of_cons. naive_solver.
Qed.

Lemma check_subsystems_Ok config seen subs :
  check_subsystems config seen subs = Ok tt <->
  NoDup (sub_id <$> subs) /\ (forall sub, sub ∈ subs -> sub_id sub ∉ seen /\ subsystem_admitted config sub).
Proof.
  revert seen. induction subs as [|sub subs IH]; intros seen; cbn.
  { split; [|done]. intros _. split; [constructor|]. intros ? []%elem_of_nil. }
  rewrite !refuse_if_Ok, bool_decide_eq_false, existsb_false. unfold subsystem_admitted at 1.
  destruct (configured_subsystem config (sub_id sub)) as [c|] eqn:Ec.
  - rewrite unit_bind_Ok, subsystem_paths_Ok, IH, NoDup_cons.
    setoid_rewrite list_elem_of_fmap. split.
    + intros (Hseen & Hsafe & Hwithin & Hnd & Hrest). split; [split; [|done]|].
      * intros (s & Heq & Hs). destruct (Hrest s Hs) as [Hno _]. apply Hno, elem_of_cons. by left.
      * intros s [->|Hs]%elem_of_cons.
        -- split; [done|]. split; [done|]. exists c. split; [done|].
           intros p Hp. destruct (Hwithin p Hp) as (q & (q' & -> & Hq') & Hpq). eauto.
        -- destruct (Hrest s Hs) as [[_ Hno]%not_elem_of_cons Hadm]. done.
    + intros [[Hnotin Hnd] Hall].
      destruct (Hall sub) as (Hseen & Hsafe & c' & Hc' & Hwithin); [apply elem_of_cons; by left|].
      rewrite Ec in Hc'. simplify_eq. split_and!; try done.
      * intros p Hp. destruct (Hwithin p Hp) as (q & Hq & Hpq). eauto.
      * intros s Hs. destruct (Hall s) as [Hno Hadm]; [apply elem_of_cons; by right|].
        split; [|done]. apply not_elem_of_cons. split; [|done]. intros Heq. apply Hnotin. eauto.
  - split; [by intros (_ & _ & [=])|]. intros [_ Hall].
    destruct (Hall sub) as (_ & _ & c & Hc & _); [apply elem_of_cons; by left|]. congruence.
Qed.

Lemma validate_subsystems_Ok subs config :
  validate_subsystems subs config = Ok tt <->
  NoDup (sub_id <$> subs) /\ forall sub, sub ∈ subs -> subsystem_admitted config sub.
Proof.
  unfold validate_subsystems. rewrite check_subsystems_Ok.
  split; intros [Hnd Hall]; (split; [done|]); intros sub Hsub; [by apply Hall|].
  split; [apply not_elem_of_nil|by apply Hall].
Qed.

(** A draft passes validation exactly when every required field is present,
    its budget is positive and within the configured ceilings, its review caps
    are positive, its subsystem ids are distinct and each is configured, with
    every path inside the repository and under a configured prefix. *)
Lemma draft_validation_exact draft config :
  validate_draft_against_config draft config = Ok tt <-> draft_admitted draft config.
Proof.
  unfold validate_draft_against_config. refusals.
  rewrite validate_subsystems_Ok, required_fields_Ok.
  pose proof (budgets_Ok draft (sc_budget config)) as Hb.
  split; [intros (? & ? & ? & ? & ?)|intros []]; [constructor|]; tauto.
Qed.

(** ** A validated policy admits its own subsystems *)

Lemma app_nil_three {A} (k l m : list A) : k ++ l ++ m = [] -> k = [] /\ l = [] /\ m = [].
Proof. by rewrite !app_nil. Qed.

Lemma push_if_nil bad e : Policy.push_if bad e = [] <-> bad = false.
Proof. by destruct bad. Qed.

Lemma each_seen_nil {A} (key : A -> string) f seen l :
  Policy.each_seen key f seen l = [] ->
  (forall b a, f b a = [] -> b = false) ->
  NoDup (key <$> l) /\ forall a, a ∈ l -> key a ∉ seen /\ f false a = [].
Proof.
  intros Hnil Hf. revert seen Hnil. induction l as [|a l IH]; intros seen; cbn.
  { intros _. split; [constructor|]. intros ? []%elem_of_nil. }
  intros [Ha Hl]%app_nil. pose proof (Hf _ _ Ha) as Hseen. rewrite Hseen in Ha.
  apply bool_decide_eq_false in Hseen. destruct (IH _ Hl) as [Hnd Hall]. split.
  - apply NoDup_cons. split; [|done]. intros (b & Heq & Hb)%list_elem_of_fmap.
    destruct (Hall b Hb) as [Hno _]. apply Hno, elem_of_cons. by left.
  - intros b [->|Hb]%elem_of_cons; [done|].
    by destruct (Hall b Hb) as [[_ Hno]%not_elem_of_cons Hb'].
Qed.

Lemma path_error_nil f p : Policy.path_error f p = [] -> unsafe_path p = false.
Proof.
  unfold Policy.path_error, Policy.validate_repo_relative_path.
  destruct (str_is_empty p); [done|]. by destruct (unsafe_path p).
Qed.

Lemma configured_in config sub :
  NoDup (sub_id <$> config) -> sub ∈ config -> configured_subsystem config (sub_id sub) = Some sub.
Proof.
  unfold configured_subsystem. generalize (@None ScopeSubsystemConfig).
  induction config as [|c config IH]; intros found Hnd Hin; [by apply elem_of_nil in Hin|].
  rewrite fmap_cons in Hnd. apply NoDup_cons in Hnd as [Hc Hnd]. cbn [foldl].
  destruct (decide (sub = c)) as [->|Hne].
  - rewrite bool_decide_eq_true_2 by done.
    assert (forall found', foldl (fun found0 s => if sub_id s =?s sub_id c then Some s else found0)
      found' config = found') as Hkeep; [|apply Hkeep].
    clear IH Hnd Hin. induction config as [|d config IH]; intros found'; [done|]. cbn [foldl].
    rewrite bool_decide_eq_false_2.
    + apply IH. intros Hin. apply Hc. rewrite fmap_cons. by apply elem_of_cons; right.
    + intros Heq. apply Hc. rewrite fmap_cons, Heq. by apply elem_of_cons; left.
  - apply elem_of_cons in Hin as [->|Hin]; [done|]. by apply IH.
Qed.

(** What an accepted policy promises the charters drafted from it. *)
Lemma policy_admits_itself valid_regex sc manifest :
  enabled sc = true ->
  Policy.validate_scope_control valid_regex (Some sc) manifest = Ok tt ->
  budget_admitted (sc_budget sc) (sc_budget sc) /\ caps_admitted (sc_review_caps sc) /\
  sc_subsystems sc <> [] /\ sc_mandatory_gates sc <> [] /\ NoDup (sub_id <$> sc_subsystems sc) /\
  forall sub, sub ∈ sc_subsystems sc -> subsystem_admitted (sc_subsystems sc) sub.
Proof.
  intros Hen Hval. cbn in Hval. rewrite Hen in Hval. cbn [negb] in Hval. case_match eqn:Herr; [|done].
  rewrite !app_nil in Herr. destruct Herr as (Hbudget & Hcaps & Hsubs & _ & _ & _ & Hgates).
  unfold Policy.validate_budget in Hbudget. unfold Policy.validate_review_caps in Hcaps.
  unfold Policy.validate_subsystems in Hsubs. unfold Policy.validate_mandatory_gates in Hgates.
  rewrite ?app_nil, ?push_if_nil in Hbudget, Hcaps. apply app_nil in Hsubs as [Hne Hsubs].
  apply app_nil in Hgates as [Hgate _]. rewrite push_if_nil, bool_decide_eq_false in Hgate.
  rewrite !Z.eqb_neq in Hbudget. rewrite !negb_false_iff, !Z.eqb_neq, !Z.eqb_eq in Hcaps.
  apply push_if_nil in Hne.
  assert (forall b sub, Policy.subsystem_errors b sub = [] ->
    b = false /\ forall p, p ∈ sub_paths sub -> unsafe_path p = false) as Hsub.
  { intros b sub. unfold Policy.subsystem_errors. destruct (str_is_empty (sub_id sub)); [done|].
    intros (Hdup%push_if_nil & _ & Hpaths)%app_nil_three. split; [done|]. intros p Hp.
    apply each_seen_nil in Hpaths as [_ Hpaths].
    - destruct (Hpaths p Hp) as [_ [Hp' _]%app_nil]. by eapply path_error_nil.
    - by intros ?? [_ ?%push_if_nil]%app_nil. }
  apply each_seen_nil in Hsubs as [Hnd Hsubs]; [|by intros ?? [? _]%Hsub].
  split_and!; try done.
  - constructor; lia.
  - unfold caps_admitted. lia.
  - by destruct (sc_subsystems sc).
  - intros sub Hin. destruct (Hsubs sub Hin) as [_ [_ Hsafe]%Hsub]. split; [done|].
    exists sub. split; [by apply configured_in|]. intros p Hp. exists p. split; [done|].
    unfold is_path_within. by rewrite bool_decide_eq_true_2.
Qed.

(** ** One charter per scope *)

(** Two subsystem lists that declare the same: in any order, with the same
    paths up to repetition, order and spelling. *)
Definition same_subsystem (s s' : DraftSubsystem) : Prop :=
  sub_id s = sub_id s' /\
  forall p, p ∈ normalize_path_prefix <$> sub_paths s <-> p ∈ normalize_path_prefix <$> sub_paths s'.

Definition same_subsystems (l l' : list DraftSubsystem) : Prop :=
  exists k, l ≡ₚ k /\ Forall2 same_subsystem k l'.

Definition same_elements (l l' : list string) : Prop := forall x, x ∈ l <-> x ∈ l'.

(** Drafts that differ in the order, the repetition and the spelling of what
    they list. *)
Record same_scope (d d' : TaskCharterDraft) : Prop := {
  same_id : td_charter_id d = td_charter_id d';
  same_issue : td_issue_number d = td_issue_number d';
  same_run : td_run_id d = td_run_id d';
  same_base : td_merge_base d = td_merge_base d';
  same_criteria : same_elements (td_acceptance_criteria d) (td_acceptance_criteria d');
  same_goals : same_elements (td_non_goals d) (td_non_goals d');
  same_subs : same_subsystems (td_subsystems d) (td_subsystems d');
  same_budget : td_budget d = td_budget d';
  same_caps : td_review_caps d = td_review_caps d';
  same_gates : same_elements (td_mandatory_gates d) (td_mandatory_gates d')
}.

Lemma same_subsystem_paths s s' : same_subsystem s s' -> canonical_paths s = canonical_paths s'.
Proof. intros [_ Hp]. by apply btree_set_ext. Qed.

Lemma canonical_subsystems_Forall2 l l' m :
  Forall2 same_subsystem l l' ->
  foldl add_subsystem m l =
  foldl add_subsystem m l'.
Proof.
  intros Hl. revert m. induction Hl as [|s s' l l' Hs Hl IH]; intros m; [done|]. cbn [foldl].
  unfold add_subsystem at 2 4. rewrite (same_subsystem_paths s s' Hs). destruct Hs as [-> _]. apply IH.
Qed.

(** An entry of the map is an entry of the list, when ids are distinct. *)
Lemma canonical_subsystems_lookup l m id :
  NoDup (sub_id <$> l) ->
  foldl add_subsystem m l !! id =
  match list_find (fun s => sub_id s = id) l with
  | Some (_, s) => Some (canonical_paths s)
  | None => m !! id
  end.
Proof.
  revert m. induction l as [|s l IH]; intros m Hnd; [done|].
  rewrite fmap_cons in Hnd. apply NoDup_cons in Hnd as [Hs Hnd]. cbn [foldl list_find].
  rewrite IH by done. destruct (decide (sub_id s = id)) as [Heq|Hne].
  - destruct (list_find (fun s0 => sub_id s0 = id) l) as [[i s']|] eqn:Ef; cbn.
    + apply list_find_Some in Ef as (Hl & Hid & _). destruct Hs. rewrite Heq, <- Hid.
      apply list_elem_of_fmap. exists s'. split; [done|]. by eapply list_elem_of_lookup_2.
    + rewrite <- Heq. unfold add_subsystem. by rewrite lookup_insert_eq.
  - destruct (list_find (fun s0 => sub_id s0 = id) l) as [[i s']|]; cbn; [done|].
    unfold add_subsystem. by rewrite lookup_insert_ne.
Qed.

Lemma canonical_subsystems_perm l k :
  l ≡ₚ k -> NoDup (sub_id <$> l) -> canonical_subsystems l = canonical_subsystems k.
Proof.
  intros Hp Hnd. assert (NoDup (sub_id <$> k)) as Hndk by (by rewrite <- Hp).
  apply map_eq. intros id. unfold canonical_subsystems.
  rewrite !canonical_subsystems_lookup by done.
  destruct (list_find (fun s => sub_id s = id) l) as [[i s]|] eqn:El,
    (list_find (fun s => sub_id s = id) k) as [[j t]|] eqn:Ek; [|exfalso..|done].
  - apply list_find_Some in El as (Hl%list_elem_of_lookup_2 & Hid & _).
    apply list_find_Some in Ek as (Hk%list_elem_of_lookup_2 & Hid' & _).
    rewrite <- Hp in Hk. do 2 f_equal.
    destruct (decide (s = t)) as [|Hne]; [done|]. exfalso.
    apply list_elem_of_lookup in Hl as [a Ha]. apply list_elem_of_lookup in Hk as [b Hb].
    assert (a = b) as ->; [|congruence].
    apply (NoDup_lookup _ _ _ id Hnd); rewrite list_lookup_fmap, ?Ha, ?Hb; cbn; congruence.
  - apply list_find_Some in El as (Hl%list_elem_of_lookup_2 & Hid & _).
    apply list_find_None in Ek. rewrite Forall_forall in Ek. rewrite Hp in Hl. by apply (Ek s).
  - apply list_find_Some in Ek as (Hk%list_elem_of_lookup_2 & Hid & _).
    apply list_find_None in El. rewrite Forall_forall in El. rewrite <- Hp in Hk. by apply (El t).
Qed.

(** Normalization gives one charter per scope: drafts that list the same
    criteria, non-goals, gates and subsystem paths - in any order, with
    repetitions, with backslashes, doubled or trailing slashes - become the
    same charter, so they have the same digest.  Its lists are sorted without
    repetitions and hold exactly what the draft listed. *)
Theorem normalization_canonical `{Sha256} `{Serde CanonicalTaskCharter} draft draft' :
  same_scope draft draft' -> NoDup (sub_id <$> td_subsystems draft) ->
  normalize_charter draft = normalize_charter draft' /\
  (forall l, l ∈ [acceptance_criteria; non_goals; mandatory_gates] ->
    Sorted String.le (l (normalize_charter draft)) /\ NoDup (l (normalize_charter draft))) /\
  same_elements (acceptance_criteria (normalize_charter draft)) (td_acceptance_criteria draft).
Proof.
  intros [Hid Hissue Hrun Hbase Hcrit Hgoals (k & Hperm & Hk) Hbudget Hcaps Hgates] Hnd.
  split_and!.
  - unfold normalize_charter.
    rewrite Hid, Hissue, Hrun, Hbase, Hbudget, Hcaps.
    rewrite (btree_set_ext _ _ Hcrit), (btree_set_ext _ _ Hgoals), (btree_set_ext _ _ Hgates).
    rewrite (canonical_subsystems_perm _ _ Hperm Hnd). unfold canonical_subsystems.
    by rewrite (canonical_subsystems_Forall2 _ _ _ Hk).
  - intros l Hl. rewrite !elem_of_cons in Hl. destruct Hl as [->|[->|[->|[]%elem_of_nil]]];
      (split; [apply Sorted_merge_sort, _|cbn; unfold btree_set; rewrite merge_sort_Permutation;
        apply NoDup_remove_dups]).
  - intros x. apply elem_of_btree_set.
Qed.

(** *** Examples *)

Section Examples.
#[local] Instance sample_sha : Sha256 := fun b => b.
#[local] Instance sample_charter_serde : Serde CanonicalTaskCharter := {|
  to_vec c := charter_id c; to_string_pretty c := charter_id c; from_slice _ := Err "not json"
|}.

Definition sample_budget : ScopeBudgetConfig := mkBudget 5 100 3 0 5.
Definition sample_caps : ScopeReviewCapsConfig := mkReviewCaps 1 2 1 2.

Definition sample_draft : TaskCharterDraft := {|
  td_charter_id := "T"; td_issue_number := 1; td_run_id := "r"; td_merge_base := "abc";
  td_acceptance_criteria := ["b"; "a"; "b"]; td_non_goals := ["NG"];
  td_subsystems := [mkSubsystem "core" ["src//core/"; ".\src\core"]]; td_budget := sample_budget;
  td_review_caps := sample_caps; td_mandatory_gates := ["cargo test"]
|}.

Definition tidy_draft : TaskCharterDraft := {|
  td_charter_id := "T"; td_issue_number := 1; td_run_id := "r"; td_merge_base := "abc";
  td_acceptance_criteria := ["a"; "b"]; td_non_goals := ["NG"];
  td_subsystems := [mkSubsystem "core" ["src/core"]]; td_budget := sample_budget;
  td_review_caps := sample_caps; td_mandatory_gates := ["cargo test"]
|}.

(** A leading [./] is stripped once: what remains may still start with one, or
    with a slash. *)
Example normalization_not_idempotent :
  normalize_path_prefix "././src" = "./src" /\ normalize_path_prefix "./src" = "src" /\
  unsafe_path ".//src" = false /\ normalize_path_prefix ".//src" = "/src".
Proof. by vm_compute. Qed.

Lemma normalization_canonical_witness :
  same_scope sample_draft tidy_draft /\ normalize_charter sample_draft = normalize_charter tidy_draft.
Proof.
  assert (same_scope sample_draft tidy_draft) as Hsame.
  { constructor; try reflexivity; try (by intros x).
    - intros x. cbn. rewrite !elem_of_cons, elem_of_nil. tauto.
    - exists (td_subsystems sample_draft). split; [reflexivity|]. constructor; [|constructor].
      split; [reflexivity|]. intros p.
      change (p ∈ ["src/core"; "src/core"] <-> p ∈ ["src/core"]).
      rewrite !elem_of_cons, elem_of_nil. tauto. }
  split; [exact Hsame|].
  apply (normalization_canonical _ _ Hsame). cbn. apply NoDup_singleton.
Defined.
End Examples.
