(* ===== verification/ScopeMeasurement.v ===== *)
(** Measuring a patch against its charter and evaluating the measurement
    ([components/software_change/scope_control/measurement.rs],
    [measurement_control_files.rs], [measurement_dependency_diffs.rs],
    [evaluation.rs]).

    What git prints, what a file holds, what a pattern matches and how TOML
    parses are parameters; git and the work tree are asked anew at each call, so
    nothing is assumed to stand still between two of them. *)
From S2P Require Import Prelude Effects Text Digest RunPaths Ownership Host ScopeCharter.
From Stdlib Require Import Ascii.

(** ** Text *)

(** The UTF-8 encodings of the characters [char::is_whitespace] accepts. *)
Definition utf8_bytes (l : list Z) : string := foldr (fun z s => String (byte_of z) s) "" l.
Definition WHITE_SPACE : list string := utf8_bytes <$>
  ([[9]; [10]; [11]; [12]; [13]; [32]; [194; 133]; [194; 160]; [225; 154; 128]] ++
   ((fun z => [226; 128; z]) <$> [128; 129; 130; 131; 132; 133; 134; 135; 136; 137; 138; 168; 169; 175]) ++
   [[226; 129; 159]; [227; 128; 128]])%Z.

Fixpoint trim_start_of (fuel : nat) (white : list string) (s : string) : string :=
  match fuel with
  | O => s
  | S fuel =>
      match omap (fun w => strip_prefix w s) white with
      | s' :: _ => trim_start_of fuel white s'
      | [] => s
      end
  end.

(** [str::trim] *)
Definition trim (s : string) : string :=
  let s1 := trim_start_of (String.length s) WHITE_SPACE s in
  str_rev (trim_start_of (String.length s1) (str_rev <$> WHITE_SPACE) (str_rev s1)).

(** [str::lines]: a line that ends in a line feed may lose a carriage return
    before it; a last line without one is kept as it is. *)
Fixpoint lines_of (pieces : list string) : list string :=
  match pieces with
  | [] => []
  | [last] => if str_is_empty last then [] else [last]
  | p :: rest => default p (strip_suffix (utf8_bytes [13%Z]) p) :: lines_of rest
  end.
Definition lines (s : string) : list string := lines_of (split_char "010" s).

(** [str::to_ascii_lowercase] *)
Fixpoint to_ascii_lowercase (s : string) : string :=
  match s with
  | "" => ""
  | String c rest =>
      let n := nat_of_ascii c in
      String (if decide (65 <= n <= 90) then ascii_of_nat (n + 32) else c) (to_ascii_lowercase rest)
  end.

Definition contains (s needle : string) : bool := bool_decide (is_Some (String.index 0 needle s)).

(** [Vec::dedup_by] on a key: of neighbours with one key the first stays. *)
Fixpoint dedup_by {A} (key : A -> string) (l : list A) : list A :=
  match l with
  | a :: rest =>
      match dedup_by key rest with
      | b :: rest' => if key a =?s key b then a :: rest' else a :: b :: rest'
      | [] => [a]
      end
  | [] => []
  end.

(** [u32::try_from(n).unwrap_or(u32::MAX)], [u32::saturating_add] *)
Definition to_u32_saturating (n : nat) : Z := Z.min (Z.of_nat n) u32_max.
Definition saturating_add (a b : Z) : Z := Z.min (a + b) u32_max.

(** ** What the tools answer *)

Record Output := mkOutput {
  out_success : bool;
  out_code : option Z;
  out_stdout : Bytes;
  out_stderr : Bytes
}.

(** [git] run in a directory, and the files below it, at the n-th question. *)
Class WorkTree := {
  run_git : nat -> string -> list string -> Res string Output;
  read_file : nat -> string -> Res IoError Bytes
}.

Class Regexes := { valid_regex : string -> bool; regex_error : string -> string; is_match : string -> string -> bool }.

(** A parsed TOML document, as far as tables go. *)
Inductive Toml := TomlTable (m : gmap string Toml) | TomlOther.
Class TomlParser := toml_from_str : string -> Res string Toml.

(** What the standard library prints when a text is no integer. *)
Class IntErrorText := int_error : string -> string.

Inductive MeasurementError :=
| Git (command message : string)
| HeadResolution (message : string)
| Parse (message : string)
| ControlMetadata (message : string).

Definition measurement_error_text (e : MeasurementError) : string :=
  match e with
  | Git command message => "git command " +:+ quoted command +:+ " failed: " +:+ message
  | HeadResolution msg => "failed to resolve HEAD: " +:+ msg
  | Parse msg => "failed to parse git output: " +:+ msg
  | ControlMetadata msg => "invalid workspace control metadata: " +:+ msg
  end.

(** ** Changes *)

Inductive ChangeStatus := Added | Modified | Deleted | Untracked.

Global Instance ChangeStatus_eq_dec : EqDecision ChangeStatus.
Proof. solve_decision. Defined.

Definition from_letter (letter : string) : Res MeasurementError ChangeStatus :=
  if letter =?s "A" then Ok Added
  else if letter =?s "M" then Ok Modified
  else if letter =?s "D" then Ok Deleted
  else if letter =?s "T" then Ok Modified
  else Err (Parse ("unknown status letter " +:+ quoted letter)).

Definition is_new_file (s : ChangeStatus) : bool :=
  match s with Added | Untracked => true | Modified | Deleted => false end.

Definition status_debug (s : ChangeStatus) : string :=
  match s with Added => "Added" | Modified => "Modified" | Deleted => "Deleted" | Untracked => "Untracked" end.

Record FileChange := mkFileChange {
  fc_path : string;
  fc_status : ChangeStatus;
  fc_added_lines : option Z;
  fc_deleted_lines : option Z;
  fc_is_binary : bool
}.

Record GitPatchData := mkPatchData {
  pd_head_sha : string;
  pd_divergence : Z;
  tracked_changes : list FileChange;
  untracked_files : list string
}.

Record PatchMeasurement := mkMeasurement {
  pm_merge_base : string;
  pm_head_sha : string;
  pm_divergence : Z;
  files_changed : Z;
  added_lines : Z;
  binary_files : Z;
  new_modules : Z;
  dependencies_added : Z;
  public_apis_added : Z;
  content_digest : string;
  changed_paths : list string;
  changed_subsystems : list string;
  file_details : list FileChange
}.

Global Instance FileChange_eq_dec : EqDecision FileChange.
Proof. solve_decision. Defined.
Global Instance PatchMeasurement_eq_dec : EqDecision PatchMeasurement.
Proof. solve_decision. Defined.

(** ** Reading git's output *)

Section Parsing.
Context `{ErrorText} `{IntErrorText}.

(** [String::from_utf8(..).map_err(|err| Parse(format!("{what}: {err}")))] *)
Definition utf8_text (what : string) (bytes : Bytes) : Res MeasurementError string :=
  if utf8_valid bytes then Ok bytes else Err (Parse (what +:+ ": " +:+ utf8_error_display bytes)).

Definition split_z (data : Bytes) : list Bytes :=
  List.filter (fun seg => negb (str_is_empty seg)) (split_char "000" data).

(** [chunks_exact(2)] *)
Fixpoint pairs_of {A} (l : list A) : list (A * A) :=
  match l with a :: b :: rest => (a, b) :: pairs_of rest | _ => [] end.

Definition parse_name_status_z (data : Bytes) : Res MeasurementError (list (string * string)) :=
  let segments := split_z data in
  if negb (Nat.even (length segments)) then
    Err (Parse ("name-status -z output has odd number of NUL segments (" +:+
      pretty (Z.of_nat (length segments)) +:+ "); expected status+path pairs"))
  else mapM (fun '(letter, path) =>
    status ← utf8_text "non-UTF-8 status letter in name-status" letter;
    path ← utf8_text "non-UTF-8 path in name-status" path;
    mret (status, path)) (pairs_of segments).

Inductive NumstatCount := Lines (n : Z) | Binary.
Record NumstatEntry := mkNumstat { ns_added : NumstatCount; ns_deleted : NumstatCount; ns_path : string }.

Definition parse_numstat_count (value : string) : Res MeasurementError NumstatCount :=
  if value =?s "-" then Ok Binary
  else match parse_u32 value with
       | Some n => Ok (Lines n)
       | None => Err (Parse ("invalid numstat count " +:+ quoted value +:+ ": " +:+ int_error value))
       end.

(** [splitn(3, '\t')]: the path may hold tabs. *)
Definition parse_single_numstat (line : string) : Res MeasurementError NumstatEntry :=
  match split_once "009" line with
  | None => Err (Parse ("numstat line missing deleted field: " +:+ quoted line))
  | Some (added_str, rest) =>
      match split_once "009" rest with
      | None => Err (Parse ("numstat line missing path field: " +:+ quoted line))
      | Some (deleted_str, path) =>
          added ← parse_numstat_count added_str;
          deleted ← parse_numstat_count deleted_str;
          mret (mkNumstat added deleted path)
      end
  end.

Definition parse_numstat_z (data : Bytes) : Res MeasurementError (list NumstatEntry) :=
  mapM (fun seg => entry ← utf8_text "non-UTF-8 numstat entry" seg; parse_single_numstat entry)
    (split_z data).

Definition is_binary_count (c : NumstatCount) : bool := match c with Binary => true | Lines _ => false end.
Definition count_lines (c : NumstatCount) : Z := match c with Lines n => n | Binary => 0 end.

Definition merge_entry (i : nat) (letter status_path : string) (numstat : NumstatEntry)
    : Res MeasurementError FileChange :=
  if negb (ns_path numstat =?s status_path) then
    Err (Parse ("path mismatch at index " +:+ pretty (Z.of_nat i) +:+ ": name-status=" +:+
      quoted status_path +:+ " vs numstat=" +:+ quoted (ns_path numstat)))
  else
    status ← from_letter letter;
    let is_binary := is_binary_count (ns_added numstat) || is_binary_count (ns_deleted numstat) in
    mret {|
      fc_path := status_path;
      fc_status := status;
      fc_added_lines := if is_binary then None else Some (count_lines (ns_added numstat));
      fc_deleted_lines := if is_binary then None else Some (count_lines (ns_deleted numstat));
      fc_is_binary := is_binary
    |}.

Fixpoint merge_entries (i : nat) (statuses : list (string * string)) (numstats : list NumstatEntry)
    : Res MeasurementError (list FileChange) :=
  match statuses, numstats with
  | (letter, path) :: statuses', numstat :: numstats' =>
      change ← merge_entry i letter path numstat;
      changes ← merge_entries (S i) statuses' numstats';
      mret (change :: changes)
  | _, _ => mret []
  end.

(** [sort_by] on the path, a stable sort. *)
Definition path_le (a b : FileChange) : Prop := String.le (fc_path a) (fc_path b).
#[export] Instance path_le_dec : RelDecision path_le := fun a b => _.

Definition sort_changes (changes : list FileChange) : list FileChange := merge_sort path_le changes.

Definition merge_status_and_numstat (statuses : list (string * string)) (numstats : list NumstatEntry)
    : Res MeasurementError (list FileChange) :=
  if negb (length statuses =? length numstats) then
    Err (Parse ("name-status has " +:+ pretty (Z.of_nat (length statuses)) +:+ " entries but numstat has " +:+
      pretty (Z.of_nat (length numstats)) +:+ "; Git should report the same paths in the same order"))
  else
    changes ← merge_entries 0 statuses numstats;
    mret (sort_changes changes).

Definition parse_z_paths (data : Bytes) : Res MeasurementError (list string) :=
  mapM (utf8_text "non-UTF-8 path in ls-files output") (split_z data).
End Parsing.

(** ** Collecting *)

Section Collection.
Context {D : Type} `{Env} `{WorkTree} `{ErrorText} `{IntErrorText}.

(** [Command::new("git").args(..).current_dir(work_dir).output()], with the
    error of a command that cannot be started. *)
Definition git_output (work_dir command : string) (args : list string) : M D MeasurementError Output :=
  r ← observe (fun n => run_git n work_dir args);
  lift_res (res_map_err (fun err => Git command ("failed to invoke git: " +:+ err)) r).

Definition lossy_trimmed (bytes : Bytes) : string := trim (from_utf8_lossy bytes).

Definition exit_message (out : Output) : string :=
  "exit " +:+ pretty (default (-1)%Z (out_code out)) +:+ ": " +:+ lossy_trimmed (out_stderr out).

(** A command whose failure is reported with its exit code. *)
Definition git_checked (work_dir command : string) (args : list string) : M D MeasurementError Bytes :=
  out ← git_output work_dir command args;
  if out_success out then mret (out_stdout out) else throw (Git command (exit_message out)).

Definition resolve_head_sha (work_dir : string) : M D MeasurementError string :=
  out ← git_output work_dir "rev-parse" ["rev-parse"; "HEAD"];
  if negb (out_success out) then throw (HeadResolution (lossy_trimmed (out_stderr out)))
  else
    let sha := lossy_trimmed (out_stdout out) in
    if str_is_empty sha then throw (HeadResolution "git rev-parse returned empty output") else mret sha.

Definition resolve_divergence (work_dir merge_base head_sha : string) : M D MeasurementError Z :=
  if merge_base =?s head_sha then mret 0%Z
  else
    stdout ← git_checked work_dir "rev-list --count"
      ["rev-list"; "--count"; merge_base +:+ ".." +:+ head_sha];
    text ← lift_res (utf8_text "non-UTF-8 rev-list output" stdout);
    let count_str := trim text in
    match parse_u64 count_str with
    | None => throw (Parse ("invalid rev-list count " +:+ quoted count_str +:+ ": " +:+ int_error count_str))
    | Some count => mret (Z.min count u32_max)
    end.

Definition collect_tracked_changes (work_dir merge_base head_sha : string)
    : M D MeasurementError (list FileChange) :=
  let diff_spec := if merge_base =?s head_sha then "HEAD" else merge_base in
  numstat_output ← git_checked work_dir ("diff " +:+ diff_spec +:+ " --numstat")
    ["diff"; diff_spec; "--numstat"; "--no-renames"; "-z"];
  name_status_output ← git_checked work_dir ("diff " +:+ diff_spec +:+ " --name-status")
    ["diff"; diff_spec; "--name-status"; "--no-renames"; "-z"];
  statuses ← lift_res (parse_name_status_z name_status_output);
  numstats ← lift_res (parse_numstat_z numstat_output);
  lift_res (merge_status_and_numstat statuses numstats).

Definition run_ls_files (work_dir : string) (args : list string) : M D MeasurementError (list string) :=
  stdout ← git_checked work_dir ("ls-files " +:+ join_with " " args) ("ls-files" :: args);
  lift_res (parse_z_paths stdout).

Definition collect_untracked_files (work_dir : string) : M D MeasurementError (list string) :=
  paths ← run_ls_files work_dir ["--others"; "--exclude-standard"; "-z"];
  control ← run_ls_files work_dir ["--others"; "-z"; "--"; ".luther"];
  mret (btree_set (paths ++ control)).

(** [SystemGitPatchCollector::collect] *)
Definition system_collect (work_dir merge_base : string) (config : ScopeMeasurementConfig)
    : M D MeasurementError GitPatchData :=
  head_sha ← resolve_head_sha work_dir;
  divergence ← resolve_divergence work_dir merge_base head_sha;
  tracked ← collect_tracked_changes work_dir merge_base head_sha;
  untracked ← (if enumerate_untracked config then collect_untracked_files work_dir else mret []);
  mret (mkPatchData head_sha divergence tracked untracked).

(** *** Dependency manifests *)

Fixpoint split_toml (quoted_now escaped : bool) (segment : string) (path : string) : list string :=
  match path with
  | "" => [segment]
  | String c rest =>
      let push := segment +:+ String c "" in
      if escaped then split_toml quoted_now false push rest
      else if bool_decide (c = "\"%char) && quoted_now then split_toml quoted_now true segment rest
      else if bool_decide (c = "034"%char) then split_toml (negb quoted_now) false segment rest
      else if bool_decide (c = "."%char) && negb quoted_now then segment :: split_toml quoted_now false "" rest
      else split_toml quoted_now false push rest
  end.
Definition split_toml_path (path : string) : list string := split_toml false false "" path.

(** The keys of a table, in order. *)
Definition table_keys (table : gmap string Toml) : list string :=
  merge_sort String.le (map_to_list table).*1.

(** The table under the segments of a path. *)
Fixpoint nested_table (table : gmap string Toml) (segments : list string) : option (gmap string Toml) :=
  match segments with
  | [] => Some table
  | segment :: rest =>
      match table !! segment with
      | Some (TomlTable nested) => nested_table nested rest
      | _ => None
      end
  end.

Definition collect_nested_keys (table : gmap string Toml) (path : string) : list string :=
  let segments := split_toml_path path in
  if length segments <? 2 then [] else default [] (table_keys <$> nested_table table segments).

Definition section_keys (root : gmap string Toml) (section : string) : list string :=
  (if root !! section is Some (TomlTable table) then table_keys table else []) ++
  collect_nested_keys root section.

Context `{TomlParser}.

Definition extract_dependency_keys (content : string) (sections : list string)
    : Res MeasurementError (list string) :=
  parsed ← res_map_err (fun err => Parse ("failed to parse manifest as TOML: " +:+ err)) (toml_from_str content);
  mret (match parsed with
        | TomlTable root => sections ≫= section_keys root
        | TomlOther => []
        end).

(** Whether git says the blob is absent, rather than that something failed. *)
Definition blob_is_absent (stderr : Bytes) : bool :=
  let text := to_ascii_lowercase (from_utf8_lossy stderr) in
  contains text "does not exist" || contains text "exists on disk, but not in" ||
  contains text "path does not exist".

(** [std::fs::read_to_string] *)
Definition read_to_string {E} (path : string) : M D E (Res string string) :=
  r ← observe (fun n => read_file n path);
  mret (match r with
        | Err e => Err (io_display e)
        | Ok bytes => if utf8_valid bytes then Ok bytes else Err "stream did not contain valid UTF-8"
        end).

Definition diff_manifest (work_dir manifest_path : string) (sections : list string) (merge_base : string)
    : M D MeasurementError (list string) :=
  if unsafe_path manifest_path then throw (Parse ("unsafe dependency manifest path: " +:+ manifest_path))
  else
    let base_spec := merge_base +:+ ":" +:+ manifest_path in
    base_output ← git_output work_dir ("show " +:+ base_spec) ["show"; base_spec];
    base_content ← (if out_success base_output then
        lift_res (utf8_text ("non-UTF-8 in merge-base blob " +:+ quoted base_spec) (out_stdout base_output))
      else if blob_is_absent (out_stderr base_output) then mret ""
      else throw (Git ("show " +:+ base_spec) (exit_message base_output)));
    current ← read_to_string (join work_dir manifest_path);
    current_content ← lift_res (res_map_err (fun err => Git ("read " +:+ manifest_path)
      ("failed to read manifest " +:+ quoted manifest_path +:+ ": " +:+ err)) current);
    base_deps ← lift_res (extract_dependency_keys base_content sections);
    current_deps ← lift_res (extract_dependency_keys current_content sections);
    mret (List.filter (fun dep => bool_decide (dep ∉ base_deps)) current_deps).

Fixpoint collect_dependency_diffs (work_dir : string) (manifests : list ScopeDependencyManifestConfig)
    (merge_base : string) : M D MeasurementError (list (string * list string)) :=
  match manifests with
  | [] => mret []
  | manifest :: rest =>
      added ← diff_manifest work_dir (mf_path manifest) (mf_sections manifest) merge_base;
      diffs ← collect_dependency_diffs work_dir rest merge_base;
      mret (if bool_decide (added = []) then diffs else (mf_path manifest, added) :: diffs)
  end.
End Collection.

(** The trait [GitPatchCollector]: collecting writes nothing of the client's. *)
Class GitPatchCollector (D : Type) := {
  collect : string -> string -> ScopeMeasurementConfig -> M D MeasurementError GitPatchData;
  collect_read_only work_dir merge_base config : read_only (collect work_dir merge_base config)
}.

(** ** Computing the measurement *)

(** [is_path_within] of this file: a prefix may end in [/**] or [/]. *)
Definition prefix_within (path prefix : string) : bool :=
  let normalized_prefix :=
    match strip_suffix "/**" prefix with
    | Some p => p
    | None => default prefix (strip_suffix "/" prefix)
    end in
  (path =?s normalized_prefix) || path_starts_with path normalized_prefix.

(** The text after the last dot of the last component, if something precedes
    the dot: [Path::extension]. *)
Fixpoint rsplit_dot (s : string) : option (string * string) :=
  match s with
  | "" => None
  | String c rest =>
      match rsplit_dot rest with
      | Some (before, after) => Some (String c before, after)
      | None => if decide (c = "."%char) then Some ("", rest) else None
      end
  end.

Definition extension (path : string) : option string :=
  match last (components path) with
  | Some (Normal name) =>
      match rsplit_dot name with
      | Some (before, after) => if str_is_empty before then None else Some after
      | None => None
      end
  | _ => None
  end.

Definition has_source_extension (path : string) (extensions : list string) : bool :=
  let ext := default "" (extension path) in
  existsb (fun configured => configured =?s ext) extensions.

Definition WORKSPACE_OWNER_MARKER : string := BOOTSTRAP_OWNER_MARKER.

Definition has_nul (content : Bytes) : bool := has_char "000" content.

Definition count_new_modules (changes : list FileChange) (config : ScopeMeasurementConfig) : Z :=
  to_u32_saturating (length (List.filter (fun c => has_source_extension (fc_path c) (source_extensions config))
    (List.filter (fun c => is_new_file (fc_status c)) changes))).

Definition count_dependencies_added (manifest_diffs : list (string * list string)) : Z :=
  foldl (fun acc diff => saturating_add acc (to_u32_saturating (length (diff.2)))) 0%Z manifest_diffs.

Definition total_added_lines (changes : list FileChange) : Z :=
  foldl saturating_add 0%Z (omap fc_added_lines changes).

Definition compute_changed_subsystems (paths : list string) (charter : CanonicalTaskCharter) : list string :=
  btree_set (paths ≫= fun path =>
    omap (fun '(sub_id, prefixes) => if existsb (prefix_within path) prefixes then Some sub_id else None)
      (map_to_list (subsystems charter))).

Definition sort_and_dedup (changes : list FileChange) : list FileChange :=
  dedup_by fc_path (sort_changes changes).

Section Measure.
Context {D : Type} `{Env} `{WorkTree} `{Regexes} `{ErrorText} `{Os} `{Sha256}.

(** [verify_workspace_ownership] asks the system; the marker is left out of the
    patch only when it proves this run's. *)
Definition patch_untracked_files (data : GitPatchData) (work_dir run_id : string) (ownership_required : bool)
    : M D MeasurementError (list string) :=
  verdict ← sys (verify_workspace_ownership work_dir run_id);
  match verdict with
  | None => mret (List.filter (fun path => negb (path =?s WORKSPACE_OWNER_MARKER)) (untracked_files data))
  | Some reason =>
      if ownership_required then throw (ControlMetadata
        ("cannot exclude untrusted workspace ownership marker for run " +:+ quoted run_id +:+ ": " +:+ reason))
      else if existsb (fun path => path =?s WORKSPACE_OWNER_MARKER) (untracked_files data) then
        throw (ControlMetadata
          ("workspace ownership marker present but unverified for run " +:+ quoted run_id +:+ ": " +:+ reason))
      else mret (untracked_files data)
  end.

Definition count_lines_in_file {E} (work_dir repo_relative : string) : M D E (option Z) :=
  r ← observe (fun n => read_file n (join work_dir repo_relative));
  mret (match r with
        | Err _ => None
        | Ok content =>
            if has_nul content then None
            else if utf8_valid content then Some (to_u32_saturating (length (lines content))) else None
        end).

Definition is_file_binary {E} (work_dir repo_relative : string) : M D E bool :=
  r ← observe (fun n => read_file n (join work_dir repo_relative));
  mret (match r with Ok content => has_nul content | Err _ => false end).

Definition untracked_change {E} (work_dir path : string) : M D E FileChange :=
  added ← count_lines_in_file work_dir path;
  binary ← is_file_binary work_dir path;
  mret (mkFileChange path Untracked added (Some 0%Z) binary).

Fixpoint untracked_changes {E} (work_dir : string) (paths : list string) : M D E (list FileChange) :=
  match paths with
  | [] => mret []
  | path :: rest =>
      change ← untracked_change work_dir path;
      changes ← untracked_changes work_dir rest;
      mret (change :: changes)
  end.

Definition collect_added_diff_lines (work_dir merge_base path : string) : M D MeasurementError (list string) :=
  stdout ← git_checked work_dir ("diff " +:+ merge_base +:+ " -- " +:+ path)
    ["diff"; merge_base; "--no-renames"; "--no-color"; "--"; path];
  diff_text ← lift_res (utf8_text ("non-UTF-8 diff output for " +:+ quoted path) stdout);
  mret (omap (fun line => if starts_with line "+" && negb (starts_with line "+++")
                          then strip_prefix "+" line else None) (lines diff_text)).

Definition added_source_lines (work_dir merge_base : string) (change : FileChange)
    : M D MeasurementError (list string) :=
  match fc_status change with
  | Untracked =>
      r ← read_to_string (join work_dir (fc_path change));
      match r with
      | Ok content => mret (lines content)
      | Err err => throw (Parse ("failed to read untracked source " +:+ quoted (fc_path change) +:+ ": " +:+ err))
      end
  | Added | Modified | Deleted => collect_added_diff_lines work_dir merge_base (fc_path change)
  end.

Definition count_matches (patterns : list string) (count : Z) (added : list string) : Z :=
  foldl (fun acc line => if existsb (fun re => is_match re line) patterns then saturating_add acc 1 else acc)
    count added.

Fixpoint count_apis_in (changes : list FileChange) (config : ScopeMeasurementConfig)
    (work_dir merge_base : string) (count : Z) : M D MeasurementError Z :=
  match changes with
  | [] => mret count
  | change :: rest =>
      if fc_is_binary change || negb (has_source_extension (fc_path change) (source_extensions config))
      then count_apis_in rest config work_dir merge_base count
      else
        added ← added_source_lines work_dir merge_base change;
        count_apis_in rest config work_dir merge_base (count_matches (public_api_regexes config) count added)
  end.

Definition count_public_apis (changes : list FileChange) (config : ScopeMeasurementConfig)
    (work_dir merge_base : string) : M D MeasurementError Z :=
  if bool_decide (public_api_regexes config = []) then mret 0%Z
  else match List.find (fun p => negb (valid_regex p)) (public_api_regexes config) with
       | Some p => throw (Parse ("invalid public API regex: " +:+ regex_error p))
       | None => count_apis_in changes config work_dir merge_base 0
       end.

Definition nul : string := String "000" "".

(** What the digest of the content is taken of. *)
Fixpoint content_stream (work_dir : string) (changes : list FileChange) : M D MeasurementError Bytes :=
  match changes with
  | [] => mret ""
  | change :: rest =>
      let path := join work_dir (fc_path change) in
      r ← observe (fun n => read_file n path);
      bytes ← lift_res (match r with
        | Ok bytes => Ok bytes
        | Err e =>
            match io_kind e with
            | NotFound => Ok "<deleted>"
            | _ => Err (Git "read measured file" (path +:+ ": " +:+ io_display e))
            end
        end);
      stream ← content_stream work_dir rest;
      mret (fc_path change +:+ nul +:+ status_debug (fc_status change) +:+ nul +:+ bytes +:+ nul +:+ stream)
  end.

Definition compute_content_digest (work_dir : string) (changes : list FileChange) : M D MeasurementError string :=
  stream ← content_stream work_dir changes;
  mret (sha256_hex stream).

Definition compute_measurement (data : GitPatchData) (charter : CanonicalTaskCharter) (expected_run_id : string)
    (ownership_required : bool) (config : ScopeMeasurementConfig) (work_dir : string)
    (dependency_diffs : list (string * list string)) : M D MeasurementError PatchMeasurement :=
  if negb (run_id charter =?s expected_run_id) then
    throw (ControlMetadata ("charter run " +:+ quoted (run_id charter) +:+ " does not match active run " +:+
      quoted expected_run_id))
  else
    untracked ← patch_untracked_files data work_dir expected_run_id ownership_required;
    synthetic ← untracked_changes work_dir untracked;
    let all_changes := sort_and_dedup (tracked_changes data ++ synthetic) in
    apis ← count_public_apis all_changes config work_dir (merge_base charter);
    let paths := btree_set (fc_path <$> all_changes) in
    digest ← compute_content_digest work_dir all_changes;
    mret {|
      pm_merge_base := merge_base charter;
      pm_head_sha := pd_head_sha data;
      pm_divergence := pd_divergence data;
      files_changed := to_u32_saturating (length all_changes);
      added_lines := total_added_lines all_changes;
      binary_files := to_u32_saturating (length (List.filter fc_is_binary all_changes));
      new_modules := count_new_modules all_changes config;
      dependencies_added := count_dependencies_added dependency_diffs;
      public_apis_added := apis;
      content_digest := digest;
      changed_paths := paths;
      changed_subsystems := compute_changed_subsystems paths charter;
      file_details := all_changes
    |}.

Definition file_change_from_path {E} (path : string) (status : ChangeStatus) (work_dir : string)
    : M D E FileChange :=
  is_binary ← is_file_binary work_dir path;
  added ← (if is_binary : bool then mret (None : option Z) else count_lines_in_file work_dir path);
  mret (mkFileChange path status added (if is_binary : bool then None else Some 0%Z) is_binary).
End Measure.

(** ** Evaluation ([evaluation.rs]) *)

Inductive ViolationCode :=
| BudgetFilesChanged
| BudgetAddedLines
| BudgetNewModules
| BudgetDependenciesAdded
| BudgetPublicApisAdded
| PathOutsideCharter
| SubsystemOutsideCharter
| DivergenceFromMergeBase.

Global Instance ViolationCode_eq_dec : EqDecision ViolationCode.
Proof. solve_decision. Defined.

Definition code_str (c : ViolationCode) : string :=
  match c with
  | BudgetFilesChanged => "BUDGET_FILES_CHANGED"
  | BudgetAddedLines => "BUDGET_ADDED_LINES"
  | BudgetNewModules => "BUDGET_NEW_MODULES"
  | BudgetDependenciesAdded => "BUDGET_DEPENDENCIES_ADDED"
  | BudgetPublicApisAdded => "BUDGET_PUBLIC_APIS_ADDED"
  | PathOutsideCharter => "PATH_OUTSIDE_CHARTER"
  | SubsystemOutsideCharter => "SUBSYSTEM_OUTSIDE_CHARTER"
  | DivergenceFromMergeBase => "DIVERGENCE_FROM_MERGE_BASE"
  end.

Record Violation := mkViolation { code : ViolationCode; v_message : string }.

Record ScopeEvaluation := mkEvaluation {
  within_budget : bool;
  within_subsystems : bool;
  at_merge_base : bool;
  violations : list Violation
}.

Global Instance Violation_eq_dec : EqDecision Violation.
Proof. solve_decision. Defined.
Global Instance ScopeEvaluation_eq_dec : EqDecision ScopeEvaluation.
Proof. solve_decision. Defined.

Definition is_budget_violation (c : ViolationCode) : bool :=
  match c with
  | BudgetFilesChanged | BudgetAddedLines | BudgetNewModules | BudgetDependenciesAdded
  | BudgetPublicApisAdded => true
  | PathOutsideCharter | SubsystemOutsideCharter | DivergenceFromMergeBase => false
  end.

Definition check_budget (c : ViolationCode) (metric_name : string) (actual ceiling : Z) : list Violation :=
  if (ceiling <? actual)%Z then
    [mkViolation c (metric_name +:+ " (" +:+ pretty actual +:+ ") exceeds ceiling (" +:+ pretty ceiling +:+ ")")]
  else [].

Definition collect_budget_violations (m : PatchMeasurement) (c : CanonicalTaskCharter) : list Violation :=
  check_budget BudgetFilesChanged "files_changed" (files_changed m) (max_files_changed (budget c)) ++
  check_budget BudgetAddedLines "added_lines" (added_lines m) (max_added_lines (budget c)) ++
  check_budget BudgetNewModules "new_modules" (new_modules m) (max_new_modules (budget c)) ++
  check_budget BudgetDependenciesAdded "dependencies_added" (dependencies_added m)
    (max_dependencies_added (budget c)) ++
  check_budget BudgetPublicApisAdded "public_apis_added" (public_apis_added m)
    (max_public_apis_added (budget c)).

Definition path_is_within_any_subsystem (path : string) (prefix_groups : list (list string)) : bool :=
  existsb (fun prefixes => existsb (prefix_within path) prefixes) prefix_groups.

(** [charter.subsystems.values()] *)
Definition charter_prefixes (c : CanonicalTaskCharter) : list (list string) :=
  (map_to_list (subsystems c)).*2.

Definition collect_path_violations (m : PatchMeasurement) (c : CanonicalTaskCharter) : list Violation :=
  let path_outside :=
    List.filter (fun path => negb (path_is_within_any_subsystem path (charter_prefixes c))) (changed_paths m) in
  match path_outside with
  | [] => []
  | _ => [mkViolation PathOutsideCharter
            ("changed paths outside charter subsystems: " +:+ join_with ", " path_outside)]
  end.

Definition collect_subsystem_violations (m : PatchMeasurement) (c : CanonicalTaskCharter) : list Violation :=
  omap (fun sub =>
    if bool_decide (is_Some (subsystems c !! sub)) then None
    else Some (mkViolation SubsystemOutsideCharter
      ("changed subsystem " +:+ quoted sub +:+ " is not declared in the charter"))) (changed_subsystems m).

Definition code_le (a b : Violation) : Prop := String.le (code_str (code a)) (code_str (code b)).
#[export] Instance code_le_dec : RelDecision code_le := fun a b => _.
#[export] Instance code_le_total : Total code_le.
Proof. intros a b. unfold code_le. apply String.le_total. Qed.
#[export] Instance code_le_trans : Transitive code_le.
Proof. intros a b c. unfold code_le. apply transitivity. Qed.

Definition evaluate (m : PatchMeasurement) (c : CanonicalTaskCharter) : ScopeEvaluation :=
  let found := merge_sort code_le (collect_budget_violations m c ++ collect_path_violations m c ++
                                   collect_subsystem_violations m c) in
  {|
    within_budget := forallb (fun v => negb (is_budget_violation (code v))) found;
    within_subsystems := forallb (fun v => negb (bool_decide (code v = PathOutsideCharter)) &&
                                           negb (bool_decide (code v = SubsystemOutsideCharter))) found;
    at_merge_base := (pm_divergence m =? 0)%Z;
    violations := found
  |}.

(** ** What an evaluation says *)

Lemma forallb_elem {A} (f : A -> bool) l : forallb f l = true <-> forall a, a ∈ l -> f a = true.
Proof. rewrite forallb_forall. by setoid_rewrite list_elem_of_In. Qed.

Lemma elem_of_filter_true {A} (f : A -> bool) l a : a ∈ List.filter f l <-> a ∈ l /\ f a = true.
Proof. rewrite !list_elem_of_In. apply filter_In. Qed.

(** Every metric is at most its ceiling. *)
Definition metrics_within (m : PatchMeasurement) (b : CanonicalBudget) : Prop :=
  (files_changed m <= max_files_changed b /\ added_lines m <= max_added_lines b /\
   new_modules m <= max_new_modules b /\ dependencies_added m <= max_dependencies_added b /\
   public_apis_added m <= max_public_apis_added b)%Z.

(** A path under a prefix that the charter declares. *)
Definition declared_path (c : CanonicalTaskCharter) (path : string) : Prop :=
  exists id prefixes prefix, subsystems c !! id = Some prefixes /\ prefix ∈ prefixes /\
    prefix_within path prefix = true.

Definition confined (m : PatchMeasurement) (c : CanonicalTaskCharter) : Prop :=
  (forall path, path ∈ changed_paths m -> declared_path c path) /\
  (forall sub, sub ∈ changed_subsystems m -> is_Some (subsystems c !! sub)).

Lemma declared_path_spec c path :
  path_is_within_any_subsystem path (charter_prefixes c) = true <-> declared_path c path.
Proof.
  unfold path_is_within_any_subsystem, charter_prefixes, declared_path. rewrite existsb_true.
  setoid_rewrite existsb_true. setoid_rewrite list_elem_of_fmap. split.
  - intros (prefixes & ([id p] & -> & Hin%elem_of_map_to_list) & prefix & Hp & Hw). cbn in *. eauto 10.
  - intros (id & prefixes & prefix & Hl & Hp & Hw). exists prefixes. split; [|eauto].
    exists (id, prefixes). split; [done|]. by apply elem_of_map_to_list.
Qed.

Lemma check_budget_cases c name actual ceiling v :
  v ∈ check_budget c name actual ceiling <->
  (ceiling < actual)%Z /\
  v = mkViolation c (name +:+ " (" +:+ pretty actual +:+ ") exceeds ceiling (" +:+ pretty ceiling +:+ ")").
Proof.
  unfold check_budget. destruct (Z.ltb_spec ceiling actual).
  - rewrite list_elem_of_singleton. tauto.
  - rewrite elem_of_nil. split; [done|lia].
Qed.

Lemma budget_violations_budget m c v :
  v ∈ collect_budget_violations m c -> is_budget_violation (code v) = true.
Proof.
  unfold collect_budget_violations. rewrite !elem_of_app, !check_budget_cases.
  by intros [[_ ->]|[[_ ->]|[[_ ->]|[[_ ->]|[_ ->]]]]].
Qed.

Lemma path_violations_code m c v : v ∈ collect_path_violations m c -> code v = PathOutsideCharter.
Proof.
  unfold collect_path_violations. case_match; [by intros []%elem_of_nil|].
  by intros ->%list_elem_of_singleton.
Qed.

Lemma subsystem_violations_code m c v :
  v ∈ collect_subsystem_violations m c -> code v = SubsystemOutsideCharter.
Proof.
  unfold collect_subsystem_violations. intros (sub & _ & Hv)%list_elem_of_omap. by case_match; simplify_eq.
Qed.

Lemma budget_violations_nil m c : collect_budget_violations m c = [] <-> metrics_within m (budget c).
Proof.
  unfold collect_budget_violations, check_budget, metrics_within. rewrite !app_nil.
  repeat (match goal with |- context [(?a <? ?b)%Z] => destruct (Z.ltb_spec a b) end);
    (split; [intros (?&?&?&?&?); try done; lia|intros (?&?&?&?&?); repeat split; lia || done]).
Qed.

Lemma path_violations_nil m c :
  collect_path_violations m c = [] <-> forall path, path ∈ changed_paths m -> declared_path c path.
Proof.
  unfold collect_path_violations. setoid_rewrite <- declared_path_spec. case_match eqn:E.
  - split; [intros _ path Hp|done]. destruct (path_is_within_any_subsystem path (charter_prefixes c)) eqn:Ep; [done|].
    assert (path ∈ @nil string) as []%elem_of_nil. rewrite <- E. apply elem_of_filter_true. by rewrite Ep.
  - split; [done|]. intros Hall.
    assert (s ∈ s :: l) as Hs by (apply elem_of_cons; by left). rewrite <- E in Hs.
    apply elem_of_filter_true in Hs as [Hs Hout]. by rewrite (Hall s Hs) in Hout.
Qed.

Lemma subsystem_violations_nil m c :
  collect_subsystem_violations m c = [] <->
  forall sub, sub ∈ changed_subsystems m -> is_Some (subsystems c !! sub).
Proof.
  unfold collect_subsystem_violations.
  induction (changed_subsystems m) as [|sub subs IH]; cbn; [split; [intros _ ? []%elem_of_nil|done]|].
  case_bool_decide as Hs; cbn.
  - rewrite IH. setoid_rewrite elem_of_cons. split; [intros Hall s [->|?]; auto|auto].
  - split; [done|]. intros Hall. destruct Hs. apply Hall, elem_of_cons. by left.
Qed.

Lemma nil_of_none {A} (l : list A) : (forall a, a ∉ l) -> l = [].
Proof. intros Hn. destruct l as [|a l]; [done|]. destruct (Hn a). apply elem_of_cons. by left. Qed.

Lemma elem_of_violations m c v :
  v ∈ violations (evaluate m c) <->
  v ∈ collect_budget_violations m c \/ v ∈ collect_path_violations m c \/ v ∈ collect_subsystem_violations m c.
Proof. cbn. by rewrite merge_sort_Permutation, !elem_of_app. Qed.

Lemma within_budget_spec m c : within_budget (evaluate m c) = true <-> metrics_within m (budget c).
Proof.
  change (forallb (fun v => negb (is_budget_violation (code v))) (violations (evaluate m c)) = true <->
          metrics_within m (budget c)).
  rewrite forallb_elem, <- budget_violations_nil. setoid_rewrite elem_of_violations. split.
  - intros Hall. apply nil_of_none. intros v Hv.
    pose proof (Hall v (or_introl Hv)) as Hno. by rewrite (budget_violations_budget m c v Hv) in Hno.
  - intros -> v [[]%elem_of_nil|[Hv|Hv]].
    + by rewrite (path_violations_code m c v Hv).
    + by rewrite (subsystem_violations_code m c v Hv).
Qed.

Lemma within_subsystems_spec m c : within_subsystems (evaluate m c) = true <-> confined m c.
Proof.
  change (forallb (fun v => negb (bool_decide (code v = PathOutsideCharter)) &&
    negb (bool_decide (code v = SubsystemOutsideCharter))) (violations (evaluate m c)) = true <-> confined m c).
  unfold confined. rewrite forallb_elem, <- path_violations_nil, <- subsystem_violations_nil.
  setoid_rewrite elem_of_violations. setoid_rewrite andb_true_iff.
  setoid_rewrite negb_true_iff. setoid_rewrite bool_decide_eq_false. split.
  - intros Hall. split; apply nil_of_none; intros v Hv.
    + destruct (Hall v (or_intror (or_introl Hv))) as [Hno _]. by apply Hno, (path_violations_code m c).
    + destruct (Hall v (or_intror (or_intror Hv))) as [_ Hno]. by apply Hno, (subsystem_violations_code m c).
  - intros [-> ->] v [Hv|[[]%elem_of_nil|[]%elem_of_nil]].
    apply budget_violations_budget in Hv. by destruct (code v).
Qed.

Lemma no_violations_spec m c :
  violations (evaluate m c) = [] <-> metrics_within m (budget c) /\ confined m c.
Proof.
  rewrite <- budget_violations_nil. unfold confined.
  rewrite <- path_violations_nil, <- subsystem_violations_nil. split.
  - intros Hnil. assert (forall v, v ∉ violations (evaluate m c)) as Hno by (rewrite Hnil; intros v; apply not_elem_of_nil).
    setoid_rewrite elem_of_violations in Hno. split_and!; apply nil_of_none; intros v Hv; apply (Hno v); tauto.
  - intros (Hb & Hp & Hs). apply nil_of_none. intros v. rewrite elem_of_violations, Hb, Hp, Hs.
    by intros [[]%elem_of_nil|[[]%elem_of_nil|[]%elem_of_nil]].
Qed.

(** An evaluation is exact: a patch is within budget exactly when each of
    the five metrics is at most its ceiling, within subsystems exactly when each
    changed path lies under a declared prefix and each changed subsystem is
    declared, and the list of violations is empty exactly when both hold.  The
    list is sorted by code and every violation in it is one that was found;
    divergence alone is never a violation. *)
Theorem evaluation_exact m c :
  (within_budget (evaluate m c) = true <-> metrics_within m (budget c)) /\
  (within_subsystems (evaluate m c) = true <-> confined m c) /\
  (at_merge_base (evaluate m c) = true <-> pm_divergence m = 0%Z) /\
  (violations (evaluate m c) = [] <-> metrics_within m (budget c) /\ confined m c) /\
  Sorted code_le (violations (evaluate m c)) /\
  forall v, v ∈ violations (evaluate m c) -> code v <> DivergenceFromMergeBase.
Proof.
  split_and!.
  - apply within_budget_spec.
  - apply within_subsystems_spec.
  - apply Z.eqb_eq.
  - apply no_violations_spec.
  - apply Sorted_merge_sort, _.
  - intros v [Hv|[Hv|Hv]]%elem_of_violations Hc.
    + apply budget_violations_budget in Hv. by rewrite Hc in Hv.
    + apply path_violations_code in Hv. congruence.
    + apply subsystem_violations_code in Hv. congruence.
Qed.

(** ** What a measurement is *)

#[export] Instance path_le_total : Total path_le.
Proof. intros a b. unfold path_le. apply String.le_total. Qed.
#[export] Instance path_le_trans : Transitive path_le.
Proof. intros a b c. unfold path_le. apply transitivity. Qed.

Lemma dedup_by_keys {A} (key : A -> string) l x : x ∈ key <$> dedup_by key l <-> x ∈ key <$> l.
Proof.
  induction l as [|a l IH]; [done|]. cbn [dedup_by]. rewrite !fmap_cons, elem_of_cons, <- IH.
  destruct (dedup_by key l) as [|b rest]; cbn.
  - by rewrite !elem_of_cons.
  - case_bool_decide as Heq; cbn; rewrite !elem_of_cons; [rewrite Heq; tauto|done].
Qed.

Lemma dedup_by_sub {A} (key : A -> string) l a : a ∈ dedup_by key l -> a ∈ l.
Proof.
  revert a. induction l as [|b l IH]; [done|]. intros a. cbn [dedup_by].
  destruct (dedup_by key l) as [|c rest] eqn:E.
  - intros ->%list_elem_of_singleton. apply elem_of_cons. by left.
  - case_match; rewrite !elem_of_cons; intros [->|Hin]; auto.
    + right. apply IH, elem_of_cons. by right.
    + right. apply IH. by apply elem_of_cons.
Qed.

Lemma dedup_by_NoDup {A} (key : A -> string) l :
  StronglySorted (fun a b => String.le (key a) (key b)) l -> NoDup (key <$> dedup_by key l).
Proof.
  induction 1 as [|a l Hl IH Ha]; [constructor|]. cbn [dedup_by].
  pose proof (dedup_by_sub key l) as Hsub. pose proof (dedup_by_keys key l) as Hkeys.
  assert (StronglySorted (fun a b => String.le (key a) (key b)) (dedup_by key l)) as Hd.
  { clear IH Ha Hkeys Hsub. induction Hl as [|b l Hl IH Hb]; [constructor|]. cbn [dedup_by].
    pose proof (dedup_by_sub key l) as Hsub. destruct (dedup_by key l) as [|c rest]; [by repeat constructor|].
    rewrite Forall_forall in Hb. apply StronglySorted_inv in IH as [Hrest Hc].
    case_match; constructor; try done.
    - apply Forall_forall. intros x Hx. apply Hb, Hsub, elem_of_cons. by right.
    - by constructor.
    - apply Forall_forall. intros x Hx. by apply Hb, Hsub. }
  destruct (dedup_by key l) as [|b rest]; [apply NoDup_singleton|].
  rewrite fmap_cons in IH. apply NoDup_cons in IH as [Hb Hrest].
  case_bool_decide as Heq; rewrite fmap_cons; apply NoDup_cons; [by rewrite Heq|].
  rewrite fmap_cons. split; [|by apply NoDup_cons]. intros [Hab|Hin]%elem_of_cons; [done|].
  apply list_elem_of_fmap in Hin as (c & Hac & Hc).
  apply StronglySorted_inv in Hd as [_ Hbs]. rewrite Forall_forall in Hbs, Ha.
  apply Heq, (anti_symm String.le); [apply Ha, Hsub, elem_of_cons; by left|].
  rewrite Hac. by apply Hbs.
Qed.

Lemma sort_and_dedup_paths l x : x ∈ fc_path <$> sort_and_dedup l <-> x ∈ fc_path <$> l.
Proof. unfold sort_and_dedup, sort_changes. by rewrite dedup_by_keys, merge_sort_Permutation. Qed.

Lemma sort_and_dedup_NoDup l : NoDup (fc_path <$> sort_and_dedup l).
Proof. apply dedup_by_NoDup. apply (StronglySorted_merge_sort path_le). Qed.

Lemma remove_dups_id (l : list string) : NoDup l -> remove_dups l = l.
Proof. induction 1 as [|x l Hx _ IH]; [done|]. cbn. destruct (decide_rel (∈) x l); [done|by rewrite IH]. Qed.

Lemma sort_and_dedup_sub l c : c ∈ sort_and_dedup l -> c ∈ l.
Proof. intros Hc%dedup_by_sub. unfold sort_changes in Hc. by rewrite merge_sort_Permutation in Hc. Qed.

(** *** Counts fit their width *)

Lemma to_u32_saturating_u32 n : is_u32 (to_u32_saturating n).
Proof. unfold to_u32_saturating, is_u32, u32_max. lia. Qed.

Lemma saturating_add_u32 a b : is_u32 a -> (0 <= b)%Z -> is_u32 (saturating_add a b).
Proof. unfold saturating_add, is_u32, u32_max. lia. Qed.

Lemma foldl_u32 {A} (f : Z -> A -> Z) l acc :
  is_u32 acc -> (forall a acc, a ∈ l -> is_u32 acc -> is_u32 (f acc a)) -> is_u32 (foldl f acc l).
Proof.
  revert acc. induction l as [|a l IH]; intros acc Hacc Hf; [done|]. cbn. apply IH.
  - apply Hf; [apply elem_of_cons; by left|done].
  - intros b acc' Hb. apply Hf, elem_of_cons. by right.
Qed.

Definition typed_change (c : FileChange) : Prop := forall n, fc_added_lines c = Some n -> is_u32 n.
Definition typed_data (data : GitPatchData) : Prop := forall c, c ∈ tracked_changes data -> typed_change c.

Lemma zero_u32 : is_u32 0.
Proof. unfold is_u32, u32_max. lia. Qed.
#[local] Hint Resolve zero_u32 to_u32_saturating_u32 : core.

Lemma total_added_lines_u32 changes :
  (forall c, c ∈ changes -> typed_change c) -> is_u32 (total_added_lines changes).
Proof.
  intros Ht. apply foldl_u32; [done|]. intros n acc (c & Hc & Hn)%list_elem_of_omap Hacc.
  apply saturating_add_u32; [done|]. specialize (Ht c Hc n Hn). unfold is_u32 in Ht. lia.
Qed.

Lemma count_dependencies_u32 diffs : is_u32 (count_dependencies_added diffs).
Proof.
  apply foldl_u32; [done|]. intros d acc _ Hacc. apply saturating_add_u32; [done|].
  pose proof (to_u32_saturating_u32 (length d.2)) as Hd. unfold is_u32 in Hd. lia.
Qed.

(** A count as a u32 holds it. *)
Definition capped (n : Z) : Z := Z.min n u32_max.
Definition total (l : list Z) : Z := foldr Z.add 0%Z l.

Lemma capped_u32 n : (0 <= n)%Z -> is_u32 (capped n).
Proof. unfold capped, is_u32, u32_max. lia. Qed.

Lemma saturating_capped a b : (0 <= a)%Z -> (0 <= b)%Z -> saturating_add (capped a) b = capped (a + b).
Proof. unfold saturating_add, capped. lia. Qed.

Lemma saturating_capped_min a b : (0 <= a)%Z -> (0 <= b)%Z -> saturating_add (capped a) (capped b) = capped (a + b).
Proof. unfold saturating_add, capped, u32_max. lia. Qed.

Lemma total_added_lines_spec changes : (forall c, c ∈ changes -> typed_change c) ->
  total_added_lines changes = capped (total (default 0%Z ∘ fc_added_lines <$> changes)).
Proof.
  assert (forall k, (0 <= k)%Z -> (forall c, c ∈ changes -> typed_change c) ->
    foldl saturating_add (capped k) (omap fc_added_lines changes) =
    capped (k + total (default 0%Z ∘ fc_added_lines <$> changes))) as Hk; [|exact (Hk 0%Z (Z.le_refl 0))].
  induction changes as [|c changes IH]; intros k Hk Ht; cbn; [by rewrite Z.add_0_r|].
  assert (forall c', c' ∈ changes -> typed_change c') as Ht' by (intros; apply Ht, elem_of_cons; by right).
  destruct (fc_added_lines c) as [n|] eqn:En; cbn.
  - pose proof (Ht c ltac:(apply elem_of_cons; by left) n En) as Hn. unfold is_u32 in Hn.
    rewrite saturating_capped, IH by (done || lia). unfold total. f_equal. cbn. lia.
  - by apply IH.
Qed.

Lemma count_dependencies_spec diffs :
  count_dependencies_added diffs = capped (total ((fun d => Z.of_nat (length d.2)) <$> diffs)).
Proof.
  assert (forall k, (0 <= k)%Z ->
    foldl (fun acc diff => saturating_add acc (to_u32_saturating (length diff.2))) (capped k) diffs =
    capped (k + total ((fun d : string * list string => Z.of_nat (length d.2)) <$> diffs))) as Hk;
    [|exact (Hk 0%Z (Z.le_refl 0))].
  induction diffs as [|d diffs IH]; intros k Hk; cbn; [by rewrite Z.add_0_r|].
  change (to_u32_saturating ?n) with (capped (Z.of_nat n)). rewrite saturating_capped_min, IH by lia. unfold total. f_equal. cbn. lia.
Qed.

Lemma count_new_modules_spec changes config :
  count_new_modules changes config = capped (Z.of_nat (length (List.filter (fun c =>
    match fc_status c with
    | Added | Untracked => has_source_extension (fc_path c) (source_extensions config)
    | _ => false
    end) changes))).
Proof.
  unfold count_new_modules. change (to_u32_saturating ?n) with (capped (Z.of_nat n)). do 2 f_equal.
  induction changes as [|c changes IH]; cbn; [done|].
  destruct (fc_status c); cbn; try done; by rewrite IH || destruct (has_source_extension _ _); cbn; rewrite IH.
Qed.

Lemma compute_changed_subsystems_spec paths charter sub :
  sub ∈ compute_changed_subsystems paths charter <->
  exists prefixes path, subsystems charter !! sub = Some prefixes /\ path ∈ paths /\
    existsb (prefix_within path) prefixes = true.
Proof.
  unfold compute_changed_subsystems. rewrite elem_of_btree_set, list_elem_of_bind.
  setoid_rewrite list_elem_of_omap. split.
  - intros (path & ([id prefixes] & Hin%elem_of_map_to_list & Hif) & Hp).
    destruct (existsb _ _) eqn:Ew; simplify_eq. eauto.
  - intros (prefixes & path & Hl & Hp & Hw). exists path. split; [|done].
    exists (sub, prefixes). split; [by apply elem_of_map_to_list|]. by rewrite Hw.
Qed.

Section Measured.
Context {D : Type} `{Env} `{WorkTree} `{Regexes} `{ErrorText} `{Os} `{Sha256}.

(** The system's answer at some moment that the workspace is the run's. *)
Definition marker_verified (work_dir run : string) : Prop :=
  exists n, fst (Ownership.run os_handle (verify_workspace_ownership work_dir run) (os_at n)) = None.

(** What a read of an untracked file tells of it. *)
Definition lines_read (r : Res IoError Bytes) : option Z :=
  match r with
  | Ok text => if negb (has_nul text) && utf8_valid text then Some (Z.min (Z.of_nat (length (lines text))) u32_max) else None
  | Err _ => None
  end.
Definition read_as_binary (r : Res IoError Bytes) : Prop := exists text, r = Ok text /\ has_nul text = true.

(** An untracked file as two reads of it saw it. *)
Definition untracked_seen (work_dir : string) (c : FileChange) : Prop :=
  fc_status c = Untracked /\ fc_deleted_lines c = Some 0%Z /\
  (exists n, fc_added_lines c = lines_read (read_file n (join work_dir (fc_path c)))) /\
  (exists n, fc_is_binary c = true <-> read_as_binary (read_file n (join work_dir (fc_path c)))).

(** The lines a change adds: those of an untracked file, else those that
    [git diff] marks. *)
Definition marked_lines (diff : string) : list string :=
  omap (fun line => if starts_with line "+" && negb (starts_with line "+++") then strip_prefix "+" line else None)
    (lines diff).
Definition adds (work_dir base : string) (c : FileChange) (added : list string) : Prop :=
  match fc_status c with
  | Untracked => exists n text, read_file n (join work_dir (fc_path c)) = Ok text /\ added = lines text
  | _ => exists n out, run_git n work_dir ["diff"; base; "--no-renames"; "--no-color"; "--"; fc_path c] = Ok out /\
      out_success out = true /\ added = marked_lines (out_stdout out)
  end.

Definition in_source (config : ScopeMeasurementConfig) (c : FileChange) : bool :=
  has_source_extension (fc_path c) (source_extensions config).
Definition matches_api (config : ScopeMeasurementConfig) (line : string) : bool :=
  existsb (fun re => is_match re line) (public_api_regexes config).

Lemma count_matches_spec config k added : (0 <= k)%Z ->
  count_matches (public_api_regexes config) (capped k) added =
  capped (k + Z.of_nat (length (List.filter (matches_api config) added))).
Proof.
  revert k. unfold count_matches. induction added as [|line added IH]; intros k Hk; cbn; [f_equal; lia|].
  fold (matches_api config line). destruct (matches_api config line); cbn.
  - rewrite saturating_capped, IH by lia. f_equal. lia.
  - by apply IH.
Qed.

Record measured (data : GitPatchData) (diffs : list (string * list string)) (charter : CanonicalTaskCharter)
    (run : string) (config : ScopeMeasurementConfig) (work_dir : string) (m : PatchMeasurement) : Prop := {
  measured_run : run_id charter = run;
  measured_base : pm_merge_base m = merge_base charter /\ pm_head_sha m = pd_head_sha data /\
    pm_divergence m = pd_divergence data;
  measured_sorted : Sorted String.le (changed_paths m) /\ NoDup (changed_paths m);
  measured_tracked : forall c, c ∈ tracked_changes data -> fc_path c ∈ changed_paths m;
  measured_untracked : forall p, p ∈ untracked_files data ->
    p ∈ changed_paths m \/ (p = WORKSPACE_OWNER_MARKER /\ marker_verified work_dir run);
  measured_only : forall p, p ∈ changed_paths m ->
    p ∈ fc_path <$> tracked_changes data \/ p ∈ untracked_files data;
  measured_subsystems : forall sub, sub ∈ changed_subsystems m <->
    exists prefixes path, subsystems charter !! sub = Some prefixes /\ path ∈ changed_paths m /\
      existsb (prefix_within path) prefixes = true;
  (** one change per path, as git or the reads reported it *)
  measured_details : fc_path <$> file_details m ≡ₚ changed_paths m /\
    forall c, c ∈ file_details m ->
      c ∈ tracked_changes data \/ (fc_path c ∈ untracked_files data /\ untracked_seen work_dir c);
  measured_count : files_changed m = to_u32_saturating (length (changed_paths m));
  measured_added : typed_data data ->
    added_lines m = capped (total (default 0%Z ∘ fc_added_lines <$> file_details m));
  measured_binary : binary_files m = capped (Z.of_nat (length (List.filter fc_is_binary (file_details m))));
  measured_modules : new_modules m = capped (Z.of_nat (length (List.filter (fun c =>
    match fc_status c with Added | Untracked => in_source config c | _ => false end) (file_details m))));
  measured_dependencies : dependencies_added m = capped (total ((fun d => Z.of_nat (length d.2)) <$> diffs));
  measured_apis : exists added,
    Forall2 (adds work_dir (merge_base charter)) (if bool_decide (public_api_regexes config = []) then [] else
      List.filter (fun c => negb (fc_is_binary c) && in_source config c) (file_details m)) added /\
    public_apis_added m = capped (Z.of_nat (length (List.filter (matches_api config) (concat added))));
  measured_u32 : typed_data data -> forall f,
    f ∈ [files_changed; added_lines; binary_files; new_modules; dependencies_added; public_apis_added] ->
    is_u32 (f m)
}.

Lemma patch_untracked_wp data work_dir run required (Q : Res MeasurementError (list string) -> World D -> Prop) w :
  (forall r w', w_db w' = w_db w ->
    (forall paths, r = Ok paths ->
      (forall p, p ∈ paths -> p ∈ untracked_files data) /\
      forall p, p ∈ untracked_files data ->
        p ∈ paths \/ (p = WORKSPACE_OWNER_MARKER /\ marker_verified work_dir run)) -> Q r w') ->
  wp (patch_untracked_files data work_dir run required) Q w.
Proof.
  intros HQ. apply wp_bind. unfold sys. apply wp_observe. intros n w' Hw' _.
  destruct (fst (Ownership.run os_handle (verify_workspace_ownership work_dir run) (os_at n))) as [reason|] eqn:Hv.
  - wp_if Er; [by apply HQ|]. wp_if Em; [by apply HQ|]. apply HQ; [done|].
    intros paths [= <-]. auto.
  - apply wp_ret. apply HQ; [done|]. intros paths [= <-]. setoid_rewrite elem_of_filter_true. split; [tauto|].
    intros p Hp. destruct (decide (p = WORKSPACE_OWNER_MARKER)) as [->|Hne].
    + right. split; [done|]. by exists n.
    + left. split; [done|]. by rewrite bool_decide_eq_false_2.
Qed.

Lemma untracked_changes_wp {E} work_dir paths (Q : Res E (list FileChange) -> World D -> Prop) w :
  (forall changes w', w_db w' = w_db w -> fc_path <$> changes = paths ->
    (forall c, c ∈ changes -> untracked_seen work_dir c) -> Q (Ok changes) w') ->
  wp (untracked_changes work_dir paths) Q w.
Proof.
  revert Q w. induction paths as [|path paths IH]; intros Q w HQ; cbn [untracked_changes].
  { apply wp_ret. apply HQ; [done|done|]. by intros ? []%elem_of_nil. }
  unfold untracked_change, count_lines_in_file, is_file_binary. do 3 apply wp_bind.
  apply wp_observe. intros n w1 Hw1 _. apply wp_ret. do 2 apply wp_bind.
  apply wp_observe. intros n' w2 Hw2 _. do 2 apply wp_ret. apply wp_bind, IH.
  intros changes wn Hwn Hpaths Ht. apply wp_ret. apply HQ; [congruence|cbn; by rewrite Hpaths|].
  intros c [->|Hc]%elem_of_cons; [|by apply Ht]. split_and!; [done|done| |]; cbn.
  - exists n. unfold lines_read. destruct (read_file n _) as [text|e]; [|done].
    destruct (has_nul text); [done|]. by destruct (utf8_valid text).
  - exists n'. unfold read_as_binary. destruct (read_file n' _) as [text|e]; [|by split; [|intros (? & ? & _)]].
    split; [by eexists|]. by intros (? & [= <-] & ->).
Qed.

Lemma untracked_seen_typed work_dir c : untracked_seen work_dir c -> typed_change c.
Proof.
  intros (_ & _ & (n & Hc) & _) k. rewrite Hc. unfold lines_read. repeat case_match; intros; simplify_eq.
  apply (to_u32_saturating_u32 (length (lines _))).
Qed.

Lemma added_source_lines_wp work_dir base change w :
  wp (added_source_lines (D := D) work_dir base change) (fun r w' =>
    w_db w' = w_db w /\ forall added, r = Ok added -> adds work_dir base change added) w.
Proof.
  unfold added_source_lines, adds.
  assert (forall w0, wp (collect_added_diff_lines (D := D) work_dir base (fc_path change)) (fun r w' =>
    w_db w' = w_db w0 /\ forall added, r = Ok added -> exists n out,
      run_git n work_dir ["diff"; base; "--no-renames"; "--no-color"; "--"; fc_path change] = Ok out /\
      out_success out = true /\ added = marked_lines (out_stdout out)) w0) as Hdiff.
  { intros w0. unfold collect_added_diff_lines, git_checked, git_output. do 3 apply wp_bind.
    apply wp_observe. intros n w1 Hw1 _. destruct (run_git n work_dir _) as [out|e] eqn:Er; cbn; [|by split].
    destruct (out_success out) eqn:Es; cbn; [|by split]. unfold utf8_text.
    destruct (utf8_valid (out_stdout out)); cbn; split; try done. intros added [= <-]. by exists n, out. }
  destruct (fc_status change); try apply Hdiff. unfold read_to_string. do 2 apply wp_bind.
  apply wp_observe. intros n w1 Hw1 _. apply wp_ret.
  destruct (read_file n _) as [text|e] eqn:Er; cbn; [|by split].
  destruct (utf8_valid text); cbn; split; try done. intros added [= <-]. eauto.
Qed.

Lemma count_apis_in_wp changes config work_dir base k (Q : Res MeasurementError Z -> World D -> Prop) w :
  (0 <= k)%Z ->
  (forall r w', w_db w' = w_db w -> (forall n, r = Ok n -> exists added,
    Forall2 (adds work_dir base) (List.filter (fun c => negb (fc_is_binary c) && in_source config c) changes) added /\
    n = capped (k + Z.of_nat (length (List.filter (matches_api config) (concat added))))) -> Q r w') ->
  wp (count_apis_in changes config work_dir base (capped k)) Q w.
Proof.
  revert k Q w. induction changes as [|change changes IH]; intros k Q w Hk HQ; cbn [count_apis_in].
  { apply wp_ret. apply HQ; [done|]. intros n [= <-]. exists []. split; [constructor|]. f_equal. cbn. lia. }
  assert (negb (fc_is_binary change) && in_source config change =
    negb (fc_is_binary change || negb (has_source_extension (fc_path change) (source_extensions config)))) as Ein.
  { unfold in_source. by destruct (fc_is_binary change), (has_source_extension _ _). }
  cbn [List.filter] in HQ. rewrite Ein in HQ. wp_if Eb; cbn [negb] in HQ; [by apply IH|].
  eapply wp_consequence; [apply added_source_lines_wp|]. intros [added|e] w1 [Hw1 Ha]; cbn; [|by apply HQ].
  rewrite count_matches_spec by done. apply IH; [lia|]. intros r w2 Hw2 Hr. apply HQ; [congruence|].
  intros n Hn. destruct (Hr n Hn) as (rest & Hrest & ->). exists (added :: rest).
  split; [constructor; [by apply Ha|done]|]. f_equal. cbn. rewrite List.filter_app, length_app. unfold matches_api. lia.
Qed.

Lemma count_apis_wp changes config work_dir base (Q : Res MeasurementError Z -> World D -> Prop) w :
  (forall r w', w_db w' = w_db w -> (forall n, r = Ok n -> exists added,
    Forall2 (adds work_dir base) (if bool_decide (public_api_regexes config = []) then [] else
      List.filter (fun c => negb (fc_is_binary c) && in_source config c) changes) added /\
    n = capped (Z.of_nat (length (List.filter (matches_api config) (concat added))))) -> Q r w') ->
  wp (count_public_apis changes config work_dir base) Q w.
Proof.
  intros HQ. unfold count_public_apis. wp_if Ep.
  { apply HQ; [done|]. intros n [= <-]. by exists []. }
  case_match; [by apply HQ|]. by apply (count_apis_in_wp _ _ _ _ 0).
Qed.

Lemma content_digest_wp work_dir changes (Q : Res MeasurementError string -> World D -> Prop) w :
  (forall r w', w_db w' = w_db w -> Q r w') -> wp (compute_content_digest work_dir changes) Q w.
Proof.
  intros HQ. unfold compute_content_digest. apply wp_bind.
  assert (forall w0, wp (content_stream (D := D) work_dir changes) (fun _ w' => w_db w' = w_db w0) w0) as Hs.
  { clear HQ. induction changes as [|change changes IH]; intros w0; cbn [content_stream]; wp_steps; [done|].
    repeat (case_match; wp_steps); try congruence; eapply wp_consequence; try apply IH;
      intros [] w2 Hw2; cbn; try apply wp_ret; congruence. }
  eapply wp_consequence; [apply Hs|]. intros [stream|e] w' Hw'; cbn; [apply wp_ret|]; by apply HQ.
Qed.

Lemma compute_measurement_wp data charter run required config work_dir diffs w :
  wp (compute_measurement (D := D) data charter run required config work_dir diffs) (fun r w' =>
    w_db w' = w_db w /\ forall m, r = Ok m -> measured data diffs charter run config work_dir m) w.
Proof.
  unfold compute_measurement. wp_if Erun; [by split|]. apply negb_false_iff, bool_decide_eq_true in Erun.
  apply patch_untracked_wp. intros [untracked|e] w1 Hw1 Hun; cbn; [|by split].
  destruct (Hun _ eq_refl) as [Hin Hout]. apply wp_bind, untracked_changes_wp.
  intros changes w2 Hw2 Hpaths Hseen. cbn. apply wp_bind, count_apis_wp.
  intros [apis|e] w3 Hw3 Hapis; cbn; [|split; [congruence|done]].
  apply wp_bind, content_digest_wp. intros [digest|e] w4 Hw4; cbn; [|split; [congruence|done]].
  apply wp_ret. split; [congruence|]. intros m [= <-].
  set (all := sort_and_dedup _) in *.
  assert (forall p, p ∈ btree_set (fc_path <$> all) <-> p ∈ fc_path <$> tracked_changes data \/ p ∈ untracked) as Helem.
  { intros p. unfold all. by rewrite elem_of_btree_set, sort_and_dedup_paths, fmap_app, elem_of_app, Hpaths. }
  assert (btree_set (fc_path <$> all) ≡ₚ fc_path <$> all) as Hperm.
  { unfold btree_set. by rewrite merge_sort_Permutation, remove_dups_id by apply sort_and_dedup_NoDup. }
  assert (forall c, c ∈ all -> c ∈ tracked_changes data \/ c ∈ changes) as Hall.
  { intros c Hc. by apply sort_and_dedup_sub, elem_of_app in Hc. }
  assert (typed_data data -> forall c, c ∈ all -> typed_change c) as Htyped.
  { intros Hdata c [Hc|Hc]%Hall; [by apply Hdata|]. by eapply untracked_seen_typed, Hseen. }
  constructor; cbn; try done.
  - split; [apply Sorted_merge_sort, _|]. rewrite Hperm. apply sort_and_dedup_NoDup.
  - intros c Hc. apply Helem. left. apply list_elem_of_fmap. eauto.
  - intros p Hp. destruct (Hout p Hp) as [?|?]; [left; apply Helem|]; auto.
  - intros p [Hp|Hp]%Helem; auto.
  - intros sub. apply compute_changed_subsystems_spec.
  - split; [done|]. intros c [Hc|Hc]%Hall; [by left|right]. split; [|by apply Hseen].
    apply Hin. rewrite <- Hpaths. apply list_elem_of_fmap. eauto.
  - by rewrite Hperm, length_fmap.
  - intros Hdata. by apply total_added_lines_spec, Htyped.
  - apply count_new_modules_spec.
  - apply count_dependencies_spec.
  - by apply Hapis.
  - intros Hdata f. rewrite !elem_of_cons, elem_of_nil.
    intros [->|[->|[->|[->|[->|[->|[]]]]]]]; cbn; try apply to_u32_saturating_u32.
    + apply total_added_lines_u32. auto.
    + apply count_dependencies_u32.
    + destruct (Hapis _ eq_refl) as (? & _ & ->). apply capped_u32. lia.
Qed.

(** C32: a measurement tells the whole patch: every tracked change and every
    untracked file is among the changed paths - save the ownership marker, and
    that only when the workspace was verified to be the run's - and nothing else
    is; the paths are sorted and distinct; the changed subsystems are exactly the
    declared ones that hold a changed path; every count fits a u32, whatever git
    and the work tree answer.  Measuring writes nothing. *)
Theorem measurement_faithful data charter run required config work_dir diffs w :
  wp (compute_measurement (D := D) data charter run required config work_dir diffs) (fun r w' =>
    w_db w' = w_db w /\
    match r with Ok m => measured data diffs charter run config work_dir m | Err _ => True end) w.
Proof.
  eapply wp_consequence; [apply compute_measurement_wp|]. intros [m|e] w' [Hw' Hm]; split; auto.
Qed.
End Measured.

(** ** Git's output is read back *)

(** What [git diff -z] prints for a change. *)
Definition status_letter (s : ChangeStatus) : string :=
  match s with Added => "A" | Modified => "M" | Deleted => "D" | Untracked => "?" end.
Definition print_count (c : option Z) : string := match c with Some n => pretty n | None => "-" end.
Definition print_z (segments : list string) : Bytes := foldr (fun s rest => s +:+ nul +:+ rest) "" segments.
Definition print_name_status (changes : list FileChange) : Bytes :=
  print_z (changes ≫= fun c => [status_letter (fc_status c); fc_path c]).
Definition tab : string := String "009" "".
Definition print_numstat (changes : list FileChange) : Bytes :=
  print_z ((fun c => print_count (fc_added_lines c) +:+ tab +:+ print_count (fc_deleted_lines c) +:+ tab +:+
                     fc_path c) <$> changes).

(** A change as git reports one: a tracked status, a path that is text without
    NUL, and counts exactly when the file is not binary. *)
Definition reported (c : FileChange) : Prop :=
  fc_status c <> Untracked /\ fc_path c <> "" /\ has_char "000" (fc_path c) = false /\
  utf8_valid (fc_path c) = true /\
  match fc_added_lines c, fc_deleted_lines c with
  | Some a, Some d => is_u32 a /\ is_u32 d /\ fc_is_binary c = false
  | None, None => fc_is_binary c = true
  | _, _ => False
  end.

Lemma mapM_all_Ok {E A B} (f : A -> Res E B) g l :
  Forall (fun a => f a = Ok (g a)) l -> mapM f l = Ok (g <$> l).
Proof. induction 1 as [|a l Ha _ IH]; [done|]. unfold mapM in *. cbn. rewrite Ha. cbn. by rewrite IH. Qed.

Lemma mapM_fmap {E A B C} (f : B -> Res E C) (g : A -> B) l : mapM f (g <$> l) = mapM (fun a => f (g a)) l.
Proof. induction l as [|a l IH]; [done|]. unfold mapM in *. cbn. by rewrite <- IH. Qed.

Lemma tab_app s : tab +:+ s = String "009" s.
Proof. reflexivity. Qed.

Lemma split_char_at c s t : has_char c s = false -> split_char c (s +:+ String c t) = s :: split_char c t.
Proof.
  induction s as [|d s IH]; intros Hs.
  - change ("" +:+ String c t) with (String c t). by rewrite split_char_step, decide_True.
  - cbn in Hs. apply orb_false_iff in Hs as [Hd%bool_decide_eq_false Hs].
    change (String d s +:+ String c t) with (String d (s +:+ String c t)).
    by rewrite split_char_step, decide_False, IH.
Qed.

Lemma split_once_at c s t : has_char c s = false -> split_once c (s +:+ String c t) = Some (s, t).
Proof.
  induction s as [|d s IH]; intros Hs.
  - change ("" +:+ String c t) with (String c t). cbn. by rewrite decide_True.
  - cbn in Hs. apply orb_false_iff in Hs as [Hd%bool_decide_eq_false Hs].
    change (String d s +:+ String c t) with (String d (s +:+ String c t)). cbn [split_once].
    by rewrite decide_False, IH.
Qed.

Lemma has_char_app c s t : has_char c (s +:+ t) = has_char c s || has_char c t.
Proof.
  induction s as [|d s IH]; [done|]. change (String d s +:+ t) with (String d (s +:+ t)). cbn.
  by rewrite IH, orb_assoc.
Qed.

Lemma split_z_print segments :
  Forall (fun s => s <> "" /\ has_char "000" s = false) segments -> split_z (print_z segments) = segments.
Proof.
  unfold split_z. induction 1 as [|s segments [Hne Hnul] _ IH]; [done|]. cbn [print_z foldr].
  change (nul +:+ ?t) with (String "000" t). rewrite split_char_at by done. cbn [List.filter].
  unfold str_is_empty at 1. rewrite bool_decide_eq_false_2 by done. cbn [negb]. f_equal. exact IH.
Qed.

(** Decimal texts hold no separator and are ASCII. *)
Lemma digits_plain c s : all_digits s = true -> digit_value c = None -> has_char c s = false.
Proof.
  intros Hs Hc. induction s as [|d s IH]; [done|]. cbn.
  rewrite IH by (cbn in Hs; by apply andb_true_iff in Hs as [_ ?]).
  rewrite orb_false_r. apply bool_decide_eq_false. by eapply digit_not.
Qed.

Lemma print_count_plain c count :
  digit_value c = None -> c <> "-"%char -> (forall n, count = Some n -> is_u32 n) ->
  has_char c (print_count count) = false.
Proof.
  intros Hc Hminus Hn. destruct count as [n|]; cbn.
  - apply digits_plain; [|done]. apply all_digits_pretty. specialize (Hn n eq_refl). unfold is_u32 in Hn. lia.
  - rewrite orb_false_r. by apply bool_decide_eq_false.
Qed.

Definition ascii_char (c : ascii) : bool := between 0 127 c.

Lemma utf8_valid_ascii c s : ascii_char c = true -> utf8_valid (String c s) = utf8_valid s.
Proof. unfold ascii_char. intros Hc. cbn [utf8_valid]. by rewrite Hc. Qed.

Fixpoint ascii_text (s : string) : bool :=
  match s with "" => true | String c rest => ascii_char c && ascii_text rest end.

Lemma utf8_valid_ascii_app s t : ascii_text s = true -> utf8_valid (s +:+ t) = utf8_valid t.
Proof.
  induction s as [|c s IH]; [done|]. cbn [ascii_text]. intros [Hc Hs]%andb_true_iff.
  change (String c s +:+ t) with (String c (s +:+ t)). rewrite utf8_valid_ascii by done. auto.
Qed.

Lemma all_digits_ascii s : all_digits s = true -> ascii_text s = true.
Proof.
  induction s as [|c s IH]; [done|]. cbn [all_digits ascii_text].
  intros [[v Hv]%bool_decide_eq_true Hs]%andb_true_iff. rewrite (IH Hs), andb_true_r.
  unfold digit_value in Hv. case_decide as Hc; [|done]. unfold ascii_char, between, byte_value.
  rewrite andb_true_iff, !Z.leb_le. unfold nat_of_ascii in Hc. lia.
Qed.

Lemma print_count_ascii count : (forall n, count = Some n -> is_u32 n) -> ascii_text (print_count count) = true.
Proof.
  intros Hn. destruct count as [n|]; [|done]. apply all_digits_ascii, all_digits_pretty.
  specialize (Hn n eq_refl). unfold is_u32 in Hn. lia.
Qed.

Lemma reported_counts c : reported c ->
  (forall n, fc_added_lines c = Some n -> is_u32 n) /\ (forall n, fc_deleted_lines c = Some n -> is_u32 n).
Proof.
  intros (_ & _ & _ & _ & Hc). destruct (fc_added_lines c), (fc_deleted_lines c); try done.
  destruct Hc as (? & ? & _). split; by intros n' [= <-].
Qed.

Section RoundTrip.
Context `{ErrorText} `{IntErrorText}.

Definition read_count (c : option Z) : NumstatCount := match c with Some n => Lines n | None => Binary end.

Lemma parse_print_count count :
  (forall n, count = Some n -> is_u32 n) -> parse_numstat_count (print_count count) = Ok (read_count count).
Proof.
  intros Hn. unfold parse_numstat_count. destruct count as [n|]; [|done].
  specialize (Hn n eq_refl). pose proof (all_digits_pretty n ltac:(unfold is_u32 in Hn; lia)) as Hd.
  cbn [print_count]. rewrite bool_decide_eq_false_2 by (intros Heq; by rewrite Heq in Hd).
  unfold parse_u32. rewrite parse_unsigned_digits, parse_digits_pretty; [done|unfold is_u32 in Hn; lia|done|].
  apply pretty_not_empty. unfold is_u32 in Hn. lia.
Qed.

Lemma parse_print_numstat c : reported c ->
  parse_single_numstat (print_count (fc_added_lines c) +:+ tab +:+ print_count (fc_deleted_lines c) +:+ tab +:+
    fc_path c) =
  Ok (mkNumstat (read_count (fc_added_lines c)) (read_count (fc_deleted_lines c)) (fc_path c)).
Proof.
  intros Hc. destruct (reported_counts c Hc) as [Ha Hd]. unfold parse_single_numstat.
  rewrite !tab_app.
  rewrite split_once_at by (by apply print_count_plain).
  rewrite split_once_at by (by apply print_count_plain).
  by rewrite !parse_print_count.
Qed.

Lemma merge_reported i c : reported c ->
  merge_entry i (status_letter (fc_status c)) (fc_path c)
    (mkNumstat (read_count (fc_added_lines c)) (read_count (fc_deleted_lines c)) (fc_path c)) = Ok c.
Proof.
  intros (Hs & _ & _ & _ & Hc). unfold merge_entry. cbn [ns_path]. rewrite bool_decide_eq_true_2 by done.
  destruct c as [path status [a|] [d|] b]; cbn in *; try done; destruct status; try done; cbn.
  all: by destruct Hc as (_ & _ & ->) || rewrite Hc.
Qed.

Lemma parse_printed_statuses changes : Forall reported changes ->
  parse_name_status_z (print_name_status changes) =
  Ok ((fun c => (status_letter (fc_status c), fc_path c)) <$> changes).
Proof.
  intros Hall. unfold parse_name_status_z, print_name_status. rewrite split_z_print.
  - assert (Nat.even (length (changes ≫= fun c => [status_letter (fc_status c); fc_path c])) = true) as ->.
    { clear Hall. by induction changes as [|c changes IH]. }
    cbn [negb].
    assert (pairs_of (changes ≫= fun c => [status_letter (fc_status c); fc_path c]) =
      (fun c => (status_letter (fc_status c), fc_path c)) <$> changes) as ->.
    { clear Hall. induction changes as [|c changes IH]; [done|]. cbn. f_equal. exact IH. }
    rewrite (mapM_all_Ok _ id); [by rewrite list_fmap_id|]. apply Forall_fmap.
    eapply Forall_impl; [exact Hall|]. intros c (_ & _ & _ & Hvalid & _). cbn. unfold utf8_text.
    assert (utf8_valid (status_letter (fc_status c)) = true) as -> by (by destruct (fc_status c)).
    by rewrite Hvalid.
  - induction Hall as [|c changes Hc Hall IH]; [constructor|]. destruct Hc as (Hs & Hne & Hnul & _).
    cbn. constructor; [by destruct (fc_status c)|]. by constructor.
Qed.

Lemma parse_printed_numstats changes : Forall reported changes ->
  parse_numstat_z (print_numstat changes) =
  Ok ((fun c => mkNumstat (read_count (fc_added_lines c)) (read_count (fc_deleted_lines c)) (fc_path c)) <$>
      changes).
Proof.
  intros Hall. unfold parse_numstat_z, print_numstat. rewrite split_z_print.
  - rewrite mapM_fmap. apply mapM_all_Ok. eapply Forall_impl; [exact Hall|]. intros c Hc.
    unfold utf8_text. destruct (reported_counts c Hc) as [Ha Hd].
    rewrite utf8_valid_ascii_app by (by apply print_count_ascii).
    rewrite utf8_valid_ascii_app by done.
    rewrite utf8_valid_ascii_app by (by apply print_count_ascii).
    rewrite utf8_valid_ascii_app by done. pose proof Hc as (_ & _ & _ & -> & _).
    cbn. by rewrite parse_print_numstat.
  - induction Hall as [|c changes Hc Hall IH]; [constructor|]. cbn. constructor; [|done].
    destruct (reported_counts c Hc) as [Ha Hd]. destruct Hc as (_ & _ & Hnul & _). split.
    + destruct (fc_added_lines c) as [n|]; [|done]. cbn.
      assert (has_char "009" (pretty n +:+ tab +:+ print_count (fc_deleted_lines c) +:+ tab +:+ fc_path c) = true)
        as Htab by (rewrite !has_char_app; cbn; by rewrite orb_true_r).
      intros Heq. by rewrite Heq in Htab.
    + rewrite !has_char_app, Hnul, !print_count_plain by done. done.
Qed.

Lemma merge_printed i changes : Forall reported changes ->
  merge_entries i ((fun c => (status_letter (fc_status c), fc_path c)) <$> changes)
    ((fun c => mkNumstat (read_count (fc_added_lines c)) (read_count (fc_deleted_lines c)) (fc_path c)) <$>
     changes) = Ok changes.
Proof.
  intros Hall. revert i. induction Hall as [|c changes Hc Hall IH]; intros i; [done|].
  cbn. rewrite merge_reported by done. cbn. by rewrite IH.
Qed.

(** C33: what git prints for a patch is read back as the patch: from the two
    NUL-separated listings of any reported changes - paths with spaces, tabs or
    line feeds, binary files, any u32 counts - the parsers and the join give
    exactly those changes, sorted by path. *)
Theorem git_listings_roundtrip changes :
  Forall reported changes ->
  (statuses ← parse_name_status_z (print_name_status changes);
   numstats ← parse_numstat_z (print_numstat changes);
   merge_status_and_numstat statuses numstats) = Ok (sort_changes changes).
Proof.
  intros Hall. rewrite parse_printed_statuses, parse_printed_numstats by done. cbn.
  unfold merge_status_and_numstat. rewrite !length_fmap, Nat.eqb_refl. cbn [negb].
  by rewrite merge_printed.
Qed.
End RoundTrip.

(** *** Examples *)

Section Examples.
#[local] Instance plain_text : ErrorText := {|
  errno_display e := pretty e;
  os_error_display e := "os error " +:+ pretty e;
  utf8_error_display _ := "invalid utf-8"
|}.
#[local] Instance plain_int : IntErrorText := fun _ => "invalid digit found in string".
#[local] Instance measuring_os : Os := {|
  os_pid_alive _ _ := false;
  os_is_dir _ _ := true;
  os_files := unit;
  os_handle := sample_handle "r";
  os_at _ := tt
|}.
#[local] Instance any_pattern : Regexes := {|
  valid_regex _ := true; regex_error _ := ""; is_match pattern line := starts_with line pattern
|}.

(** A work tree with these files, where git answers nothing. *)
Definition tree (files : list (string * Bytes)) : WorkTree := {|
  run_git _ _ _ := Err "no git";
  read_file _ path :=
    match List.find (fun f => f.1 =?s path) files with Some f => Ok f.2 | None => Err (OsError ENOENT) end
|}.

Definition binary_change (path : string) : FileChange := mkFileChange path Modified None None true.

(** The separator of the digested stream may occur in a file: two binary
    patches of the same paths with different contents have the same content
    digest, whatever the hash. *)
Lemma content_digest_ambiguous `{Sha256} :
  let part := nul +:+ "b" +:+ nul +:+ "Modified" +:+ nul in
  let digest files := fst (@compute_content_digest unit (tree files) plain_text _ "/w"
                             [binary_change "a"; binary_change "b"] (start tt)) in
  digest [("/w/a", "x"); ("/w/b", "y" +:+ part +:+ "z")] =
  digest [("/w/a", "x" +:+ part +:+ "y"); ("/w/b", "z")].
Proof. reflexivity. Qed.

(** The marker of the run's own workspace is no part of its patch. *)
Definition sample_patch : GitPatchData := mkPatchData "head" 1
  [mkFileChange "src/core/b.rs" Modified (Some 2%Z) (Some 1%Z) false;
   mkFileChange "src/core/a.rs" Added (Some 3%Z) (Some 0%Z) false]
  [WORKSPACE_OWNER_MARKER; "notes.txt"].

Example measure_sample :
  let charter := mkCharter 1 "T" 1 "r" "base" ["AC"] ["NG"] {[ "core" := ["src/core"] ]} sample_budget
                   sample_caps ["cargo test"] "" in
  let config := mkMeasurementConfig ["rs"] [] true true in
  match fst (@compute_measurement unit (tree [("/w/notes.txt", "one" +:+ String "010" "two")]) any_pattern
               plain_text measuring_os (fun b => b) sample_patch charter "r" true config "/w" [] (start tt)) with
  | Ok m => changed_paths m = ["notes.txt"; "src/core/a.rs"; "src/core/b.rs"] /\
            added_lines m = 7%Z /\ new_modules m = 1%Z /\ changed_subsystems m = ["core"] /\
            violations (evaluate m charter) =
              [mkViolation PathOutsideCharter "changed paths outside charter subsystems: notes.txt"]
  | Err _ => False
  end.
Proof. vm_compute. by split_and!. Qed.

Definition listed_changes : list FileChange :=
  [mkFileChange "b c.rs" Modified (Some 12%Z) (Some 0%Z) false;
   mkFileChange ("a" +:+ tab +:+ "b.png") Added None None true].

Lemma git_listings_roundtrip_witness :
  Forall reported listed_changes /\
  (statuses ← parse_name_status_z (print_name_status listed_changes);
   numstats ← parse_numstat_z (print_numstat listed_changes);
   merge_status_and_numstat statuses numstats) = Ok (sort_changes listed_changes).
Proof.
  assert (Forall reported listed_changes) as Hall.
  { repeat constructor; done. }
  split; [exact Hall|]. exact (git_listings_roundtrip listed_changes Hall).
Defined.

(** A prefix ending in [/**] covers what its directory covers, in the
    evaluation; the validation of a draft compares it literally. *)
Example prefix_spelling :
  prefix_within "src/core/a.rs" "src/**" = true /\ prefix_within "srcs/a.rs" "src/**" = false /\
  is_path_within "src/core" "src/**" = false.
Proof. by vm_compute. Qed.
End Examples.
