(* ===== verification/ScopeArtifacts.v ===== *)
(** The artifacts of scope control, on disk
    ([components/software_change/scope_control/persistence.rs], [decision.rs],
    [review_state.rs], [timeout_recovery.rs]): charters and expansion requests
    that are written once, status, resolutions and review histories that are
    replaced, and the gates that read them.

    A file is named by the components of its path.  Every call on the file system
    may fail; one that fails changed nothing, and the calls around it stand. *)
From S2P Require Import Prelude Effects Text Digest Status RunPaths Ownership ScopeCharter ScopeMeasurement.
From Stdlib Require Import Ascii.

(** ** Files *)

Global Instance Component_countable : Countable Component.
Proof.
  refine (inj_countable'
    (fun c => match c with
              | RootDir => inl 0 | CurDir => inl 1 | ParentDir => inl 2 | Normal name => inr name end)
    (fun x => match x with inl 0 => RootDir | inl 1 => CurDir | inl _ => ParentDir | inr name => Normal name end) _).
  by intros [].
Defined.

Record File := mkFile { content : Bytes; mtime : Z }.

Record Files := mkFiles {
  files : gmap (list Component) File;
  dirs : gset (list Component)
}.
Global Instance Files_eta : Eta Files := fun d => mkFiles (files d) (dirs d).

Definition no_files : Files := mkFiles ∅ ∅.

(** [Uuid::new_v4], at the n-th reading. *)
Class Uuid := new_uuid : nat -> string.

Definition EIO : Errno := 5.
Definition EISDIR : Errno := 21.

Section Calls.
Context `{Env}.

(** A call on the file system, in full or not at all. *)
Definition fs {A} (f : Files -> Res IoError (A * Files)) : M Files IoError A :=
  r ← map_err (fun _ => OsError EIO) (execute (fun d =>
        match f d with Ok (a, d') => Ok (Ok a, d') | Err e => Ok (Err e, d) end));
  lift_res r.

Definition file_at (path : string) (d : Files) : option File := files d !! components path.
Definition occupied (path : string) (d : Files) : bool :=
  bool_decide (is_Some (file_at path d)) || bool_decide (components path ∈ dirs d).

Definition put_file (path : string) (f : File) (d : Files) : Files := d <| files := <[components path := f]> (files d) |>.
Definition drop_file (path : string) (d : Files) : Files := d <| files := delete (components path) (files d) |>.

(** [OpenOptions::create_new], [write_all], [sync_all] *)
Definition create_new (path : string) : M Files IoError unit :=
  t ← now;
  fs (fun d => if occupied path d then Err (OsError EEXIST) else Ok (tt, put_file path (mkFile "" t) d)).
Definition write_all (path : string) (data : Bytes) : M Files IoError unit :=
  t ← now;
  fs (fun d => match file_at path d with
               | Some f => Ok (tt, put_file path (mkFile (content f +:+ data) t) d)
               | None => Ok (tt, d)
               end).
Definition sync_all : M Files IoError unit := fs (fun d => Ok (tt, d)).

Definition hard_link (src dst : string) : M Files IoError unit :=
  fs (fun d => match file_at src d with
               | None => Err (OsError ENOENT)
               | Some f => if occupied dst d then Err (OsError EEXIST) else Ok (tt, put_file dst f d)
               end).
Definition rename (src dst : string) : M Files IoError unit :=
  fs (fun d => match file_at src d with
               | None => Err (OsError ENOENT)
               | Some f => if bool_decide (components dst ∈ dirs d) then Err (OsError EISDIR)
                           else Ok (tt, put_file dst f (drop_file src d))
               end).
Definition remove_file (path : string) : M Files IoError unit :=
  fs (fun d => match file_at path d with
               | None => Err (OsError ENOENT)
               | Some _ => Ok (tt, drop_file path d)
               end).
Definition read (path : string) : M Files IoError Bytes :=
  fs (fun d => match file_at path d with
               | None => Err (OsError ENOENT)
               | Some f => Ok (content f, d)
               end).

(** [Path::exists], [Path::is_dir]: false when the question fails. *)
Definition exists_ {E} (path : string) : M Files E bool :=
  r ← try (fs (fun d => Ok (occupied path d, d)));
  mret (default false (res_ok r)).
Definition is_dir {E} (path : string) : M Files E bool :=
  r ← try (fs (fun d => Ok (bool_decide (components path ∈ dirs d), d)));
  mret (default false (res_ok r)).

Definition mkdir (path : list Component) : M Files IoError unit :=
  fs (fun d => if bool_decide (is_Some (files d !! path)) then Err (OsError EEXIST)
               else Ok (tt, d <| dirs := {[ path ]} ∪ dirs d |>)).

(** [create_dir_all]: the directory and those above it. *)
Definition create_dir_all (path : string) : M Files IoError unit :=
  for_each (fun n => mkdir (take n (components path))) (seq 1 (length (components path))).

(** The names in a directory and when each was last written. *)
Definition read_dir (dir : string) : M Files IoError (list (string * Z)) :=
  fs (fun d =>
    if bool_decide (components dir ∈ dirs d) then
      Ok (omap (fun '(path, f) =>
            match last path with
            | Some (Normal name) =>
                if bool_decide (path = components dir ++ [Normal name]) then Some (name, mtime f) else None
            | _ => None
            end) (map_to_list (files d)), d)
    else Err (OsError ENOENT)).
End Calls.

(** ** Artifacts ([persistence.rs]) *)

Definition SCOPE_CONTROL_DIR : string := "scope-control".
Definition CHARTER_FILENAME : string := "task-charter.json".
Definition STATUS_FILENAME : string := "status.json".

Record ScopeStatus := mkScopeStatus {
  ss_charter_id : string;
  ss_run_id : string;
  ss_digest : string;
  ss_merge_base : string;
  ss_created_at : Z;
  measurement : option PatchMeasurement;
  evaluation : option ScopeEvaluation;
  measured_at : option Z;
  prior_measurement : option PatchMeasurement;
  prior_measurement_digest : option string;
  prior_measured_at : option Z
}.
Global Instance ScopeStatus_eta : Eta ScopeStatus := fun s => mkScopeStatus
  (ss_charter_id s) (ss_run_id s) (ss_digest s) (ss_merge_base s) (ss_created_at s) (measurement s)
  (evaluation s) (measured_at s) (prior_measurement s) (prior_measurement_digest s) (prior_measured_at s).

Inductive PersistenceError :=
| Io (err : IoError)
| JsonError (err : string)
| AlreadyExists (path : string)
| Conflict (path message : string).

Definition persistence_error_text `{ErrorText} (e : PersistenceError) : string :=
  match e with
  | Io err => "IO error: " +:+ io_display err
  | JsonError err => "serialization error: " +:+ err
  | AlreadyExists path => "artifact already exists (immutable): " +:+ path
  | Conflict path message => "conflict at " +:+ path +:+ ": " +:+ message
  end.

Definition scope_control_dir (artifact_dir run : string) : string := join (join artifact_dir SCOPE_CONTROL_DIR) run.
Definition charter_path (dir : string) : string := join dir CHARTER_FILENAME.
Definition status_path (dir : string) : string := join dir STATUS_FILENAME.

Definition validate_run_id (run : string) : Res PersistenceError unit :=
  if str_is_empty run then Err (Conflict SCOPE_CONTROL_DIR "run_id must not be empty")
  else if unsafe_path run then Err (Conflict run "run_id must not contain path traversal components")
  else Ok tt.

(** [Path::file_name] *)
Definition file_name (path : string) : option string :=
  match last (components path) with Some (Normal name) => Some name | _ => None end.

Section Writing.
Context `{Env} `{Uuid}.

Definition collision_safe_temp_path {E} (path : string) : M Files E string :=
  unique ← observe new_uuid;
  mret (join (default "." (parent path))
    ("." +:+ default "artifact" (file_name path) +:+ ".tmp." +:+ unique)).

Definition write_temp (path : string) (data : Bytes) : M Files IoError string :=
  temp_path ← collision_safe_temp_path path;
  create_new temp_path;; write_all temp_path data;; sync_all;; mret temp_path.

Definition write_atomic_create_new (path : string) (data : Bytes) : M Files PersistenceError unit :=
  temp_path ← map_err Io (write_temp path data);
  linked ← try (hard_link temp_path path);
  ignore (remove_file temp_path);;
  match linked with
  | Ok _ => mret tt
  | Err e =>
      match io_kind e with
      | Ownership.AlreadyExists => throw (AlreadyExists path)
      | _ => throw (Io e)
      end
  end.

Definition write_atomic (path : string) (data : Bytes) : M Files PersistenceError unit :=
  temp_path ← map_err Io (write_temp path data);
  map_err Io (rename temp_path path).

Definition create_parent (path : string) : M Files PersistenceError unit :=
  match parent path with Some p => map_err Io (create_dir_all p) | None => mret tt end.

(** [let _ = fsync_dir(parent)] *)
Definition fsync_parent (path : string) : M Files PersistenceError unit := ignore sync_all.

Definition write_immutable_json {T} `{Serde T} (path : string) (value : T) : M Files PersistenceError unit :=
  create_parent path;; write_atomic_create_new path (to_string_pretty value);; fsync_parent path.

Definition write_updatable_json {T} `{Serde T} (path : string) (value : T) : M Files PersistenceError unit :=
  create_parent path;; write_atomic path (to_string_pretty value);; fsync_parent path.

Definition read_json {T} `{Serde T} (path : string) : M Files PersistenceError T :=
  data ← map_err Io (read path);
  lift_res (res_map_err JsonError (from_slice data)).
End Writing.

Section Charters.
Context `{Env} `{Uuid} `{Sha256} `{Serde CanonicalTaskCharter} `{Serde ScopeStatus} `{Serde PatchMeasurement}.

Definition status_for (charter : CanonicalTaskCharter) : M Files PersistenceError ScopeStatus :=
  created_at ← now;
  mret {|
    ss_charter_id := charter_id charter;
    ss_run_id := run_id charter;
    ss_digest := digest charter;
    ss_merge_base := merge_base charter;
    ss_created_at := created_at;
    measurement := None;
    evaluation := None;
    measured_at := None;
    prior_measurement := None;
    prior_measurement_digest := None;
    prior_measured_at := None
  |}.

Definition write_status_for (status_p : string) (charter : CanonicalTaskCharter)
    : M Files PersistenceError unit :=
  status ← status_for charter;
  write_immutable_json status_p status.

(** An existing status must be of this charter; a missing one is written. *)
Definition settle_status (status_p : string) (charter : CanonicalTaskCharter) : M Files PersistenceError unit :=
  present ← exists_ status_p;
  if present : bool then
    existing_status ← read_json (T := ScopeStatus) status_p;
    if negb (ss_digest existing_status =?s digest charter) then
      throw (Conflict status_p ("status digest mismatch: existing " +:+ quoted (ss_digest existing_status) +:+
        " vs charter " +:+ quoted (digest charter)))
    else mret tt
  else write_status_for status_p charter.

Definition persist_charter_and_status (artifact_dir : string) (charter : CanonicalTaskCharter)
    : M Files PersistenceError (string * string) :=
  lift_res (validate_run_id (run_id charter));;
  let dir := scope_control_dir artifact_dir (run_id charter) in
  map_err Io (create_dir_all dir);;
  let charter_p := charter_path dir in
  let status_p := status_path dir in
  present ← exists_ charter_p;
  (if present : bool then
    existing ← read_json (T := CanonicalTaskCharter) charter_p;
    if negb (digest existing =?s digest charter) then
      throw (Conflict charter_p ("charter digest mismatch: existing " +:+ quoted (digest existing) +:+
        " vs new " +:+ quoted (digest charter)))
    else mret tt
  else write_immutable_json charter_p charter);;
  settle_status status_p charter;;
  mret (charter_p, status_p).

(** [measurement_digest] ([decision.rs]) *)
Definition measurement_digest (m : PatchMeasurement) : string := sha256_hex (to_vec m).

(** The snapshot that [update_status_measurement] writes. *)
Definition promoted (s : ScopeStatus) (new_digest : string) (promoted_at : Z) : ScopeStatus :=
  match measurement s with
  | Some prev =>
      if measurement_digest prev =?s new_digest then s
      else s <| prior_measurement := Some prev |>
             <| prior_measurement_digest := Some (measurement_digest prev) |>
             <| prior_measured_at := opt_or (measured_at s) (Some promoted_at) |>
  | None => s
  end.

Definition update_status_measurement (artifact_dir run : string) (m : PatchMeasurement) (e : ScopeEvaluation)
    : M Files PersistenceError unit :=
  lift_res (validate_run_id run);;
  let dir := scope_control_dir artifact_dir run in
  let status_p := status_path dir in
  existing ← read_json (T := ScopeStatus) status_p;
  charter ← read_json (T := CanonicalTaskCharter) (charter_path dir);
  if negb (ss_digest existing =?s digest charter) then
    throw (Conflict status_p ("status digest mismatch: existing " +:+ quoted (ss_digest existing) +:+
      " vs charter " +:+ quoted (digest charter)))
  else
    promoted_at ← now;
    let kept := promoted existing (measurement_digest m) promoted_at in
    write_updatable_json status_p
      (kept <| measurement := Some m |> <| evaluation := Some e |> <| measured_at := Some promoted_at |>).
End Charters.

(** ** Scope decisions ([decision.rs]) *)

Definition EXPANSION_REQUEST_FILENAME : string := "scope-expansion-request.json".
Definition EXPANSION_RESOLUTION_FILENAME : string := "scope-expansion-resolution.json".
Definition REQUESTS_DIRNAME : string := "scope-expansion-requests".

Module ScopeExpansionDecision.
Inductive t := ApproveExpandedScope | SplitFollowUpIssue | ReturnToMinimalImplementation.

Global Instance eq_dec : EqDecision t.
Proof. solve_decision. Defined.

Definition authorizes_expansion (d : t) : bool := bool_decide (d = ApproveExpandedScope).

Definition to_string (d : t) : string :=
  match d with
  | ApproveExpandedScope => "approve_expanded_scope"
  | SplitFollowUpIssue => "split_follow_up_issue"
  | ReturnToMinimalImplementation => "return_to_minimal_implementation"
  end.

Definition from_str (s : string) : Res string t :=
  if s =?s "approve_expanded_scope" then Ok ApproveExpandedScope
  else if s =?s "split_follow_up_issue" then Ok SplitFollowUpIssue
  else if s =?s "return_to_minimal_implementation" then Ok ReturnToMinimalImplementation
  else Err ("unknown scope expansion decision: " +:+ s).

#[export] Instance text : TextEnum string t.
Proof. refine {| to_text := to_string; from_text := from_str |}; [parse_print|print_parse from_str]. Defined.
End ScopeExpansionDecision.

Record ScopeExpansionRequest := mkRequest {
  rq_run_id : string;
  rq_charter_id : string;
  rq_charter_digest : string;
  rq_measurement_digest : string;
  rq_measurement : PatchMeasurement;
  rq_evaluation : ScopeEvaluation;
  rq_violations : list Violation;
  rq_created_at : Z
}.

Record ScopeExpansionResolution := mkResolution {
  rs_run_id : string;
  rs_measurement_digest : string;
  decision : ScopeExpansionDecision.t;
  rationale : string;
  rs_resolved_at : Z
}.

Definition requests_dir (dir : string) : string := join dir REQUESTS_DIRNAME.
Definition request_path (dir : string) : string := join dir EXPANSION_REQUEST_FILENAME.
Definition resolution_path (dir : string) : string := join dir EXPANSION_RESOLUTION_FILENAME.
Definition generation_request_path (gen_dir digest : string) : string := join gen_dir (digest +:+ ".json").

Inductive ScopeGateOutcome :=
| NoScopeControl
| WithinBudget
| WithinBudgetWithPriorResolution
| OverBudgetNeedsRequest
| PendingResolution
| Denied (decision : ScopeExpansionDecision.t).

Definition allows_mutation (o : ScopeGateOutcome) : bool :=
  match o with
  | NoScopeControl | WithinBudget | WithinBudgetWithPriorResolution => true
  | OverBudgetNeedsRequest | PendingResolution | Denied _ => false
  end.

(** Newest first; of equal times the larger name first. *)
Definition newer (a b : string * Z) : Prop := (b.2 < a.2)%Z \/ (a.2 = b.2 /\ String.le b.1 a.1).
#[export] Instance newer_dec : RelDecision newer := fun a b => _.

Section Decisions.
Context `{Env} `{Uuid} `{Sha256} `{Serde PatchMeasurement} `{Serde ScopeExpansionRequest}
  `{Serde ScopeExpansionResolution}.

Definition write_expansion_request (artifact_dir : string) (request : ScopeExpansionRequest)
    : M Files PersistenceError unit :=
  let gen_dir := requests_dir (scope_control_dir artifact_dir (rq_run_id request)) in
  map_err Io (create_dir_all gen_dir);;
  let gen_path := generation_request_path gen_dir (rq_measurement_digest request) in
  present ← exists_ gen_path;
  if present : bool then
    existing ← read_json (T := ScopeExpansionRequest) gen_path;
    if rq_measurement_digest existing =?s rq_measurement_digest request then mret tt
    else throw (Conflict gen_path "generation file digest mismatch")
  else write_immutable_json gen_path request.

Definition read_latest_generation (gen_dir : string) : M Files PersistenceError (option ScopeExpansionRequest) :=
  all ← map_err Io (read_dir gen_dir);
  let entries := List.filter (fun e => bool_decide (extension e.1 = Some "json")) all in
  match merge_sort newer entries with
  | [] => mret None
  | latest :: _ =>
      request ← read_json (join gen_dir latest.1);
      mret (Some request)
  end.

(** [if !path.exists() { return Ok(None); } read_json(&path).map(Some)] *)
Definition read_if_present {T} `{Serde T} (path : string) : M Files PersistenceError (option T) :=
  present ← exists_ path;
  if present : bool then value ← read_json path; mret (Some value) else mret None.

Definition read_expansion_request (artifact_dir run : string)
    : M Files PersistenceError (option ScopeExpansionRequest) :=
  let dir := scope_control_dir artifact_dir run in
  generations ← is_dir (requests_dir dir);
  if generations : bool then read_latest_generation (requests_dir dir)
  else read_if_present (request_path dir).

Definition write_expansion_resolution (artifact_dir : string) (resolution : ScopeExpansionResolution)
    : M Files PersistenceError unit :=
  write_updatable_json (resolution_path (scope_control_dir artifact_dir (rs_run_id resolution))) resolution.

Definition read_expansion_resolution (artifact_dir run : string)
    : M Files PersistenceError (option ScopeExpansionResolution) :=
  read_if_present (resolution_path (scope_control_dir artifact_dir run)).

Definition within_charter (e : ScopeEvaluation) : bool := within_budget e && bool_decide (violations e = []).

Definition check_scope_gate (artifact_dir run : string) (charter : CanonicalTaskCharter) (m : PatchMeasurement)
    (e : ScopeEvaluation) : M Files PersistenceError ScopeGateOutcome :=
  if within_charter e then
    request ← read_expansion_request artifact_dir run;
    mret (if request is Some _ then WithinBudgetWithPriorResolution else WithinBudget)
  else
    request ← read_expansion_request artifact_dir run;
    match request with
    | None => mret OverBudgetNeedsRequest
    | Some request =>
        resolution ← read_expansion_resolution artifact_dir run;
        match resolution with
        | None => mret PendingResolution
        | Some resolution =>
            let digest := measurement_digest m in
            mret (
              if negb (rq_charter_digest request =?s ScopeCharter.digest charter) ||
                 negb (rs_measurement_digest resolution =?s digest) ||
                 negb (rq_measurement_digest request =?s digest)
              then OverBudgetNeedsRequest
              else if ScopeExpansionDecision.authorizes_expansion (decision resolution)
              then WithinBudgetWithPriorResolution
              else Denied (decision resolution))
        end
    end.

Definition build_expansion_request (run : string) (charter : CanonicalTaskCharter) (m : PatchMeasurement)
    (e : ScopeEvaluation) : M Files PersistenceError ScopeExpansionRequest :=
  created_at ← now;
  mret {|
    rq_run_id := run;
    rq_charter_id := charter_id charter;
    rq_charter_digest := ScopeCharter.digest charter;
    rq_measurement_digest := measurement_digest m;
    rq_measurement := m;
    rq_evaluation := e;
    rq_violations := violations e;
    rq_created_at := created_at
  |}.
End Decisions.

(** ** Review rounds ([review_state.rs]) *)

Definition REVIEW_HISTORY_FILENAME : string := "review-history.json".
Definition EXHAUSTION_SUMMARY_FILENAME : string := "review-exhaustion.json".

Inductive ReviewKind := InitialFull | Delta | FinalAcceptance.

Global Instance ReviewKind_eq_dec : EqDecision ReviewKind.
Proof. solve_decision. Defined.

Record ReviewScope := mkReviewScope {
  review_kind : ReviewKind;
  rv_merge_base : string;
  from_sha : string;
  to_sha : string;
  changed_files : list string;
  changed_tests : list string;
  contextual_files : list string;
  rv_charter_digest : string
}.

Record ReviewHistory := mkHistory {
  rh_run_id : string;
  reviews : list ReviewScope;
  mutating_remediation_rounds : Z
}.
Global Instance ReviewHistory_eta : Eta ReviewHistory := fun h =>
  mkHistory (rh_run_id h) (reviews h) (mutating_remediation_rounds h).

Inductive ReviewCheckOutcome :=
| Allowed
| SameHeadReplay
| InitialAlreadyRecorded
| DeltaCapExhausted (used cap : Z)
| FinalAlreadyRecorded
| InitialRequiredFirst
| BlockedAfterFinal
| MutatingRemediationExhausted (used cap : Z).

Global Instance ReviewCheckOutcome_eq_dec : EqDecision ReviewCheckOutcome.
Proof. solve_decision. Defined.

Definition permits_review (o : ReviewCheckOutcome) : bool :=
  match o with Allowed | SameHeadReplay => true | _ => false end.

Definition of_kind (kind : ReviewKind) (r : ReviewScope) : bool := bool_decide (review_kind r = kind).

(** [.count() as u32] *)
Definition count_by_kind (h : ReviewHistory) (kind : ReviewKind) : Z :=
  as_u32 (Z.of_nat (length (List.filter (of_kind kind) (reviews h)))).

Definition check_initial (h : ReviewHistory) (head_sha : string) : ReviewCheckOutcome :=
  match List.find (of_kind InitialFull) (reviews h) with
  | Some r => if to_sha r =?s head_sha then SameHeadReplay else InitialAlreadyRecorded
  | None => Allowed
  end.

Definition check_delta (h : ReviewHistory) (head_sha : string) (caps : CanonicalReviewCaps) : ReviewCheckOutcome :=
  if (count_by_kind h InitialFull =? 0)%Z then InitialRequiredFirst
  else if (0 <? count_by_kind h FinalAcceptance)%Z then BlockedAfterFinal
  else if existsb (fun r => of_kind Delta r && (to_sha r =?s head_sha)) (reviews h) then SameHeadReplay
  else
    let used := count_by_kind h Delta in
    if (max_delta_reviews caps <=? used)%Z then DeltaCapExhausted used (max_delta_reviews caps) else Allowed.

Definition check_final (h : ReviewHistory) (caps : CanonicalReviewCaps) : ReviewCheckOutcome :=
  if (count_by_kind h InitialFull =? 0)%Z then InitialRequiredFirst
  else if (final_acceptance_reviews caps <=? count_by_kind h FinalAcceptance)%Z then FinalAlreadyRecorded
  else Allowed.

(** The last reviewed head, of initial and delta reviews. *)
Definition last_reviewed_head (h : ReviewHistory) : option string :=
  to_sha <$> List.find (fun r => of_kind InitialFull r || of_kind Delta r) (rev (reviews h)).

Inductive ReviewExhaustionRouting :=
| RouteDeltaCapExhausted
| RouteMutatingRemediationExhausted
| RouteBlockedAfterFinal.

Record ReviewExhaustionSummary := mkExhaustion {
  routing : ReviewExhaustionRouting;
  ex_run_id : string;
  ex_head_sha : string;
  ex_initial_reviews : Z;
  ex_delta_reviews : Z;
  ex_final_reviews : Z;
  ex_mutating_remediation_rounds : Z;
  ex_caps : CanonicalReviewCaps;
  ex_charter_digest : string;
  written_at : string
}.

Record PreLaunchReviewRequest := mkPreLaunch {
  pl_run_id : string;
  pl_head_sha : string;
  pl_merge_base : string;
  pl_changed_files : list string;
  pl_changed_tests : list string;
  pl_charter_digest : string;
  caps : CanonicalReviewCaps;
  now_rfc3339 : string
}.

Definition build_exhaustion_summary (h : ReviewHistory) (request : PreLaunchReviewRequest)
    (route : ReviewExhaustionRouting) (delta_reviews : Z) : ReviewExhaustionSummary := {|
  routing := route;
  ex_run_id := pl_run_id request;
  ex_head_sha := pl_head_sha request;
  ex_initial_reviews := count_by_kind h InitialFull;
  ex_delta_reviews := delta_reviews;
  ex_final_reviews := count_by_kind h FinalAcceptance;
  ex_mutating_remediation_rounds := mutating_remediation_rounds h;
  ex_caps := caps request;
  ex_charter_digest := pl_charter_digest request;
  written_at := now_rfc3339 request
|}.

Definition build_review_scope (kind : ReviewKind) (request : PreLaunchReviewRequest) (from : string) : ReviewScope := {|
  review_kind := kind;
  rv_merge_base := pl_merge_base request;
  from_sha := from;
  to_sha := pl_head_sha request;
  changed_files := pl_changed_files request;
  changed_tests := pl_changed_tests request;
  contextual_files := [];
  rv_charter_digest := pl_charter_digest request
|}.

Definition is_test_file (path : string) : bool :=
  let normalized := replace_char "\" "/" path in
  let basename := default normalized (last (split_char "/" normalized)) in
  starts_with normalized "tests/" || contains normalized "/tests/" || starts_with basename "test_" ||
  starts_with basename "tests_" || ends_with basename "_test.rs" || ends_with basename "_test.go" ||
  ends_with basename "_test.py" || (basename =?s "test.rs") || ends_with basename ".test.ts" ||
  ends_with basename ".test.tsx" || ends_with basename ".test.js".

Definition filter_changed_tests (changed : list string) : list string := List.filter is_test_file changed.

Section Reviews.
Context `{Env} `{Uuid} `{Serde ReviewHistory} `{Serde ReviewExhaustionSummary}.

Definition review_history_path (artifact_dir run : string) : string :=
  join (scope_control_dir artifact_dir run) REVIEW_HISTORY_FILENAME.
Definition exhaustion_path (artifact_dir run : string) : string :=
  join (scope_control_dir artifact_dir run) EXHAUSTION_SUMMARY_FILENAME.

Definition empty_history (run : string) : ReviewHistory := mkHistory run [] 0.

Definition read_review_history (artifact_dir run : string) : M Files PersistenceError ReviewHistory :=
  found ← read_if_present (review_history_path artifact_dir run);
  mret (default (empty_history run) found).

Definition write_review_history (artifact_dir : string) (h : ReviewHistory) : M Files PersistenceError unit :=
  write_updatable_json (review_history_path artifact_dir (rh_run_id h)) h.

Definition append_review (h : ReviewHistory) (run : string) (scope : ReviewScope) : ReviewHistory :=
  h <| rh_run_id := run |> <| reviews := reviews h ++ [scope] |>.

Definition record_review (artifact_dir run : string) (scope : ReviewScope) (caps : CanonicalReviewCaps)
    : M Files PersistenceError ReviewCheckOutcome :=
  history ← read_review_history artifact_dir run;
  let outcome := match review_kind scope with
    | InitialFull => check_initial history (to_sha scope)
    | Delta => check_delta history (to_sha scope) caps
    | FinalAcceptance => check_final history caps
    end in
  if bool_decide (outcome = Allowed) then
    write_review_history artifact_dir (append_review history run scope);; mret outcome
  else mret outcome.

Definition write_exhaustion_summary (artifact_dir : string) (summary : ReviewExhaustionSummary)
    : M Files PersistenceError string :=
  let path := exhaustion_path artifact_dir (ex_run_id summary) in
  write_updatable_json path summary;; mret path.

Definition read_exhaustion_summary (artifact_dir run : string)
    : M Files PersistenceError (option ReviewExhaustionSummary) :=
  read_if_present (exhaustion_path artifact_dir run).

Definition handle_delta_exhaustion (artifact_dir : string) (h : ReviewHistory) (request : PreLaunchReviewRequest)
    (delta_outcome : ReviewCheckOutcome) : M Files PersistenceError ReviewCheckOutcome :=
  match delta_outcome with
  | DeltaCapExhausted used cap =>
      write_exhaustion_summary artifact_dir (build_exhaustion_summary h request RouteDeltaCapExhausted used);;
      mret (DeltaCapExhausted used cap)
  | other => mret other
  end.

Definition evaluate_delta (artifact_dir : string) (h : ReviewHistory) (request : PreLaunchReviewRequest)
    : M Files PersistenceError ReviewCheckOutcome :=
  let prior_head := last_reviewed_head h in
  if bool_decide (prior_head = Some (pl_head_sha request)) then mret SameHeadReplay
  else if (max_mutating_remediation_rounds (caps request) <=? mutating_remediation_rounds h)%Z then
    write_exhaustion_summary artifact_dir
      (build_exhaustion_summary h request RouteMutatingRemediationExhausted (count_by_kind h Delta));;
    mret (MutatingRemediationExhausted (mutating_remediation_rounds h)
            (max_mutating_remediation_rounds (caps request)))
  else
    match check_delta h (pl_head_sha request) (caps request) with
    | Allowed =>
        let counted := h <| mutating_remediation_rounds := (mutating_remediation_rounds h + 1)%Z |> in
        let scope := build_review_scope Delta request (default (pl_merge_base request) prior_head) in
        write_review_history artifact_dir (append_review counted (pl_run_id request) scope);;
        mret Allowed
    | SameHeadReplay => mret SameHeadReplay
    | other => handle_delta_exhaustion artifact_dir h request other
    end.

Definition pre_launch_review_gate (artifact_dir : string) (request : PreLaunchReviewRequest)
    : M Files PersistenceError ReviewCheckOutcome :=
  history ← read_review_history artifact_dir (pl_run_id request);
  if (0 <? count_by_kind history FinalAcceptance)%Z then
    write_exhaustion_summary artifact_dir
      (build_exhaustion_summary history request RouteBlockedAfterFinal (count_by_kind history Delta));;
    mret BlockedAfterFinal
  else if (0 <? count_by_kind history InitialFull)%Z then evaluate_delta artifact_dir history request
  else
    let scope := build_review_scope InitialFull request (pl_merge_base request) in
    let outcome := check_initial history (pl_head_sha request) in
    if bool_decide (outcome = Allowed) then
      write_review_history artifact_dir (append_review history (pl_run_id request) scope);; mret outcome
    else mret outcome.

Definition record_final_acceptance (artifact_dir run head_sha merge_base charter_digest : string)
    (caps : CanonicalReviewCaps) : M Files PersistenceError ReviewCheckOutcome :=
  record_review artifact_dir run {|
    review_kind := FinalAcceptance;
    rv_merge_base := merge_base;
    from_sha := merge_base;
    to_sha := head_sha;
    changed_files := [];
    changed_tests := [];
    contextual_files := [];
    rv_charter_digest := charter_digest
  |} caps.
End Reviews.

(** ** Timeouts ([timeout_recovery.rs]) *)

Definition TIMEOUT_SNAPSHOT_FILENAME : string := "timeout-snapshot.json".

Inductive TimeoutKind := Timeout | IdleTimeout.

Record MappedChange := mkMapped { mc_path : string; mc_subsystem : option string }.

Record ProcessEvidence := mkEvidence {
  exit_code : option Z;
  wall_clock_timeout : bool;
  process_killed : bool
}.

Record TimeoutSnapshot := mkSnapshot {
  ts_run_id : string;
  ts_charter_id : string;
  ts_charter_digest : string;
  ts_timeout_kind : TimeoutKind;
  ts_measurement : PatchMeasurement;
  mapped_changes : list MappedChange;
  ts_partial_compile_configured : bool;
  ts_partial_compile_passed : option bool;
  process_evidence : ProcessEvidence;
  ts_recovery_required : bool;
  ts_created_at : Z
}.

Record TimeoutRecoveryStatus := mkTimeoutStatus {
  recovery_required : bool;
  timeout_kind : TimeoutKind;
  unmapped_path_count : Z;
  mapped_changes_count : Z;
  partial_compile_configured : bool;
  partial_compile_passed : option bool
}.

Definition from_snapshot (s : TimeoutSnapshot) : TimeoutRecoveryStatus := {|
  recovery_required := ts_recovery_required s;
  timeout_kind := ts_timeout_kind s;
  unmapped_path_count := as_u32 (Z.of_nat (length (List.filter (fun c => bool_decide (mc_subsystem c = None))
                                                     (mapped_changes s))));
  mapped_changes_count := as_u32 (Z.of_nat (length (mapped_changes s)));
  partial_compile_configured := ts_partial_compile_configured s;
  partial_compile_passed := ts_partial_compile_passed s
|}.

(** The entries of a [BTreeMap], in the order of their keys. *)
Definition entry_le (a b : string * list string) : Prop := String.le a.1 b.1.
#[export] Instance entry_le_dec : RelDecision entry_le := fun a b => _.
Definition btree_entries (m : gmap string (list string)) : list (string * list string) :=
  merge_sort entry_le (map_to_list m).

(** [max_by_key]: of equal keys the last. *)
Definition longer (best : option (nat * string)) (candidate : nat * string) : option (nat * string) :=
  match best with
  | Some b => if b.1 <=? candidate.1 then Some candidate else Some b
  | None => Some candidate
  end.

Definition covering (path : string) (c : CanonicalTaskCharter) : list (nat * string) :=
  btree_entries (subsystems c) ≫= fun '(sub_id, prefixes) =>
    (fun prefix => (String.length prefix, sub_id)) <$>
      List.filter (fun prefix => negb (str_is_empty prefix) && prefix_within path prefix) prefixes.

Definition find_subsystem (path : string) (c : CanonicalTaskCharter) : option string :=
  snd <$> foldl longer None (covering path c).

Definition map_changes_to_subsystems (paths : list string) (c : CanonicalTaskCharter) : list MappedChange :=
  (fun path => mkMapped path (find_subsystem path c)) <$> paths.

Section Timeouts.
Context `{Env} `{Uuid} `{Serde TimeoutSnapshot}.

Definition timeout_snapshot_path (artifact_dir run : string) : string :=
  join (scope_control_dir artifact_dir run) TIMEOUT_SNAPSHOT_FILENAME.

Definition read_timeout_snapshot (artifact_dir run : string) : M Files PersistenceError (option TimeoutSnapshot) :=
  r ← try (read_json (timeout_snapshot_path artifact_dir run));
  match r with
  | Ok snapshot => mret (Some snapshot)
  | Err (Io err) => match io_kind err with NotFound => mret None | _ => throw (Io err) end
  | Err err => throw err
  end.

Definition handle_timeout_recovery (artifact_dir run : string) (charter : CanonicalTaskCharter)
    (m : PatchMeasurement) (kind : TimeoutKind) (compile_configured : bool) (evidence : ProcessEvidence)
    : M Files PersistenceError TimeoutSnapshot :=
  created_at ← now;
  let snapshot := {|
    ts_run_id := run;
    ts_charter_id := charter_id charter;
    ts_charter_digest := ScopeCharter.digest charter;
    ts_timeout_kind := kind;
    ts_measurement := m;
    mapped_changes := map_changes_to_subsystems (changed_paths m) charter;
    ts_partial_compile_configured := compile_configured;
    ts_partial_compile_passed := None;
    process_evidence := evidence;
    ts_recovery_required := true;
    ts_created_at := created_at
  |} in
  write_updatable_json (timeout_snapshot_path artifact_dir run) snapshot;;
  mret snapshot.
End Timeouts.

(** ** What a call does to the files *)

Lemma wp_fs `{Env} {A} (f : Files -> Res IoError (A * Files)) (Q : Res IoError A -> World Files -> Prop) w :
  (forall w', w_db w' = w_db w -> Q (Err (OsError EIO)) w') ->
  match f (w_db w) with
  | Ok (a, d') => forall w', w_db w' = d' -> Q (Ok a) w'
  | Err e => forall w', w_db w' = w_db w -> Q (Err e) w'
  end ->
  wp (fs f) Q w.
Proof.
  intros Hfault Hf. unfold fs. apply wp_bind, wp_map_err, wp_execute.
  - intros w' Hw'. cbn. by apply Hfault.
  - intros e w' He. by destruct (f (w_db w)) as [[b d']|e'].
  - intros a d' w' Hd Hw'. cbn. apply wp_lift_res.
    destruct (f (w_db w)) as [[b d'']|e]; simplify_eq; by apply Hf.
Qed.

(** A call that changes nothing. *)
Lemma wp_fs_read `{Env} {A} (g : Files -> Res IoError A) (Q : Res IoError A -> World Files -> Prop) w :
  (forall r w', w_db w' = w_db w -> r = Err (OsError EIO) \/ r = g (w_db w) -> Q r w') ->
  wp (fs (fun d => match g d with Ok a => Ok (a, d) | Err e => Err e end)) Q w.
Proof.
  intros HQ. apply wp_fs; [by auto|]. destruct (g (w_db w)); intros w' Hw'; apply HQ; auto.
Qed.

Lemma keeps_fs `{Env} {A} P (f : Files -> Res IoError (A * Files)) :
  (forall d a d', P d -> f d = Ok (a, d') -> P d') -> keeps P (fs f).
Proof.
  intros Hf w Hw. change (wp (fs f) (fun _ w' => P (w_db w')) w). apply wp_fs; [by intros w' ->|].
  destruct (f (w_db w)) as [[a d']|e] eqn:E; intros w' ->; eauto.
Qed.

(** A file that is there stays as it is. *)
Definition only_new (d d' : Files) : Prop := files d ⊆ files d'.

#[export] Instance only_new_preorder : PreOrder only_new.
Proof. split; [intros d|intros d1 d2 d3]; unfold only_new; [done|apply transitivity]. Qed.

(** The same of every file but one. *)
Definition only_at (path : string) (d d' : Files) : Prop := delete (components path) (files d) ⊆ files d'.

Lemma only_new_at path d d' : only_new d d' -> only_at path d d'.
Proof. intros Hd. unfold only_at, only_new in *. etransitivity; [apply delete_subseteq|exact Hd]. Qed.

Section Specs.
Context `{Env} `{Uuid}.

Lemma create_dir_all_files path :
  forall fs0, keeps (fun d => files d = fs0) (create_dir_all path).
Proof.
  intros fs0. unfold create_dir_all. apply keeps_for_each. intros n. apply keeps_fs.
  intros d a d' Hd. case_bool_decide; [done|]. by intros [= _ <-].
Qed.

Lemma create_dir_all_wp path (Q : Res IoError unit -> World Files -> Prop) w :
  (forall r w', files (w_db w') = files (w_db w) -> Q r w') -> wp (create_dir_all path) Q w.
Proof.
  intros HQ. eapply wp_consequence; [apply (wp_kept (fun d => files d = files (w_db w)))|].
  - apply create_dir_all_files.
  - done.
  - intros r w' Hw'. by apply HQ.
Qed.

Lemma create_parent_wp path (Q : Res PersistenceError unit -> World Files -> Prop) w :
  (forall r w', files (w_db w') = files (w_db w) -> Q r w') -> wp (create_parent path) Q w.
Proof.
  intros HQ. unfold create_parent. case_match; [|apply wp_ret; by apply HQ].
  apply wp_map_err, create_dir_all_wp. intros r w' Hw'. by apply HQ.
Qed.

Lemma file_at_put path f d : file_at path (put_file path f d) = Some f.
Proof. apply lookup_insert_eq. Qed.

Lemma put_put path f g d : put_file path g (put_file path f d) = put_file path g d.
Proof. unfold put_file. cbn. by rewrite insert_insert_eq. Qed.

Lemma not_occupied path d : occupied path d = false -> file_at path d = None.
Proof. unfold occupied. intros Ho. bool_hyps. by apply eq_None_not_Some. Qed.

Lemma create_new_wp path (Q : Res IoError unit -> World Files -> Prop) w :
  (forall e w', w_db w' = w_db w -> Q (Err e) w') ->
  (forall t w', file_at path (w_db w) = None -> w_db w' = put_file path (mkFile "" t) (w_db w) -> Q (Ok tt) w') ->
  wp (create_new path) Q w.
Proof.
  intros Herr Hok. unfold create_new. wp_steps. apply wp_fs; [intros w1 Hw1; apply Herr; congruence|].
  rewrite H1. destruct (occupied path (w_db w)) eqn:Eo; intros w1 Hw1.
  - apply Herr. congruence.
  - eapply Hok; [by apply not_occupied|exact Hw1].
Qed.

Lemma write_all_wp path data f (Q : Res IoError unit -> World Files -> Prop) w :
  file_at path (w_db w) = Some f ->
  (forall e w', w_db w' = w_db w -> Q (Err e) w') ->
  (forall t w', w_db w' = put_file path (mkFile (content f +:+ data) t) (w_db w) -> Q (Ok tt) w') ->
  wp (write_all path data) Q w.
Proof.
  intros Hf Herr Hok. unfold write_all. wp_steps. apply wp_fs; [intros w1 Hw1; apply Herr; congruence|].
  rewrite H1, Hf. intros w1 Hw1. eapply Hok. exact Hw1.
Qed.

Lemma sync_all_wp (Q : Res IoError unit -> World Files -> Prop) w :
  (forall r w', w_db w' = w_db w -> Q r w') -> wp sync_all Q w.
Proof. intros HQ. unfold sync_all. apply wp_fs; intros w' Hw'; by apply HQ. Qed.

(** A temporary file is one that was not there. *)
Definition fresh_file (d : Files) (temp : string) (data : Bytes) (d' : Files) : Prop :=
  file_at temp d = None /\ exists t, d' = put_file temp (mkFile data t) d.

Lemma put_only_new path f d : file_at path d = None -> only_new d (put_file path f d).
Proof. intros Hnone. unfold only_new. by apply insert_subseteq. Qed.

Lemma write_temp_wp path data (Q : Res IoError string -> World Files -> Prop) w :
  (forall temp w', fresh_file (w_db w) temp data (w_db w') -> Q (Ok temp) w') ->
  (forall e w', only_new (w_db w) (w_db w') -> Q (Err e) w') ->
  wp (write_temp path data) Q w.
Proof.
  intros Hok Herr. unfold write_temp, collision_safe_temp_path. wp_steps.
  match goal with |- context [create_new ?t] => generalize t end. intros temp.
  apply create_new_wp; [intros e w1 Hw1; apply Herr; by rewrite Hw1, H1|].
  rewrite H1. intros t w1 Hnone Hw1. cbn. wp_steps.
  assert (forall f, only_new (w_db w) (put_file temp f (w_db w))) as Hnew by (intros f; by apply put_only_new).
  eapply write_all_wp; [rewrite Hw1; apply file_at_put| |].
  { intros e w2 Hw2. apply Herr. by rewrite Hw2, Hw1. }
  intros t' w2 Hw2. wp_steps. apply sync_all_wp.
  rewrite Hw1, put_put in Hw2.
  intros [[]|e] w3 Hw3; cbn; wp_steps.
  - apply Hok. split; [done|]. exists t'. by rewrite Hw3, Hw2.
  - apply Herr. by rewrite Hw3, Hw2.
Qed.

Lemma remove_file_wp {E} path (Q : Res E unit -> World Files -> Prop) w :
  (forall w', w_db w' = w_db w \/ w_db w' = drop_file path (w_db w) -> Q (Ok tt) w') ->
  wp (ignore (remove_file path)) Q w.
Proof.
  intros HQ. apply wp_ignore. unfold remove_file. apply wp_fs; [intros w' Hw'; apply HQ; auto|].
  destruct (file_at path (w_db w)); intros w' Hw'; apply HQ; auto.
Qed.

(** Removing the temporary file leaves what was there before it. *)
Lemma drop_fresh_only_new d temp f g path :
  file_at temp d = None ->
  only_new d (drop_file temp (put_file temp f d)) /\
  (file_at path (put_file temp f d) = None ->
   only_new d (drop_file temp (put_file path g (put_file temp f d))) /\
   file_at path (drop_file temp (put_file path g (put_file temp f d))) = Some g).
Proof.
  intros Hnone. unfold file_at in Hnone. split.
  - unfold only_new. cbn. by rewrite delete_insert_eq, delete_id.
  - unfold file_at, only_new. cbn. intros Hpath.
    destruct (decide (components path = components temp)) as [Heq|Hne].
    { by rewrite Heq, lookup_insert_eq in Hpath. }
    rewrite lookup_insert_ne in Hpath by done. split.
    + rewrite insert_insert_ne by done. rewrite delete_insert_eq.
      rewrite delete_id; [by apply insert_subseteq|]. by rewrite lookup_insert_ne.
    + rewrite lookup_delete_ne by done. apply lookup_insert_eq.
Qed.

Lemma write_atomic_create_new_wp path data (Q : Res PersistenceError unit -> World Files -> Prop) w :
  (forall t w', only_new (w_db w) (w_db w') -> file_at path (w_db w') = Some (mkFile data t) ->
     Q (Ok tt) w') ->
  (forall e w', only_new (w_db w) (w_db w') -> Q (Err e) w') ->
  wp (write_atomic_create_new path data) Q w.
Proof.
  intros Hok Herr. unfold write_atomic_create_new. apply wp_bind, wp_map_err, write_temp_wp; [|intros e w1 Hw1; by apply Herr].
  intros temp w1 (Hnone & t & Hw1). cbn. apply wp_bind, wp_try.
  destruct (drop_fresh_only_new (w_db w) temp (mkFile data t) (mkFile data t) path Hnone) as [Hdrop Hlink].
  assert (forall e w2, w_db w2 = w_db w1 ->
    wp (ignore (remove_file temp);; match io_kind e with
         | Ownership.AlreadyExists => throw (AlreadyExists path) | _ => throw (Io e) end) Q w2) as Hfail.
  { intros e w2 Hw2. apply wp_bind, remove_file_wp. intros w3 Hw3.
    assert (only_new (w_db w) (w_db w3)) as Hnew.
    { destruct Hw3 as [->| ->]; rewrite Hw2, Hw1; [by apply put_only_new|done]. }
    cbn. destruct (io_kind e); wp_steps; by apply Herr. }
  unfold hard_link. apply wp_fs; [intros w2; apply Hfail|].
  assert (file_at temp (w_db w1) = Some (mkFile data t)) as -> by (rewrite Hw1; apply file_at_put).
  destruct (occupied path (w_db w1)) eqn:Eo; [intros w2; apply Hfail|]. intros w2 Hw2. cbn.
  apply not_occupied in Eo. rewrite Hw1 in Eo. destruct (Hlink Eo) as [Hnew Hat].
  apply wp_bind, remove_file_wp. intros w3 [Hw3|Hw3]; cbn; wp_steps; apply (Hok t); rewrite Hw3, Hw2, Hw1; try done.
  - etransitivity; [by apply put_only_new|]. by apply put_only_new.
  - apply file_at_put.
Qed.

Lemma write_atomic_wp path data (Q : Res PersistenceError unit -> World Files -> Prop) w :
  (forall t w', files (w_db w') = <[components path := mkFile data t]> (files (w_db w)) -> Q (Ok tt) w') ->
  (forall e w', only_new (w_db w) (w_db w') -> Q (Err e) w') ->
  wp (write_atomic path data) Q w.
Proof.
  intros Hok Herr. unfold write_atomic. apply wp_bind, wp_map_err, write_temp_wp; [|intros e w1 Hw1; by apply Herr].
  intros temp w1 (Hnone & t & Hw1). cbn. apply wp_map_err. unfold rename.
  assert (only_new (w_db w) (w_db w1)) as Hnew by (rewrite Hw1; by apply put_only_new).
  apply wp_fs; [intros w2 Hw2; apply Herr; by rewrite Hw2|].
  assert (file_at temp (w_db w1) = Some (mkFile data t)) as -> by (rewrite Hw1; apply file_at_put).
  case_bool_decide; intros w2 Hw2; cbn; [apply Herr; by rewrite Hw2|].
  apply (Hok t). rewrite Hw2, Hw1. cbn. unfold file_at in Hnone.
  by rewrite delete_insert_eq, (delete_id (files (w_db w)) (components temp)).
Qed.

Context {T : Type} `{Serde T}.

Lemma write_immutable_json_wp path (value : T) (Q : Res PersistenceError unit -> World Files -> Prop) w :
  (forall t w', only_new (w_db w) (w_db w') ->
     file_at path (w_db w') = Some (mkFile (to_string_pretty value) t) -> Q (Ok tt) w') ->
  (forall e w', only_new (w_db w) (w_db w') -> Q (Err e) w') ->
  wp (write_immutable_json path value) Q w.
Proof.
  intros Hok Herr. unfold write_immutable_json, fsync_parent. apply wp_bind, create_parent_wp.
  unfold only_new in *. intros [[]|e] w1 Hw1; cbn; [|apply Herr; by rewrite Hw1].
  apply wp_bind, write_atomic_create_new_wp; unfold only_new; rewrite Hw1.
  - intros t w2 Hnew Hat. cbn. apply wp_ignore, sync_all_wp. intros _ w3 Hw3. apply (Hok t); by rewrite Hw3.
  - intros e w2 Hnew. by apply Herr.
Qed.

Lemma write_updatable_json_wp path (value : T) (Q : Res PersistenceError unit -> World Files -> Prop) w :
  (forall t w', files (w_db w') = <[components path := mkFile (to_string_pretty value) t]> (files (w_db w)) ->
     Q (Ok tt) w') ->
  (forall e w', only_new (w_db w) (w_db w') -> Q (Err e) w') ->
  wp (write_updatable_json path value) Q w.
Proof.
  intros Hok Herr. unfold write_updatable_json, fsync_parent. apply wp_bind, create_parent_wp.
  unfold only_new in *. intros [[]|e] w1 Hw1; cbn; [|apply Herr; by rewrite Hw1].
  apply wp_bind, write_atomic_wp; unfold only_new; rewrite Hw1.
  - intros t w2 Hw2. cbn. apply wp_ignore, sync_all_wp. intros _ w3 Hw3. apply (Hok t); by rewrite Hw3.
  - intros e w2 Hnew. by apply Herr.
Qed.

(** What a file holds. *)
Definition stored (path : string) (value : T) (d : Files) : Prop :=
  exists f, file_at path d = Some f /\ from_slice (content f) = Ok value.

Lemma read_json_wp path (Q : Res PersistenceError T -> World Files -> Prop) w :
  (forall r w', w_db w' = w_db w -> (forall value, r = Ok value -> stored path value (w_db w)) -> Q r w') ->
  wp (read_json path) Q w.
Proof.
  intros HQ. unfold read_json. apply wp_bind, wp_map_err. unfold read. apply wp_fs.
  { intros w' Hw'. by apply HQ. }
  destruct (file_at path (w_db w)) as [f|] eqn:Ef; intros w' Hw'; cbn; [|by apply HQ].
  apply wp_lift_res, HQ; [done|]. intros value Hv. exists f. split; [done|].
  by destruct (from_slice (content f)); cbn in Hv; simplify_eq.
Qed.

Lemma exists_wp {E} path (Q : Res E bool -> World Files -> Prop) w :
  (forall b w', w_db w' = w_db w -> (b = true -> occupied path (w_db w) = true) -> Q (Ok b) w') ->
  wp (exists_ path) Q w.
Proof.
  intros HQ. unfold exists_. apply wp_bind, wp_try, wp_fs; intros w' Hw'; cbn; wp_steps; by apply HQ.
Qed.

Lemma read_if_present_wp path (Q : Res PersistenceError (option T) -> World Files -> Prop) w :
  (forall r w', w_db w' = w_db w -> (forall value, r = Ok (Some value) -> stored path value (w_db w)) ->
     Q r w') ->
  wp (read_if_present path) Q w.
Proof.
  intros HQ. unfold read_if_present. apply wp_bind, exists_wp. intros b w1 Hw1 _. destruct b; cbn.
  - apply wp_bind, read_json_wp. intros [value|e] w2 Hw2 Hv; cbn.
    + apply wp_ret, HQ; [congruence|]. intros v [= <-]. rewrite <- Hw1. by apply Hv.
    + apply HQ; [congruence|done].
  - apply wp_ret, HQ; [done|done].
Qed.
End Specs.

(** ** What is written once stays *)

(** The file names that are replaced. *)
Definition UPDATABLE : list string :=
  [STATUS_FILENAME; EXPANSION_RESOLUTION_FILENAME; REVIEW_HISTORY_FILENAME; EXHAUSTION_SUMMARY_FILENAME;
   TIMEOUT_SNAPSHOT_FILENAME].

(** Every file keeps its content unless its name is one of those. *)
Definition replaces_only (d d' : Files) : Prop :=
  forall path f, (forall name, file_name path = Some name -> name ∉ UPDATABLE) ->
    file_at path d = Some f -> file_at path d' = Some f.

#[export] Instance replaces_only_preorder : PreOrder replaces_only.
Proof.
  split; [by intros d path f|]. intros d1 d2 d3 H12 H23 path f Hname Hf. by apply H23, H12.
Qed.

Lemma only_new_replaces d d' : only_new d d' -> replaces_only d d'.
Proof. intros Hnew path f _ Hf. by eapply lookup_weaken. Qed.

Lemma insert_only_at path f d d' : files d' = <[components path := f]> (files d) -> only_at path d d'.
Proof.
  intros Hd. unfold only_at. rewrite Hd. apply map_subseteq_spec.
  intros k g [Hne Hk]%lookup_delete_Some. by rewrite lookup_insert_ne.
Qed.

(** A plain name under any directory. *)
Lemma components_join_name dir name :
  has_char "/" name = false -> name <> "" -> name <> "." -> name <> ".." ->
  components (join dir name) = components dir ++ [Normal name].
Proof.
  intros Hslash Hempty Hdot Hdots. pose proof (split_slash_plain name Hslash) as Hs.
  rewrite components_join; rewrite Hs; [|by intros p ps [= <- <-]].
  cbn. unfold piece_component. rewrite !bool_decide_eq_false_2 by done. done.
Qed.

Lemma file_name_join dir name :
  has_char "/" name = false -> name <> "" -> name <> "." -> name <> ".." -> file_name (join dir name) = Some name.
Proof.
  intros. unfold file_name. rewrite components_join_name by done. by rewrite last_snoc.
Qed.

Lemma only_at_replaces dir name d d' :
  name ∈ UPDATABLE -> only_at (join dir name) d d' -> replaces_only d d'.
Proof.
  intros Hname Hat path f Hpath Hf. eapply lookup_weaken; [|exact Hat].
  apply lookup_delete_Some. split; [|exact Hf]. intros Heq.
  assert (file_name (join dir name) = Some name) as Hj.
  { unfold UPDATABLE in Hname. rewrite !elem_of_cons, elem_of_nil in Hname.
    by destruct Hname as [->|[->|[->|[->|[->|[]]]]]]; apply file_name_join. }
  apply (Hpath name); [|done]. unfold file_name in *. by rewrite <- Heq.
Qed.

Section Keeping.
Context `{Env} `{Uuid}.

Lemma keeps_write_immutable {T} `{Serde T} path (value : T) d0 :
  keeps (replaces_only d0) (write_immutable_json path value).
Proof.
  intros w Hw. change (wp (write_immutable_json path value) (fun _ w' => replaces_only d0 (w_db w')) w).
  apply write_immutable_json_wp; intros; (etransitivity; [exact Hw|]); by apply only_new_replaces.
Qed.

Lemma keeps_write_updatable {T} `{Serde T} dir name (value : T) d0 :
  name ∈ UPDATABLE -> keeps (replaces_only d0) (write_updatable_json (join dir name) value).
Proof.
  intros Hname w Hw.
  change (wp (write_updatable_json (join dir name) value) (fun _ w' => replaces_only d0 (w_db w')) w).
  apply write_updatable_json_wp; intros; (etransitivity; [exact Hw|]).
  - eapply only_at_replaces; [exact Hname|]. by eapply insert_only_at.
  - by apply only_new_replaces.
Qed.

Lemma keeps_create_dir_all path d0 : keeps (replaces_only d0) (create_dir_all path).
Proof.
  intros w Hw. change (wp (create_dir_all path) (fun _ w' => replaces_only d0 (w_db w')) w).
  apply create_dir_all_wp. intros r w' Hw'. etransitivity; [exact Hw|]. apply only_new_replaces.
  unfold only_new. by rewrite Hw'.
Qed.

Lemma keeps_fs_read {A} P (g : Files -> Res IoError A) :
  keeps P (fs (fun d => match g d with Ok a => Ok (a, d) | Err e => Err e end)).
Proof. apply keeps_fs. intros d a d' Hd. destruct (g d); [by intros [= _ <-]|done]. Qed.

Lemma keeps_exists {E} path P : keeps P (exists_ path : M Files E bool).
Proof.
  unfold exists_. keeps_auto. apply keeps_fs. by intros d a d' Hd [= _ <-].
Qed.

Lemma keeps_is_dir {E} path P : keeps P (is_dir path : M Files E bool).
Proof.
  unfold is_dir. keeps_auto. apply keeps_fs. by intros d a d' Hd [= _ <-].
Qed.

Lemma keeps_read_json {T} `{Serde T} path P : keeps P (read_json path : M Files PersistenceError T).
Proof.
  unfold read_json, read. keeps_auto. apply keeps_fs. intros d a d' Hd. case_match; [by intros [= _ <-]|done].
Qed.

Lemma keeps_read_dir dir P : keeps P (read_dir dir).
Proof. apply keeps_fs. intros d a d' Hd. case_match; [by intros [= _ <-]|done]. Qed.
End Keeping.

#[export] Hint Resolve keeps_write_immutable keeps_create_dir_all keeps_exists keeps_is_dir keeps_read_json
  keeps_read_dir : eff.
#[export] Hint Extern 1 (_ ∈ UPDATABLE) => unfold UPDATABLE; rewrite !elem_of_cons; tauto : eff.
#[export] Hint Extern 1 (keeps (replaces_only _) (write_updatable_json (join _ _) _)) =>
  apply keeps_write_updatable; unfold UPDATABLE; rewrite !elem_of_cons; tauto : eff.

(** The codecs of the artifacts. *)
Class ScopeCodecs := {
  charter_serde :: Serde CanonicalTaskCharter;
  status_serde :: Serde ScopeStatus;
  measurement_serde :: Serde PatchMeasurement;
  request_serde :: Serde ScopeExpansionRequest;
  resolution_serde :: Serde ScopeExpansionResolution;
  history_serde :: Serde ReviewHistory;
  exhaustion_serde :: Serde ReviewExhaustionSummary;
  snapshot_serde :: Serde TimeoutSnapshot
}.

(** The operations of scope control on its artifacts. *)
Inductive ScopeOp :=
| PersistCharter (artifact_dir : string) (charter : CanonicalTaskCharter)
| UpdateStatus (artifact_dir run : string) (m : PatchMeasurement) (e : ScopeEvaluation)
| WriteRequest (artifact_dir : string) (request : ScopeExpansionRequest)
| WriteResolution (artifact_dir : string) (resolution : ScopeExpansionResolution)
| CheckGate (artifact_dir run : string) (charter : CanonicalTaskCharter) (m : PatchMeasurement) (e : ScopeEvaluation)
| RecordReview (artifact_dir run : string) (scope : ReviewScope) (caps : CanonicalReviewCaps)
| PreLaunchGate (artifact_dir : string) (request : PreLaunchReviewRequest)
| RecordFinal (artifact_dir run head merge_base charter_digest : string) (caps : CanonicalReviewCaps)
| HandleTimeout (artifact_dir run : string) (charter : CanonicalTaskCharter) (m : PatchMeasurement)
    (kind : TimeoutKind) (compile_configured : bool) (evidence : ProcessEvidence).

Section Immutable.
Context `{Env} `{Uuid} `{Sha256} `{ScopeCodecs}.

Definition run_op (op : ScopeOp) : M Files PersistenceError unit :=
  match op with
  | PersistCharter a c => persist_charter_and_status a c;; mret tt
  | UpdateStatus a run m e => update_status_measurement a run m e
  | WriteRequest a rq => write_expansion_request a rq
  | WriteResolution a rs => write_expansion_resolution a rs
  | CheckGate a run c m e => check_scope_gate a run c m e;; mret tt
  | RecordReview a run scope caps => record_review a run scope caps;; mret tt
  | PreLaunchGate a rq => pre_launch_review_gate a rq;; mret tt
  | RecordFinal a run head base digest caps => record_final_acceptance a run head base digest caps;; mret tt
  | HandleTimeout a run c m kind compile ev => handle_timeout_recovery a run c m kind compile ev;; mret tt
  end.

Lemma keeps_write_review artifact_dir h d0 :
  keeps (replaces_only d0) (write_review_history artifact_dir h).
Proof. unfold write_review_history, review_history_path. keeps_auto. Qed.
Lemma keeps_write_exhaustion artifact_dir s d0 :
  keeps (replaces_only d0) (write_exhaustion_summary artifact_dir s).
Proof. unfold write_exhaustion_summary, exhaustion_path. keeps_auto. Qed.
Lemma keeps_read_if_present {T} `{Serde T} path P :
  keeps P (read_if_present path : M Files PersistenceError (option T)).
Proof. unfold read_if_present. keeps_auto. Qed.
Lemma keeps_read_request artifact_dir run P : keeps P (read_expansion_request artifact_dir run).
Proof. unfold read_expansion_request, read_latest_generation, read_if_present. keeps_auto. Qed.
Hint Resolve keeps_write_review keeps_write_exhaustion keeps_read_if_present keeps_read_request : eff.

Lemma run_op_replaces_only op d0 : keeps (replaces_only d0) (run_op op).
Proof.
  destruct op; cbn [run_op];
    unfold persist_charter_and_status, settle_status, write_status_for, status_for, update_status_measurement,
      write_expansion_request, write_expansion_resolution, check_scope_gate, read_expansion_resolution,
      record_final_acceptance, record_review, pre_launch_review_gate, evaluate_delta, handle_delta_exhaustion,
      read_review_history, handle_timeout_recovery, charter_path, status_path, resolution_path,
      timeout_snapshot_path; keeps_auto.
Qed.
End Immutable.

(** *** The artifacts that are written once *)

(** A hexadecimal digit or a dot: what a generation's name starts with. *)
Definition generation_start (c : ascii) : bool := has_char c (DIGITS +:+ ".").

Lemma get_has_char s n c : String.get n s = Some c -> has_char c s = true.
Proof.
  revert n. induction s as [|d s IH]; intros n; [by destruct n|]. destruct n as [|n]; cbn.
  - intros [= ->]. by rewrite bool_decide_eq_true_2.
  - intros Hn. rewrite (IH n Hn). apply orb_true_r.
Qed.

Lemma hex_nibble_digit n : has_char (hex_of_nibble n) DIGITS = true.
Proof.
  unfold hex_of_nibble. destruct (String.get (N.to_nat n) DIGITS) eqn:E; [|done]. by eapply get_has_char.
Qed.

Lemma hex_lower_cons d s :
  hex_lower (String d s) =
  String (hex_of_nibble (N.shiftr (N_of_ascii d) 4)) (String (hex_of_nibble (N.land (N_of_ascii d) 15)) (hex_lower s)).
Proof. reflexivity. Qed.

Lemma hex_lower_plain c s : has_char c DIGITS = false -> has_char c (hex_lower s) = false.
Proof.
  intros Hc. assert (forall n, hex_of_nibble n <> c) as Hne.
  { intros n <-. by rewrite hex_nibble_digit in Hc. }
  induction s as [|d s IH]; [done|]. rewrite hex_lower_cons. cbn [has_char].
  by rewrite !bool_decide_eq_false_2.
Qed.

Definition generation_name `{Sha256} (bytes : Bytes) : string := sha256_hex bytes +:+ ".json".

Lemma generation_name_starts `{Sha256} bytes c rest :
  generation_name bytes = String c rest -> generation_start c = true.
Proof.
  unfold generation_name, sha256_hex, generation_start. destruct (sha256 bytes) as [|d s]; [|rewrite hex_lower_cons].
  - by intros [= <- _].
  - change (String ?a ?s +:+ ".json") with (String a (s +:+ ".json")). intros [= <- _].
    by rewrite has_char_app, hex_nibble_digit.
Qed.

Lemma generation_file_name `{Sha256} gen_dir bytes :
  file_name (generation_request_path gen_dir (sha256_hex bytes)) = Some (generation_name bytes).
Proof.
  assert (2 <= String.length (generation_name bytes)) as Hlen.
  { unfold generation_name. rewrite length_append. cbn. lia. }
  apply file_name_join.
  - fold (generation_name bytes). unfold generation_name, sha256_hex. by rewrite has_char_app, hex_lower_plain.
  - intros Heq. fold (generation_name bytes) in Heq. by rewrite Heq in Hlen; cbn in Hlen; lia.
  - intros Heq. fold (generation_name bytes) in Heq. rewrite Heq in Hlen. cbn in Hlen. lia.
  - intros Heq. fold (generation_name bytes) in Heq. unfold generation_name in Heq.
    apply (f_equal String.length) in Heq. rewrite length_append in Heq. cbn in Heq. lia.
Qed.

(** The paths of a charter and of a generation of requests. *)
Inductive write_once `{Sha256} : string -> Prop :=
| once_charter dir : write_once (charter_path dir)
| once_request gen_dir bytes : write_once (generation_request_path gen_dir (sha256_hex bytes)).

Lemma write_once_name `{Sha256} path name :
  write_once path -> file_name path = Some name -> name ∉ UPDATABLE.
Proof.
  intros [dir|gen_dir bytes].
  - unfold charter_path. rewrite file_name_join by done. intros [= <-].
    apply (bool_decide_unpack _). by vm_compute.
  - rewrite generation_file_name. intros [= <-]. unfold UPDATABLE. rewrite !elem_of_cons, elem_of_nil.
    intros [Heq|[Heq|[Heq|[Heq|[Heq|[]]]]]]; by apply generation_name_starts in Heq.
Qed.

(** C30: a charter and a scope expansion request are immutable: once such a file
    is there, no operation of scope control - persisting another charter,
    writing another request, updating the status, resolving, reviewing, handling
    a timeout - changes or removes it, for any run or directory, at whatever
    call the file system fails. *)
Theorem scope_artifacts_immutable `{Env} `{Uuid} `{Sha256} `{ScopeCodecs} op path f :
  write_once path -> keeps (fun d => file_at path d = Some f) (run_op op).
Proof.
  intros Honce w Hf. pose proof (run_op_replaces_only op (w_db w) w (reflexivity _)) as Hkeep.
  apply Hkeep; [|exact Hf]. intros name. by apply write_once_name.
Qed.

(** ** The gate *)

Section Gate.
Context `{Env} `{Uuid} `{Sha256} `{ScopeCodecs}.

(** Where a request of the run is read from. *)
Definition request_place (artifact_dir run path : string) : Prop :=
  let dir := scope_control_dir artifact_dir run in
  path = request_path dir \/ exists name, path = join (requests_dir dir) name.

(** The operator's resolution of exactly this charter and this measurement. *)
Definition resolved (artifact_dir run : string) (charter : CanonicalTaskCharter) (m : PatchMeasurement)
    (d : ScopeExpansionDecision.t) (disk : Files) : Prop :=
  exists path rq rs, request_place artifact_dir run path /\ stored path rq disk /\
    stored (resolution_path (scope_control_dir artifact_dir run)) rs disk /\
    rq_charter_digest rq = ScopeCharter.digest charter /\ rq_measurement_digest rq = measurement_digest m /\
    rs_measurement_digest rs = measurement_digest m /\ decision rs = d.

Lemma read_latest_wp gen_dir (Q : Res PersistenceError (option ScopeExpansionRequest) -> World Files -> Prop) w :
  (forall r w', w_db w' = w_db w ->
    (forall rq, r = Ok (Some rq) -> exists name, stored (join gen_dir name) rq (w_db w)) -> Q r w') ->
  wp (read_latest_generation gen_dir) Q w.
Proof.
  intros HQ. unfold read_latest_generation. apply wp_bind, wp_map_err. unfold read_dir. apply wp_fs.
  { intros w1 Hw1. by apply HQ. }
  case_bool_decide; intros w1 Hw1; cbn; [|by apply HQ].
  match goal with |- context [merge_sort newer ?l] => generalize (merge_sort newer l) end.
  intros [|[name t] entries]; [apply wp_ret, HQ; done|]. cbn.
  apply wp_bind, read_json_wp. intros [rq|e] w2 Hw2 Hrq; cbn.
  - apply wp_ret, HQ; [congruence|]. intros rq' [= <-]. exists name. rewrite <- Hw1. by apply Hrq.
  - apply HQ; [congruence|done].
Qed.

Lemma read_request_wp artifact_dir run
    (Q : Res PersistenceError (option ScopeExpansionRequest) -> World Files -> Prop) w :
  (forall r w', w_db w' = w_db w ->
    (forall rq, r = Ok (Some rq) -> exists path, request_place artifact_dir run path /\ stored path rq (w_db w)) ->
    Q r w') ->
  wp (read_expansion_request artifact_dir run) Q w.
Proof.
  intros HQ. unfold read_expansion_request, is_dir. apply wp_bind, wp_bind, wp_try.
  assert (forall (b : bool) w1, w_db w1 = w_db w ->
    wp (if b then read_latest_generation (requests_dir (scope_control_dir artifact_dir run))
        else read_if_present (request_path (scope_control_dir artifact_dir run))) Q w1) as Hboth.
  { intros b w1 Hw1. destruct b.
    - apply read_latest_wp. intros r w2 Hw2 Hr. apply HQ; [congruence|]. intros rq Hrq.
      destruct (Hr rq Hrq) as [name Hn]. rewrite <- Hw1. exists (join (requests_dir (scope_control_dir artifact_dir run)) name).
      split; [|done]. right. by exists name.
    - apply read_if_present_wp. intros r w2 Hw2 Hr. apply HQ; [congruence|]. intros rq Hrq.
      exists (request_path (scope_control_dir artifact_dir run)). rewrite <- Hw1. split; [by left|]. by apply Hr. }
  apply wp_fs; intros w1 Hw1; cbn; wp_steps; [by apply (Hboth false)|by apply Hboth].
Qed.

(** The patch keeps to its charter. *)
Definition within_scope (m : PatchMeasurement) (charter : CanonicalTaskCharter) : Prop :=
  metrics_within m (budget charter) /\ confined m charter.

Lemma within_charter_spec m charter : within_charter (evaluate m charter) = true <-> within_scope m charter.
Proof.
  unfold within_charter, within_scope. rewrite andb_true_iff, bool_decide_eq_true, no_violations_spec, within_budget_spec.
  tauto.
Qed.

(** What an answer of the gate rests on. *)
Definition gate_grounds (artifact_dir run : string) (charter : CanonicalTaskCharter) (m : PatchMeasurement)
    (o : ScopeGateOutcome) (disk : Files) : Prop :=
  (allows_mutation o = true ->
    within_scope m charter \/ resolved artifact_dir run charter m ScopeExpansionDecision.ApproveExpandedScope disk) /\
  (allows_mutation o = false -> ~ within_scope m charter) /\
  (forall d, o = Denied d ->
    d <> ScopeExpansionDecision.ApproveExpandedScope /\ resolved artifact_dir run charter m d disk).

Lemma check_scope_gate_wp artifact_dir run charter m
    (Q : Res PersistenceError ScopeGateOutcome -> World Files -> Prop) w :
  (forall r w', w_db w' = w_db w ->
    (forall o, r = Ok o -> gate_grounds artifact_dir run charter m o (w_db w)) -> Q r w') ->
  wp (check_scope_gate artifact_dir run charter m (evaluate m charter)) Q w.
Proof.
  intros HQ. unfold check_scope_gate. destruct (within_charter (evaluate m charter)) eqn:Ew.
  { apply within_charter_spec in Ew. apply wp_bind, read_request_wp.
    intros [rq|e] w1 Hw1 Hrq; cbn; [|by apply HQ]. apply wp_ret, HQ; [done|]. intros o [= <-].
    split_and!; [by left|by destruct rq|by destruct rq]. }
  assert (~ within_scope m charter) as Hover by (rewrite <- within_charter_spec; congruence).
  apply wp_bind, read_request_wp. intros [[rq|]|e] w1 Hw1 Hrq; cbn;
    [|apply wp_ret, HQ; [done|intros o [= <-]; by split_and!]|by apply HQ].
  destruct (Hrq rq eq_refl) as (path & Hplace & Hstored). unfold read_expansion_resolution.
  apply wp_bind, read_if_present_wp. intros [[rs|]|e] w2 Hw2 Hrs; cbn;
    [|apply wp_ret, HQ; [congruence|intros o [= <-]; by split_and!]|apply HQ; [congruence|done]].
  apply wp_ret, HQ; [congruence|]. intros o [= <-]. rewrite Hw1 in Hrs.
  destruct (negb _ || negb _ || negb _) eqn:Edigest; [by split_and!|]. bool_hyps.
  assert (forall d, decision rs = d -> resolved artifact_dir run charter m d (w_db w)) as Hres.
  { intros d Hd. exists path, rq, rs. split_and!; auto. }
  unfold ScopeExpansionDecision.authorizes_expansion. case_bool_decide as Hd; split_and!; try done.
  - intros _. right. by apply Hres.
  - intros d [= <-]. auto.
Qed.

(** The gate lets a mutation pass only when the evaluation found no
    violation - every metric within its ceiling, every path inside the charter -
    or an operator approved exactly this: a request and a resolution on disk that
    both carry the digest of this measurement, the request the digest of this
    charter, the resolution the decision to expand.  It denies only on such a
    resolution that declines, and writes nothing. *)
Theorem gate_needs_exact_approval artifact_dir run charter m w :
  wp (check_scope_gate artifact_dir run charter m (evaluate m charter)) (fun r w' =>
    w_db w' = w_db w /\
    forall o, r = Ok o ->
      (allows_mutation o = true ->
        (metrics_within m (budget charter) /\ confined m charter) \/
        resolved artifact_dir run charter m ScopeExpansionDecision.ApproveExpandedScope (w_db w)) /\
      (forall d, o = Denied d ->
        d <> ScopeExpansionDecision.ApproveExpandedScope /\ resolved artifact_dir run charter m d (w_db w))) w.
Proof.
  apply check_scope_gate_wp. intros r w' Hw' Hr. split; [done|]. intros o Ho.
  destruct (Hr o Ho) as (Hallow & _ & Hdeny). auto.
Qed.
End Gate.

(** ** Review rounds are bounded *)

(** What a recorded review does to the history: its check passed, and a round of
    the remediation gate is counted. *)
Definition check_of (h : ReviewHistory) (scope : ReviewScope) (c : CanonicalReviewCaps) : ReviewCheckOutcome :=
  match review_kind scope with
  | InitialFull => check_initial h (to_sha scope)
  | Delta => check_delta h (to_sha scope) c
  | FinalAcceptance => check_final h c
  end.

Definition counted (h : ReviewHistory) : ReviewHistory :=
  h <| mutating_remediation_rounds := (mutating_remediation_rounds h + 1)%Z |>.

Inductive review_step (c : CanonicalReviewCaps) (h : ReviewHistory) : ReviewHistory -> Prop :=
| step_recorded run scope :
    check_of h scope c = Allowed -> review_step c h (append_review h run scope)
| step_round run scope :
    review_kind scope = Delta -> check_of h scope c = Allowed ->
    (mutating_remediation_rounds h < max_mutating_remediation_rounds c)%Z ->
    review_step c h (append_review (counted h) run scope).

Inductive review_history_of (c : CanonicalReviewCaps) : ReviewHistory -> Prop :=
| history_empty run : review_history_of c (empty_history run)
| history_step h h' : review_history_of c h -> review_step c h h' -> review_history_of c h'.

Definition n_of (kind : ReviewKind) (h : ReviewHistory) : nat := length (List.filter (of_kind kind) (reviews h)).

Definition caps_u32 (c : CanonicalReviewCaps) : Prop :=
  is_u32 (max_delta_reviews c) /\ is_u32 (final_acceptance_reviews c) /\
  is_u32 (max_mutating_remediation_rounds c).

Record within_caps (c : CanonicalReviewCaps) (h : ReviewHistory) : Prop := {
  one_initial : n_of InitialFull h <= 1;
  deltas_capped : (Z.of_nat (n_of Delta h) <= max_delta_reviews c)%Z;
  finals_capped : (Z.of_nat (n_of FinalAcceptance h) <= final_acceptance_reviews c)%Z;
  rounds_capped : (0 <= mutating_remediation_rounds h <= max_mutating_remediation_rounds c)%Z
}.

Lemma n_of_append kind h run scope :
  n_of kind (append_review h run scope) =
  n_of kind h + if bool_decide (review_kind scope = kind) then 1 else 0.
Proof.
  unfold n_of, append_review. cbn. rewrite List.filter_app, length_app. cbn. unfold of_kind at 2. by case_bool_decide.
Qed.

Lemma n_of_counted kind h : n_of kind (counted h) = n_of kind h.
Proof. reflexivity. Qed.

Lemma count_small kind h bound :
  is_u32 bound -> (Z.of_nat (n_of kind h) <= bound)%Z -> count_by_kind h kind = Z.of_nat (n_of kind h).
Proof. intros Hb Hn. unfold count_by_kind. apply as_u32_id. unfold is_u32 in *. fold (n_of kind h). lia. Qed.

Lemma find_none_count h : List.find (of_kind InitialFull) (reviews h) = None -> n_of InitialFull h = 0.
Proof.
  unfold n_of. induction (reviews h) as [|r l IH]; [done|]. cbn. by destruct (of_kind InitialFull r).
Qed.

Lemma check_of_keeps c h scope :
  caps_u32 c -> within_caps c h -> check_of h scope c = Allowed ->
  forall kind, kind = review_kind scope ->
  match kind with
  | InitialFull => n_of InitialFull h = 0
  | Delta => n_of InitialFull h <> 0 /\ n_of FinalAcceptance h = 0 /\
             (Z.of_nat (n_of Delta h) < max_delta_reviews c)%Z
  | FinalAcceptance => n_of InitialFull h <> 0 /\
             (Z.of_nat (n_of FinalAcceptance h) < final_acceptance_reviews c)%Z
  end.
Proof.
  intros (Hd & Hf & _) [Hone Hdelta Hfinal _] Hcheck kind ->.
  assert (count_by_kind h InitialFull = Z.of_nat (n_of InitialFull h)) as Hci.
  { apply (count_small _ _ 1); [unfold is_u32, u32_max; lia|lia]. }
  pose proof (count_small Delta h _ Hd Hdelta) as Hcd.
  pose proof (count_small FinalAcceptance h _ Hf Hfinal) as Hcf.
  unfold check_of in Hcheck. destruct (review_kind scope).
  - unfold check_initial in Hcheck. destruct (List.find _ _) eqn:E; [by case_match|]. by apply find_none_count.
  - unfold check_delta in Hcheck. rewrite Hci, Hcd, Hcf in Hcheck.
    destruct (Z.eqb_spec (Z.of_nat (n_of InitialFull h)) 0); [done|].
    destruct (Z.ltb_spec 0 (Z.of_nat (n_of FinalAcceptance h))); [done|].
    destruct (existsb _ _); [done|].
    destruct (Z.leb_spec (max_delta_reviews c) (Z.of_nat (n_of Delta h))); [done|]. lia.
  - unfold check_final in Hcheck. rewrite Hci, Hcf in Hcheck.
    destruct (Z.eqb_spec (Z.of_nat (n_of InitialFull h)) 0); [done|].
    destruct (Z.leb_spec (final_acceptance_reviews c) (Z.of_nat (n_of FinalAcceptance h))); [done|]. lia.
Qed.

Lemma review_step_within c h h' : caps_u32 c -> within_caps c h -> review_step c h h' -> within_caps c h'.
Proof.
  intros Hu Hin Hstep.
  assert (forall run scope g, check_of h scope c = Allowed -> (forall kind, n_of kind g = n_of kind h) ->
    (0 <= mutating_remediation_rounds g <= max_mutating_remediation_rounds c)%Z ->
    within_caps c (append_review g run scope)) as Happend.
  { intros run scope g Hcheck Hg Hrounds.
    pose proof (check_of_keeps c h scope Hu Hin Hcheck _ eq_refl) as Hk. destruct Hin as [H1 H2 H3 _].
    constructor; rewrite ?n_of_append, ?Hg; [..|exact Hrounds];
      destruct (review_kind scope); cbn in Hk; case_bool_decide; try done; lia. }
  destruct Hstep as [run scope Hc|run scope Hk Hc Hlt].
  - by apply Happend; [| |apply Hin].
  - apply Happend; [done|done|]. destruct Hin. cbn. lia.
Qed.

(** The rounds of review are bounded by the charter: whatever sequence of
    reviews is recorded, there is at most one initial full review, at most
    [max_delta_reviews] deltas, [final_acceptance_reviews] final reviews and
    [max_mutating_remediation_rounds] remediation rounds; a delta or a final
    review comes only after the initial one, and nothing but a final review is
    recorded after a final review. *)
Theorem review_rounds_bounded c h h' :
  caps_u32 c -> review_history_of c h -> review_step c h h' ->
  within_caps c h' /\
  exists scope, reviews h' = reviews h ++ [scope] /\
    (review_kind scope <> InitialFull -> n_of InitialFull h = 1) /\
    (n_of FinalAcceptance h <> 0 -> review_kind scope = FinalAcceptance).
Proof.
  intros Hu Hh Hstep.
  assert (within_caps c h /\ (n_of FinalAcceptance h <> 0 -> n_of InitialFull h <> 0)) as [Hin Hfirst].
  { clear Hstep h'. induction Hh as [run|h h' Hh [IH1 IH2] Hstep].
    - destruct Hu as (Hd & Hf & Hm). unfold is_u32 in *. split; [constructor; cbn; lia|]. by cbn.
    - split; [by eapply review_step_within|].
      destruct Hstep as [run scope Hc|run scope Hk Hc _]; rewrite !n_of_append, ?n_of_counted;
        pose proof (check_of_keeps c h scope Hu IH1 Hc _ eq_refl) as Hkind;
        destruct (review_kind scope); cbn in Hkind; repeat case_bool_decide; try done; lia. }
  split; [by eapply review_step_within|].
  assert (exists scope, check_of h scope c = Allowed /\ reviews h' = reviews h ++ [scope]) as (scope & Hc & Hr)
    by (destruct Hstep as [run scope ?|run scope ? ? ?]; eauto).
  exists scope. split; [done|]. pose proof (check_of_keeps c h scope Hu Hin Hc _ eq_refl) as Hkind.
  destruct Hin as [Hone _ _ _].
  split; destruct (review_kind scope); try done; intros; lia.
Qed.

(** *** The gate before a remediation *)

Section ReviewGate.
Context {env : Env} `{!FaultFree env} `{Uuid} `{Serde ReviewHistory} `{Serde ReviewExhaustionSummary}.

Lemma wp_fs_live {A} (f : Files -> Res IoError (A * Files)) (Q : Res IoError A -> World Files -> Prop) w :
  match f (w_db w) with
  | Ok (a, d') => forall w', w_db w' = d' -> Q (Ok a) w'
  | Err e => forall w', w_db w' = w_db w -> Q (Err e) w'
  end ->
  wp (fs f) Q w.
Proof.
  intros Hf. unfold fs. apply wp_bind, wp_map_err.
  destruct (f (w_db w)) as [[a d']|e] eqn:E;
    (eapply wp_execute_live; [by rewrite E|]); intros w' Hw'; cbn; apply wp_lift_res; by apply Hf.
Qed.

Lemma exists_live_wp {E} path (Q : Res E bool -> World Files -> Prop) w :
  (forall w', w_db w' = w_db w -> Q (Ok (occupied path (w_db w))) w') -> wp (exists_ path) Q w.
Proof.
  intros HQ. unfold exists_. apply wp_bind, wp_try, wp_fs_live. intros w' Hw'. cbn. wp_steps. by apply HQ.
Qed.

Lemma read_stored_wp {T} `{Serde T} path (value : T) (Q : Res PersistenceError T -> World Files -> Prop) w :
  stored path value (w_db w) -> (forall w', w_db w' = w_db w -> Q (Ok value) w') -> wp (read_json path) Q w.
Proof.
  intros (f & Hf & Hv) HQ. unfold read_json, read. apply wp_bind, wp_map_err, wp_fs_live. rewrite Hf.
  intros w' Hw'. cbn. apply wp_lift_res. rewrite Hv. by apply HQ.
Qed.

(** The history of a run on disk: none yet, or what its file holds. *)
Definition history_on_disk (artifact_dir run : string) (h : ReviewHistory) (d : Files) : Prop :=
  stored (review_history_path artifact_dir run) h d \/
  (occupied (review_history_path artifact_dir run) d = false /\ h = empty_history run).

Lemma stored_occupied {T} `{Serde T} path (value : T) d : stored path value d -> occupied path d = true.
Proof. intros (f & Hf & _). unfold occupied. rewrite Hf. by rewrite bool_decide_eq_true_2. Qed.

Lemma read_history_wp artifact_dir run h (Q : Res PersistenceError ReviewHistory -> World Files -> Prop) w :
  history_on_disk artifact_dir run h (w_db w) -> (forall w', w_db w' = w_db w -> Q (Ok h) w') ->
  wp (read_review_history artifact_dir run) Q w.
Proof.
  intros Hh HQ. unfold read_review_history, read_if_present.
  apply wp_bind, wp_bind, exists_live_wp. intros w1 Hw1. cbn. destruct Hh as [Hh|[Hno ->]].
  - rewrite (stored_occupied _ _ _ Hh). cbn. apply wp_bind.
    eapply read_stored_wp; [by rewrite Hw1|]. intros w2 Hw2. cbn. wp_steps. apply HQ. congruence.
  - rewrite Hno. cbn. wp_steps. by apply HQ.
Qed.

Lemma history_name artifact_dir run : components (review_history_path artifact_dir run) =
  components (scope_control_dir artifact_dir run) ++ [Normal REVIEW_HISTORY_FILENAME].
Proof. by apply components_join_name. Qed.

Lemma exhaustion_elsewhere artifact_dir run s f d :
  files d !! components (review_history_path artifact_dir run) =
  (<[components (exhaustion_path artifact_dir s) := f]> (files d)) !! components (review_history_path artifact_dir run).
Proof.
  rewrite lookup_insert_ne; [done|]. rewrite history_name. unfold exhaustion_path.
  rewrite components_join_name by done. intros [_ Heq]%app_inj_2; [done|done].
Qed.

(** What the gate may leave of the history. *)
Definition gate_result (artifact_dir : string) (c : CanonicalReviewCaps) (run : string) (h : ReviewHistory)
    (d : Files) (r : Res PersistenceError ReviewCheckOutcome) (d' : Files) : Prop :=
  let path := review_history_path artifact_dir run in
  match r with
  | Ok Allowed => exists h' t, review_step c h h' /\
      file_at path d' = Some (mkFile (to_string_pretty h') t)
  | Ok _ => file_at path d' = file_at path d
  | Err _ => forall f, file_at path d = Some f -> file_at path d' = Some f
  end.

Lemma only_new_kept path d d' f : only_new d d' -> file_at path d = Some f -> file_at path d' = Some f.
Proof. intros Hnew Hf. by eapply lookup_weaken. Qed.

Lemma write_exhaustion_wp artifact_dir c run h s o d w :
  w_db w = d -> o <> Allowed ->
  wp (write_exhaustion_summary artifact_dir s;; mret o) (fun r w' =>
    gate_result artifact_dir c run h d r (w_db w')) w.
Proof.
  intros <- Ho. unfold write_exhaustion_summary. apply wp_bind, wp_bind, write_updatable_json_wp.
  - intros t w' Hw'. cbn. wp_steps. unfold gate_result, file_at. rewrite Hw'.
    destruct o; try done; symmetry; apply exhaustion_elsewhere.
  - intros e w' Hnew. cbn. intros f. by apply only_new_kept.
Qed.

Lemma write_history_wp artifact_dir c run h h' d w :
  w_db w = d -> rh_run_id h' = run -> review_step c h h' ->
  wp (write_review_history artifact_dir h';; mret Allowed) (fun r w' =>
    gate_result artifact_dir c run h d r (w_db w')) w.
Proof.
  intros <- Hrun Hstep. unfold write_review_history. rewrite Hrun.
  apply wp_bind, write_updatable_json_wp.
  - intros t w' Hw'. cbn. wp_steps. exists h', t. split; [done|]. unfold file_at. rewrite Hw'. apply lookup_insert_eq.
  - intros e w' Hnew. cbn. intros f. by apply only_new_kept.
Qed.

Lemma evaluate_delta_wp artifact_dir request h d w :
  w_db w = d ->
  wp (evaluate_delta artifact_dir h request) (fun r w' =>
    gate_result artifact_dir (caps request) (pl_run_id request) h d r (w_db w')) w.
Proof.
  intros <-. unfold evaluate_delta. case_bool_decide; [by apply wp_ret|].
  destruct (Z.leb_spec (max_mutating_remediation_rounds (caps request)) (mutating_remediation_rounds h)).
  { by apply write_exhaustion_wp. }
  destruct (check_delta h (pl_head_sha request) (caps request)) eqn:Ec; cbn [handle_delta_exhaustion];
    try by apply wp_ret.
  - apply write_history_wp; [done..|]. apply (step_round _ _ (pl_run_id request)); [done| |done]. exact Ec.
  - by apply write_exhaustion_wp.
Qed.

End ReviewGate.

(** ** Requests are there to be resolved *)

Section Requests.
Context `{Env} `{Uuid} `{Sha256} `{ScopeCodecs}.

(** A request for this measurement, as written or as an earlier writer left it. *)
Definition requested (artifact_dir : string) (rq : ScopeExpansionRequest) (d : Files) : Prop :=
  exists f, file_at (generation_request_path (requests_dir (scope_control_dir artifact_dir (rq_run_id rq)))
                       (rq_measurement_digest rq)) d = Some f /\
    (content f = to_string_pretty rq \/
     exists rq', from_slice (content f) = Ok rq' /\ rq_measurement_digest rq' = rq_measurement_digest rq).

Lemma write_request_wp artifact_dir rq (Q : Res PersistenceError unit -> World Files -> Prop) w :
  (forall r w', only_new (w_db w) (w_db w') -> (r = Ok tt -> requested artifact_dir rq (w_db w')) -> Q r w') ->
  wp (write_expansion_request artifact_dir rq) Q w.
Proof.
  intros HQ. unfold write_expansion_request, only_new in *. apply wp_bind, wp_map_err, create_dir_all_wp.
  intros [[]|e] w1 Hw1; cbn; [|apply HQ; [by rewrite Hw1|done]].
  apply wp_bind, exists_wp. intros b w2 Hw2 _. destruct b; cbn.
  - apply wp_bind, read_json_wp. intros [rq'|e] w3 Hw3 Hrq; cbn; [|apply HQ; [by rewrite Hw3, Hw2, Hw1|done]].
    destruct (Hrq rq' eq_refl) as (f & Hf & Hv).
    case_bool_decide as Heq; [apply wp_ret|apply wp_throw]; apply HQ; try done; try (by rewrite Hw3, Hw2, Hw1).
    intros _. exists f. rewrite Hw3. split; [exact Hf|]. right. by exists rq'.
  - apply write_immutable_json_wp; unfold only_new; rewrite Hw2, Hw1.
    + intros t w3 Hnew Hat. apply HQ; [done|]. intros _. exists (mkFile (to_string_pretty rq) t). split; [done|]. by left.
    + intros e w3 Hnew. by apply HQ.
Qed.
End Requests.

(** *** Examples *)

Section Examples.
#[local] Existing Instance calm.
#[local] Instance plain_uuid : Uuid := fun n => pretty (Z.of_nat n).
#[local] Instance plain_sha : Sha256 := fun b => b.

Definition codec_of {A} (to : A -> Bytes) (from : Bytes -> Res string A) : Serde A :=
  {| to_vec := to; to_string_pretty := to; from_slice := from |}.

Definition sample_charter : CanonicalTaskCharter :=
  mkCharter 1 "T" 1 "r" "base" ["AC"] ["NG"] {[ "core" := ["src/core"] ]} sample_budget sample_caps
    ["cargo test"] "digest".

(** A patch of 500 lines at this head. *)
Definition patch_at (head : string) : PatchMeasurement :=
  mkMeasurement "base" head 1 2 500 0 1 0 2 "" ["src/core/a.rs"] ["core"] [].

Definition request_for (measurement_digest : string) : ScopeExpansionRequest :=
  mkRequest "r" "T" "digest" measurement_digest (patch_at "") (evaluate (patch_at "") sample_charter) [] 0.
Definition approval_of (measurement_digest : string) : ScopeExpansionResolution :=
  mkResolution "r" measurement_digest ScopeExpansionDecision.ApproveExpandedScope "because" 0.

Definition sample_history (head : string) : ReviewHistory :=
  mkHistory "r" [mkReviewScope InitialFull "base" "base" head [] [] [] "digest"] 0.

(** A codec that keeps what the examples look at. *)
#[local] Instance sample_codecs : ScopeCodecs := {|
  charter_serde := codec_of charter_id (fun _ => Ok sample_charter);
  status_serde := codec_of ss_digest (fun _ => Err "status");
  measurement_serde := codec_of pm_head_sha (fun b => Ok (patch_at b));
  request_serde := codec_of rq_measurement_digest (fun b => Ok (request_for b));
  resolution_serde := codec_of rs_measurement_digest (fun b => Ok (approval_of b));
  history_serde := codec_of (fun h => default "" (last_reviewed_head h)) (fun b => Ok (sample_history b));
  exhaustion_serde := codec_of ex_run_id (fun _ => Err "summary");
  snapshot_serde := codec_of ts_run_id (fun _ => Err "snapshot")
|}.

Definition request_scope (head : string) : M Files PersistenceError unit :=
  rq ← build_expansion_request "r" sample_charter (patch_at head) (evaluate (patch_at head) sample_charter);
  write_expansion_request "/art" rq.

Definition approve (head : string) : M Files PersistenceError ScopeGateOutcome :=
  write_expansion_resolution "/art" (approval_of (measurement_digest (patch_at head)));;
  check_scope_gate "/art" "r" sample_charter (patch_at head) (evaluate (patch_at head) sample_charter).

Definition overwritten (d : Files) : Files :=
  put_file (generation_request_path "/art/scope-control/r/scope-expansion-requests"
              (measurement_digest (patch_at "a"))) (mkFile "" 0) d.

(** The approval of a patch's latest request lets it pass.  When the patch moved
    on and came back, its own request is older than the other's, and writing it
    again leaves it so: no approval of the patch as it is can pass the gate. *)
Example reverted_patch_blocked :
  fst ((request_scope "a";; approve "a") (start no_files)) = Ok WithinBudgetWithPriorResolution /\
  fst ((request_scope "a";; request_scope "b";; request_scope "a";; approve "a") (start no_files)) =
    Ok OverBudgetNeedsRequest /\
  fst ((request_scope "a";; request_scope "b";; request_scope "a";; approve "b";;
        check_scope_gate "/art" "r" sample_charter (patch_at "a")
          (evaluate (patch_at "a") sample_charter)) (start no_files)) = Ok OverBudgetNeedsRequest.
Proof. by vm_compute. Qed.

Definition gate_request (head : string) : PreLaunchReviewRequest :=
  mkPreLaunch "r" head "base" ["src/core/a.rs"] [] "digest" sample_caps "now".

Definition launched (head : string) : M Files PersistenceError ReviewCheckOutcome :=
  pre_launch_review_gate "/art" (gate_request head).


Lemma scope_artifacts_immutable_witness :
  write_once (charter_path "/art/scope-control/r") /\
  let m := run_op (PersistCharter "/art" (sample_charter <| digest := "other" |>)) in
  let disk := put_file (charter_path "/art/scope-control/r") (mkFile "T" 7) no_files in
  file_at (charter_path "/art/scope-control/r") (w_db (snd (m (start disk)))) = Some (mkFile "T" 7).
Proof.
  split; [apply once_charter|]. cbv zeta.
  apply (scope_artifacts_immutable _ _ (mkFile "T" 7) (once_charter "/art/scope-control/r")). by vm_compute.
Defined.

Lemma review_rounds_bounded_witness :
  let h := empty_history "r" in
  let scope := mkReviewScope InitialFull "base" "base" "a" [] [] [] "digest" in
  review_step sample_caps h (append_review h "r" scope) /\
  within_caps sample_caps (append_review h "r" scope).
Proof.
  cbv zeta.
  assert (review_step sample_caps (empty_history "r") (append_review (empty_history "r") "r"
    (mkReviewScope InitialFull "base" "base" "a" [] [] [] "digest"))) as Hstep by by apply step_recorded.
  split; [exact Hstep|].
  refine (proj1 (review_rounds_bounded sample_caps _ _ _ (history_empty _ "r") Hstep)).
  by_computation.
Defined.

(** One failing look at the file and the history counts as empty: the first
    review is recorded again, over the rounds that were there. *)
Definition blink : Env := {|
  env_clock n := Z.of_nat n; env_fault n := bool_decide (n = 0); env_interrupt _ := false |}.

Example history_lost :
  let disk := put_file (review_history_path "/art" "r") (mkFile "a" 7) no_files in
  let counting := codec_of (fun h => pretty (Z.of_nat (length (reviews h)))) (fun b => Ok (sample_history b)) in
  let after env := content <$> file_at (review_history_path "/art" "r") (w_db (snd
    (@pre_launch_review_gate env _ counting _ "/art" (gate_request "b") (start disk)))) in
  after calm = Some "2" /\ after blink = Some "1".
Proof. by vm_compute. Qed.
End Examples.
