(* ===== verification/ScopeSteps.v ===== *)
(** The steps that enforce scope control
    ([components/software_change/scope_control/task_charter.rs],
    [scope_measure.rs], the barrier of [decision.rs] and of
    [engine/executors/mod.rs], the review gate of
    [components/github/pr_remediation/post_pr_stages/iteration_guard.rs],
    [components/software_change/llxprt_timeout.rs]) and the poll of a scope
    decision ([daemon/poller.rs]): measuring, the gate and the artifacts,
    composed over the context of a run.

    The state is the file system beside the step's context; what a step wrote to
    its context before an error stays. *)
From S2P Require Import Prelude Effects Text Digest Status Schema RunPaths StepContext Ownership Host WaitStates PollApply Runner ScopeCharter ScopeMeasurement ScopeArtifacts.
From Stdlib Require Import Ascii.

(** ** The context of a step *)

Abbreviation StepState := (Files * StepContext)%type.
Abbreviation StepM := (M StepState EngineError).

Definition context {E} : M StepState E StepContext := fun w => (Ok (snd (w_db w)), w).
Definition set_var {E} (key value : string) : M StepState E unit := fun w =>
  (Ok tt, set_db (fst (w_db w), set (snd (w_db w)) key value) w).
Definition on_disk {E A} (f : E -> EngineError) (m : M Files E A) : StepM A := map_err f (on_local m).

(** [serde_json] on the policy, a profile (of which only its scope control
    matters here) and lists of strings. *)
Class PolicyCodec := {
  policy_from_str : string -> Res string ScopeControlConfig;
  policy_from_value : Json -> Res string ScopeControlConfig;
  profile_from_value : Json -> Res string ScopeControlConfig;
  strings_from_str : string -> Res string (list string);
  strings_to_string : list string -> string;
  evaluation_to_string : ScopeEvaluation -> string
}.

(** [Value::get], [Value::as_u64], [Value::as_array] *)
Definition json_get (key : string) (j : Json) : option Json :=
  match j with JObject m => m !! key | _ => None end.
Definition json_as_u64 (j : Json) : option Z :=
  match j with JInt z => if (0 <=? z)%Z && (z <=? u64_max)%Z then Some z else None | _ => None end.
Definition json_as_array (j : Json) : option (list Json) :=
  match j with JArray l => Some l | _ => None end.

Definition either (c : StepContext) (key key' : string) : option string := opt_or (get c key) (get c key').

(** [resolve_artifact_dir] of [decision.rs], [task_charter.rs] and
    [llxprt_timeout.rs], all alike. *)
Definition resolve_artifact_dir (c : StepContext) : string :=
  default (sc_work_dir c) (either c "artifact_dir" "artifact_root").

Definition enabled_policy (sc : ScopeControlConfig) : option ScopeControlConfig :=
  if enabled sc then Some sc else None.

Section Steps.
Context `{Env} `{Uuid} `{Sha256} `{ScopeCodecs} `{PolicyCodec} `{WorkTree} `{Regexes} `{TomlParser}
  `{ErrorText} `{IntErrorText} `{Os}.
Context `{GitPatchCollector Files}.

Definition read_charter (artifact_dir run : string) : M Files ScopeArtifacts.PersistenceError CanonicalTaskCharter :=
  read_json (charter_path (scope_control_dir artifact_dir run)).

(** The three calls that measure the work tree; each step has its own error
    texts. *)
Definition measure_worktree (c : StepContext) (charter : CanonicalTaskCharter) (sc : ScopeControlConfig)
    (measuring diffing : string -> EngineError) : StepM PatchMeasurement :=
  let measuring e := measuring (measurement_error_text e) in
  git_data ← on_disk measuring (collect (sc_work_dir c) (merge_base charter) (sc_measurement sc));
  dependency_diffs ← on_disk (fun e => diffing (measurement_error_text e))
    (collect_dependency_diffs (sc_work_dir c) (dependency_manifests sc) (merge_base charter));
  on_disk measuring (compute_measurement git_data charter (sc_run_id c) (daemon_managed_claim c)
    (sc_measurement sc) (sc_work_dir c) dependency_diffs).

(** ** The barrier ([decision.rs]) *)

Inductive ScopeBarrierResult :=
| Allow
| Blocked
| BarrierDenied (decision : ScopeExpansionDecision.t).

Definition barrier_error (message : string) : EngineError := StepExecutionError "scope_barrier" message.
Definition barrier_io (e : ScopeArtifacts.PersistenceError) : EngineError :=
  barrier_error (persistence_error_text e).

Definition enforce_scope_barrier (sc : ScopeControlConfig) : StepM ScopeBarrierResult :=
  c ← context;
  let artifact_dir := resolve_artifact_dir c in
  let run := sc_run_id c in
  charter ← on_disk (fun e => barrier_error ("scope charter unavailable: " +:+ persistence_error_text e))
    (read_charter artifact_dir run);
  m ← measure_worktree c charter sc barrier_error barrier_error;
  let e := evaluate m charter in
  outcome ← on_disk barrier_io (check_scope_gate artifact_dir run charter m e);
  if allows_mutation outcome then mret Allow
  else match outcome with
       | OverBudgetNeedsRequest | PendingResolution =>
           request ← on_disk barrier_io (build_expansion_request run charter m e);
           on_disk barrier_io (write_expansion_request artifact_dir request);;
           mret Blocked
       | Denied decision => mret (BarrierDenied decision)
       | _ => mret Allow
       end.

(** ** The barrier of the mutating steps ([engine/executors/mod.rs]) *)

Definition resolve_scope_control_policy (c : StepContext) : Res string (option ScopeControlConfig) :=
  match get c "scope_control_policy" with
  | None => Ok None
  | Some policy_json => config ← policy_from_str policy_json; mret (enabled_policy config)
  end.

Definition scope_control_barrier : StepM (option StepOutcome.t) :=
  c ← context;
  match resolve_scope_control_policy c with
  | Err _ => mret (Some StepOutcome.Fatal)
  | Ok None => mret None
  | Ok (Some scope_control) =>
      r ← try (enforce_scope_barrier scope_control);
      match r with
      | Ok Blocked => set_var "scope_barrier_wait" "true";; mret (Some StepOutcome.Wait)
      | Ok Allow => mret None
      | Ok (BarrierDenied _) => mret (Some StepOutcome.Fatal)
      | Err _ => mret (Some StepOutcome.Fatal)
      end
  end.

(** ** Measuring ([scope_measure.rs]) *)

Definition measure_error (message : string) : EngineError := StepExecutionError "scope_measure" message.
Definition measure_io (e : ScopeArtifacts.PersistenceError) : EngineError :=
  measure_error (persistence_error_text e).

(** [resolve_scope_control] of both steps, with the error of each: the context,
    then the parameters a test may give. *)
Definition resolve_scope_control (error : string -> EngineError) (c : StepContext) (params : Json)
    : Res EngineError (option ScopeControlConfig) :=
  let invalid what := res_map_err (fun err => error ("invalid " +:+ what +:+ ": " +:+ err)) in
  match get c "scope_control_policy" with
  | Some policy_json =>
      config ← invalid "scope_control_policy context" (policy_from_str policy_json);
      mret (enabled_policy config)
  | None =>
      match json_get "target_profile" params with
      | Some profile_value =>
          scope_control ← invalid "target_profile parameter" (profile_from_value profile_value);
          mret (Policy.active_scope_control scope_control)
      | None =>
          match json_get "scope_control" params with
          | Some sc_value =>
              config ← invalid "scope_control parameter" (policy_from_value sc_value);
              mret (enabled_policy config)
          | None => mret None
          end
      end
  end.

Definition gate_outcome_label (gate : ScopeGateOutcome) : string :=
  match gate with
  | OverBudgetNeedsRequest => "needs_request"
  | PendingResolution => "pending_resolution"
  | Denied _ => "denied"
  | _ => "blocked"
  end.

Definition enforce_gate (artifact_dir run : string) (charter : CanonicalTaskCharter) (m : PatchMeasurement)
    (e : ScopeEvaluation) : StepM (option StepOutcome.t) :=
  if within_charter e then mret None
  else
    gate ← on_disk measure_io (check_scope_gate artifact_dir run charter m e);
    if allows_mutation gate then mret None
    else
      request ← on_disk measure_io (build_expansion_request run charter m e);
      (if gate is OverBudgetNeedsRequest
       then on_disk measure_io (write_expansion_request artifact_dir request) else mret tt);;
      set_var "scope_measure_expansion_request_digest" (rq_measurement_digest request);;
      set_var "scope_measure_gate_outcome" (gate_outcome_label gate);;
      set_var "artifact_root" artifact_dir;;
      mret (Some StepOutcome.Wait).

Definition bool_text (b : bool) : string := if b then "true" else "false".

Definition expose_measurement_outputs (m : PatchMeasurement) (e : ScopeEvaluation) : StepM unit :=
  set_var "scope_measure_head_sha" (pm_head_sha m);;
  set_var "scope_measure_merge_base" (pm_merge_base m);;
  set_var "scope_measure_divergence" (pretty (pm_divergence m));;
  set_var "scope_measure_files_changed" (pretty (files_changed m));;
  set_var "scope_measure_added_lines" (pretty (added_lines m));;
  set_var "scope_measure_new_modules" (pretty (new_modules m));;
  set_var "scope_measure_dependencies_added" (pretty (dependencies_added m));;
  set_var "scope_measure_public_apis_added" (pretty (public_apis_added m));;
  set_var "scope_measure_within_budget" (bool_text (within_budget e));;
  set_var "scope_measure_violation_count" (pretty (Z.of_nat (length (violations e))));;
  set_var "scope_measure_result" (to_vec m);;
  set_var "scope_measure_evaluation" (evaluation_to_string e).

Definition load_charter (artifact_dir run : string) : StepM CanonicalTaskCharter :=
  on_disk (fun err => measure_error ("failed to read charter at " +:+
      charter_path (scope_control_dir artifact_dir run) +:+ ": " +:+ persistence_error_text err))
    (read_charter artifact_dir run).

(** [ScopeMeasureExecutor::execute] *)
Definition scope_measure (params : Json) : StepM StepOutcome.t :=
  c ← context;
  policy ← lift_res (resolve_scope_control measure_error c params);
  match policy with
  | None => mret StepOutcome.Success
  | Some scope_control =>
      let run := sc_run_id c in
      artifact_dir ← lift_res (ok_or (either c "artifact_dir" "artifact_root")
        (measure_error "scope-control requires artifact_dir or artifact_root"));
      charter ← load_charter artifact_dir run;
      m ← measure_worktree c charter scope_control measure_error measure_error;
      let e := evaluate m charter in
      on_disk measure_io (update_status_measurement artifact_dir run m e);;
      gated ← enforce_gate artifact_dir run charter m e;
      match gated with
      | Some outcome => mret outcome
      | None => expose_measurement_outputs m e;; mret StepOutcome.Success
      end
  end.

(** ** Chartering ([task_charter.rs]) *)

(** [SystemMergeBaseProbe]; its error is the message of a [MergeBaseError]. *)
Definition resolve_merge_base (work_dir base_branch : string) : M Files string string :=
  if starts_with base_branch "-" then throw ("invalid option-like base branch: " +:+ base_branch)
  else
    r ← observe (fun n => run_git n work_dir ["merge-base"; base_branch; "HEAD"]);
    out ← lift_res (res_map_err (fun err => "failed to invoke git: " +:+ err) r);
    if negb (out_success out) then throw (lossy_trimmed (out_stderr out))
    else
      let sha := lossy_trimmed (out_stdout out) in
      if str_is_empty sha then throw "git merge-base returned empty output" else mret sha.

Definition charter_error (message : string) : EngineError := StepExecutionError "task_charter" message.

Definition resolve_base_branch (c : StepContext) : string :=
  match trim <$> get c "base_branch" with
  | Some branch => if str_is_empty branch then "main" else branch
  | None => "main"
  end.

Definition parse_string_list_json (raw : string) : list string := default [] (res_ok (strings_from_str raw)).

Definition context_issue (c : StepContext) : option Z :=
  either c "primary_issue_number" "issue_number" ≫= parse_u64.

Definition derive_default_acceptance_criteria (c : StepContext) : list string :=
  let issue := default 0%Z (context_issue c) in
  let subsystem_ids := from_option (fun v => trim <$> split_char ","%char v) [] (get c "task_charter_subsystem_ids") in
  ("Implementation addresses the requirements of issue #" +:+ pretty issue) ::
  ((fun sub => "Changes scoped to declared subsystem " +:+ quoted sub) <$>
     List.filter (fun sub => negb (str_is_empty sub)) subsystem_ids).

Definition derive_default_non_goals (c : StepContext) : list string :=
  ["No refactoring unrelated to the target issue"; "No new dependencies unless required by the fix"] ++
  match get c "task_charter_mandatory_gates" with
  | Some gates => if str_is_empty (trim gates) then [] else ["No weakening of mandatory gates: " +:+ gates]
  | None => []
  end.

(** The context's list, the parameter's, or the default: the first that is not
    empty. *)
Definition resolve_list (context_key param_key : string) (derived : StepContext -> list string)
    (c : StepContext) (params : Json) : list string :=
  let from_context := from_option parse_string_list_json [] (get c context_key) in
  let from_params := omap json_as_str (default [] (json_get param_key params ≫= json_as_array)) in
  match from_context, from_params with
  | _ :: _, _ => from_context
  | [], _ :: _ => from_params
  | [], [] => derived c
  end.

Definition resolve_acceptance_criteria : StepContext -> Json -> list string :=
  resolve_list "task_charter_acceptance_criteria" "acceptance_criteria" derive_default_acceptance_criteria.
Definition resolve_non_goals : StepContext -> Json -> list string :=
  resolve_list "task_charter_non_goals" "non_goals" derive_default_non_goals.

Definition build_draft (sc : ScopeControlConfig) (run base : string) (c : StepContext) (params : Json)
    : TaskCharterDraft := {|
  td_charter_id := default ("SCOPE-" +:+ run) (json_get "charter_id" params ≫= json_as_str);
  td_issue_number := default 0%Z (opt_or (json_get "issue_number" params ≫= json_as_u64) (context_issue c));
  td_run_id := run;
  td_merge_base := base;
  td_acceptance_criteria := resolve_acceptance_criteria c params;
  td_non_goals := resolve_non_goals c params;
  td_subsystems := sc_subsystems sc;
  td_budget := sc_budget sc;
  td_review_caps := sc_review_caps sc;
  td_mandatory_gates := sc_mandatory_gates sc
|}.

(** [TaskCharterExecutor::execute], over a merge-base probe. *)
Definition task_charter (probe : string -> string -> M Files string string) (params : Json) : StepM StepOutcome.t :=
  c ← context;
  policy ← lift_res (resolve_scope_control charter_error c params);
  match policy with
  | None => mret StepOutcome.Success
  | Some scope_control =>
      let run := sc_run_id c in
      base ← on_disk (fun message => charter_error ("merge-base resolution failed: " +:+ message))
        (probe (sc_work_dir c) (resolve_base_branch c));
      let draft := build_draft scope_control run base c params in
      lift_res (res_map_err charter_error (validate_draft_against_config draft scope_control));;
      let canonical := normalize_charter draft in
      let artifact_dir := resolve_artifact_dir c in
      on_disk (fun err => charter_error ("failed to create artifact dir: " +:+ io_display err))
        (create_dir_all artifact_dir);;
      paths ← on_disk (fun err => charter_error (persistence_error_text err))
        (persist_charter_and_status artifact_dir canonical);
      set_var "task_charter_digest" (ScopeCharter.digest canonical);;
      set_var "task_charter_merge_base" (merge_base canonical);;
      set_var "task_charter_path" paths.1;;
      set_var "task_charter_status_path" paths.2;;
      mret StepOutcome.Success
  end.

(** ** The gate before a review remediation ([iteration_guard.rs]) *)

Definition review_changed_files (work_dir base : string) : M Files EngineError (list string) :=
  r ← observe (fun n => run_git n work_dir ["diff"; "--name-only"; "-z"; base; "HEAD"]);
  out ← lift_res (res_map_err (fun err => InvalidState ("failed to invoke git diff: " +:+ err)) r);
  if negb (out_success out) then
    throw (InvalidState ("failed to collect review range: " +:+ lossy_trimmed (out_stderr out)))
  else mret (btree_set (from_utf8_lossy <$> split_z (out_stdout out))).

(** Whether a remediation of the pull request at [head_sha] may start. *)
Definition scope_review_gate `{Process} (head_sha : string) : StepM bool :=
  c ← context;
  match get c "scope_control_policy" with
  | None => mret true
  | Some policy_json =>
      policy ← lift_res (res_map_err (fun err => InvalidState ("invalid scope-control policy: " +:+ err))
        (policy_from_str policy_json));
      if negb (enabled policy) then mret true
      else
        artifact_dir ← lift_res (ok_or (either c "artifact_dir" "artifact_root")
          (InvalidState "scope review gate requires artifact_dir or artifact_root"));
        charter ← on_disk (fun err => InvalidState ("failed to read scope-control charter: " +:+
            persistence_error_text err)) (read_charter artifact_dir (sc_run_id c));
        changed ← on_disk id (review_changed_files (sc_work_dir c) (merge_base charter));
        let tests := filter_changed_tests changed in
        t ← now;
        outcome ← on_disk (fun err => InvalidState ("scope-control review gate failed: " +:+
            persistence_error_text err))
          (pre_launch_review_gate artifact_dir {|
            pl_run_id := sc_run_id c;
            pl_head_sha := head_sha;
            pl_merge_base := merge_base charter;
            pl_changed_files := changed;
            pl_changed_tests := tests;
            pl_charter_digest := ScopeCharter.digest charter;
            caps := review_caps charter;
            now_rfc3339 := Effects.to_rfc3339 t
          |});
        set_var "task_charter_merge_base" (merge_base charter);;
        set_var "scope_review_from" (merge_base charter);;
        set_var "scope_review_to" head_sha;;
        set_var "scope_review_changed_tests" (strings_to_string tests);;
        mret (permits_review outcome)
  end.

(** ** A timeout with changes ([llxprt_timeout.rs]) *)

Definition recovery_error (label err : string) : EngineError :=
  StepExecutionError "llxprt" ("timeout recovery " +:+ label +:+ ": " +:+ err).

Definition resolve_recovery_policy (c : StepContext) : Res EngineError (option ScopeControlConfig) :=
  match get c "scope_control_policy" with
  | None => Ok None
  | Some policy_json =>
      policy ← res_map_err (fun err => StepExecutionError "llxprt"
        ("invalid scope-control policy during timeout recovery: " +:+ err)) (policy_from_str policy_json);
      mret (enabled_policy policy)
  end.

(** [new_changed_paths] ([components/generic/change_detection.rs]) *)
Definition new_changed_paths (paths initial : list string) : list string :=
  List.filter (fun path => bool_decide (path ∉ initial)) paths.

Definition is_some {A} (o : option A) : bool := if o is Some _ then true else false.

(** [detect] lists the changed paths of a work tree. *)
Definition recover_partial_timeout (detect : string -> M Files string (list string))
    (initial_changed_paths : list string) (kind : TimeoutKind) : StepM (option StepOutcome.t) :=
  c ← context;
  detected ← try (on_local (detect (sc_work_dir c)));
  match detected with
  | Err err =>
      set_var "diagnostic" ("timeout change detection failed: " +:+ err);; mret (Some StepOutcome.Fatal)
  | Ok current_paths =>
      if bool_decide (new_changed_paths current_paths initial_changed_paths = []) then mret None
      else
        resolved_policy ← lift_res (resolve_recovery_policy c);
        match resolved_policy with
        | None => mret None
        | Some policy =>
            let artifact_dir := resolve_artifact_dir c in
            charter ← on_disk (fun err => recovery_error "charter unavailable" (persistence_error_text err))
              (read_charter artifact_dir (sc_run_id c));
            m ← measure_worktree c charter policy (recovery_error "measurement failed")
              (recovery_error "dependency measurement failed");
            on_disk (fun err => recovery_error "persist timeout recovery snapshot" (persistence_error_text err))
              (handle_timeout_recovery artifact_dir (sc_run_id c) charter m kind
                (is_some (partial_compile_command policy) || is_some (partial_compile_group policy))
                {| exit_code := Some 124%Z;
                   wall_clock_timeout := (if kind is Timeout then true else false);
                   process_killed := true |});;
            set_var "artifact_root" artifact_dir;;
            set_var "scope_timeout_recovery_required" "true";;
            mret (Some StepOutcome.Wait)
        end
  end.

(** ** Polling a scope decision ([daemon/poller.rs]) *)

Definition scope_poll_state (r : WaitStateRecord) (fields : list (string * Json)) : Json :=
  JObject (list_to_map (fields ++ [("wait_kind", JString (WaitKind.to_string (wait_kind r)))])).

Definition scope_still_waiting {E} (r : WaitStateRecord) (reason : string) (more : list (string * Json))
    : M Files E PollDecision :=
  t ← now;
  mret (still_waiting_with_state r (scope_poll_state r
    ([("classification", JString "still_waiting"); ("reason", JString reason)] ++ more)) t).

Definition scope_read_error {E} (r : WaitStateRecord) (err : ScopeArtifacts.PersistenceError)
    : M Files E PollDecision :=
  t ← now;
  mret (transient r (scope_poll_state r
    [("classification", JString "transient_failure"); ("reason", JString "scope_decision_read_error");
     ("error", JString (persistence_error_text err))]) t).

Definition poll_scope_decision {E} (r : WaitStateRecord) : M Files E PollDecision :=
  match json_get "artifact_root" (wait_condition r) ≫= json_as_str with
  | None => scope_still_waiting r "missing_artifact_root" []
  | Some artifact_dir =>
      request ← try (read_expansion_request artifact_dir (ws_run_id r));
      resolution ← try (read_expansion_resolution artifact_dir (ws_run_id r));
      match request, resolution with
      | Ok (Some request), Ok (Some resolution) =>
          if rs_measurement_digest resolution =?s rq_measurement_digest request then
            mret (ready r (scope_poll_state r
              [("classification", JString "resolved");
               ("decision", JString (ScopeExpansionDecision.to_string (decision resolution)));
               ("measurement_digest", JString (rs_measurement_digest resolution))]))
          else scope_still_waiting r "stale_resolution_digest"
                 [("request_digest", JString (rq_measurement_digest request));
                  ("resolution_digest", JString (rs_measurement_digest resolution))]
      | Ok (Some _), Ok None => scope_still_waiting r "pending_resolution" []
      | Ok None, _ => scope_still_waiting r "no_expansion_request" []
      | Err err, _ => scope_read_error r err
      | Ok _, Err err => scope_read_error r err
      end
  end.
End Steps.

(** ** What the steps do to the disk and the context *)

Lemma wp_context {E} (Q : Res E StepContext -> World StepState -> Prop) w :
  Q (Ok (snd (w_db w))) w -> wp context Q w.
Proof. done. Qed.

Lemma wp_set_var {E} key value (Q : Res E unit -> World StepState -> Prop) w :
  (forall w', w_db w' = (fst (w_db w), set (snd (w_db w)) key value) -> Q (Ok tt) w') ->
  wp (set_var key value) Q w.
Proof. intros HQ. by apply HQ. Qed.

Lemma wp_on_disk {E A} (f : E -> EngineError) (m : M Files E A) (Q : Res EngineError A -> World StepState -> Prop) w :
  wp m (fun r w1 => forall w', w_db w' = (w_db w1, snd (w_db w)) -> Q (res_map_err f r) w') (local_of w) ->
  wp (on_disk f m) Q w.
Proof.
  intros HQ. unfold on_disk. apply wp_map_err, wp_on_local. eapply wp_consequence; [exact HQ|].
  intros r w1 H1 w' Hlocal Hctx. apply H1. rewrite <- Hlocal, <- Hctx. by destruct w' as [[]].
Qed.

(** A computation that leaves the disk as it is. *)
Lemma wp_on_disk_read {E A} (P : Res E A -> Prop) (f : E -> EngineError) (m : M Files E A)
    (Q : Res EngineError A -> World StepState -> Prop) w :
  wp m (fun r w1 => w_db w1 = w_db (local_of w) /\ P r) (local_of w) ->
  (forall r w', w_db w' = w_db w -> P r -> Q (res_map_err f r) w') -> wp (on_disk f m) Q w.
Proof.
  intros Hm HQ. apply wp_on_disk. eapply wp_consequence; [exact Hm|]. intros r w1 [Hw1 Hr] w' Hw'.
  apply HQ; [|exact Hr]. rewrite Hw', Hw1. symmetry. apply surjective_pairing.
Qed.

Section Measuring.
Context `{Env} `{Sha256} `{WorkTree} `{Regexes} `{TomlParser} `{ErrorText} `{IntErrorText} `{Os}.
Context `{GitPatchCollector Files}.

Lemma dependency_diffs_read_only work_dir manifests base P :
  keeps P (collect_dependency_diffs (D := Files) work_dir manifests base).
Proof.
  induction manifests as [|manifest manifests IH]; cbn [collect_dependency_diffs]; [keeps_auto|].
  unfold diff_manifest, git_output, read_to_string. keeps_auto.
Qed.

(** The measurement of the run's work tree from [w] on: what the collector
    answers there for the charter's base, what the manifests gained by then, and
    a measurement that tells exactly this patch. *)
Definition measures (c : StepContext) (charter : CanonicalTaskCharter) (sc : ScopeControlConfig) (w : World Files)
    (m : PatchMeasurement) : Prop :=
  exists data w1 diffs w2,
    collect (sc_work_dir c) (merge_base charter) (sc_measurement sc) w = (Ok data, w1) /\
    collect_dependency_diffs (sc_work_dir c) (dependency_manifests sc) (merge_base charter) w1 = (Ok diffs, w2) /\
    fst (compute_measurement data charter (sc_run_id c) (daemon_managed_claim c) (sc_measurement sc) (sc_work_dir c)
      diffs w2) = Ok m /\
    measured data diffs charter (sc_run_id c) (sc_measurement sc) (sc_work_dir c) m.

(** A computation that leaves the disk as it is, and what it returned. *)
Lemma wp_on_disk_run {E A} (f : E -> EngineError) (m : M Files E A)
    (Q : Res EngineError A -> World StepState -> Prop) w :
  w_db (snd (m (local_of w))) = w_db (local_of w) ->
  (forall r w1 w', m (local_of w) = (r, w1) -> local_of w' = w1 -> w_db w' = w_db w -> Q (res_map_err f r) w') ->
  wp (on_disk f m) Q w.
Proof.
  intros Hkeep HQ. unfold on_disk. apply wp_map_err, wp_on_local. unfold wp.
  destruct (m (local_of w)) as [r w1] eqn:Em. cbn in *. intros w' Hlocal Hctx. apply (HQ r w1); [done|done|].
  assert (fst (w_db w') = fst (w_db w)) as Hfst by (change (fst (w_db w')) with (w_db (local_of w')); by rewrite Hlocal).
  destruct w' as [[]], w as [[]]. by cbn in *; subst.
Qed.

Lemma measure_worktree_wp c charter sc f g (Q : Res EngineError PatchMeasurement -> World StepState -> Prop) w :
  (forall r w', w_db w' = w_db w -> (forall m, r = Ok m -> measures c charter sc (local_of w) m) -> Q r w') ->
  wp (measure_worktree c charter sc f g) Q w.
Proof.
  intros HQ. unfold measure_worktree. apply wp_bind, wp_on_disk_run; [apply collect_read_only|].
  intros [data|e] w1' w1 Hdata <- Hw1; cbn; [|by apply HQ]. apply wp_bind, wp_on_disk_run.
  { by apply (dependency_diffs_read_only _ _ _ (fun d => d = w_db (local_of w1))). }
  intros [diffs|e] w2' w2 Hdiffs <- Hw2; cbn; [|apply HQ; [congruence|done]].
  pose proof (compute_measurement_wp data charter (sc_run_id c) (daemon_managed_claim c) (sc_measurement sc)
    (sc_work_dir c) diffs (local_of w2)) as [Hkeep Hm].
  apply wp_on_disk_run; [exact Hkeep|]. intros r w3' w3 Hr <- Hw3. rewrite Hr in Hm. apply HQ; [congruence|].
  intros m Hok. destruct r as [m'|e]; [|done]. injection Hok as ->.
  exists data, (local_of w1), diffs, (local_of w2). split_and!; [done|done|by rewrite Hr|by apply Hm].
Qed.
End Measuring.

(** ** The barrier *)

Section Barrier.
Context `{Env} `{Uuid} `{Sha256} `{ScopeCodecs} `{PolicyCodec} `{WorkTree} `{Regexes} `{TomlParser}
  `{ErrorText} `{IntErrorText} `{Os}.
Context `{GitPatchCollector Files}.

(** The charter that the run's steps read. *)
Definition charter_on_disk (c : StepContext) (charter : CanonicalTaskCharter) (disk : Files) : Prop :=
  stored (charter_path (scope_control_dir (resolve_artifact_dir c) (sc_run_id c))) charter disk.

(** The request that a block of this patch leaves. *)
Definition request_of (c : StepContext) (charter : CanonicalTaskCharter) (m : PatchMeasurement)
    (rq : ScopeExpansionRequest) : Prop :=
  rq_run_id rq = sc_run_id c /\ rq_charter_digest rq = ScopeCharter.digest charter /\
  rq_measurement_digest rq = measurement_digest m /\ rq_measurement rq = m /\
  rq_violations rq = violations (evaluate m charter).

(** What each verdict of the barrier rests on, entered in [w]: the charter on
    disk and the measurement taken right after it was read. *)
Definition barrier_grounds (c : StepContext) (sc : ScopeControlConfig) (w : World Files) (verdict : ScopeBarrierResult)
    (disk' : Files) : Prop :=
  let disk := w_db w in
  exists charter m, charter_on_disk c charter disk /\
    measures c charter sc (snd (read_charter (resolve_artifact_dir c) (sc_run_id c) w)) m /\
    match verdict with
    | Allow => disk' = disk /\
        (within_scope m charter \/
         resolved (resolve_artifact_dir c) (sc_run_id c) charter m ScopeExpansionDecision.ApproveExpandedScope disk)
    | Blocked => ~ within_scope m charter /\
        exists rq, request_of c charter m rq /\ requested (resolve_artifact_dir c) rq disk'
    | BarrierDenied d => disk' = disk /\ ~ within_scope m charter /\
        d <> ScopeExpansionDecision.ApproveExpandedScope /\
        resolved (resolve_artifact_dir c) (sc_run_id c) charter m d disk
    end.

(** The request is written, or the step fails. *)
Lemma block_wp c charter m dir (Q : Res EngineError ScopeBarrierResult -> World StepState -> Prop) w :
  (forall (r : Res EngineError ScopeBarrierResult) (w' : World StepState), snd (w_db w') = snd (w_db w) ->
    only_new (fst (w_db w)) (fst (w_db w')) ->
    (forall v, r = Ok v -> v = Blocked /\ exists rq, request_of c charter m rq /\ requested dir rq (fst (w_db w'))) -> Q r w') ->
  wp (request ← on_disk barrier_io (build_expansion_request (sc_run_id c) charter m (evaluate m charter));
      on_disk barrier_io (write_expansion_request dir request);; mret Blocked) Q w.
Proof.
  intros HQ. apply wp_bind, wp_on_disk. unfold build_expansion_request. apply wp_bind, wp_now.
  intros w1 Hw1 _. apply wp_ret. intros w2 Hw2. rewrite Hw1 in Hw2. cbn in Hw2.
  apply wp_bind, wp_on_disk, write_request_wp. intros r w3 Hnew Hreq w4 Hw4. cbn in Hnew.
  rewrite Hw2 in Hnew. rewrite Hw2 in Hw4. cbn in Hnew, Hw4.
  assert (forall r' : Res EngineError ScopeBarrierResult, (forall v, r' = Ok v -> r = Ok tt /\ v = Blocked) -> Q r' w4) as Hend.
  { intros r' Hr'. apply HQ; rewrite Hw4; cbn; [done|done|]. intros v Hv. destruct (Hr' v Hv) as [-> ->].
    split; [done|]. eexists. split; [|by apply Hreq]. done. }
  destruct r as [[]|e]; cbn; [apply wp_ret|]; apply Hend; [|done]. by intros v [= <-].
Qed.

Lemma enforce_barrier_wp sc (Q : Res EngineError ScopeBarrierResult -> World StepState -> Prop) w :
  (forall (r : Res EngineError ScopeBarrierResult) (w' : World StepState), snd (w_db w') = snd (w_db w) ->
    only_new (fst (w_db w)) (fst (w_db w')) ->
    (forall verdict, r = Ok verdict ->
      barrier_grounds (snd (w_db w)) sc (local_of w) verdict (fst (w_db w'))) -> Q r w') ->
  wp (enforce_scope_barrier sc) Q w.
Proof.
  intros HQ. unfold enforce_scope_barrier. apply wp_bind, wp_context. cbn beta iota.
  set (c := snd (w_db w)). assert (forall e w', w_db w' = w_db w -> Q (Err e) w') as Herr.
  { intros e w' Hw'. by apply HQ; rewrite Hw'. }
  assert (wp (read_charter (resolve_artifact_dir c) (sc_run_id c)) (fun r w1 => w_db w1 = w_db (local_of w) /\
    forall charter, r = Ok charter -> charter_on_disk c charter (w_db (local_of w))) (local_of w)) as [Hkeep Hcharter].
  { unfold read_charter. apply read_json_wp. intros r w1 Hw1 Hr. by split. }
  apply wp_bind, wp_on_disk_run; [exact Hkeep|].
  intros [charter|e] w1' w1 Hread <- Hw1; cbn [res_map_err]; [|by apply Herr].
  rewrite Hread in Hcharter. specialize (Hcharter charter eq_refl). apply wp_bind, measure_worktree_wp.
  intros [m|e] w2 Hw2 Hm; [|apply Herr; congruence]. specialize (Hm m eq_refl).
  replace (local_of w1) with (snd (read_charter (resolve_artifact_dir c) (sc_run_id c) (local_of w))) in Hm
    by by rewrite Hread.
  apply wp_bind.
  eapply wp_on_disk_read.
  { apply check_scope_gate_wp. intros r w3 Hw3 Hr. split; [exact Hw3|exact Hr]. }
  intros [o|e] w3 Hw3 Hgate; cbn [res_map_err]; [|apply Herr; congruence].
  specialize (Hgate o eq_refl) as (Hallow & Hover & Hdeny). cbn in Hallow, Hover, Hdeny.
  rewrite Hw2, Hw1 in Hallow, Hdeny. assert (w_db w3 = w_db w) as Hdb by congruence.
  assert (allows_mutation o = true -> wp (mret Allow : StepM ScopeBarrierResult) Q w3) as Hret.
  { intros Ha. apply wp_ret, HQ; rewrite Hdb; try done. intros v [= <-]. exists charter, m. split_and!; auto. }
  destruct (allows_mutation o) eqn:Ea; [by apply Hret|]. specialize (Hover eq_refl).
  assert (wp (request ← on_disk barrier_io (build_expansion_request (sc_run_id c) charter m (evaluate m charter));
    on_disk barrier_io (write_expansion_request (resolve_artifact_dir c) request);; mret Blocked) Q w3) as Hblock.
  { apply block_wp. rewrite Hdb. intros r w4 Hctx Hnew Hr. apply HQ; [done|done|].
    intros v Hv. destruct (Hr v Hv) as [-> Hrq]. exists charter, m. by split_and!. }
  destruct o; try done. apply wp_ret, HQ; rewrite Hdb; try done. intros v [= <-]. exists charter, m.
  destruct (Hdeny decision eq_refl). by split_and!.
Qed.

End Barrier.

(** ** The operator's answer *)

(** *** The newest request, when nothing fails *)

#[export] Instance newer_total : Total newer.
Proof.
  intros [n t] [n' t']. unfold newer. cbn. destruct (Z.lt_trichotomy t t') as [?|[->|?]]; [tauto| |tauto].
  destruct (String.le_total n n'); tauto.
Qed.
#[export] Instance newer_trans : Transitive newer.
Proof.
  intros [n t] [n' t'] [n'' t'']. unfold newer. cbn. intros [?|[-> ?]] [?|[-> ?]]; [left; lia|tauto|tauto|].
  right. split; [done|]. by transitivity n'.
Qed.
#[export] Instance newer_antisymm : AntiSymm (=) newer.
Proof.
  intros [n t] [n' t']. unfold newer. cbn. intros [?|[-> ?]] [?|[? ?]]; try lia.
  f_equal. by apply (anti_symm String.le).
Qed.

(** The names in a directory, as [read_dir] lists them. *)
Definition listing (dir : string) (d : Files) : list (string * Z) :=
  omap (fun '(path, f) =>
    match last path with
    | Some (Normal name) =>
        if bool_decide (path = components dir ++ [Normal name]) then Some (name, mtime f) else None
    | _ => None
    end) (map_to_list (files d)).

(** The generations of requests, newest first. *)
Definition generations (dir : string) (d : Files) : list (string * Z) :=
  merge_sort newer (List.filter (fun e => bool_decide (extension e.1 = Some "json")) (listing dir d)).

Lemma list_filter_perm {A} (f : A -> bool) l k : l ≡ₚ k -> List.filter f l ≡ₚ List.filter f k.
Proof. induction 1; cbn; repeat case_match; try done; [by constructor|by constructor|by etransitivity]. Qed.

Lemma generations_perm dir d d' : listing dir d ≡ₚ listing dir d' -> generations dir d = generations dir d'.
Proof.
  intros Hp. unfold generations. apply (Sorted_unique newer); [apply Sorted_merge_sort, _..|].
  rewrite !merge_sort_Permutation. by apply list_filter_perm.
Qed.

(** A file outside the directory does not show in its listing. *)
Lemma listing_insert dir path f d d' :
  files d' = <[components path := f]> (files d) ->
  (forall name, components path <> components dir ++ [Normal name]) -> listing dir d' ≡ₚ listing dir d.
Proof.
  intros Hd Hout. unfold listing. rewrite Hd.
  set (F := fun '(path, f) => _).
  assert (forall g, F (components path, g) = None) as HF.
  { intros g. subst F. cbn. repeat case_match; try done. bool_hyps. by destruct (Hout name). }
  clearbody F.
  assert (forall (g : File) (m : gmap (list Component) File), m !! components path = None -> omap F (map_to_list (<[components path := g]> m)) ≡ₚ omap F (map_to_list m)) as Hskip.
  { intros g m Hm. rewrite map_to_list_insert by done. cbn. by rewrite HF. }
  rewrite <- insert_delete_eq. rewrite Hskip by apply lookup_delete_eq.
  destruct (files d !! components path) as [g|] eqn:Eg.
  - rewrite <- (insert_delete_id (files d) _ _ Eg) at 2. by rewrite Hskip by apply lookup_delete_eq.
  - by rewrite delete_id.
Qed.

Lemma updatable_keeps_dirs `{Env} `{Uuid} {T} `{Serde T} dirs0 path (value : T) :
  keeps (fun d => dirs0 ⊆ dirs d) (write_updatable_json path value).
Proof.
  unfold write_updatable_json, create_parent, create_dir_all, mkdir, write_atomic, write_temp,
    collision_safe_temp_path, create_new, write_all, sync_all, rename, fsync_parent, sync_all.
  keeps_auto; try (apply keeps_for_each; intros n); apply keeps_fs; intros d ? d' Hd;
    repeat case_match; intros; simplify_eq; cbn; set_solver.
Qed.

Section Answer.
Context {env : Env} `{!FaultFree env} `{Uuid} `{Sha256} `{ScopeCodecs} `{ErrorText}.

(** A name as a directory entry has one. *)
Definition entry_name (name : string) : Prop :=
  has_char "/"%char name = false /\ name <> "" /\ name <> "." /\ name <> "..".

(** The request a reader of the run's requests finds: the newest generation. *)
Definition newest_request (artifact_dir run : string) (rq : ScopeExpansionRequest) (d : Files) : Prop :=
  let gen_dir := requests_dir (scope_control_dir artifact_dir run) in
  components gen_dir ∈ dirs d /\
  exists name t older, generations gen_dir d = (name, t) :: older /\ entry_name name /\
    stored (join gen_dir name) rq d.

Lemma read_newest_wp artifact_dir run rq
    (Q : Res ScopeArtifacts.PersistenceError (option ScopeExpansionRequest) -> World Files -> Prop) w :
  newest_request artifact_dir run rq (w_db w) ->
  (forall w', w_db w' = w_db w -> Q (Ok (Some rq)) w') -> wp (read_expansion_request artifact_dir run) Q w.
Proof.
  intros (Hdir & name & t & older & Hgen & _ & Hst) HQ. unfold read_expansion_request, is_dir.
  apply wp_bind, wp_bind, wp_try, wp_fs_live. intros w1 Hw1. cbn. rewrite bool_decide_eq_true_2 by done.
  cbn. unfold read_latest_generation, read_dir. apply wp_bind, wp_map_err, wp_fs_live. rewrite Hw1.
  rewrite bool_decide_eq_true_2 by done. intros w2 Hw2. cbn [res_map_err].
  change (merge_sort newer _) with (generations (requests_dir (scope_control_dir artifact_dir run)) (w_db w)).
  rewrite Hgen. apply wp_bind. eapply read_stored_wp; [by rewrite Hw2|]. intros w3 Hw3. apply wp_ret, HQ. congruence.
Qed.

Lemma read_resolution_wp artifact_dir run rs
    (Q : Res ScopeArtifacts.PersistenceError (option ScopeExpansionResolution) -> World Files -> Prop) w :
  stored (resolution_path (scope_control_dir artifact_dir run)) rs (w_db w) ->
  (forall w', w_db w' = w_db w -> Q (Ok (Some rs)) w') -> wp (read_expansion_resolution artifact_dir run) Q w.
Proof.
  intros Hst HQ. unfold read_expansion_resolution, read_if_present. apply wp_bind, exists_live_wp.
  rewrite (stored_occupied _ _ _ Hst). intros w1 Hw1. cbn. apply wp_bind.
  eapply read_stored_wp; [by rewrite Hw1|]. intros w2 Hw2. apply wp_ret, HQ. congruence.
Qed.

(** A resolution on disk leaves the newest request as it was. *)
Lemma newest_request_frame artifact_dir run rq rs t d d' :
  newest_request artifact_dir run rq d ->
  files d' = <[components (resolution_path (scope_control_dir artifact_dir run)) := mkFile rs t]> (files d) ->
  dirs d ⊆ dirs d' -> newest_request artifact_dir run rq d'.
Proof.
  intros (Hdir & name & t' & older & Hgen & Hname & f & Hf & Hv) Hd Hdirs.
  assert (components (resolution_path (scope_control_dir artifact_dir run)) =
    components (scope_control_dir artifact_dir run) ++ [Normal EXPANSION_RESOLUTION_FILENAME]) as Hres
    by by apply components_join_name.
  assert (components (requests_dir (scope_control_dir artifact_dir run)) =
    components (scope_control_dir artifact_dir run) ++ [Normal REQUESTS_DIRNAME]) as Hreq by by apply components_join_name.
  assert (forall name, components (resolution_path (scope_control_dir artifact_dir run)) <>
    components (requests_dir (scope_control_dir artifact_dir run)) ++ [Normal name]) as Hout.
  { intros n Heq. apply (f_equal length) in Heq. rewrite Hres, Hreq, !length_app in Heq. cbn in Heq. lia. }
  split; [set_solver|]. exists name, t', older. split_and!; [|done|].
  - rewrite <- Hgen. apply generations_perm. by eapply listing_insert.
  - exists f. split; [|done]. unfold file_at. rewrite Hd, lookup_insert_ne; [exact Hf|].
    destruct Hname as (? & ? & ? & ?). rewrite components_join_name by done. apply Hout.
Qed.

(** C28: an operator's answer to the newest request settles the wait, when
    nothing fails: once the resolution of this measurement is written, the poll
    finds the run ready to resume, and the gate, asked about the same patch under
    the same charter, lets it pass if the answer approves and denies it with that
    answer otherwise. *)
Theorem answer_settles_wait artifact_dir charter m rq rs record w :
  let run := rs_run_id rs in
  newest_request artifact_dir run rq (w_db w) ->
  rq_charter_digest rq = ScopeCharter.digest charter -> rq_measurement_digest rq = measurement_digest m ->
  rs_measurement_digest rs = measurement_digest m -> reads_back rs ->
  ws_run_id record = run -> json_get "artifact_root" (wait_condition record) = Some (JString artifact_dir) ->
  ~ within_scope m charter ->
  wp (write_expansion_resolution artifact_dir rs) (fun r w1 => r = Ok tt ->
    wp (poll_scope_decision (E := EngineError) record) (fun d _ =>
      exists decided, d = Ok decided /\ classification decided = ReadyToResume) w1 /\
    wp (check_scope_gate artifact_dir run charter m (evaluate m charter)) (fun o _ =>
      o = Ok (if ScopeExpansionDecision.authorizes_expansion (decision rs)
              then WithinBudgetWithPriorResolution else Denied (decision rs))) w1) w.
Proof.
  intros run Hnew Hcharter Hrq Hrs Hback Hrun Hroot Hover.
  pose proof (updatable_keeps_dirs (dirs (w_db w)) (resolution_path (scope_control_dir artifact_dir run)) rs w
    (reflexivity _)) as Hdirs.
  apply (wp_consequence _ (fun r w1 => (forall u, r = Ok u -> exists t, files (w_db w1) =
      <[components (resolution_path (scope_control_dir artifact_dir run)) := mkFile (to_string_pretty rs) t]>
        (files (w_db w))) /\ dirs (w_db w) ⊆ dirs (w_db w1))).
  { apply wp_and; [|exact Hdirs]. apply write_updatable_json_wp; [by eauto|done]. }
  clear Hdirs. intros r w1 [Hfiles Hdirs] Hr. destruct (Hfiles tt Hr) as [t Ht].
  assert (newest_request artifact_dir run rq (w_db w1)) as Hnew1 by by eapply newest_request_frame.
  assert (stored (resolution_path (scope_control_dir artifact_dir run)) rs (w_db w1)) as Hst.
  { exists (mkFile (to_string_pretty rs) t). split; [|exact Hback]. unfold file_at. rewrite Ht. apply lookup_insert_eq. }
  split.
  - unfold poll_scope_decision. rewrite Hroot. cbn. rewrite Hrun. apply wp_bind, wp_try.
    apply (read_newest_wp _ _ rq); [done|]. intros w2 Hw2. apply wp_bind, wp_try.
    apply (read_resolution_wp _ _ rs); [by rewrite Hw2|]. intros w3 _. rewrite Hrs, Hrq.
    rewrite bool_decide_eq_true_2 by done. apply wp_ret. eauto.
  - unfold check_scope_gate. destruct (within_charter (evaluate m charter)) eqn:Ew.
    { destruct Hover. by apply within_charter_spec. }
    apply wp_bind, (read_newest_wp _ _ rq); [done|]. intros w2 Hw2.
    apply wp_bind, (read_resolution_wp _ _ rs); [by rewrite Hw2|]. intros w3 _. apply wp_ret.
    rewrite Hcharter, Hrq, Hrs, !bool_decide_eq_true_2 by done. done.
Qed.
End Answer.

(** ** Chartering *)

Section Chartering.
Context `{Env} `{Uuid} `{Sha256} `{ScopeCodecs} `{PolicyCodec} `{WorkTree} `{ErrorText}.

Lemma resolve_list_nonempty context_key param_key derived c params :
  derived c <> [] -> resolve_list context_key param_key derived c params <> [].
Proof. intros Hd. unfold resolve_list. by repeat case_match. Qed.

Lemma criteria_nonempty c params : resolve_acceptance_criteria c params <> [].
Proof. by apply resolve_list_nonempty. Qed.
Lemma non_goals_nonempty c params : resolve_non_goals c params <> [].
Proof. by apply resolve_list_nonempty. Qed.

(** C29: a policy that passed validation at startup never fails its own charter:
    the draft that the charter step builds from it is accepted exactly when the
    run, the charter id, the merge base and the issue number are there - whatever
    else the context and the parameters hold.  Criteria and non-goals are never
    missing, and no ceiling, cap, gate or subsystem of the policy stands in the
    way of its own draft. *)
Theorem validated_policy_drafts valid_regex sc manifest run base c params :
  enabled sc = true -> Policy.validate_scope_control valid_regex (Some sc) manifest = Ok tt ->
  let draft := build_draft sc run base c params in
  validate_draft_against_config draft sc = Ok tt <->
  td_charter_id draft <> "" /\ run <> "" /\ base <> "" /\ td_issue_number draft <> 0%Z.
Proof.
  intros Hen Hval draft. rewrite draft_validation_exact.
  destruct (policy_admits_itself _ _ _ Hen Hval) as (Hbudget & Hcaps & Hsubs & Hgates & Hnd & Hadm).
  split.
  - intros [(Hid & Hrun & Hbase & Hissue & _) _ _ _ _]. done.
  - intros (Hid & Hrun & Hbase & Hissue). constructor; try done. unfold fields_present.
    split_and!; try done; [apply criteria_nonempty|apply non_goals_nonempty].
Qed.
End Chartering.

(** *** Examples *)

Section Examples.
#[local] Existing Instance calm.
#[local] Existing Instance plain_uuid.
#[local] Existing Instance ScopeMeasurement.plain_text.
#[local] Existing Instance plain_sha.
#[local] Existing Instance sample_codecs.
#[local] Instance sample_policy_codec : PolicyCodec := {|
  policy_from_str _ := Err "policy";
  policy_from_value _ := Err "policy";
  profile_from_value _ := Err "profile";
  strings_from_str s := Ok (split_char ","%char s);
  strings_to_string := join_with ",";
  evaluation_to_string _ := ""
|}.

Definition sample_policy : ScopeControlConfig :=
  mkScopeControl true sample_budget sample_caps [mkSubsystem "core" ["src/core"]] [] [] None None
    (mkMeasurementConfig ["rs"] [] true true) ["cargo test"].

Lemma validated_policy_drafts_witness :
  Policy.validate_scope_control (fun _ => true) (Some sample_policy) None = Ok tt /\
  validate_draft_against_config
    (build_draft sample_policy "r" "base" (set (new "/w" "r") "issue_number" "7") JNull) sample_policy = Ok tt.
Proof.
  assert (Policy.validate_scope_control (fun _ => true) (Some sample_policy) None = Ok tt) as Hval by by vm_compute.
  split; [exact Hval|].
  refine (proj2 (validated_policy_drafts (fun _ => true) sample_policy None "r" "base"
    (set (new "/w" "r") "issue_number" "7") JNull (eq_refl true) Hval) _).
  split_and!; by vm_compute.
Defined.

(** A run of 500 lines under a charter of 100 asked to go on. *)
Definition asked : World Files := snd (request_scope "a" (start no_files)).
Definition scope_wait : WaitStateRecord :=
  mkWait "r" "s" None "wf" "cfg" "o/r" 1 None None WaitKind.ScopeDecision
    (JObject {[ "artifact_root" := JString "/art" ]}) JNull 0 60 None "llxprt" "cp" 0 0 0.

Definition asked_digest : string := measurement_digest (patch_at "a").

Lemma answer_settles_wait_witness :
  let rs := approval_of asked_digest in
  newest_request "/art" "r" (request_for asked_digest) (w_db asked) /\
  wp (write_expansion_resolution "/art" rs) (fun r w1 => r = Ok tt ->
    wp (poll_scope_decision (E := EngineError) scope_wait) (fun d _ =>
      exists decided, d = Ok decided /\ classification decided = ReadyToResume) w1 /\
    wp (check_scope_gate "/art" "r" sample_charter (patch_at "a") (evaluate (patch_at "a") sample_charter))
      (fun o _ => o = Ok WithinBudgetWithPriorResolution) w1) asked.
Proof.
  assert (newest_request "/art" "r" (request_for asked_digest) (w_db asked)) as Hnew.
  { split; [apply (bool_decide_unpack _); by vm_compute|].
    exists (asked_digest +:+ ".json"), (mtime (default (mkFile "" 0) (file_at
      (generation_request_path (requests_dir (scope_control_dir "/art" "r")) asked_digest) (w_db asked)))), [].
    split_and!; [by vm_compute|by split_and!|]. eexists. split; by vm_compute. }
  split; [exact Hnew|].
  refine (answer_settles_wait "/art" sample_charter (patch_at "a") (request_for asked_digest)
    (approval_of asked_digest) scope_wait asked Hnew _ _ _ _ _ _ _); try by vm_compute.
  rewrite <- within_charter_spec. by vm_compute.
Defined.

(** A patch that grows while its request is pending is announced under its new
    digest, but no request for it is written: the operator can only answer the
    old one, which the gate then refuses as stale. *)
Example pending_request_unwritten :
  let gated head := enforce_gate "/art" "r" sample_charter (patch_at head) (evaluate (patch_at head) sample_charter) in
  let request head := generation_request_path (requests_dir (scope_control_dir "/art" "r"))
                        (measurement_digest (patch_at head)) in
  let '(r, w) := (gated "a";; gated "b") (start (no_files, new "/w" "r")) in
  r = Ok (Some StepOutcome.Wait) /\
  get (snd (w_db w)) "scope_measure_gate_outcome" = Some "pending_resolution" /\
  get (snd (w_db w)) "scope_measure_expansion_request_digest" = Some (measurement_digest (patch_at "b")) /\
  occupied (request "a") (fst (w_db w)) = true /\ occupied (request "b") (fst (w_db w)) = false.
Proof. by vm_compute. Qed.
End Examples.
