(* ===== verification/Templates.v ===== *)
(** Templates ([engine/executor.rs]): how the tokens of a step's parameters are
    replaced by the values of its context, which tokens a template declares, and
    the dry run that looks for the unresolved ones ([workflow/config_loader.rs]);
    the supplementary check of the values a shell may see
    ([engine/shell_safe_tokens.rs]).

    [interpolate_string] replaces one key after the other, the longest first, in
    the whole text; a [HashMap] yields its keys in any order, which is
    [HashOrder].  [pieces] is the reading of a template in one pass. *)
From S2P Require Import Prelude Text Digest Status Schema RunPaths StepContext ScopeCharter ScopeMeasurement.
From Stdlib Require Import Ascii.

(** ** Replacing *)

(** [str::replace] of a pattern that is not empty: matches are found from the
    left and do not overlap; [skip] bytes of the last match remain. *)
Fixpoint replace_from (skip : nat) (from to s : string) : string :=
  match s with
  | "" => ""
  | String c rest =>
      match skip with
      | S skip => replace_from skip from to rest
      | O =>
          if starts_with s from then to +:+ replace_from (String.length from - 1) from to rest
          else String c (replace_from 0 from to rest)
      end
  end.
Definition str_replace (from to s : string) : string := replace_from 0 from to s.

(** The order in which a [HashMap] yields its keys: each key once. *)
Class HashOrder := {
  keys_of {A} : gmap string A -> list string;
  keys_of_perm {A} (m : gmap string A) : keys_of m ≡ₚ (map_to_list m).*1
}.

Definition push_new (keys : list string) (key : string) : list string :=
  if bool_decide (key ∈ keys) then keys else keys ++ [key].

Definition braced (key : string) : string := "{" +:+ key +:+ "}".

Section Interpolation.
Context `{HashOrder}.

(** The keys of every namespace, beside the namespace's name. *)
Definition step_vars (ns : NamespacedVars) : list (string * string) :=
  keys_of ns ≫= fun step_id => pair step_id <$> keys_of (default ∅ (ns !! step_id)).

Definition all_keys (c : StepContext) : list string :=
  let keys := (fun kv => kv.1 +:+ "." +:+ kv.2) <$> step_vars (namespaced_vars c) in
  let keys := fold_left push_new (step_vars (namespaced_vars c)).*2 keys in
  let keys := fold_left push_new (keys_of (variables c)) keys in
  let keys := push_new (push_new keys "work_dir") "run_id" in
  if bool_decide ("issue_number" ∉ keys) && bool_decide (is_Some (get c "issue_number"))
  then keys ++ ["issue_number"] else keys.

(** [sort_by_key], a stable sort, by [Reverse(len)]. *)
Definition by_length (a b : string) : Prop := (String.length b <= String.length a)%nat.
Global Instance by_length_dec : RelDecision by_length.
Proof. intros a b. unfold by_length. apply _. Defined.

Definition replace_key (c : StepContext) (result key : string) : string :=
  match get c key with
  | Some value => str_replace (braced key) value result
  | None => result
  end.

Definition interpolate_string (template : string) (c : StepContext) : string :=
  fold_left (replace_key c) (merge_sort by_length (all_keys c)) template.

End Interpolation.

(** ** The tokens a template declares *)

Definition between_chars (lo hi : ascii) (c : ascii) : bool :=
  (nat_of_ascii lo <=? nat_of_ascii c)%nat && (nat_of_ascii c <=? nat_of_ascii hi)%nat.
Definition is_ascii_digit (c : ascii) : bool := between_chars "0" "9" c.
Definition is_ascii_uppercase (c : ascii) : bool := between_chars "A" "Z" c.
Definition is_ascii_alphabetic (c : ascii) : bool := is_ascii_uppercase c || between_chars "a" "z" c.
Definition is_ascii_alphanumeric (c : ascii) : bool := is_ascii_alphabetic c || is_ascii_digit c.

Definition ident_start (c : ascii) : bool := is_ascii_alphabetic c || Ascii.eqb c "_".
Definition ident_char (c : ascii) : bool := ident_start c || is_ascii_digit c.

#[global] Arguments ident_start : simpl never.
#[global] Arguments ident_char : simpl never.

(** The longest run of identifier characters, and what follows it. *)
Fixpoint ident_run (s : string) : string * string :=
  match s with
  | String c rest =>
      if ident_char c then let '(run, after) := ident_run rest in (String c run, after) else ("", s)
  | "" => ("", "")
  end.

(** [[A-Za-z_][A-Za-z0-9_]*] at the start of a text. *)
Definition identifier (s : string) : option (string * string) :=
  match s with
  | String c _ => if ident_start c then Some (ident_run s) else None
  | "" => None
  end.

(** What follows a brace matches the rest of the expression: the capture. *)
Definition token_at (s : string) : option string :=
  '(name, after) ← identifier s;
  match after with
  | String "}" _ => Some name
  | String "." rest =>
      '(field, after) ← identifier rest;
      match after with String "}" _ => Some (name +:+ "." +:+ field) | _ => None end
  | _ => None
  end.

(** The matches of the expression from the left, without overlap; one behind a
    [$] is consumed, and not reported. *)
Fixpoint tokens_from (after_dollar : bool) (skip : nat) (s : string) : list string :=
  match s with
  | "" => []
  | String c rest =>
      let dollar := Ascii.eqb c "$" in
      match skip with
      | S skip => tokens_from dollar skip rest
      | O =>
          match (if Ascii.eqb c "{" then token_at rest else None) with
          | Some name =>
              (if after_dollar then [] else [name]) ++ tokens_from dollar (S (String.length name)) rest
          | None => tokens_from dollar 0 rest
          end
      end
  end.
Definition extract_tokens (template : string) : list string := tokens_from false 0 template.

(** ** The dry run *)

Record UnresolvedToken := mkUnresolved {
  ut_step_id : string;
  parameter_path : string;
  token_name : string
}.

Definition token_is_resolvable (token : string) (available : gset string) : bool :=
  bool_decide (token ∈ available).

(** [serde_json]'s objects iterate in the order of their keys. *)
Definition key_le {A} (a b : string * A) : Prop := String.le a.1 b.1.
#[export] Instance key_le_dec {A} : RelDecision (@key_le A) := fun a b => _.

Fixpoint collect_unresolved_in_value (step_id : string) (available : gset string) (path : string)
    (value : Json) : list UnresolvedToken :=
  match value with
  | JString s =>
      mkUnresolved step_id path <$>
        List.filter (fun token => negb (token_is_resolvable token available)) (extract_tokens s)
  | JArray items =>
      let fix collect_items (idx : nat) (items : list Json) :=
        match items with
        | [] => []
        | item :: rest =>
            collect_unresolved_in_value step_id available (path +:+ "[" +:+ pretty idx +:+ "]") item
            ++ collect_items (S idx) rest
        end in
      collect_items 0 items
  | JObject map =>
      merge_sort key_le
        (map_fold (fun key item found =>
           (key, if key =?s "context_map" then []
                 else collect_unresolved_in_value step_id available (path +:+ "." +:+ key) item) :: found)
           [] map) ≫= snd
  | _ => []
  end.

Definition validate_step_tokens (step : StepDef) (available : gset string) : list UnresolvedToken :=
  match sd_parameters step with
  | Some params => collect_unresolved_in_value (sd_step_id step) available "parameters" params
  | None => []
  end.

(** ** Shell-safe tokens *)

Definition SHELL_SAFE_NUMERIC_TOKENS : list string := ["issue_number"; "primary_issue_number"].
Definition SHELL_SAFE_REFNAME_TOKENS : list string := ["base_branch"].
Definition SHELL_SAFE_PATH_TOKENS : list string := ["artifact_dir"; "work_dir"].

(** [{:?}] of a character and of a string. *)
Class TextDebug := { char_debug : string -> string; string_debug : string -> string }.

(** [str::chars]: each character as its bytes. *)
Fixpoint chars (s : string) : list string :=
  match s with
  | "" => []
  | String b rest =>
      match chars rest with
      | ch :: chs =>
          if from_option continuation false (String.get 0 rest) then String b ch :: chs
          else String b "" :: ch :: chs
      | [] => [String b ""]
      end
  end.

(** A predicate of ASCII characters, at a character. *)
Definition ascii_and (p : ascii -> bool) (ch : string) : bool :=
  match ch with String c "" => p c | _ => false end.

Definition is_safe_refname_char : string -> bool :=
  ascii_and (fun c => is_ascii_alphanumeric c || existsb (Ascii.eqb c) ["-"; "_"; "."; "/"]%char).

Definition SHELL_METACHARACTERS : list ascii :=
  [";"; "|"; "&"; "$"; "`"; "<"; ">"; "{"; "}"; "("; ")"; "'"; "034"; "\"; "010"; "013"; "009"; " ";
   "*"; "?"; "["; "]"; "!"; "^"; "~"]%char.
Definition is_shell_metacharacter : string -> bool :=
  ascii_and (fun c => existsb (Ascii.eqb c) SHELL_METACHARACTERS).

Section ShellSafe.
Context `{TextDebug}.

(** The loop of the three validators: the first character that is not [safe]. *)
Definition validate_token (what : string) (safe : string -> bool) (token value : string) : Res string unit :=
  if str_is_empty value
  then Err ("shell-safe token '" +:+ token +:+ "' is empty; refusing to interpolate")
  else
    match List.find (fun ch => negb (safe ch)) (chars value) with
    | Some ch => Err ("shell-safe token '" +:+ token +:+ "' contains " +:+ what +:+ " " +:+ char_debug ch
                      +:+ " (value: " +:+ string_debug value
                      +:+ "); refusing to interpolate into shell command")
    | None => Ok tt
    end.

Definition validate_numeric_token : string -> string -> Res string unit :=
  validate_token "non-digit character" (ascii_and is_ascii_digit).
Definition validate_refname_token : string -> string -> Res string unit :=
  validate_token "unsafe refname character" is_safe_refname_char.
Definition validate_path_token : string -> string -> Res string unit :=
  validate_token "shell metacharacter" (fun ch => negb (is_shell_metacharacter ch)).

Fixpoint validate_present (validate : string -> string -> Res string unit) (c : StepContext)
    (tokens : list string) : Res string unit :=
  match tokens with
  | [] => Ok tt
  | token :: rest =>
      match get c token with
      | Some value => validate token value;; validate_present validate c rest
      | None => validate_present validate c rest
      end
  end.

Definition validate_shell_safe_tokens (c : StepContext) : Res string unit :=
  validate_present validate_numeric_token c SHELL_SAFE_NUMERIC_TOKENS;;
  validate_present validate_refname_token c SHELL_SAFE_REFNAME_TOKENS;;
  validate_present validate_path_token c SHELL_SAFE_PATH_TOKENS.

End ShellSafe.

(** ** A template read in one pass *)

(** The text before each token with the token, and the text behind the last;
    [split_once] is [find] and the two slices. *)
Fixpoint pieces_fuel (fuel : nat) (s : string) : list (string * string) * string :=
  match fuel with
  | O => ([], s)
  | S fuel =>
      match split_once "{" s with
      | None => ([], s)
      | Some (prefix, token) =>
          match split_once "}" token with
          | None => ([], s)
          | Some (key, rest) =>
              let '(found, tail) := pieces_fuel fuel rest in ((prefix, key) :: found, tail)
          end
      end
  end.
Definition pieces (s : string) : list (string * string) * string := pieces_fuel (String.length s) s.

(** What a token stands for: its value, or itself. *)
Definition token_value (c : StepContext) (key : string) : string := default (braced key) (get c key).

Definition fill (value : string -> string) (t : list (string * string) * string) : string :=
  foldr (fun p rest => p.1 +:+ value p.2 +:+ rest) t.2 t.1.

Definition interpolate_once (template : string) (c : StepContext) : string :=
  fill (token_value c) (pieces template).

(** No brace opens inside a token. *)
Fixpoint unnested_from (open : bool) (s : string) : bool :=
  match s with
  | "" => true
  | String c rest =>
      if Ascii.eqb c "{" then negb open && unnested_from true rest
      else unnested_from (open && negb (Ascii.eqb c "}")) rest
  end.
Definition unnested (s : string) : bool := unnested_from false s.

Definition plain (s : string) : bool := negb (has_char "{" s || has_char "}" s).

(** ** Texts and pieces *)

Lemma split_once_None c s : split_once c s = None <-> has_char c s = false.
Proof.
  induction s as [|d s IH]; cbn; [done|]. case_decide as Hd; cbn.
  - split; [done|]. rewrite orb_false_iff, bool_decide_eq_false. naive_solver.
  - rewrite orb_false_iff, bool_decide_eq_false, <- IH. destruct (split_once c s) as [[]|]; naive_solver.
Qed.

Lemma split_once_Some c s before after :
  split_once c s = Some (before, after) <-> s = before +:+ String c after /\ has_char c before = false.
Proof.
  split.
  - revert before. induction s as [|d s IH]; cbn; intros before; [done|]. case_decide as Hd.
    { intros [= <- <-]. by subst. }
    destruct (split_once c s) as [[b a]|]; cbn; [|done]. intros [= <- <-].
    destruct (IH b eq_refl) as [-> Hb]. split; [done|]. cbn. rewrite Hb, orb_false_r. by apply bool_decide_eq_false.
  - intros [-> Hb]. by apply split_once_at.
Qed.

Lemma length_app_str (a b : string) : String.length (a +:+ b) = (String.length a + String.length b)%nat.
Proof. induction a as [|c a IH]; cbn; [done|]. by rewrite <- IH. Qed.

Lemma str_app_cons c (a b : string) : String c a +:+ b = String c (a +:+ b).
Proof. reflexivity. Qed.

Lemma strip_prefix_Some p s r : strip_prefix p s = Some r <-> s = p +:+ r.
Proof.
  revert s. induction p as [|c p IH]; intros s; cbn; [split; [by intros [= ->]|by intros ->]|].
  destruct s as [|d s]; [done|]. case_decide as Hc; [subst|split; [done|intros [= ? _]; congruence]].
  rewrite IH. split; [by intros ->|by intros [= ->]].
Qed.

Lemma starts_with_true s p : starts_with s p = true <-> exists r, s = p +:+ r.
Proof.
  unfold starts_with. rewrite bool_decide_eq_true. split.
  - intros [r Hr%strip_prefix_Some]. by exists r.
  - intros [r Hr%strip_prefix_Some]. by exists r.
Qed.

(** The first occurrence of a character cuts a text in one way. *)
Lemma cut_eq c a b s t :
  has_char c a = false -> has_char c b = false ->
  a +:+ String c s = b +:+ String c t -> a = b /\ s = t.
Proof.
  intros Ha Hb Heq. pose proof (split_once_at c a s Ha) as H1.
  rewrite Heq, split_once_at in H1 by done. by simplify_eq.
Qed.

Lemma braced_app key s : braced key +:+ s = String "{" (key +:+ String "}" s).
Proof. unfold braced. rewrite !append_assoc_str. reflexivity. Qed.

Lemma braced_prefix key k s :
  has_char "}" key = false -> has_char "}" k = false ->
  starts_with (braced k +:+ s) (braced key) = bool_decide (k = key).
Proof.
  intros Hkey Hk. rewrite braced_app. case_bool_decide as Heq.
  - apply starts_with_true. exists s. by rewrite braced_app, Heq.
  - apply not_true_is_false. intros [r Hr]%starts_with_true. rewrite braced_app in Hr.
    injection Hr as Hr. apply cut_eq in Hr as [? _]; done.
Qed.

Section Replacing.
Variables (key v : string).
Hypothesis Hkey : has_char "}" key = false.
Abbreviation replace := (replace_from 0 (braced key) v).

Lemma replace_skip n a s :
  n = String.length a -> replace_from n (braced key) v (a +:+ s) = replace s.
Proof. intros ->. induction a as [|c a IH]; [done|]. apply IH. Qed.

Lemma replace_text a s : has_char "{" a = false -> replace (a +:+ s) = a +:+ replace s.
Proof.
  induction a as [|c a IH]; [done|]. cbn [has_char]. intros [Hc%bool_decide_eq_false Ha]%orb_false_iff.
  rewrite !str_app_cons. cbn [replace_from].
  assert (starts_with (String c (a +:+ s)) (braced key) = false) as ->; [|by rewrite IH].
  apply not_true_is_false. intros [r Hr]%starts_with_true. rewrite braced_app in Hr. congruence.
Qed.

Lemma replace_token s : replace (braced key +:+ s) = v +:+ replace s.
Proof.
  pose proof (braced_prefix key key s Hkey Hkey) as Hp. rewrite bool_decide_true in Hp by done.
  rewrite braced_app in *. cbn [replace_from]. rewrite Hp. f_equal.
  change (String "}" s) with ("}" +:+ s). rewrite <- append_assoc_str.
  apply replace_skip. unfold braced. rewrite !length_app_str. cbn. lia.
Qed.

Lemma replace_other k s :
  plain k = true -> k <> key -> replace (braced k +:+ s) = braced k +:+ replace s.
Proof.
  unfold plain. intros [Ho Hc]%negb_true_iff%orb_false_iff Hne.
  pose proof (braced_prefix key k s Hkey Hc) as Hp. rewrite bool_decide_false in Hp by done.
  rewrite !braced_app in *. cbn [replace_from]. rewrite Hp. f_equal.
  change (String "}" s) with ("}" +:+ s). rewrite <- append_assoc_str, replace_text.
  - by rewrite append_assoc_str.
  - by rewrite has_char_app, Ho.
Qed.

(** A brace that never closes. *)
Definition open_tail (s : string) : bool :=
  match split_once "{" s with Some (_, rest) => plain rest | None => true end.

Lemma replace_tail s : open_tail s = true -> replace s = s.
Proof.
  unfold open_tail. destruct (split_once "{" s) as [[a b]|] eqn:Es.
  - apply split_once_Some in Es as [-> Ha]. unfold plain. intros [Ho Hc]%negb_true_iff%orb_false_iff.
    rewrite replace_text by done. f_equal. cbn [replace_from].
    assert (starts_with (String "{" b) (braced key) = false) as ->.
    + apply not_true_is_false. intros [r Hr]%starts_with_true. rewrite braced_app in Hr.
      injection Hr as ->. rewrite has_char_app in Hc. cbn in Hc. rewrite orb_true_r in Hc. done.
    + f_equal. rewrite <- (append_nil_r b) at 1. rewrite replace_text by done. apply append_nil_r.
  - intros _. apply split_once_None in Es. rewrite <- (append_nil_r s) at 1.
    rewrite replace_text by done. apply append_nil_r.
Qed.

End Replacing.

(** ** The one-pass reading *)

Lemma pieces_fuel_enough n m s :
  (String.length s <= n)%nat -> (String.length s <= m)%nat -> pieces_fuel n s = pieces_fuel m s.
Proof.
  revert m s. induction n as [|n IH]; intros m s Hn Hm.
  { destruct s as [|c s]; [|cbn in Hn; lia]. by destruct m. }
  destruct m as [|m]; [by destruct s as [|c s]; [|cbn in Hm; lia]|].
  cbn [pieces_fuel]. destruct (split_once "{" s) as [[prefix token]|] eqn:Es; [|done].
  destruct (split_once "}" token) as [[key rest]|] eqn:Et; [|done].
  apply split_once_Some in Es as [-> _], Et as [-> _].
  rewrite length_app_str in *. cbn in Hn, Hm. rewrite length_app_str in *. cbn in Hn, Hm.
  rewrite (IH m rest) by lia. done.
Qed.

(** The reading of a text: by cases on its first token. *)
Lemma pieces_unfold s :
  pieces s =
  match split_once "{" s with
  | Some (prefix, token) =>
      match split_once "}" token with
      | Some (key, rest) => ((prefix, key) :: (pieces rest).1, (pieces rest).2)
      | None => ([], s)
      end
  | None => ([], s)
  end.
Proof.
  unfold pieces at 1. rewrite (pieces_fuel_enough _ (S (String.length s))) by lia. cbn [pieces_fuel].
  destruct (split_once "{" s) as [[prefix token]|] eqn:Es; [|done].
  destruct (split_once "}" token) as [[key rest]|] eqn:Et; [|done].
  apply split_once_Some in Es as [-> _], Et as [-> _].
  rewrite (pieces_fuel_enough _ (String.length rest)).
  - change (pieces_fuel (String.length rest) rest) with (pieces rest). by destruct (pieces rest).
  - rewrite length_app_str. cbn. rewrite length_app_str. cbn. lia.
  - done.
Qed.

(** Every token of a text is shorter than it: induction along the reading. *)
Lemma pieces_ind (P : string -> list (string * string) * string -> Prop) :
  (forall s, (forall a b, s = a +:+ String "{" b -> has_char "{" a = false -> has_char "}" b = false) ->
     P s ([], s)) ->
  (forall prefix key rest t, has_char "{" prefix = false -> has_char "}" key = false -> P rest t ->
     P (prefix +:+ braced key +:+ rest) ((prefix, key) :: t.1, t.2)) ->
  forall s, P s (pieces s).
Proof.
  intros Hnil Hcons s. induction s as [s IH] using (induction_ltof1 _ String.length). unfold ltof in IH.
  rewrite pieces_unfold. destruct (split_once "{" s) as [[prefix token]|] eqn:Es.
  - apply split_once_Some in Es as [-> Hp].
    destruct (split_once "}" token) as [[key rest]|] eqn:Et.
    + apply split_once_Some in Et as [-> Hk]. rewrite <- braced_app. apply Hcons; [done..|]. apply IH.
      rewrite !length_app_str. cbn. rewrite length_app_str. cbn. lia.
    + apply split_once_None in Et. apply Hnil. intros a b Heq Ha. by apply cut_eq in Heq as [_ <-].
  - apply split_once_None in Es. apply Hnil. intros a b -> _. rewrite has_char_app in Es. cbn in Es.
    by rewrite orb_true_r in Es.
Qed.

(** Nothing is lost: with every token standing for itself the text is back. *)
Lemma fill_pieces s : fill braced (pieces s) = s.
Proof.
  apply (pieces_ind (fun s t => fill braced t = s)); [done|].
  intros prefix key rest [found tail] _ _ <-. reflexivity.
Qed.

Lemma unnested_text a s : has_char "{" a = false -> unnested_from false (a +:+ s) = unnested_from false s.
Proof.
  induction a as [|c a IH]; [done|]. cbn [has_char]. intros [Hc%bool_decide_eq_false Ha]%orb_false_iff.
  rewrite str_app_cons. cbn [unnested_from].
  destruct (Ascii.eqb_spec c "{"); [done|]. cbn [andb]. by rewrite IH.
Qed.

Lemma unnested_inside key s :
  has_char "}" key = false ->
  unnested_from true (key +:+ String "}" s) = negb (has_char "{" key) && unnested_from false s.
Proof.
  induction key as [|c key IH]; [done|]. cbn [has_char]. intros [Hc%bool_decide_eq_false Hk]%orb_false_iff.
  rewrite str_app_cons. cbn [unnested_from].
  destruct (Ascii.eqb_spec c "{") as [->|Hne]; [done|]. rewrite bool_decide_false by done.
  destruct (Ascii.eqb_spec c "}"); [done|]. cbn. by apply IH.
Qed.

Lemma unnested_open b : has_char "}" b = false -> unnested_from true b = negb (has_char "{" b).
Proof.
  induction b as [|c b IH]; [done|]. cbn [has_char]. intros [Hc%bool_decide_eq_false Hb]%orb_false_iff.
  cbn [unnested_from]. destruct (Ascii.eqb_spec c "{") as [->|Hne]; [done|].
  rewrite bool_decide_false by done. destruct (Ascii.eqb_spec c "}"); [done|]. by apply IH.
Qed.

(** The reading of an unnested text: plain tokens, and no token in what is left. *)
Definition plain_pieces (t : list (string * string) * string) : Prop :=
  Forall (fun p => has_char "{" p.1 = false /\ plain p.2 = true) t.1 /\ open_tail t.2 = true.

Lemma pieces_plain s : unnested s = true -> plain_pieces (pieces s).
Proof.
  apply (pieces_ind (fun s t => unnested s = true -> plain_pieces t)).
  - intros s' Hs Hu. split; [constructor|]. cbn. unfold open_tail.
    destruct (split_once "{" s') as [[a b]|] eqn:Es; [|done].
    apply split_once_Some in Es as [-> Ha]. pose proof (Hs a b eq_refl Ha) as Hb.
    unfold unnested in Hu. rewrite unnested_text in Hu by done. cbn in Hu.
    rewrite unnested_open in Hu by done. unfold plain. by rewrite Hb, orb_false_r.
  - intros prefix key rest [found tail] Hp Hk IH Hu. unfold unnested in Hu.
    rewrite unnested_text, braced_app in Hu by done. cbn in Hu. rewrite unnested_inside in Hu by done.
    apply andb_true_iff in Hu as [Hkey [Hall Ht]%IH]. split; [|done]. constructor; [|done].
    split; [done|]. unfold plain. cbn. by rewrite Hk, orb_false_r.
Qed.

(** Replacing one key in a text whose other tokens stand for themselves or for
    text without an opening brace. *)
Lemma replace_fill key v f g t :
  plain_pieces t -> has_char "}" key = false ->
  (forall p, p ∈ t.1 -> (f p.2 = braced p.2 /\ g p.2 = if decide (p.2 = key) then v else braced p.2) \/
                        (has_char "{" (f p.2) = false /\ g p.2 = f p.2)) ->
  str_replace (braced key) v (fill f t) = fill g t.
Proof.
  destruct t as [found tail]. intros [Hall Htail] Hkey Hval. unfold str_replace, fill. cbn in *.
  induction Hall as [|[prefix k] found [Hp Hk] Hall IH]; cbn in *; [by apply replace_tail|].
  rewrite replace_text by done. f_equal.
  rewrite <- IH by (intros p Hin; apply Hval; by constructor).
  destruct (Hval (prefix, k) ltac:(by left)) as [[Hf Hg]|[Hf Hg]]; cbn in *; rewrite Hg.
  - rewrite Hf. case_decide as Heq; [subst; by apply replace_token|by apply replace_other].
  - by apply replace_text.
Qed.

(** ** Every key that has a value is replaced *)

Lemma split_dot_Some s a b : split_dot s = Some (a, b) -> s = a +:+ "." +:+ b.
Proof.
  revert a. induction s as [|c s IH]; cbn; [done|]. intros a. destruct (Ascii.eqb_spec c ".") as [->|Hc].
  { by intros [= <- <-]. }
  destruct (split_dot s) as [[a' b']|]; cbn; [|done]. intros [= <- <-]. by rewrite (IH _ eq_refl).
Qed.

Lemma elem_of_fold_push l keys k : k ∈ fold_left push_new l keys <-> k ∈ keys \/ k ∈ l.
Proof.
  revert keys. induction l as [|x l IH]; intros keys; cbn [fold_left]; [set_solver|].
  rewrite IH. unfold push_new. case_bool_decide; set_solver.
Qed.

Lemma find_recent_in ns key order v :
  find_recent ns key order = Some v -> exists step_id, ns !! step_id ≫= lookup key = Some v.
Proof.
  induction order as [|step_id order IH]; cbn; [done|].
  destruct (ns !! step_id ≫= lookup key) eqn:E; [|done]. intros [= <-]. by exists step_id.
Qed.

Section Keys.
Context `{HashOrder}.

Lemma elem_of_keys {A} (m : gmap string A) k : k ∈ keys_of m <-> is_Some (m !! k).
Proof.
  rewrite keys_of_perm, list_elem_of_fmap. split.
  - intros ([k' v] & -> & Hv%elem_of_map_to_list). by exists v.
  - intros [v Hv]. exists (k, v). split; [done|]. by apply elem_of_map_to_list.
Qed.

Lemma elem_of_step_vars ns step_id key :
  (step_id, key) ∈ step_vars ns <-> is_Some (ns !! step_id ≫= lookup key).
Proof.
  unfold step_vars. rewrite list_elem_of_bind. split.
  - intros (s & Hkey & _). apply list_elem_of_fmap in Hkey as (x & [= -> ->] & Hx%elem_of_keys).
    by destruct (ns !! s).
  - intros Hv. exists step_id. destruct (ns !! step_id) as [vars|] eqn:E; [|by destruct Hv].
    split; [|apply elem_of_keys; by rewrite E]. apply list_elem_of_fmap. exists key. split; [done|].
    by apply elem_of_keys.
Qed.

Lemma elem_of_push_new keys k x : k ∈ push_new keys x <-> k ∈ keys \/ k = x.
Proof. unfold push_new. case_bool_decide; set_solver. Qed.

Lemma get_direct_key c k v :
  get_direct c k = Some v ->
  (exists step_id x, (step_id, x) ∈ step_vars (namespaced_vars c) /\ (k = step_id +:+ "." +:+ x \/ k = x)) \/
  k ∈ keys_of (variables c).
Proof.
  assert (Hns : forall s x w, namespaced_vars c !! s ≫= lookup x = Some w ->
                (s, x) ∈ step_vars (namespaced_vars c)).
  { intros s x w Hw. apply elem_of_step_vars. by rewrite Hw. }
  unfold get_direct. destruct (split_dot k) as [[step_id x]|] eqn:Ed.
  { intros Hv%Hns. apply split_dot_Some in Ed as ->. left. eauto. }
  destruct (find_recent _ k _) as [w|] eqn:Ef.
  { intros _. apply find_recent_in in Ef as (s & Hs%Hns). left. eauto. }
  destruct (namespaced_vars c !! "config" ≫= lookup k) as [w|] eqn:Ec.
  { intros _. apply Hns in Ec. left. eauto. }
  intros Hv. right. apply elem_of_keys. by rewrite Hv.
Qed.

Lemma all_keys_complete c k v : get c k = Some v -> k ∈ all_keys c.
Proof.
  intros Hget. unfold all_keys.
  set (keys := push_new (push_new _ "work_dir") "run_id").
  assert (Hdirect : forall w, get_direct c k = Some w -> k ∈ keys).
  { intros w [(s & x & Hin & Hk)|Hin]%get_direct_key; unfold keys;
      rewrite !elem_of_push_new, !elem_of_fold_push; [|tauto].
    destruct Hk as [->| ->].
    - left. left. left. left. by apply (list_elem_of_fmap_2 (fun kv => kv.1 +:+ "." +:+ kv.2) _ (s, x)).
    - left. left. left. right. by apply (list_elem_of_fmap_2 snd _ (s, x)). }
  assert (k ∈ keys \/ (k = "issue_number" /\ is_Some (get c "issue_number"))) as Hk.
  { pose proof Hget as Hget'. unfold get in Hget'. destruct (get_direct c k) as [w|]; [by left; apply (Hdirect w)|].
    case_bool_decide; [subst; by right|done]. }
  case_match eqn:E; [set_solver|]. destruct Hk as [|[-> Hs]]; [done|].
  rewrite (bool_decide_true (is_Some _)), andb_true_r in E by done. apply bool_decide_eq_false in E.
  by apply dec_stable.
Qed.

End Keys.

(** ** Interpolation is one pass, when values open no brace *)

Lemma fill_ext f g t : (forall p, p ∈ t.1 -> f p.2 = g p.2) -> fill f t = fill g t.
Proof.
  destruct t as [found tail]. unfold fill. cbn. induction found as [|p found IH]; intros Hfg; [done|]. cbn.
  rewrite (Hfg p), IH by (intros; set_solver). done.
Qed.

(** The values of the keys replaced so far. *)
Definition partial_value (c : StepContext) (done : list string) (key : string) : string :=
  if decide (key ∈ done) then token_value c key else braced key.

Lemma replace_keys c keys t processed :
  plain_pieces t ->
  (forall k v, get c k = Some v -> has_char "}" k = false) ->
  (forall p v, p ∈ t.1 -> get c p.2 = Some v -> has_char "{" v = false) ->
  fold_left (replace_key c) keys (fill (partial_value c processed) t) =
  fill (partial_value c (processed ++ keys)) t.
Proof.
  intros Ht Hkeys Hvals. revert processed. induction keys as [|k keys IH]; intros processed; cbn [fold_left].
  { by rewrite app_nil_r. }
  rewrite (cons_middle k), app_assoc, <- IH. f_equal. unfold replace_key, partial_value.
  destruct (get c k) as [v|] eqn:Ek.
  - apply replace_fill; [done|by eapply Hkeys|]. intros p Hp.
    destruct (decide (p.2 ∈ processed)) as [Hin|Hin]; [destruct (get c p.2) as [w|] eqn:Ep|].
    + right. unfold token_value. rewrite Ep. split; [by eapply Hvals|].
      by rewrite decide_True by set_solver.
    + left. unfold token_value. rewrite Ep. split; [done|].
      rewrite decide_True by set_solver. rewrite decide_False by congruence. done.
    + left. split; [done|]. destruct (decide (p.2 = k)) as [->|Hne].
      * rewrite decide_True by set_solver. unfold token_value. by rewrite Ek.
      * by rewrite decide_False by set_solver.
  - apply fill_ext. intros p _. unfold token_value. repeat case_decide; try done; [set_solver|].
    assert (p.2 = k) as -> by set_solver. by rewrite Ek.
Qed.


(** ** The declared tokens *)

Fixpoint all_chars (p : ascii -> bool) (s : string) : bool :=
  match s with "" => true | String c rest => p c && all_chars p rest end.
Definition ident (s : string) : bool :=
  match s with "" => false | String c _ => ident_start c && all_chars ident_char s end.
(** An identifier, or two around a dot. *)
Definition token_shaped (s : string) : bool :=
  match split_once "." s with
  | None => ident s
  | Some (name, field) => ident name && ident field
  end.

(** A text that does not start with an identifier character. *)
Definition ident_ends (s : string) : bool :=
  match s with "" => true | String c _ => negb (ident_char c) end.

Lemma ident_run_spec s run after :
  ident_run s = (run, after) <-> s = run +:+ after /\ all_chars ident_char run = true /\ ident_ends after = true.
Proof.
  split.
  - revert run. induction s as [|c s IH]; cbn; intros run; [by intros [= <- <-]|].
    destruct (ident_char c) eqn:Ec; [|intros [= <- <-]; cbn; by rewrite Ec].
    destruct (ident_run s) as [r a]. intros [= <- <-]. destruct (IH r eq_refl) as (-> & Hr & Ha). cbn.
    by rewrite Ec.
  - intros (-> & Hr & Ha). induction run as [|c run IH]; cbn in *.
    + destruct after as [|c after]; [done|]. cbn in *. apply negb_true_iff in Ha.
      change ("" +:+ String c after) with (String c after). cbn. by rewrite Ha.
    + apply andb_true_iff in Hr as [Hc Hr]. rewrite str_app_cons. cbn. by rewrite Hc, (IH Hr).
Qed.

Lemma ident_start_char c : ident_start c = true -> ident_char c = true.
Proof. unfold ident_char. by intros ->. Qed.

Lemma identifier_spec s run after :
  identifier s = Some (run, after) <-> s = run +:+ after /\ ident run = true /\ ident_ends after = true.
Proof.
  split.
  - destruct s as [|c s]; [done|]. unfold identifier. destruct (ident_start c) eqn:Ec; [|done].
    intros [= Hr]. apply (ident_run_spec (String c s)) in Hr as (Heq & Hrun & Ha). split; [done|]. split; [|done].
    destruct run as [|d run].
    + change ("" +:+ after) with after in Heq. subst after. cbn [ident_ends] in Ha. by rewrite (ident_start_char c) in Ha.
    + rewrite str_app_cons in Heq. injection Heq as -> _. cbn [ident]. by rewrite Ec.
  - intros (-> & Hi & Ha). destruct run as [|c run]; [done|]. cbn in Hi.
    apply andb_true_iff in Hi as [Hc Hi]. rewrite str_app_cons. cbn [identifier]. rewrite Hc. f_equal.
    apply (ident_run_spec (String c (run +:+ after))). by rewrite str_app_cons.
Qed.

Lemma all_chars_no p c s : p c = false -> all_chars p s = true -> has_char c s = false.
Proof.
  intros Hc. induction s as [|d s IH]; cbn; [done|]. intros [Hd Hs]%andb_true_iff.
  rewrite IH, orb_false_r by done. apply bool_decide_eq_false. congruence.
Qed.

Lemma ident_no c s : ident_char c = false -> ident s = true -> has_char c s = false.
Proof.
  intros Hc. destruct s as [|d s]; [done|]. intros [_ Hs]%andb_true_iff. by eapply all_chars_no.
Qed.

Lemma ident_ends_stop c s : ident_char c = false -> ident_ends (String c s) = true.
Proof. cbn [ident_ends]. by intros ->. Qed.

Lemma identifier_at c name s :
  ident_char c = false -> ident name = true -> identifier (name +:+ String c s) = Some (name, String c s).
Proof. intros Hc Hn. apply identifier_spec. by rewrite ident_ends_stop. Qed.

Lemma token_shaped_one name : ident name = true -> token_shaped name = true.
Proof.
  intros Hn. unfold token_shaped. assert (split_once "." name = None) as -> by (apply split_once_None; by apply ident_no).
  done.
Qed.

Lemma token_shaped_two name field :
  ident name = true -> token_shaped (name +:+ String "." field) = ident field.
Proof. intros Hn. unfold token_shaped. rewrite split_once_at by (by apply ident_no). by rewrite Hn. Qed.

(** The shapes of a token, without the order of the tests. *)
Lemma token_shaped_cases name :
  token_shaped name = true <->
  ident name = true \/ exists step field, name = step +:+ String "." field /\ ident step = true /\ ident field = true.
Proof.
  split.
  - unfold token_shaped. destruct (split_once "." name) as [[step field]|] eqn:E; [|by left].
    apply split_once_Some in E as [-> _]. intros [? ?]%andb_true_iff. right. eauto.
  - intros [Hn|(step & field & -> & Hs & Hf)]; [by apply token_shaped_one|by rewrite token_shaped_two].
Qed.

Lemma token_at_found name s : token_shaped name = true -> token_at (name +:+ String "}" s) = Some name.
Proof.
  unfold token_at. intros [Hn|(step & field & -> & Hs & Hf)]%token_shaped_cases.
  - by rewrite identifier_at.
  - rewrite append_assoc_str, str_app_cons, identifier_at by done. cbn. by rewrite identifier_at.
Qed.

Lemma token_at_Some s name :
  token_at s = Some name -> token_shaped name = true /\ exists rest, s = name +:+ String "}" rest.
Proof.
  unfold token_at. destruct (identifier s) as [[run after]|] eqn:Ei; [|done]. cbn.
  apply identifier_spec in Ei as (-> & Hi & _). destruct after as [|c after]; [done|].
  destruct (Ascii.eqb_spec c "}") as [->|Hbrace].
  { intros [= <-]. split; [by apply token_shaped_one|by eexists]. }
  destruct (Ascii.eqb_spec c ".") as [->|Hdot]; [|by destruct c as [[] [] [] [] [] [] [] []]].
  destruct (identifier after) as [[field rest]|] eqn:Ef; [|done]. cbn.
  apply identifier_spec in Ef as (-> & Hf & _). destruct rest as [|d rest]; [done|].
  destruct (Ascii.eqb_spec d "}") as [->|Hd]; [|by destruct d as [[] [] [] [] [] [] [] []]].
  intros [= <-]. change ("." +:+ field) with (String "." field). split; [by rewrite token_shaped_two|].
  exists rest. by rewrite append_assoc_str.
Qed.

(** Behind a plain key and its closing brace: exactly the keys of a token's shape. *)
Lemma token_at_key key s :
  has_char "}" key = false ->
  token_at (key +:+ String "}" s) = if token_shaped key then Some key else None.
Proof.
  intros Hk. destruct (token_shaped key) eqn:Es; [by apply token_at_found|].
  destruct (token_at (key +:+ String "}" s)) as [name|] eqn:Et; [|done].
  apply token_at_Some in Et as (Hn & rest & Heq). apply cut_eq in Heq as [<- _]; [congruence|done|].
  apply token_shaped_cases in Hn as [Hn|(step & field & -> & Hs & Hf)]; [by apply ident_no|].
  rewrite has_char_app. cbn. by rewrite !(ident_no "}").
Qed.

(** Whether the text read so far ends in a dollar. *)
Definition dollar_after (before : bool) (s : string) : bool :=
  from_option (Ascii.eqb "$") before (last_char s).
#[global] Arguments dollar_after : simpl never.

Lemma dollar_after_cons before c s : dollar_after before (String c s) = dollar_after (Ascii.eqb c "$") s.
Proof.
  unfold dollar_after. destruct s as [|d s]; [apply (Ascii.eqb_sym "$" c)|].
  change (last_char (String c (String d s))) with (last_char (String d s)).
  by destruct (last_char (String d s)) eqn:E; [|apply last_char_none in E].
Qed.

Lemma tokens_skip before n a s :
  n = String.length a -> tokens_from before n (a +:+ s) = tokens_from (dollar_after before a) 0 s.
Proof.
  intros ->. revert before. induction a as [|c a IH]; intros before; [done|].
  rewrite str_app_cons, dollar_after_cons. apply IH.
Qed.

Lemma tokens_text before a s :
  has_char "{" a = false -> tokens_from before 0 (a +:+ s) = tokens_from (dollar_after before a) 0 s.
Proof.
  revert before. induction a as [|c a IH]; intros before; [done|]. cbn [has_char].
  intros [Hc%bool_decide_eq_false Ha]%orb_false_iff. rewrite str_app_cons, dollar_after_cons. cbn [tokens_from].
  destruct (Ascii.eqb_spec c "{"); [done|]. by apply IH.
Qed.

Lemma dollar_after_brace before a : dollar_after before (a +:+ "}") = false.
Proof.
  revert before. induction a as [|c a IH]; intros before; [done|]. by rewrite str_app_cons, dollar_after_cons.
Qed.

Lemma tokens_brace before s :
  tokens_from before 0 (String "{" s) =
  match token_at s with
  | Some name => (if before then [] else [name]) ++ tokens_from false (S (String.length name)) s
  | None => tokens_from false 0 s
  end.
Proof. reflexivity. Qed.

Lemma tokens_token before key s :
  plain key = true ->
  tokens_from before 0 (braced key +:+ s) =
  (if token_shaped key && negb before then [key] else []) ++ tokens_from false 0 s.
Proof.
  unfold plain. intros [Ho Hc]%negb_true_iff%orb_false_iff.
  rewrite braced_app, tokens_brace, token_at_key by done.
  change (String "}" s) with ("}" +:+ s). rewrite <- append_assoc_str. destruct (token_shaped key).
  - rewrite tokens_skip by (rewrite length_app_str; cbn; lia). rewrite dollar_after_brace. by destruct before.
  - rewrite tokens_text by (by rewrite has_char_app, Ho). by rewrite dollar_after_brace.
Qed.

Lemma tokens_tail before s : open_tail s = true -> tokens_from before 0 s = [].
Proof.
  assert (Hplain : forall before a, has_char "{" a = false -> tokens_from before 0 a = []).
  { intros b a Ha. rewrite <- (append_nil_r a), tokens_text by done. reflexivity. }
  unfold open_tail. destruct (split_once "{" s) as [[a b]|] eqn:Es.
  - apply split_once_Some in Es as [-> Ha]. unfold plain. intros [Ho Hc]%negb_true_iff%orb_false_iff.
    rewrite tokens_text, tokens_brace by done. destruct (token_at b) as [name|] eqn:Et; [|by apply Hplain].
    apply token_at_Some in Et as (_ & rest & ->). rewrite has_char_app in Hc. cbn in Hc.
    by rewrite orb_true_r in Hc.
  - intros _. apply Hplain. by apply split_once_None.
Qed.

(** The tokens of a reading that interpolation is to resolve: those of a
    token's shape, unless a dollar stands before the brace. *)
Definition declared (found : list (string * string)) : list string :=
  (List.filter (fun p => token_shaped p.2 && negb (dollar_after false p.1)) found).*2.

Lemma extract_tokens_pieces template :
  unnested template = true -> extract_tokens template = declared (pieces template).1.
Proof.
  intros [Hall Htail]%pieces_plain. unfold extract_tokens.
  rewrite <- (fill_pieces template) at 1. destruct (pieces template) as [found tail]. cbn in *.
  unfold fill. cbn. induction Hall as [|[prefix key] found [Hp Hk] Hall IH]; cbn in *; [by apply tokens_tail|].
  rewrite tokens_text, tokens_token, IH by done. unfold declared. cbn [List.filter fst snd].
  by destruct (token_shaped key && negb (dollar_after false prefix)).
Qed.

Lemma elem_of_declared found key :
  key ∈ declared found <->
  exists prefix, (prefix, key) ∈ found /\ token_shaped key = true /\ dollar_after false prefix = false.
Proof.
  unfold declared. rewrite list_elem_of_fmap. split.
  - intros ([prefix k] & -> & Hin%list_elem_of_In). apply filter_In in Hin as [Hin%list_elem_of_In Hp].
    cbn in Hp. bool_hyps. eauto.
  - intros (prefix & Hin & Hs & Hd). exists (prefix, key). split; [done|]. apply list_elem_of_In, filter_In.
    split; [by apply list_elem_of_In|]. cbn [fst snd]. by rewrite Hs, Hd.
Qed.

(** ** The dry run *)

(** The texts that are templates: all but those under a [context_map]. *)
Inductive leaf : Json -> string -> Prop :=
| leaf_string s : leaf (JString s) s
| leaf_item l j s : j ∈ l -> leaf j s -> leaf (JArray l) s
| leaf_entry m key j s : m !! key = Some j -> key <> "context_map" -> leaf j s -> leaf (JObject m) s.

Definition all_available (available : gset string) (j : Json) : Prop :=
  forall s token, leaf j s -> token ∈ extract_tokens s -> token ∈ available.

Lemma filter_nil_iff {A} (f : A -> bool) l : List.filter f l = [] <-> forall a, a ∈ l -> f a = false.
Proof.
  induction l as [|a l IH]; cbn; [set_solver|]. destruct (f a) eqn:Ea.
  - split; [done|]. intros Hall. rewrite (Hall a) in Ea; [done|left].
  - rewrite IH. split; [|set_solver]. intros Hall b [->|Hb]%elem_of_cons; auto.
Qed.

Lemma bind_nil_iff {A B} (f : A -> list B) (l : list A) : l ≫= f = [] <-> forall a, a ∈ l -> f a = [].
Proof.
  induction l as [|a l IH]; cbn; [set_solver|]. split.
  - intros [Ha Hl]%app_nil b [->|Hb]%elem_of_cons; [done|]. by apply IH.
  - intros Hall. rewrite (Hall a) by left. apply IH. intros b Hb. apply Hall. by right.
Qed.

(** A fold that conses one entry per key. *)
Lemma map_fold_entries {A B} (f : string -> A -> B) (m : gmap string A) key b :
  (key, b) ∈ map_fold (fun key a found => (key, f key a) :: found) [] m <->
  exists a, m !! key = Some a /\ b = f key a.
Proof.
  rewrite map_fold_foldr.
  transitivity (exists a, (key, a) ∈ map_to_list m /\ b = f key a); [|by setoid_rewrite elem_of_map_to_list].
  generalize (map_to_list m). intros l. induction l as [|[k a] l IH]; cbn; [set_solver|].
  rewrite elem_of_cons, IH. set_solver.
Qed.

Lemma collect_string step_id available path s :
  collect_unresolved_in_value step_id available path (JString s) = [] <-> all_available available (JString s).
Proof.
  cbn. unfold all_available. split.
  - intros Hnil%fmap_nil_inv s' token Hleaf Htoken. inversion Hleaf; subst.
    apply (proj1 (filter_nil_iff _ _) Hnil) in Htoken. apply negb_false_iff in Htoken.
    by apply bool_decide_eq_true in Htoken.
  - intros Hall. rewrite (proj2 (filter_nil_iff _ _)); [done|]. intros token Htoken. apply negb_false_iff.
    apply bool_decide_eq_true. apply (Hall s); [constructor|done].
Qed.

Lemma collect_unresolved_nil step_id available path j :
  collect_unresolved_in_value step_id available path j = [] <-> all_available available j.
Proof.
  revert path. induction j as [|b|z|s|s|l Hl|m Hm] using json_ind'; intros path;
    [by split; [intros _ ? ? Hleaf; inversion Hleaf|]..|apply collect_string| |].
  - assert (all_available available (JArray l) <-> Forall (all_available available) l) as ->.
    { rewrite Forall_forall. split.
      - intros Hall j Hj s token Hs. apply Hall. by apply leaf_item with j.
      - intros Hall s token Hleaf. inversion Hleaf; subst. by apply (Hall j). }
    cbn. generalize 0. induction Hl as [|j l Hj Hl IH]; intros idx; [by split|].
    rewrite app_nil, Forall_cons, Hj, IH. done.
  - cbn. rewrite bind_nil_iff. split.
    + intros Hnil s token Hleaf. inversion Hleaf as [| |? key j ? Hkey Hne Hs]; subst.
      apply (proj1 (Hm _ _ Hkey (path +:+ "." +:+ key))); [|done].
      apply (Hnil (key, _)). rewrite merge_sort_Permutation.
      apply (map_fold_entries (fun key item => if key =?s "context_map" then [] else
        collect_unresolved_in_value step_id available (path +:+ "." +:+ key) item)).
      exists j. split; [done|]. by rewrite bool_decide_false.
    + intros Hall [key found]. rewrite merge_sort_Permutation.
      intros (j & Hkey & ->)%(map_fold_entries (fun key item => if key =?s "context_map" then [] else
        collect_unresolved_in_value step_id available (path +:+ "." +:+ key) item)). cbn.
      case_bool_decide as Hne; [done|]. apply (Hm _ _ Hkey). intros s token Hs. apply Hall. by eapply leaf_entry.
Qed.

(** The tokens of a step that stand for a value. *)
Definition step_leaf (step : StepDef) (s : string) : Prop :=
  exists params, sd_parameters step = Some params /\ leaf params s.

Lemma validate_step_tokens_nil step available :
  validate_step_tokens step available = [] <->
  forall s token, step_leaf step s -> token ∈ extract_tokens s -> token ∈ available.
Proof.
  unfold validate_step_tokens, step_leaf. destruct (sd_parameters step) as [params|].
  - rewrite collect_unresolved_nil. unfold all_available. naive_solver.
  - naive_solver.
Qed.


(** ** The supplementary check *)

Lemma validate_token_Ok `{TextDebug} what safe token value :
  validate_token what safe token value = Ok tt <->
  value <> "" /\ forall ch, ch ∈ chars value -> safe ch = true.
Proof.
  unfold validate_token, str_is_empty. case_bool_decide as He; [naive_solver|].
  destruct (List.find _ _) as [ch|] eqn:Ef.
  - apply find_some in Ef as [Hin%list_elem_of_In Hch%negb_true_iff]. split; [done|]. intros [_ Hall].
    by rewrite Hall in Hch.
  - split; [|done]. intros _. split; [done|]. intros ch Hin%list_elem_of_In.
    apply (find_none _ _ Ef) in Hin. by apply negb_false_iff.
Qed.

Lemma validate_present_Ok validate c tokens :
  validate_present validate c tokens = Ok tt <->
  forall token value, token ∈ tokens -> get c token = Some value -> validate token value = Ok tt.
Proof.
  induction tokens as [|token tokens IH]; cbn; [set_solver|].
  destruct (get c token) as [value|] eqn:Eg; [rewrite unit_bind_Ok|]; rewrite IH; set_solver.
Qed.

(** The check passes exactly when each token that is present is not empty and
    has only the characters of its class. *)
Lemma shell_safe_exact `{TextDebug} c :
  let safe ok tokens := forall token value, token ∈ tokens -> get c token = Some value ->
    value <> "" /\ forall ch, ch ∈ chars value -> ok ch = true in
  validate_shell_safe_tokens c = Ok tt <->
  safe (ascii_and is_ascii_digit) SHELL_SAFE_NUMERIC_TOKENS /\
  safe is_safe_refname_char SHELL_SAFE_REFNAME_TOKENS /\
  safe (fun ch => negb (is_shell_metacharacter ch)) SHELL_SAFE_PATH_TOKENS.
Proof.
  unfold validate_shell_safe_tokens. rewrite !unit_bind_Ok, !validate_present_Ok.
  unfold validate_numeric_token, validate_refname_token, validate_path_token.
  by setoid_rewrite validate_token_Ok.
Qed.

Section Samples.

#[local] Instance listed_order : HashOrder :=
  {| keys_of := fun A m => (map_to_list m).*1; keys_of_perm := fun A m => reflexivity _ |}.

Definition sample_context : StepContext :=
  set (set (set_current_step_id (StepContext.new "/srv/run" "run-1") "plan") "branch" "topic")
    "note" "see {run_id}".

Example interpolation_samples :
  interpolate_string "git checkout {plan.branch} # {run_id} {missing} {branch" sample_context =
    "git checkout topic # run-1 {missing} {branch" /\
  extract_tokens "a {b} ${C} {d.e} {f g} {{h}" = ["b"; "d.e"; "h"] /\
  chars "añb" = ["a"; "ñ"; "b"].
Proof. vm_compute. done. Qed.

(** One pass would keep the brace a value brings; the loop over the keys, the
    longest first, replaces it when its key is shorter. *)
Lemma interpolation_not_one_pass :
  interpolate_string "{plan.note}" sample_context = "see run-1" /\
  interpolate_once "{plan.note}" sample_context = "see {run_id}".
Proof. vm_compute. done. Qed.

Definition sample_step : StepDef :=
  mkStepDef "push" "shell" None
    (Some (JObject {["command" := JString "git push origin {branch} ${HOME}";
                     "context_map" := JObject {["sha" := JString "{.sha"]}]})) None None None None.

Lemma sample_step_leaf s : step_leaf sample_step s -> s = "git push origin {branch} ${HOME}".
Proof.
  intros (params & [= <-] & Hleaf). inversion Hleaf as [| |m key j ? Hkey Hne Hs]; subst.
  apply lookup_insert_Some in Hkey as [[<- <-]|[_ Hkey]]; [by inversion Hs|].
  apply lookup_singleton_Some in Hkey as [<- _]. done.
Qed.



End Samples.
