(* ===== verification/Shell.v ===== *)
(** The generic steps ([components/generic/shell.rs], [write_file.rs],
    [noop.rs]): a shell command whose dynamic values are bound as positional
    parameters, run in a verified directory, and read for an outcome.

    The child is a function of what it is started with, [ShellHost.run_child];
    everything around it is the step's: the directory it is anchored to, the
    command and its arguments, its standard input, and what is made of its end. *)
From S2P Require Import Prelude Effects Text Digest Status Schema RunPaths StepContext Ownership OwnershipSteps Runner Discovery ScopeCharter ScopeMeasurement ScopeArtifacts ScopeSteps Templates.
From Stdlib Require Import Ascii.

(** ** Binding a template *)

Definition dquote : string := String "034" "".

(** The loop of [update_single_quote_state]: a backslash outside single quotes
    escapes the next byte. *)
Definition quote_step (st : bool * bool) (byte : ascii) : bool * bool :=
  let '(escaped, single_quoted) := st in
  if Ascii.eqb byte "\" && negb single_quoted then (negb escaped, single_quoted)
  else if Ascii.eqb byte "'" && negb escaped then (false, negb single_quoted)
  else (false, single_quoted).
Fixpoint quote_run (st : bool * bool) (text : string) : bool * bool :=
  match text with "" => st | String byte rest => quote_run (quote_step st byte) rest end.
Definition update_single_quote_state (text : string) (single_quoted : bool) : bool :=
  (quote_run (false, single_quoted) text).2.

Definition parameter_text (n : nat) : string := "${" +:+ pretty (Z.of_nat n) +:+ "}".
Definition quoted_parameter (single_quoted : bool) (n : nat) : string :=
  if single_quoted then "'" +:+ dquote +:+ parameter_text n +:+ dquote +:+ "'" else parameter_text n.

(** The [while let] of [bind_shell_template]; a turn consumes two bytes at least. *)
Fixpoint bind_loop (fuel : nat) (c : StepContext) (rest : string) (single_quoted : bool)
    (command : string) (args : list string) : string * list string :=
  match fuel with
  | O => (command +:+ rest, args)
  | S fuel =>
      match split_once "{" rest with
      | None => (command +:+ rest, args)
      | Some (prefix, token) =>
          let command := command +:+ prefix in
          let single_quoted := update_single_quote_state prefix single_quoted in
          match split_once "}" token with
          | None => (command +:+ String "{" token, args)
          | Some (key, rest) =>
              match get c key with
              | Some value =>
                  let args := args ++ [value] in
                  bind_loop fuel c rest single_quoted
                    (command +:+ quoted_parameter single_quoted (length args)) args
              | None => bind_loop fuel c rest single_quoted (command +:+ braced key) args
              end
          end
      end
  end.

Definition bind_shell_template (template : string) (c : StepContext) : string * list string :=
  bind_loop (String.length template) c template false "" [].

(** ** Reading the end of a command *)

(** [serde_json] on any value. *)
Class JsonText := {
  json_from_str : string -> Res string Json;
  json_to_string : Json -> option string
}.

Definition parse_outcome_name (name : string) : StepOutcome.t :=
  let name := to_ascii_lowercase name in
  if name =?s "success" then StepOutcome.Success
  else if name =?s "fixable" then StepOutcome.Fixable
  else if name =?s "fatal" then StepOutcome.Fatal
  else if name =?s "retryable" then StepOutcome.Retryable
  else if name =?s "abandon" then StepOutcome.Abandon
  else StepOutcome.Success.

Definition json_as_object (j : Json) : option (gmap string Json) :=
  match j with JObject m => Some m | _ => None end.

Definition object_keys (m : gmap string Json) : list string := merge_sort String.le (map_to_list m).*1.

(** An object's entries in the order of their keys. *)
Definition object_entries (m : gmap string Json) : list (string * Json) :=
  omap (fun key => pair key <$> m !! key) (object_keys m).

Definition mapped_nonzero_outcome (params : Json) (exit_code : option Z) : StepOutcome.t :=
  match (code ← exit_code; map ← json_get "exit_code_map" params ≫= json_as_object;
         map !! (pretty code : string) ≫= json_as_str) with
  | Some outcome_name => parse_outcome_name outcome_name
  | None => StepOutcome.Fixable
  end.

Fixpoint first_pattern (entries : list (string * Json)) (stdout : string) : option StepOutcome.t :=
  match entries with
  | [] => None
  | (pattern, outcome_value) :: rest =>
      if contains stdout pattern
      then Some (default StepOutcome.Success (parse_outcome_name <$> json_as_str outcome_value))
      else first_pattern rest stdout
  end.
Definition match_outcome_on_stdout (params : Json) (stdout : string) : option StepOutcome.t :=
  map ← json_get "outcome_on_stdout" params ≫= json_as_object; first_pattern (object_entries map) stdout.

Definition extract_dot_path (json : Json) (path : string) : option Json :=
  fold_left (fun current part =>
    if str_is_empty part then current else current ≫= json_get part) (split_char "." path) (Some json).

Section Outcome.
Context `{JsonText} `{StringsDebug}.

Definition json_value_to_string (value : Json) : string :=
  match value with
  | JString s => s
  | JInt z => pretty z
  | JFloat literal => literal
  | JBool b => bool_text b
  | JArray _ | JObject _ => default "" (json_to_string value)
  | JNull => ""
  end.

Fixpoint extract_entries (parsed : Json) (entries : list (string * Json)) (c : StepContext)
    : StepOutcome.t * StepContext :=
  match entries with
  | [] => (StepOutcome.Success, c)
  | (var_name, path_value) :: rest =>
      match json_as_str path_value with
      | None => extract_entries parsed rest c
      | Some dot_path =>
          match extract_dot_path parsed dot_path with
          | Some value => extract_entries parsed rest (set c var_name (json_value_to_string value))
          | None =>
              let top_keys := from_option object_keys [] (json_as_object parsed) in
              (StepOutcome.Fatal,
               set c "json_path_error" ("path '" +:+ dot_path +:+ "' not found, available keys: "
                                        +:+ strings_debug top_keys))
          end
      end
  end.

Definition extract_json_context (params : Json) (c : StepContext) (stdout : string)
    : option StepOutcome.t * StepContext :=
  if bool_decide (json_get "output_format" params ≫= json_as_str = Some "json") then
    match json_from_str stdout with
    | Err e => (Some StepOutcome.Fatal, set c "json_parse_error" e)
    | Ok parsed =>
        let map := default ∅ (json_get "context_map" params ≫= json_as_object) in
        let '(outcome, c) := extract_entries parsed (object_entries map) c in (Some outcome, c)
    end
  else (None, c).

Definition resolve_shell_outcome (params : Json) (c : StepContext) (exit_code : option Z) (stdout : string)
    : StepOutcome.t * StepContext :=
  if bool_decide (exit_code <> Some 0%Z) then (mapped_nonzero_outcome params exit_code, c)
  else
    match match_outcome_on_stdout params stdout with
    | Some outcome => (outcome, c)
    | None =>
        let '(outcome, c) := extract_json_context params c stdout in
        (default StepOutcome.Success outcome, c)
    end.

End Outcome.

(** ** Running the command *)

Definition WORKFLOW_SHELL : string := "bash".

(** How a child ends; the wait of a timed out child carries the timeout. *)
Inductive ChildEnd :=
| NotSpawned (error : string)
| Completed (stdin_written : Res string unit) (code : option Z) (stdout stderr : Bytes)
| TimedOut
| NotWaited (error : string).

(** Reading a file as text, with the error's text, and a child: the program
    and its arguments, started in the directory of a descriptor, with its
    standard input and a timeout in seconds. *)
Class ShellHost := {
  read_to_string : string -> Res string string;
  run_child : list string -> Fd -> option string -> option Z -> ChildEnd
}.

Record ShellOutput := mkShellOutput { so_code : option Z; so_stdout : Bytes; so_stderr : Bytes }.

Definition shell_error (message : string) : EngineError := StepExecutionError "shell" message.

Section Execute.
Context `{ErrorText} `{JsonText} `{StringsDebug} `{TextDebug} `{HashOrder} `{ShellHost}.

(** [FileIdentity::of_descriptor], [descriptor_matches_authorization] *)
Definition descriptor_matches_authorization (fd : Fd) (expected : WorkspaceAuthorization)
    : Sys (Res IoError bool) :=
  st ← call (Fstat fd);
  mret ((fun st => bool_decide (mkWorkspaceAuthorization (st_dev st) (st_ino st) = expected)) <$>
        rustix "stat workspace anchor" "." st).

Definition verify_descriptor_matches_authorization (fd : Fd) (expected : WorkspaceAuthorization)
    : Sys (Res EngineError unit) :=
  matches ← descriptor_matches_authorization fd expected;
  mret match matches with
       | Err error => Err (shell_error ("Failed to verify workspace authorization: " +:+ io_display error))
       | Ok false => Err (shell_error
           "workspace identity does not match the authorization from workspace_ownership_verify")
       | Ok true => Ok tt
       end.

(** [prepare_child_fd]; [configure_fchdir_pre_exec] registers the change of
    directory and returns. *)
Definition prepare_child_fd (anchor : WorkspaceAnchor) : Sys (Res IoError Fd) :=
  fd ← call (DupFile (anchor_fd anchor));
  mret (res_map_err (fun e =>
    CustomError (kind_of_errno e) ("dup workspace fd for child inheritance: " +:+ errno_display e)) fd).

Definition configure_command_cwd (work_dir : string) (authorization : option WorkspaceAuthorization)
    : Sys (Res EngineError Fd) :=
  anchor ← open_anchor work_dir;
  match anchor with
  | Err error => mret (Err (shell_error ("Failed to anchor work_dir: " +:+ io_display error)))
  | Ok anchor =>
      verified ← match authorization with
                 | Some expected => verify_descriptor_matches_authorization (anchor_fd anchor) expected
                 | None => mret (Ok tt)
                 end;
      match verified with
      | Err e => mret (Err e)
      | Ok _ =>
          fd ← prepare_child_fd anchor;
          mret (res_map_err (fun error =>
            shell_error ("Failed to prepare anchored work_dir: " +:+ io_display error)) fd)
      end
  end.

(** The part of [spawn_and_capture] before the child: without an authorization
    the directory is created. *)
Definition prepare_directory (c : StepContext) : Sys (Res EngineError Fd) :=
  created ← match workspace_authorization c with
            | None => r ← call (CreateDirAll (sc_work_dir c));
                      mret (res_map_err (fun e => shell_error ("Failed to create work_dir: " +:+ os_error_display e)) r)
            | Some _ => mret (Ok tt)
            end;
  match created with
  | Err e => mret (Err e)
  | Ok _ => configure_command_cwd (sc_work_dir c) (workspace_authorization c)
  end.

(** [join_stdin_writer] of a child that exited. *)
Definition join_stdin_writer (written : Res string unit) : Res EngineError unit :=
  res_map_err (fun error => shell_error ("Failed to write to stdin: " +:+ error)) written.

Definition finish_child_capture (c : StepContext) (timeout : Z) (child : ChildEnd)
    : Res EngineError (option ShellOutput) * StepContext :=
  match child with
  | NotSpawned e => (Err (shell_error ("Failed to spawn command: " +:+ e)), c)
  | Completed written code stdout stderr =>
      (join_stdin_writer written;; mret (Some (mkShellOutput code stdout stderr)), c)
  | TimedOut =>
      (Ok None, set (set c "exit_code" "124") "diagnostic"
         ("shell command timed out after " +:+ pretty timeout +:+ " seconds"))
  | NotWaited error => (Err (shell_error ("Failed to wait for command output: " +:+ error)), c)
  end.

Definition shell_argv (command : string) (args : list string) : list string :=
  [WORKFLOW_SHELL; "-c"; command; "luther-shell"] ++ args.

Definition spawn_and_capture (params : Json) (c : StepContext) (command : string) (args : list string)
    (stdin : option string) : Sys (Res EngineError (option ShellOutput) * StepContext) :=
  fd ← prepare_directory c;
  mret match fd with
       | Err e => (Err e, c)
       | Ok fd =>
           let timeout := json_get "timeout_seconds" params ≫= json_as_u64 in
           finish_child_capture c (default 0%Z timeout)
             (run_child (shell_argv command args) fd stdin timeout)
       end.

Inductive StdinResolution := Data (data : option string) | StdinFatal.

(** A path that is absolute or has a [..]. *)
Definition stdin_component_ok (component : Component) : bool :=
  match component with Normal _ | CurDir => true | _ => false end.

Definition resolve_shell_stdin (params : Json) (c : StepContext) : StdinResolution * StepContext :=
  match json_get "stdin" params ≫= json_as_str with
  | Some stdin_template => (Data (Some (interpolate_string stdin_template c)), c)
  | None =>
      match json_get "stdin_file" params ≫= json_as_str with
      | None => (Data None, c)
      | Some stdin_file =>
          if existsb (fun component => negb (stdin_component_ok component)) (components stdin_file) then
            (StdinFatal, set c "diagnostic" "stdin_file must be a relative path without traversal")
          else
            let file_path := join (sc_work_dir c) stdin_file in
            match read_to_string file_path with
            | Ok contents => (Data (Some contents), c)
            | Err e => (StdinFatal, set c "diagnostic" ("stdin_file not found or cannot read: "
                          +:+ string_debug file_path +:+ ", error: " +:+ e))
            end
      end
  end.

Definition capture_output (c : StepContext) (output : ShellOutput) : StepContext :=
  let c := set (set c "stdout" (from_utf8_lossy (so_stdout output))) "stderr" (from_utf8_lossy (so_stderr output)) in
  match so_code output with Some code => set c "exit_code" (pretty code) | None => c end.

(** [ShellExecutor::execute] *)
Definition shell_step (c : StepContext) (params : Json) : Sys (Res EngineError StepOutcome.t * StepContext) :=
  match json_get "command" params ≫= json_as_str with
  | None => mret (Err (shell_error "Missing 'command' parameter for shell executor"), c)
  | Some command_template =>
      let '(command, args) := bind_shell_template command_template c in
      let '(stdin, c) := resolve_shell_stdin params c in
      match stdin with
      | StdinFatal => mret (Ok StepOutcome.Fatal, c)
      | Data stdin =>
          captured ← spawn_and_capture params c command args stdin;
          mret match captured with
               | (Err e, c) => (Err e, c)
               | (Ok None, c) => (Ok StepOutcome.Fatal, c)
               | (Ok (Some output), c) =>
                   let c := capture_output c output in
                   let '(outcome, c) := resolve_shell_outcome params c (so_code output)
                     (from_utf8_lossy (so_stdout output)) in
                   (Ok outcome, c)
               end
      end
  end.

End Execute.

(** ** The other generic steps *)

Definition noop_step (c : StepContext) (params : Json) : Res EngineError StepOutcome.t * StepContext :=
  (Ok StepOutcome.Success, c).

Section WriteFile.
Context `{Env} `{ErrorText} `{HashOrder}.

Definition write_error (message : string) : EngineError := StepExecutionError "write_file" message.

(** [fs::write]: the file's old content is gone before the new is written. *)
Definition fs_write (path : string) (data : Bytes) : M Files IoError unit :=
  t ← now;
  fs (fun d => if bool_decide (components path ∈ dirs d) then Err (OsError EISDIR)
               else Ok (tt, put_file path (mkFile "" t) d));;
  write_all path data.

(** [WriteFileExecutor::execute] *)
Definition write_file_step (params : Json) : StepM StepOutcome.t :=
  path_template ← lift_res (ok_or (json_get "path" params ≫= json_as_str)
    (write_error "Missing 'path' parameter for write_file executor"));
  content_template ← lift_res (ok_or (json_get "content" params ≫= json_as_str)
    (write_error "Missing 'content' parameter for write_file executor"));
  c ← context;
  let full_path := join (sc_work_dir c) (interpolate_string path_template c) in
  match Ownership.parent full_path with
  | Some parent_dir =>
      present ← on_local (exists_ parent_dir);
      if present : bool then mret tt
      else on_disk (fun e => write_error ("Failed to create parent directory: " +:+ io_display e)) (create_dir_all parent_dir)
  | None => mret tt
  end;;
  on_disk (fun e => write_error ("Failed to write file: " +:+ io_display e))
    (fs_write full_path (interpolate_string content_template c));;
  mret StepOutcome.Success.

End WriteFile.

(** ** Binding, token by token *)

(** The command over the reading of a template: the [n]-th value so far. *)
Fixpoint bound_text (c : StepContext) (single_quoted : bool) (n : nat) (found : list (string * string))
    (tail : string) : string :=
  match found with
  | [] => tail
  | (prefix, key) :: rest =>
      let single_quoted := update_single_quote_state prefix single_quoted in
      match get c key with
      | Some _ => prefix +:+ quoted_parameter single_quoted (S n) +:+ bound_text c single_quoted (S n) rest tail
      | None => prefix +:+ braced key +:+ bound_text c single_quoted n rest tail
      end
  end.

Definition bound_args (c : StepContext) (found : list (string * string)) : list string :=
  omap (fun p => get c p.2) found.

Lemma bind_loop_pieces fuel c rest single_quoted command args :
  (String.length rest <= fuel)%nat ->
  bind_loop fuel c rest single_quoted command args =
  (command +:+ bound_text c single_quoted (length args) (pieces rest).1 (pieces rest).2,
   args ++ bound_args c (pieces rest).1).
Proof.
  revert rest single_quoted command args. induction fuel as [|fuel IH]; intros rest sq command args Hf.
  { destruct rest; [|cbn in Hf; lia]. cbn. by rewrite app_nil_r. }
  cbn [bind_loop]. rewrite pieces_unfold. destruct (split_once "{" rest) as [[prefix token]|] eqn:Es.
  - apply split_once_Some in Es as [-> _]. destruct (split_once "}" token) as [[key rest']|] eqn:Et.
    + apply split_once_Some in Et as [-> _]. rewrite length_app_str in Hf. cbn in Hf.
      rewrite length_app_str in Hf. cbn in Hf.
      unfold bound_args. cbn. destruct (get c key) as [value|]; rewrite IH by lia.
      * rewrite !append_assoc_str, length_app, <- app_assoc. cbn. by rewrite Nat.add_1_r.
      * by rewrite !append_assoc_str.
    + cbn. by rewrite app_nil_r, append_assoc_str.
  - cbn. by rewrite app_nil_r.
Qed.

Lemma bind_shell_template_pieces template c :
  bind_shell_template template c =
  (bound_text c false 0 (pieces template).1 (pieces template).2, bound_args c (pieces template).1).
Proof. unfold bind_shell_template. by rewrite bind_loop_pieces. Qed.

(** ** Quotes *)

Lemma quote_run_app st a b : quote_run st (a +:+ b) = quote_run (quote_run st a) b.
Proof. revert st. induction a as [|x a IH]; intros st; [done|]. rewrite str_app_cons. apply IH. Qed.

(** Text without a quote or a backslash leaves a settled state alone. *)
Definition unquoting (s : string) : bool := negb (has_char "'" s || has_char "\" s).

Lemma quote_run_unquoting single_quoted s :
  unquoting s = true -> quote_run (false, single_quoted) s = (false, single_quoted).
Proof.
  unfold unquoting. intros [Hq Hb]%negb_true_iff%orb_false_iff.
  induction s as [|x s IH]; [done|]. cbn [has_char] in *.
  apply orb_false_iff in Hq as [Hx%bool_decide_eq_false Hq], Hb as [Hx'%bool_decide_eq_false Hb].
  cbn [quote_run]. unfold quote_step. destruct (Ascii.eqb_spec x "\"); [done|].
  destruct (Ascii.eqb_spec x "'"); [done|]. cbn. by apply IH.
Qed.

Lemma unquoting_parameter n : unquoting (parameter_text n) = true.
Proof.
  unfold unquoting, parameter_text. rewrite !has_char_app.
  by rewrite !(digits_plain _ (pretty (Z.of_nat n))) by (done || apply all_digits_pretty; lia).
Qed.

Lemma unquoting_braced key : unquoting (braced key) = unquoting key.
Proof. unfold unquoting, braced. rewrite !has_char_app. cbn. by rewrite !orb_false_r. Qed.

(** No token stands behind a backslash that escapes it, and no token that is
    left as it is holds a quote or a backslash. *)
Fixpoint quoting_clear (c : StepContext) (single_quoted : bool) (found : list (string * string)) : bool :=
  match found with
  | [] => true
  | (prefix, key) :: rest =>
      negb (quote_run (false, single_quoted) prefix).1
      && (bool_decide (is_Some (get c key)) || unquoting key)
      && quoting_clear c (update_single_quote_state prefix single_quoted) rest
  end.

(** Where a parameter stands: outside single quotes, with nothing escaped. *)
Definition expands_at (command : string) (single_quoted : bool) (n : nat) : Prop :=
  exists before after, command = before +:+ parameter_text n +:+ after /\
    quote_run (false, single_quoted) before = (false, false).

Lemma expands_behind single_quoted single_quoted' a s n :
  quote_run (false, single_quoted) a = (false, single_quoted') ->
  expands_at s single_quoted' n -> expands_at (a +:+ s) single_quoted n.
Proof.
  intros Ha (before & after & -> & Hb). exists (a +:+ before), after.
  by rewrite !append_assoc_str, quote_run_app, Ha, Hb.
Qed.

Lemma quote_run_parameter single_quoted n :
  quote_run (false, single_quoted) (quoted_parameter single_quoted n) = (false, single_quoted).
Proof.
  pose proof (unquoting_parameter n) as Hn. destruct single_quoted; cbn; [|by apply quote_run_unquoting].
  rewrite !quote_run_app. cbn. by rewrite quote_run_unquoting.
Qed.

Lemma parameter_expands single_quoted n s : expands_at (quoted_parameter single_quoted n +:+ s) single_quoted n.
Proof.
  destruct single_quoted; cbn.
  - exists ("'" +:+ dquote), (dquote +:+ "'" +:+ s). by rewrite !append_assoc_str.
  - by exists "", s.
Qed.

Lemma quote_run_settled single_quoted prefix :
  (quote_run (false, single_quoted) prefix).1 = false ->
  quote_run (false, single_quoted) prefix = (false, update_single_quote_state prefix single_quoted).
Proof. unfold update_single_quote_state. destruct (quote_run _ prefix) as [[] ?]; done. Qed.

Lemma bound_parameters c single_quoted n found tail i :
  quoting_clear c single_quoted found = true -> (i < length (bound_args c found))%nat ->
  expands_at (bound_text c single_quoted n found tail) single_quoted (S (n + i)).
Proof.
  revert single_quoted n i. induction found as [|[prefix key] found IH]; intros sq n i; [cbn; lia|].
  cbn [quoting_clear bound_text]. unfold bound_args. cbn. intros Hclear Hi. bool_hyps.
  destruct (get c key) as [value|] eqn:Eg; (eapply expands_behind; [by apply quote_run_settled|]).
  - destruct i as [|i]; [rewrite Nat.add_0_r; apply parameter_expands|].
    eapply expands_behind; [apply quote_run_parameter|]. rewrite Nat.add_succ_r. apply (IH _ (S n) i); [done|].
    exact (proj2 (Nat.succ_lt_mono _ _) Hi).
  - eapply expands_behind; [|by apply IH]. apply quote_run_unquoting. rewrite unquoting_braced.
    destruct_or!; [|done]. by bool_hyps; match goal with Hs : is_Some None |- _ => destruct Hs end.
Qed.

Lemma bound_text_ext c c' single_quoted n found tail :
  (forall p, p ∈ found -> is_Some (get c p.2) <-> is_Some (get c' p.2)) ->
  bound_text c single_quoted n found tail = bound_text c' single_quoted n found tail.
Proof.
  revert single_quoted n. induction found as [|[prefix key] found IH]; intros sq n Hsame; [done|]. cbn.
  assert (Hkey : is_Some (get c key) <-> is_Some (get c' key)) by (apply (Hsame (prefix, key)); left).
  assert (Hrest : forall p, p ∈ found -> is_Some (get c p.2) <-> is_Some (get c' p.2))
    by (intros; apply Hsame; by right).
  destruct (get c key), (get c' key); rewrite ?(IH _ _ Hrest); try done; exfalso; naive_solver.
Qed.


(** ** The outcome *)

(** A nonzero end is mapped or fixable, and leaves the context alone. *)
Lemma nonzero_outcome `{JsonText} `{StringsDebug} params c code stdout :
  code <> Some 0%Z ->
  resolve_shell_outcome params c code stdout = (mapped_nonzero_outcome params code, c).
Proof. intros Hc. unfold resolve_shell_outcome. by rewrite bool_decide_true. Qed.

Lemma first_pattern_spec entries stdout :
  first_pattern entries stdout =
  (fun kv => default StepOutcome.Success (parse_outcome_name <$> json_as_str kv.2)) <$>
    List.find (fun kv => contains stdout kv.1) entries.
Proof. induction entries as [|[k v] entries IH]; cbn; [done|]. by destruct (contains stdout k). Qed.

(** ** Where the child runs *)

Global Instance ChildEnd_eq_dec : EqDecision ChildEnd.
Proof. solve_decision. Defined.

Section Confined.
Context `{ErrorText}.

(** What the calls before a child established: its descriptor duplicates one of
    the directory that was opened under the step's path, whose identity is the
    authorized one; and an authorized step creates no directory. *)
Definition child_directory (c : StepContext) (fd : Fd) (h : History) : Prop :=
  exists anchor, OpenDir (sc_work_dir c) ↦ Ok anchor ∈ h /\ DupFile anchor ↦ Ok fd ∈ h /\
  forall expected, workspace_authorization c = Some expected ->
    (exists st, Fstat anchor ↦ Ok st ∈ h /\ mkWorkspaceAuthorization (st_dev st) (st_ino st) = expected) /\
    forall path r, CreateDirAll path ↦ r ∉ h.

Lemma always_and {A} (m : Sys A) (Q Q' : History -> A -> Prop) h :
  always m Q h -> always m Q' h -> always m (fun h' a => Q h' a /\ Q' h' a) h.
Proof. revert h. induction m as [a|c' k IH]; cbn; eauto. Qed.

Lemma harmless_creates_none past h path r :
  guarded (provisioning_permitted "" "") past h -> CreateDirAll path ↦ r ∉ h.
Proof.
  revert past. induction h as [|ev h IH]; intros past; [set_solver|].
  intros [Hev Hh] [<-|Hin]%elem_of_cons; [done|]. by eapply IH.
Qed.

Lemma configure_discreet work_dir authorization :
  discreet "" "" (configure_command_cwd work_dir authorization).
Proof.
  unfold configure_command_cwd, verify_descriptor_matches_authorization, descriptor_matches_authorization,
    prepare_child_fd.
  discreet_auto.
Qed.

Lemma verify_descriptor_always fd expected :
  always (verify_descriptor_matches_authorization fd expected)
    (fun h r => match r with
                | Ok _ => exists st, h = [Fstat fd ↦ Ok st] /\ mkWorkspaceAuthorization (st_dev st) (st_ino st) = expected
                | Err _ => True
                end) [].
Proof.
  unfold verify_descriptor_matches_authorization, descriptor_matches_authorization.
  intros [st|e]; cbn; [|done]. case_bool_decide as Hst; [|done]. by exists st.
Qed.

Lemma prepare_child_always anchor :
  always (prepare_child_fd anchor)
    (fun h r => match r with Ok fd => h = [DupFile (anchor_fd anchor) ↦ Ok fd] | Err _ => True end) [].
Proof. intros [fd|e]; done. Qed.

Lemma configure_always work_dir authorization :
  always (configure_command_cwd work_dir authorization)
    (fun h r => match r with
                | Ok fd => exists anchor, OpenDir work_dir ↦ Ok anchor ∈ h /\ DupFile anchor ↦ Ok fd ∈ h /\
                    forall expected, authorization = Some expected ->
                      exists st, Fstat anchor ↦ Ok st ∈ h /\
                        mkWorkspaceAuthorization (st_dev st) (st_ino st) = expected
                | Err _ => True
                end) [].
Proof.
  unfold configure_command_cwd. eapply always_seq; [apply open_anchor_always|].
  intros t [anchor|e]; [|done]. intros (before & st & Hsub & _ & _).
  assert (OpenDir work_dir ↦ Ok (anchor_fd anchor) ∈ t) as Hopen.
  { eapply elem_of_sublist; [|exact Hsub]. set_solver. }
  eapply (always_seq _ _ (fun h r => match r with
    | Ok _ => forall expected, authorization = Some expected -> exists st,
        Fstat (anchor_fd anchor) ↦ Ok st ∈ h /\ mkWorkspaceAuthorization (st_dev st) (st_ino st) = expected
    | Err _ => True end)).
  { destruct authorization as [expected|]; [|by intros ? [=]].
    eapply always_mono; [apply verify_descriptor_always|].
    intros h [u|e]; [|done]. intros (st' & -> & Hst) ? [= <-]. exists st'. split; [by left|done]. }
  intros t' [u|e] Hauth; [|done].
  eapply always_seq; [apply prepare_child_always|]. intros t'' [fd|e]; [|done]. intros ->. cbn.
  exists (anchor_fd anchor). split; [set_solver|]. split; [set_solver|].
  intros expected (st' & Hst & ?)%Hauth. exists st'. split; [set_solver|done].
Qed.

Lemma prepare_directory_always c :
  always (prepare_directory c) (fun h r => match r with Ok fd => child_directory c fd h | Err _ => True end) [].
Proof.
  unfold prepare_directory, child_directory. destruct (workspace_authorization c) as [expected|].
  - cbn [mbind Sys_bind sys_bind mret Sys_ret]. eapply always_mono.
    { apply always_and; [apply configure_always|apply (configure_discreet _ _ [])]. }
    intros h [fd|e]; [|done]. intros [(anchor & Ho & Hd & Hauth) Hharmless]. exists anchor.
    split; [done|]. split; [done|]. intros ? [= <-]. split; [by apply Hauth|].
    intros path r. by eapply harmless_creates_none.
  - eapply always_seq; [apply always_True|]. intros t [u|e] _; [|done].
    eapply always_mono; [apply configure_always|]. intros h [fd|e]; [|done].
    intros (anchor & Ho & Hd & _). exists anchor. split; [set_solver|]. split; [set_solver|done].
Qed.

End Confined.

Lemma trace_bind {S A B} (handle : forall c, S -> answer c * S) (m : Sys A) (f : A -> Sys B) s :
  trace handle (m ≫= f) s =
  trace handle m s ++ (let '(a, s') := run handle m s in trace handle (f a) s').
Proof.
  revert s. induction m as [a|c k IH]; intros s; cbn; [done|].
  destruct (handle c s) as [r s']. cbn. f_equal. apply IH.
Qed.

Lemma resolve_stdin_data `{ShellHost} `{TextDebug} `{HashOrder} params c stdin c' :
  resolve_shell_stdin params c = (Data stdin, c') -> c' = c.
Proof. unfold resolve_shell_stdin. repeat case_match; naive_solver. Qed.

(** C37: a command runs where its workspace was verified, and nowhere else.  Let
    two machines differ in what their children do and in nothing else.  On any
    file system the step ends the same on both, unless a child was started: with
    the template's bound command, in a directory whose descriptor was opened under
    the step's path and, when the run's workspace has been authorized, had the
    authorized identity, with no directory created on the way; and the two
    children end differently. *)
Theorem shell_child_confined `{ErrorText} `{JsonText} `{StringsDebug} `{TextDebug} `{HashOrder} {S}
    (handle : forall c, S -> answer c * S) (read : string -> Res string string)
    (child child' : list string -> Fd -> option string -> option Z -> ChildEnd)
    (c : StepContext) (params : Json) (s : S) :
  let shell child := @shell_step _ _ _ _ _ (Build_ShellHost read child) c params in
  run handle (shell child) s = run handle (shell child') s \/
  exists template fd stdin timeout,
    json_get "command" params ≫= json_as_str = Some template /\
    let '(command, args) := bind_shell_template template c in
    child (["bash"; "-c"; command; "luther-shell"] ++ args) fd stdin timeout <>
      child' (["bash"; "-c"; command; "luther-shell"] ++ args) fd stdin timeout /\
    child_directory c fd (trace handle (shell child) s).
Proof.
  intros shell. unfold shell, shell_step.
  destruct (json_get "command" params ≫= json_as_str) as [template|] eqn:Etemplate; [|by left].
  destruct (bind_shell_template template c) as [command args] eqn:Ebind.
  change (@resolve_shell_stdin _ _ (Build_ShellHost read child') params c)
    with (@resolve_shell_stdin _ _ (Build_ShellHost read child) params c).
  destruct (@resolve_shell_stdin _ _ (Build_ShellHost read child) params c) as [[stdin|] c'] eqn:Estdin; [|by left].
  apply resolve_stdin_data in Estdin as ->. unfold spawn_and_capture.
  rewrite !run_bind, !trace_bind. pose proof (always_run handle _ _ [] s (prepare_directory_always c)) as Hdir.
  destruct (run handle (prepare_directory c) s) as [[fd|e] s'] eqn:Erun; [|by left].
  cbn in Hdir |- *. set (timeout := json_get "timeout_seconds" params ≫= json_as_u64).
  set (argv := WORKFLOW_SHELL :: "-c" :: command :: "luther-shell" :: args).
  destruct (decide (child argv fd stdin timeout = child' argv fd stdin timeout)) as [Heq|Hne];
    [left; by rewrite Heq|].
  right. exists template, fd, stdin, timeout. rewrite Ebind. split; [done|]. split; [done|].
  rewrite run_bind, Erun. cbn. by rewrite !app_nil_r.
Qed.

(** ** Writing a file *)

Section WriteFileFacts.
Context `{Env} `{ErrorText} `{HashOrder}.

Lemma fs_write_wp path data w :
  wp (fs_write path data) (fun r w' =>
    r = Ok tt -> content <$> file_at path (w_db w') = Some data /\
    forall other, components other <> components path -> file_at other (w_db w') = file_at other (w_db w)) w.
Proof.
  unfold fs_write, write_all. apply wp_bind, wp_now. intros w1 Hw1 _. apply wp_bind, wp_fs; [done|].
  case_bool_decide; [done|]. intros w2 Hw2. apply wp_bind, wp_now. intros w3 Hw3 _. apply wp_fs; [done|].
  rewrite Hw3, Hw2. unfold file_at at 1. cbn. rewrite lookup_insert_eq. intros w4 Hw4 _.
  rewrite Hw4. unfold file_at. cbn. rewrite lookup_insert_eq. split; [done|].
  intros other Hne. rewrite !lookup_insert_ne by done. by rewrite Hw1.
Qed.

(** A step that succeeds wrote the interpolated content at the interpolated
    path, relative to the run's directory, and nothing to the context. *)
Lemma write_file_writes params w :
  wp (write_file_step params) (fun r w' =>
    r = Ok StepOutcome.Success ->
    exists path content',
      json_get "path" params ≫= json_as_str = Some path /\
      json_get "content" params ≫= json_as_str = Some content' /\
      let c := snd (w_db w) in
      snd (w_db w') = c /\
      content <$> file_at (join (sc_work_dir c) (interpolate_string path c)) (fst (w_db w')) =
        Some (interpolate_string content' c)) w.
Proof.
  unfold write_file_step. apply wp_bind, wp_lift_res.
  destruct (json_get "path" params ≫= json_as_str) as [path|]; cbn; [|done].
  apply wp_bind, wp_lift_res. destruct (json_get "content" params ≫= json_as_str) as [content'|]; cbn; [|done].
  apply wp_bind, wp_context. set (c := snd (w_db w)).
  apply wp_bind. eapply wp_consequence with (fun r w' => snd (w_db w') = c).
  - case_match; [|by apply wp_ret]. apply wp_bind, wp_on_local.
    eapply wp_consequence; [apply wp_result|]. intros r w1 _ w' _ Hctx. destruct r as [[]|e]; [by apply wp_ret| |done].
    apply wp_on_disk. eapply wp_consequence; [apply wp_result|]. intros r w2 _ w3 Hw3. by rewrite Hw3.
  - intros [u|e] w1 Hc; [|done]. apply wp_bind, wp_on_disk. eapply wp_consequence; [apply fs_write_wp|].
    intros [v|e] w2 Hwrite w3 Hw3; [|done]. destruct v. destruct (Hwrite eq_refl) as [Hcontent _].
    apply wp_ret. intros _. exists path, content'. rewrite Hw3. cbn. done.
Qed.

End WriteFileFacts.

Section Samples.

#[local] Instance listed_order : HashOrder :=
  {| keys_of := fun A m => (map_to_list m).*1; keys_of_perm := fun A m => reflexivity _ |}.

Definition titled : StepContext := set (StepContext.new "/srv/run" "run-1") "title" "a; rm -rf /".

Example bind_samples :
  bind_shell_template "gh pr create -t '{title}' --json {fields} # {title" titled =
    ("gh pr create -t ''" +:+ dquote +:+ "${1}" +:+ dquote +:+ "'' --json {fields} # {title", ["a; rm -rf /"]) /\
  quoting_clear titled false (pieces "gh pr create -t '{title}' --json {fields} # {title").1 = true.
Proof. vm_compute. done. Qed.

(** An apostrophe inside double quotes is taken for the start of single quotes:
    the double quotes written around the parameter end those of the template, and
    the parameter stands bare, between two apostrophes. *)
Lemma apostrophe_in_double_quotes :
  bind_shell_template ("echo " +:+ dquote +:+ "it's {title}" +:+ dquote) titled =
    ("echo " +:+ dquote +:+ "it's '" +:+ dquote +:+ "${1}" +:+ dquote +:+ "'" +:+ dquote, ["a; rm -rf /"]).
Proof. by vm_compute. Qed.

(** A quote inside a token that is left in place is not counted: the parameter
    behind it is written inside single quotes, where no shell expands it. *)
Lemma quote_inside_token :
  bind_shell_template "echo {'} {title} {'}" titled = ("echo {'} ${1} {'}", ["a; rm -rf /"]) /\
  quote_run (false, false) "echo {'} " = (false, true).
Proof. by vm_compute. Qed.

(** A name behind a dollar is bound although the dry run takes it for the
    shell's. *)
Lemma dollar_token_bound :
  bind_shell_template "echo ${title}" titled = ("echo $${1}", ["a; rm -rf /"]) /\
  interpolate_string "echo ${title}" titled = "echo $a; rm -rf /" /\ extract_tokens "echo ${title}" = [].
Proof. by vm_compute. Qed.

End Samples.
