(* ===== verification/CommandManifest.v ===== *)
(** Command manifests ([workflow/command_manifest.rs], their validation in
    [workflow/config_loader.rs], [components/generic/command_manifest.rs]):
    commands as argument vectors, what they expect of their end, and the step that
    runs a group of them.

    The step is a tree of system calls of [Ownership]; a child is the call [Spawn],
    so what its environment and its end are is part of the history.  Patterns are
    [Regexes]; decoding the manifest's JSON and printing a report are [ManifestText]. *)
From S2P Require Import Prelude Effects Text Digest Status Schema RunPaths StepContext Ownership Runner ScopeCharter ScopeMeasurement ScopeSteps Templates Shell.
From Stdlib Require Import Ascii.

(** ** Manifests ([workflow/command_manifest.rs]) *)

Record CapturePolicy := mkCapturePolicy {
  capture_stdout : bool;
  capture_stderr : bool;
  limit_bytes : Z
}.
Record StreamExpectations := mkStreamExpectations {
  required_patterns : list string;
  forbidden_patterns : list string
}.
Inductive ArtifactKind := AnyKind | FileKind | DirectoryKind.
Record ArtifactExpectation := mkArtifactExpectation {
  artifact_path : string;
  artifact_kind : ArtifactKind
}.
Record ArtifactExpectations := mkArtifactExpectations {
  required_artifacts : list ArtifactExpectation;
  forbidden_artifacts : list ArtifactExpectation
}.
Inductive FailureOutcome := FailFatal | FailFixable.
Record RetryPolicy := mkRetryPolicy {
  max_attempts : Z;
  retry_exit_codes : list Z
}.

Record CommandEntry := mkCommandEntry {
  ce_id : string;
  ce_argv : list string;
  working_directory : option string;
  project_subdirectory : option string;
  ce_env : gmap string string;
  timeout_seconds : option Z;
  acceptable_exit_codes : list Z;
  capture : CapturePolicy;
  ce_stdout : StreamExpectations;
  ce_stderr : StreamExpectations;
  artifacts : ArtifactExpectations;
  failure_outcome : FailureOutcome;
  retry : RetryPolicy;
  run_if_missing_any : list string;
  run_if_present_all : list string;
  remove_before_run : list string
}.
Global Instance CommandEntry_eta : Eta CommandEntry := fun e => mkCommandEntry
  (ce_id e) (ce_argv e) (working_directory e) (project_subdirectory e) (ce_env e) (timeout_seconds e)
  (acceptable_exit_codes e) (capture e) (ce_stdout e) (ce_stderr e) (artifacts e) (failure_outcome e)
  (retry e) (run_if_missing_any e) (run_if_present_all e) (remove_before_run e).

Record Manifest := mkManifest {
  commands : list CommandEntry;
  groups : gmap string (list string)
}.

(** ** Validation ([workflow/config_loader.rs]) *)

Definition refuse (bad : bool) (message : string) : Res string unit := if bad then Err message else Ok tt.

Fixpoint each (f : string -> Res string unit) (l : list string) : Res string unit :=
  match l with [] => Ok tt | a :: rest => f a;; each f rest end.

(** What keeps a path under its root: no root, no parent. *)
Definition validate_command_relative_path (id label path : string) : Res string unit :=
  refuse (str_is_empty path || has_char "\" path || unsafe_path path)
    ("command '" +:+ id +:+ "' " +:+ label +:+ " '" +:+ path +:+ "' must stay under work_dir").

Definition has_named_path_component (path : string) : bool :=
  existsb (fun component => match component with Normal _ => true | _ => false end) (components path).

Definition validate_command_removal_path (id path : string) : Res string unit :=
  refuse (negb (has_named_path_component path))
    ("command '" +:+ id +:+ "' removal path '" +:+ path +:+ "' must not target work_dir itself").

Definition validate_command_paths (e : CommandEntry) : Res string unit :=
  each (validate_command_relative_path (ce_id e) "working directory")
    (omap id [working_directory e; project_subdirectory e]);;
  each (validate_command_relative_path (ce_id e) "conditional path")
    (run_if_missing_any e ++ run_if_present_all e);;
  each (fun path => validate_command_relative_path (ce_id e) "removal path" path;;
                    validate_command_removal_path (ce_id e) path) (remove_before_run e).

Definition env_char (c : ascii) : bool := Ascii.eqb c "_" || is_ascii_uppercase c || is_ascii_digit c.
Definition valid_env_key (key : string) : bool :=
  match key with
  | "" => false
  | String c _ => all_chars env_char key && negb (is_ascii_digit c)
  end.

Definition validate_command_env (e : CommandEntry) : Res string unit :=
  each (fun key => refuse (negb (valid_env_key key))
          ("command '" +:+ ce_id e +:+ "' env key '" +:+ key +:+ "' is invalid"))
    (merge_sort String.le (map_to_list (ce_env e)).*1).

Definition entry_patterns (e : CommandEntry) : list string :=
  required_patterns (ce_stdout e) ++ forbidden_patterns (ce_stdout e)
  ++ required_patterns (ce_stderr e) ++ forbidden_patterns (ce_stderr e).

Definition validate_command_patterns `{Regexes} (e : CommandEntry) : Res string unit :=
  each (fun pattern => refuse (negb (valid_regex pattern))
          ("command '" +:+ ce_id e +:+ "' has invalid regex '" +:+ pattern +:+ "': " +:+ regex_error pattern))
    (entry_patterns e).

Definition validate_command_numbers (e : CommandEntry) : Res string unit :=
  refuse (bool_decide (timeout_seconds e = Some 0%Z) || (limit_bytes (capture e) =? 0)%Z)
    ("command '" +:+ ce_id e +:+ "' timeout and capture limits must be positive");;
  refuse ((0 <? max_attempts (retry e))%Z && bool_decide (retry_exit_codes (retry e) = []))
    ("command '" +:+ ce_id e +:+ "' retry policy requires retry_exit_codes").

Definition validate_command_entry `{Regexes} (ids : list string) (e : CommandEntry) : Res string unit :=
  refuse (str_is_empty (ce_id e) || bool_decide (ce_id e ∈ ids))
    ("duplicate or empty command id '" +:+ ce_id e +:+ "'");;
  refuse (bool_decide (ce_argv e = []) || existsb str_is_empty (ce_argv e))
    ("command '" +:+ ce_id e +:+ "' argv must not be empty");;
  validate_command_paths e;;
  validate_command_env e;;
  validate_command_patterns e;;
  validate_command_numbers e.

Fixpoint validate_entries `{Regexes} (ids : list string) (l : list CommandEntry) : Res string unit :=
  match l with
  | [] => Ok tt
  | e :: rest => validate_command_entry ids e;; validate_entries (ce_id e :: ids) rest
  end.

Definition command_manifest_entry (m : Manifest) (id : string) : Res string CommandEntry :=
  ok_or (List.find (fun e => ce_id e =?s id) (commands m)) ("unknown command manifest id '" +:+ id +:+ "'").

Fixpoint validate_groups (m : Manifest) (l : list (string * list string)) : Res string unit :=
  match l with
  | [] => Ok tt
  | (group_id, ids) :: rest =>
      refuse (str_is_empty group_id || bool_decide (ids = []))
        "command manifest groups require ids and command ids";;
      each (fun id => command_manifest_entry m id;; mret tt) ids;;
      validate_groups m rest
  end.

Definition validate_command_manifest `{Regexes} (m : Manifest) : Res string unit :=
  validate_entries [] (commands m);;
  validate_groups m (merge_sort key_le (map_to_list (groups m))).

(** ** Running an entry ([components/generic/command_manifest.rs]) *)

Definition MANIFEST_GROUP_TIMEOUT_SECONDS : Z := 900.

(** The [?] of functions that return [Result<_, String>]. *)
Definition text_bind {A B} (m : Sys (Res string A)) (f : A -> Sys (Res string B)) : Sys (Res string B) :=
  r ← m; match r with Ok a => f a | Err e => mret (Err e) end.
Notation "x <~? m ;; k" := (text_bind m (fun x => k)) (at level 100, m at next level, right associativity).

Definition path_exists (path : string) : Sys bool := r ← call (StatPath path); mret (is_ok r).

Definition manifest_relative_path (work_dir relative : string) : Res string string :=
  if str_is_empty relative || has_char "\" relative || unsafe_path relative
  then Err ("manifest path must stay under work_dir: " +:+ relative)
  else Ok (join work_dir relative).

Definition manifest_removal_path (work_dir relative : string) : Res string string :=
  path ← manifest_relative_path work_dir relative;
  if negb (has_named_path_component relative)
  then Err ("remove_before_run path must not target work_dir itself: " +:+ relative)
  else Ok path.

Fixpoint any_missing (work_dir : string) (paths : list string) : Sys (Res string bool) :=
  match paths with
  | [] => mret (Ok false)
  | path :: rest =>
      full <~? mret (manifest_relative_path work_dir path);;
      present ← path_exists full;
      if present : bool then any_missing work_dir rest else mret (Ok true)
  end.
Fixpoint all_present (work_dir : string) (paths : list string) : Sys (Res string bool) :=
  match paths with
  | [] => mret (Ok true)
  | path :: rest =>
      full <~? mret (manifest_relative_path work_dir path);;
      present ← path_exists full;
      if present : bool then all_present work_dir rest else mret (Ok false)
  end.

Definition entry_conditions_match (e : CommandEntry) (work_dir : string) : Sys (Res string bool) :=
  if bool_decide (run_if_missing_any e = []) then all_present work_dir (run_if_present_all e)
  else
    missing <~? any_missing work_dir (run_if_missing_any e);;
    if missing : bool then all_present work_dir (run_if_present_all e) else mret (Ok false).

(** *** Removing paths *)

(** [Path::file_name] *)
Definition file_name (path : string) : option string :=
  match last (components path) with Some (Normal name) => Some name | _ => None end.

Section Run.
Context `{ErrorText} `{Process} `{Regexes}.

Definition removal_root (work_dir : string) : Sys (Res string string) :=
  r ← canonicalize work_dir;
  mret (res_map_err (fun e => "inspect removal root '" +:+ work_dir +:+ "': " +:+ os_error_display e) r).

Definition stays_under (e : CommandEntry) (path canonical root : string) : Res string unit :=
  if path_starts_with canonical root then Ok tt
  else Err ("remove command '" +:+ ce_id e +:+ "' path '" +:+ path +:+ "' must stay under work_dir").

Definition validate_removal_target (e : CommandEntry) (work_dir path : string) (meta : Stat)
    : Sys (Res string unit) :=
  root <~? removal_root work_dir;;
  let parent_dir := default root (Ownership.parent path) in
  canonical_parent <~? (r ← canonicalize parent_dir;
    mret (res_map_err (fun err => "inspect command '" +:+ ce_id e +:+ "' removal parent '" +:+ parent_dir
            +:+ "': " +:+ os_error_display err) r));;
  _ <~? mret (stays_under e path canonical_parent root);;
  if is_symlink meta then mret (Ok tt)
  else
    canonical_path <~? (r ← canonicalize path;
      mret (res_map_err (fun err => "inspect command '" +:+ ce_id e +:+ "' removal path '" +:+ path
              +:+ "': " +:+ os_error_display err) r));;
    mret (stays_under e path canonical_path root).

Definition tombstone_name (index : nat) (stamp : Z) (name : string) : string :=
  ".luther-removing-" +:+ pretty Effects.process_id +:+ "-" +:+ pretty index +:+ "-" +:+ pretty stamp +:+ "-" +:+ name.

Definition tombstone_path (path : string) (index : nat) : Sys string :=
  stamp ← call NowNanos;
  mret (join (default "." (Ownership.parent path))
          (tombstone_name index (Z.max 0 stamp) (default "manifest-path" (file_name path)))).

Definition removing (verb : string) (e : CommandEntry) (path : string) (r : Res Errno unit) : Res string unit :=
  res_map_err (fun err => verb +:+ " command '" +:+ ce_id e +:+ "' path '" +:+ path +:+ "': "
                          +:+ os_error_display err) r.

Definition remove_tombstone (e : CommandEntry) (tombstone : string) : Sys (Res string unit) :=
  meta <~? (r ← call (Lstat tombstone);
    mret (res_map_err (fun err => "inspect command '" +:+ ce_id e +:+ "' removal path '" +:+ tombstone
            +:+ "': " +:+ os_error_display err) r));;
  if is_dir meta && negb (is_symlink meta)
  then r ← call (RemoveDirAll tombstone); mret (removing "remove" e tombstone r)
  else r ← call (RemoveFile tombstone); mret (removing "remove" e tombstone r).

Definition remove_manifest_path (e : CommandEntry) (work_dir path : string) (index : nat)
    : Sys (Res string unit) :=
  meta ← call (Lstat path);
  match meta with
  | Err _ => mret (Ok tt)
  | Ok meta =>
      _ <~? validate_removal_target e work_dir path meta;;
      tombstone ← tombstone_path path index;
      _ <~? (r ← call (RenamePath path tombstone);
        mret (res_map_err (fun err => "rename command '" +:+ ce_id e +:+ "' path '" +:+ path
                +:+ "' for removal: " +:+ os_error_display err) r));;
      removed ← remove_tombstone e tombstone;
      match removed with
      | Ok _ => mret (Ok tt)
      | Err err => _ ← call (RenamePath tombstone path); mret (Err err)
      end
  end.

Fixpoint remove_paths_from (e : CommandEntry) (work_dir : string) (index : nat) (paths : list string)
    : Sys (Res string unit) :=
  match paths with
  | [] => mret (Ok tt)
  | relative :: rest =>
      path <~? mret (manifest_removal_path work_dir relative);;
      _ <~? remove_manifest_path e work_dir path index;;
      remove_paths_from e work_dir (S index) rest
  end.
Definition remove_manifest_paths (e : CommandEntry) (work_dir : string) : Sys (Res string unit) :=
  remove_paths_from e work_dir 0 (remove_before_run e).

(** *** The request *)

Record ManifestPathContext := mkPathContext {
  repo_root : string;
  default_working_directory : string;
  artifact_base_directory : string
}.

Definition context_path (c : StepContext) (key : string) : string :=
  match get c key with
  | Some value => if str_is_empty value then sc_work_dir c else value
  | None => sc_work_dir c
  end.

Definition manifest_default_working_directory (c : StepContext) : string :=
  match get c "default_command_cwd" with
  | Some value => if str_is_empty value then context_path c "project_dir" else join (sc_work_dir c) value
  | None => context_path c "project_dir"
  end.

Definition manifest_path_context_from_step (c : StepContext) : ManifestPathContext :=
  mkPathContext (sc_work_dir c) (manifest_default_working_directory c) (context_path c "artifact_base_dir").

Record ManifestCommandRequest := mkRequest {
  rq_command_id : string;
  rq_argv : list string;
  rq_working_directory : string;
  rq_artifact_base_directory : string;
  rq_timeout_seconds : Z;
  rq_env : gmap string string;
  rq_acceptable_exit_codes : list Z;
  rq_capture : CapturePolicy;
  rq_stdout : StreamExpectations;
  rq_stderr : StreamExpectations;
  rq_artifacts : ArtifactExpectations;
  rq_failure_outcome : FailureOutcome;
  rq_retry : RetryPolicy
}.

Definition validate_manifest_working_directory (work_dir candidate : string) : Sys (Res string unit) :=
  base <~? (r ← canonicalize work_dir;
    mret (res_map_err (fun err => "canonicalize work_dir: " +:+ os_error_display err) r));;
  canonical <~? (r ← canonicalize candidate;
    mret (res_map_err (fun err => "canonicalize manifest working_directory: " +:+ os_error_display err) r));;
  mret (if path_starts_with canonical base then Ok tt
        else Err "manifest working_directory must stay under workflow work_dir").

Definition manifest_working_directory (e : CommandEntry) (paths : ManifestPathContext) : Sys (Res string string) :=
  let candidate :=
    match opt_or (working_directory e) (project_subdirectory e) with
    | Some relative => join (repo_root paths) relative
    | None => default_working_directory paths
    end in
  _ <~? validate_manifest_working_directory (repo_root paths) candidate;;
  mret (Ok candidate).

Definition request_from_entry_with_paths (e : CommandEntry) (paths : ManifestPathContext) (default_timeout : Z)
    : Sys (Res string ManifestCommandRequest) :=
  dir <~? manifest_working_directory e paths;;
  mret (Ok {|
    rq_command_id := ce_id e;
    rq_argv := ce_argv e;
    rq_working_directory := dir;
    rq_artifact_base_directory := artifact_base_directory paths;
    rq_timeout_seconds := default default_timeout (timeout_seconds e);
    rq_env := ce_env e;
    rq_acceptable_exit_codes := acceptable_exit_codes e;
    rq_capture := capture e;
    rq_stdout := ce_stdout e;
    rq_stderr := ce_stderr e;
    rq_artifacts := artifacts e;
    rq_failure_outcome := failure_outcome e;
    rq_retry := retry e
  |}).

Definition request_from_entry (e : CommandEntry) (work_dir : string) (default_timeout : Z)
    : Sys (Res string ManifestCommandRequest) :=
  request_from_entry_with_paths e (mkPathContext work_dir work_dir work_dir) default_timeout.

End Run.

(** *** Running it *)

(** The variables of this process's own environment, where they are text; what
    a manifest's JSON decodes to, and how a value is printed. *)
Class ManifestText := {
  host_env : string -> option string;
  manifest_from_value : Json -> Res string Manifest;
  json_display : Json -> string
}.

Definition ALLOWED_COMMAND_ENVIRONMENT : list string :=
  ["CARGO_HOME"; "GEM_HOME"; "GEM_PATH"; "GOCACHE"; "GOMODCACHE"; "GOPATH"; "HOME"; "LANG"; "LC_ALL";
   "LC_CTYPE"; "NODE_PATH"; "NPM_CONFIG_CACHE"; "PATH"; "PYENV_ROOT"; "RUSTUP_HOME"; "SSL_CERT_FILE";
   "TMPDIR"; "USER"].

(** A character boundary of UTF-8 text. *)
Definition is_char_boundary (text : string) (n : nat) : bool :=
  match n with
  | O => true
  | _ => match String.get n text with
         | Some b => negb (continuation b)
         | None => bool_decide (n = String.length text)
         end
  end.
Fixpoint floor_boundary (text : string) (n : nat) : nat :=
  if is_char_boundary text n then n else match n with O => O | S m => floor_boundary text m end.

Definition newline : string := String "010" "".

Definition bounded_excerpt (text : string) (limit : Z) : string :=
  if (Z.of_nat (String.length text) <=? limit)%Z then text
  else String.substring 0 (floor_boundary text (Z.to_nat limit)) text +:+ newline +:+ "...[truncated]".

Definition captured_excerpt (enabled : bool) (text : string) (limit : Z) : string :=
  if enabled then bounded_excerpt text limit else "".

(** A stream's text as its reader leaves it: a byte more than the limit, so that
    the excerpt knows. *)
Definition read_bounded_text (limit : Z) (stream : option Bytes) : string :=
  match stream with
  | Some bytes => from_utf8_lossy (String.substring 0 (Z.to_nat limit + 1) bytes)
  | None => ""
  end.

Record ManifestCommandResult := mkResult {
  mr_command_id : string;
  mr_argv : list string;
  mr_working_directory : string;
  mr_exit_code : option Z;
  mr_timed_out : bool;
  bounded_stdout : string;
  bounded_stderr : string;
  mr_expectation_failures : list string;
  mr_artifact_failures : list string;
  mr_failure_outcome : FailureOutcome;
  spawn_error : option string
}.

Definition passed (r : ManifestCommandResult) : bool :=
  bool_decide (spawn_error r = None) && negb (mr_timed_out r)
  && bool_decide (mr_expectation_failures r = []) && bool_decide (mr_artifact_failures r = []).

Definition status (r : ManifestCommandResult) : string :=
  if passed r then "passed"
  else match mr_failure_outcome r, spawn_error r with
       | FailFatal, _ | _, Some _ => "fatal"
       | FailFixable, None => "failed"
       end.

Section Command.
Context `{ErrorText} `{Process} `{Regexes} `{ManifestText}.

Definition apply_allowed_command_environment : gmap string string :=
  list_to_map (omap (fun key => pair key <$> host_env key) ALLOWED_COMMAND_ENVIRONMENT).

Definition manifest_environment (rq : ManifestCommandRequest) : gmap string string :=
  rq_env rq ∪ <["PWD" := rq_working_directory rq]> apply_allowed_command_environment.

(** [spawn_manifest_child] and [wait_for_manifest_child]: one attempt. *)
Definition spawn_manifest_child (rq : ManifestCommandRequest) : Sys (Res string ChildCapture) :=
  match rq_argv rq with
  | [] => mret (Err "manifest argv must not be empty")
  | _ => call (Spawn (mkChildRequest (rq_argv rq) (rq_working_directory rq) (manifest_environment rq)
                        (rq_timeout_seconds rq)))
  end.

Definition should_retry_manifest_result (rq : ManifestCommandRequest) (code : option Z)
    (attempts_remaining : Z) : bool :=
  (1 <? attempts_remaining)%Z
  && match code with Some code => bool_decide (code ∈ retry_exit_codes (rq_retry rq)) | None => false end.

Definition pattern_failures (stream text : string) (expected : StreamExpectations) : list string :=
  ((fun pattern => stream +:+ " missing required pattern " +:+ pattern) <$>
     List.filter (fun pattern => negb (valid_regex pattern && is_match pattern text)) (required_patterns expected))
  ++ ((fun pattern => stream +:+ " matched forbidden pattern " +:+ pattern) <$>
     List.filter (fun pattern => valid_regex pattern && is_match pattern text) (forbidden_patterns expected)).

Definition acceptable (rq : ManifestCommandRequest) (code : option Z) : bool :=
  match code with Some code => bool_decide (code ∈ rq_acceptable_exit_codes rq) | None => false end.

Definition expectation_failures (rq : ManifestCommandRequest) (code : option Z) (stdout stderr : string)
    : list string :=
  (if acceptable rq code then [] else ["exit code " +:+ debug_opt_int code +:+ " was not acceptable"])
  ++ pattern_failures "stdout" stdout (rq_stdout rq)
  ++ pattern_failures "stderr" stderr (rq_stderr rq).

Definition artifact_path_under_root (root artifact : string) : option string :=
  if unsafe_path artifact then None else Some (join root artifact).

Definition resolved_artifact_path_under_root (root path : string) : Sys (option string) :=
  root ← canonicalize root;
  match root with
  | Err _ => mret None
  | Ok root =>
      path ← canonicalize path;
      mret match path with
           | Ok path => if path_starts_with path root then Some path else None
           | Err _ => None
           end
  end.

Definition artifact_matches (root : string) (a : ArtifactExpectation) : Sys bool :=
  match artifact_path_under_root root (artifact_path a) with
  | None => mret false
  | Some path =>
      resolved ← resolved_artifact_path_under_root root path;
      match resolved with
      | None => mret false
      | Some path =>
          st ← call (StatPath path);
          mret match st with
               | Err _ => false
               | Ok st => match artifact_kind a with
                          | AnyKind => true
                          | FileKind => is_file st
                          | DirectoryKind => is_dir st
                          end
               end
      end
  end.

Fixpoint artifacts_failing (present : bool) (text : string) (root : string) (l : list ArtifactExpectation)
    : Sys (list string) :=
  match l with
  | [] => mret []
  | a :: rest =>
      found ← artifact_matches root a;
      failures ← artifacts_failing present text root rest;
      mret (if Bool.eqb found present then failures else (text +:+ artifact_path a) :: failures)
  end.

Definition artifact_failures (rq : ManifestCommandRequest) : Sys (list string) :=
  missing ← artifacts_failing true "required artifact missing: " (rq_artifact_base_directory rq)
    (required_artifacts (rq_artifacts rq));
  present ← artifacts_failing false "forbidden artifact present: " (rq_artifact_base_directory rq)
    (forbidden_artifacts (rq_artifacts rq));
  mret (missing ++ present).

Definition manifest_process_result (rq : ManifestCommandRequest) (output : ChildCapture)
    : Sys ManifestCommandResult :=
  let limit := limit_bytes (rq_capture rq) in
  let stdout := read_bounded_text limit (child_stdout output) in
  let stderr := read_bounded_text limit (child_stderr output) in
  let expectation := expectation_failures rq (exit_code output) stdout stderr in
  failing ← artifact_failures rq;
  mret {|
    mr_command_id := rq_command_id rq;
    mr_argv := rq_argv rq;
    mr_working_directory := rq_working_directory rq;
    mr_exit_code := exit_code output;
    mr_timed_out := timed_out output;
    bounded_stdout := captured_excerpt (capture_stdout (rq_capture rq)) stdout limit;
    bounded_stderr := captured_excerpt (capture_stderr (rq_capture rq)) stderr limit;
    mr_expectation_failures := expectation ++ (if timed_out output then ["command timed out"] else []);
    mr_artifact_failures := failing;
    mr_failure_outcome := rq_failure_outcome rq;
    spawn_error := None
  |}.

Definition manifest_spawn_error (rq : ManifestCommandRequest) (err : string) : ManifestCommandResult := {|
  mr_command_id := rq_command_id rq;
  mr_argv := rq_argv rq;
  mr_working_directory := rq_working_directory rq;
  mr_exit_code := None;
  mr_timed_out := false;
  bounded_stdout := "";
  bounded_stderr := bounded_excerpt err (limit_bytes (rq_capture rq));
  mr_expectation_failures := [];
  mr_artifact_failures := [];
  mr_failure_outcome := FailFatal;
  spawn_error := Some err
|}.

(** The loop; [attempts_remaining] is the counter of the code. *)
Fixpoint attempts_from (rq : ManifestCommandRequest) (attempts_remaining : nat) : Sys ManifestCommandResult :=
  output ← spawn_manifest_child rq;
  match output with
  | Err err => mret (manifest_spawn_error rq err)
  | Ok output =>
      match attempts_remaining with
      | S attempts =>
          if should_retry_manifest_result rq (exit_code output) (Z.of_nat attempts_remaining)
          then attempts_from rq attempts
          else manifest_process_result rq output
      | O => manifest_process_result rq output
      end
  end.

Definition total_attempts (rq : ManifestCommandRequest) : nat :=
  Z.to_nat (Z.min (max_attempts (rq_retry rq) + 1) u32_max).

Definition run_manifest_command (rq : ManifestCommandRequest) : Sys ManifestCommandResult :=
  attempts_from rq (total_attempts rq).

Definition run_manifest_entry (e : CommandEntry) (paths : ManifestPathContext) (default_timeout : Z)
    : Sys (Res string (option ManifestCommandResult)) :=
  wanted <~? entry_conditions_match e (repo_root paths);;
  if negb wanted then mret (Ok None)
  else
    _ <~? remove_manifest_paths e (repo_root paths);;
    rq <~? request_from_entry_with_paths e paths default_timeout;;
    result ← run_manifest_command rq;
    mret (Ok (Some result)).

(** ** The step *)

Definition group_error (message : string) : EngineError := StepExecutionError "command_manifest_group" message.

(** [unresolved_template_token]: the braces from the left, each with the text up
    to the next closing one. *)
Definition token_char (c : ascii) : bool := is_ascii_alphanumeric c || Ascii.eqb c "_" || Ascii.eqb c ".".
Definition token_candidate (s : string) : bool := negb (str_is_empty s) && all_chars token_char s.

Fixpoint unresolved_from (fuel : nat) (rest : string) : option string :=
  match fuel with
  | O => None
  | S fuel =>
      '(_, after) ← split_once "{" rest;
      '(candidate, _) ← split_once "}" after;
      if token_candidate candidate then Some candidate else unresolved_from fuel after
  end.
Definition unresolved_template_token (value : string) : option string :=
  unresolved_from (String.length value) value.

Section Step.
Context `{HashOrder}.

Definition resolve_manifest_group_id (params : Json) (c : StepContext) (default_id : string)
    : Res string string :=
  let raw_group_id := default default_id (json_get "command_manifest_group" params ≫= json_as_str) in
  let group_id := interpolate_string raw_group_id c in
  if has_char "{" group_id || has_char "}" group_id
  then Err ("command_manifest_group contains unresolved template token: " +:+ group_id)
  else Ok group_id.

Definition resolve_argument (id : string) (c : StepContext) (argument : string) : Res string string :=
  let value := interpolate_string argument c in
  match unresolved_template_token value with
  | Some token => Err ("command '" +:+ id +:+ "' argv contains unresolved template token '" +:+ token
                       +:+ "': " +:+ value)
  | None => Ok value
  end.

Definition resolve_entry_argv (e : CommandEntry) (c : StepContext) : Res string CommandEntry :=
  argv ← mapM (resolve_argument (ce_id e) c) (ce_argv e);
  mret (mkCommandEntry (ce_id e) argv (working_directory e) (project_subdirectory e) (ce_env e)
          (timeout_seconds e) (acceptable_exit_codes e) (capture e) (ce_stdout e) (ce_stderr e) (artifacts e)
          (failure_outcome e) (retry e) (run_if_missing_any e) (run_if_present_all e) (remove_before_run e)).

Definition parse_command_manifest (params : Json) : Res EngineError Manifest :=
  value ← ok_or (json_get "command_manifest" params) (group_error "command_manifest_group requires command_manifest");
  if bool_decide (is_Some (json_get "command" value)) || bool_decide (is_Some (json_get "shell" value))
  then Err (group_error "shell-string command manifests are forbidden")
  else
    manifest ← res_map_err (fun err => group_error ("invalid command_manifest: " +:+ err)) (manifest_from_value value);
    res_map_err group_error (validate_command_manifest manifest);;
    mret manifest.

Definition json_as_bool (j : Json) : option bool := match j with JBool b => Some b | _ => None end.
Definition json_strings (l : list string) : Json := JArray (JString <$> l).

Definition manifest_group_failure_stdout (r : ManifestCommandResult) : string :=
  json_display (JObject (list_to_map [
    ("command_id", JString (mr_command_id r)); ("argv", json_strings (mr_argv r));
    ("working_directory", JString (mr_working_directory r));
    ("exit_code", from_option JInt JNull (mr_exit_code r)); ("timed_out", JBool (mr_timed_out r));
    ("status", JString (status r)); ("stdout", JString (bounded_stdout r)); ("stderr", JString (bounded_stderr r));
    ("expectation_failures", json_strings (mr_expectation_failures r));
    ("artifact_failures", json_strings (mr_artifact_failures r));
    ("spawn_error", from_option JString JNull (spawn_error r))])).

Definition group_outcome (f : FailureOutcome) : StepOutcome.t :=
  match f with FailFatal => StepOutcome.Fatal | FailFixable => StepOutcome.Fixable end.

(** [collect] into a [BTreeMap]: the last entry of an id stays. *)
Definition commands_by_id (m : Manifest) : gmap string CommandEntry :=
  fold_left (fun known e => <[ce_id e := e]> known) (commands m) ∅.

Fixpoint run_group (m : Manifest) (paths : ManifestPathContext) (default_timeout : Z) (ids : list string)
    (c : StepContext) : Sys (Res EngineError StepOutcome.t * StepContext) :=
  match ids with
  | [] => mret (Ok StepOutcome.Success, c)
  | command_id :: rest =>
      let entry := entry ← ok_or (commands_by_id m !! command_id)
                     ("unknown command manifest id '" +:+ command_id +:+ "'");
                   resolve_entry_argv entry c in
      match entry with
      | Err message => mret (Err (group_error message), c)
      | Ok entry =>
          result ← run_manifest_entry entry paths default_timeout;
          match result with
          | Err message => mret (Err (group_error message), c)
          | Ok None => run_group m paths default_timeout rest c
          | Ok (Some result) =>
              if passed result then run_group m paths default_timeout rest c
              else mret (Ok (group_outcome (mr_failure_outcome result)),
                         set (set c "stdout" (manifest_group_failure_stdout result))
                           "stderr" (bounded_stderr result))
          end
      end
  end.

(** [execute_manifest_group] *)
Definition execute_manifest_group (c : StepContext) (params : Json)
    : Sys (Res EngineError StepOutcome.t * StepContext) :=
  match resolve_manifest_group_id params c "" with
  | Err message => mret (Err (group_error message), c)
  | Ok group_id =>
      if str_is_empty (trim group_id) then
        mret (if default false (json_get "allow_empty_group" params ≫= json_as_bool)
              then Ok StepOutcome.Success
              else Err (group_error (if bool_decide (is_Some (json_get "command_manifest_group" params))
                                     then "command_manifest_group must not be empty"
                                     else "command_manifest_group is required")), c)
      else
        match parse_command_manifest params with
        | Err e => mret (Err e, c)
        | Ok manifest =>
            let default_timeout := default MANIFEST_GROUP_TIMEOUT_SECONDS
              (json_get "timeout_seconds" params ≫= json_as_u64) in
            match groups manifest !! group_id with
            | None => mret (Err (group_error ("unknown command_manifest group '" +:+ group_id +:+ "'")), c)
            | Some ids => run_group manifest (manifest_path_context_from_step c) default_timeout ids c
            end
        end
  end.

End Step.
End Command.

(** ** What validation promises the step *)

Lemma refuse_Ok bad message : refuse bad message = Ok tt <-> bad = false.
Proof. by destruct bad. Qed.

Lemma each_Ok f l : each f l = Ok tt <-> forall a, a ∈ l -> f a = Ok tt.
Proof.
  induction l as [|a l IH]; cbn; [set_solver|]. rewrite unit_bind_Ok, IH. set_solver.
Qed.

(** The path checks of the step are those of the validation. *)
Lemma relative_path_checked id label path work_dir :
  validate_command_relative_path id label path = Ok tt ->
  manifest_relative_path work_dir path = Ok (join work_dir path).
Proof. unfold validate_command_relative_path, manifest_relative_path. by intros ->%refuse_Ok. Qed.

Lemma removal_path_checked id label path work_dir :
  validate_command_relative_path id label path = Ok tt -> validate_command_removal_path id path = Ok tt ->
  manifest_removal_path work_dir path = Ok (join work_dir path).
Proof.
  intros Hrel Hrem%refuse_Ok. unfold manifest_removal_path. rewrite (relative_path_checked _ _ _ work_dir Hrel).
  cbn. by rewrite Hrem.
Qed.

(** What the step relies on, of one entry. *)
Definition entry_runs `{Regexes} (e : CommandEntry) : Prop :=
  ce_argv e <> [] /\
  (forall work_dir path, path ∈ run_if_missing_any e \/ path ∈ run_if_present_all e ->
     manifest_relative_path work_dir path = Ok (join work_dir path)) /\
  (forall work_dir path, path ∈ remove_before_run e ->
     manifest_removal_path work_dir path = Ok (join work_dir path)) /\
  (forall pattern, pattern ∈ entry_patterns e -> valid_regex pattern = true) /\
  (forall key value, ce_env e !! key = Some value -> valid_env_key key = true) /\
  timeout_seconds e <> Some 0%Z /\ limit_bytes (capture e) <> 0%Z.

Section Validated.
Context `{Regexes}.

Lemma validate_command_entry_Ok ids e :
  validate_command_entry ids e = Ok tt -> ce_id e ∉ ids /\ entry_runs e.
Proof.
  unfold validate_command_entry, validate_command_paths, validate_command_env, validate_command_patterns,
    validate_command_numbers.
  rewrite !unit_bind_Ok, !refuse_Ok, !each_Ok. intros (Hid & Hargv & (_ & Hcond & Hrem) & Henv & Hpat & Hnum & _).
  bool_hyps. split; [done|]. unfold entry_runs. split_and!; try done.
  - intros work_dir path Hin. eapply relative_path_checked, Hcond. by apply elem_of_app.
  - intros work_dir path Hin. apply Hrem in Hin. apply unit_bind_Ok in Hin as [? ?].
    by eapply removal_path_checked.
  - intros pattern Hin. apply Hpat in Hin. apply refuse_Ok in Hin. by apply negb_false_iff.
  - intros key value Hkey. apply negb_false_iff. eapply refuse_Ok, Henv. rewrite merge_sort_Permutation.
    apply list_elem_of_fmap. exists (key, value). split; [done|]. by apply elem_of_map_to_list.
  - by apply Z.eqb_neq.
Qed.

Lemma validate_entries_Ok ids l :
  validate_entries ids l = Ok tt ->
  NoDup (ce_id <$> l) /\ (forall e, e ∈ l -> ce_id e ∉ ids /\ entry_runs e).
Proof.
  revert ids. induction l as [|e l IH]; intros ids; cbn; [intros _; split; [constructor|set_solver]|].
  rewrite unit_bind_Ok. intros [He%validate_command_entry_Ok [Hnd Hall]%IH]. split.
  - constructor; [|done]. intros (e' & Heq & Hin)%list_elem_of_fmap. apply Hall in Hin as [Hin _]. set_solver.
  - intros e' [->|Hin]%elem_of_cons; [done|]. apply Hall in Hin as [? ?]. set_solver.
Qed.

Lemma commands_by_id_fold l (known : gmap string CommandEntry) e :
  NoDup (ce_id <$> l) -> e ∈ l ->
  fold_left (fun known e => <[ce_id e := e]> known) l known !! ce_id e = Some e.
Proof.
  revert known. induction l as [|a l IH]; intros known; cbn; [set_solver|].
  intros [Ha Hnd]%NoDup_cons [->|Hin]%elem_of_cons; [|by apply IH].
  assert (Hother : forall known : gmap string CommandEntry, known !! ce_id a = Some a ->
            fold_left (fun known e => <[ce_id e := e]> known) l known !! ce_id a = Some a).
  { clear -Ha. induction l as [|b l IHl]; intros known Hk; cbn; [done|]. apply IHl; [set_solver|].
    rewrite lookup_insert_ne; [done|]. set_solver. }
  apply Hother. by rewrite lookup_insert_eq.
Qed.

Lemma validate_groups_Ok m l :
  validate_groups m l = Ok tt ->
  forall group_id ids, (group_id, ids) ∈ l ->
    ids <> [] /\ forall id, id ∈ ids -> exists e, command_manifest_entry m id = Ok e.
Proof.
  induction l as [|[g gids] l IH]; cbn; [set_solver|]. rewrite !unit_bind_Ok, refuse_Ok, each_Ok.
  intros (Hne & Hids & Hrest) group_id ids [[= -> ->]|Hin]%elem_of_cons; [|by eapply IH].
  bool_hyps. split; [done|]. intros id Hid. apply Hids in Hid.
  destruct (command_manifest_entry m id) as [e|]; [by exists e|done].
Qed.

End Validated.

(** C38: a manifest that was validated cannot fail for its own sake.  Every
    command of every group is found, the same by the step's map of ids as by the
    validator's search; and of every entry the checks the step repeats pass in any
    work directory: an argument vector that is not empty, paths that stay under it,
    removals that do not name it, patterns that compile. *)
Theorem validated_manifest_runs `{Regexes} (m : Manifest) :
  validate_command_manifest m = Ok tt ->
  (forall group_id ids id, groups m !! group_id = Some ids -> id ∈ ids ->
     exists e, commands_by_id m !! id = Some e /\ command_manifest_entry m id = Ok e /\ entry_runs e) /\
  forall e, e ∈ commands m -> entry_runs e /\ commands_by_id m !! ce_id e = Some e.
Proof.
  unfold validate_command_manifest. rewrite unit_bind_Ok. intros [[Hnd Hall]%validate_entries_Ok Hgroups].
  assert (Hknown : forall e, e ∈ commands m -> entry_runs e /\ commands_by_id m !! ce_id e = Some e).
  { intros e He. split; [by apply Hall|]. by apply commands_by_id_fold. }
  split; [|done]. intros group_id ids id Hg Hid.
  assert ((group_id, ids) ∈ merge_sort key_le (map_to_list (groups m))) as Hin.
  { rewrite merge_sort_Permutation. by apply elem_of_map_to_list. }
  destruct (validate_groups_Ok _ _ Hgroups _ _ Hin) as [_ Hfound]. destruct (Hfound id Hid) as [e He].
  exists e. unfold command_manifest_entry in He. destruct (List.find _ _) as [e'|] eqn:Ef; [|done].
  cbn in He. injection He as ->. pose proof Ef as Ef'.
  apply find_some in Ef as [He%list_elem_of_In Hide%bool_decide_eq_true]. subst id.
  destruct (Hknown e He) as [? ?]. split_and!; [done| |done]. unfold command_manifest_entry. by rewrite Ef'.
Qed.

(** ** Removals stay in the repository *)

Section Removal.
Context `{ErrorText} `{Process}.
Variables (e : CommandEntry) (work_dir : string).

(** A path of the entry whose place was looked up: its parent resolves to a
    directory under the root's, and unless it is a symbolic link so does the path. *)
Definition confined_path (past : History) (path : string) : Prop :=
  (exists relative, relative ∈ remove_before_run e /\ manifest_removal_path work_dir relative = Ok path) /\
  exists root canonical_parent meta,
    Canonicalize work_dir ↦ Ok root ∈ past /\
    Canonicalize (default root (Ownership.parent path)) ↦ Ok canonical_parent ∈ past /\
    path_starts_with canonical_parent root = true /\
    Lstat path ↦ Ok meta ∈ past /\
    (is_symlink meta = true \/
     exists canonical, Canonicalize path ↦ Ok canonical ∈ past /\ path_starts_with canonical root = true).

Definition is_tombstone (path tombstone : string) : Prop :=
  exists index stamp, tombstone =
    join (default "." (Ownership.parent path)) (tombstone_name index stamp (default "manifest-path" (file_name path))).

(** Only a confined path is renamed, to a tombstone beside it; only such a
    tombstone is removed, or renamed back. *)
Definition removal_permitted (past : History) (ev : Event) : Prop :=
  match projT1 ev with
  | Lstat _ | Canonicalize _ | NowNanos => True
  | RenamePath from to =>
      (confined_path past from /\ is_tombstone from to) \/
      (confined_path past to /\ is_tombstone to from /\ RenamePath to from ↦ Ok tt ∈ past)
  | RemoveDirAll tombstone | RemoveFile tombstone =>
      exists path, confined_path past path /\ is_tombstone path tombstone /\
        RenamePath path tombstone ↦ Ok tt ∈ past
  | _ => False
  end.

Abbreviation guards past h := (guarded removal_permitted past h).

Lemma confined_more past past' path : confined_path past path -> confined_path (past ++ past') path.
Proof.
  intros [Hrel (root & cp & meta & Hr & Hp & Hs & Hl & Hsym)]. split; [done|].
  exists root, cp, meta. split_and!; try (apply elem_of_app; by left); [done|].
  destruct Hsym as [?|(c & Hc & ?)]; [by left|]. right. exists c. split; [|done]. apply elem_of_app. by left.
Qed.

(** What the validation of a target looked up. *)
Lemma validate_removal_target_always past path meta :
  (exists relative, relative ∈ remove_before_run e /\ manifest_removal_path work_dir relative = Ok path) ->
  Lstat path ↦ Ok meta ∈ past ->
  always (validate_removal_target e work_dir path meta)
    (fun h r => guards past h /\ (r = Ok tt -> confined_path (past ++ h) path)) [].
Proof.
  intros Hrel Hmeta.
  assert (Hin : forall h ev, ev ∈ h -> ev ∈ past ++ h) by (intros; apply elem_of_app; by right).
  unfold validate_removal_target, removal_root, stays_under, text_bind, canonicalize.
  intros [root|err]; cbn; [|done]. intros [cp|err]; cbn; [|done].
  destruct (path_starts_with cp root) eqn:Ecp; cbn; [|done].
  destruct (is_symlink meta) eqn:Esym; cbn.
  - split; [done|]. intros _. split; [done|]. exists root, cp, meta.
    split_and!; [apply Hin; set_solver..|done|apply elem_of_app; by left|by left].
  - intros [cpath|err]; cbn; [|done]. destruct (path_starts_with cpath root) eqn:Epath; cbn; [|done].
    split; [done|]. intros _. split; [done|]. exists root, cp, meta.
    split_and!; [apply Hin; set_solver..|done|apply elem_of_app; by left|].
    right. exists cpath. split; [apply Hin; set_solver|done].
Qed.

(** Behind the rename: the tombstone goes, or comes back. *)
Lemma remove_tombstone_always past path tombstone :
  confined_path past path -> is_tombstone path tombstone -> RenamePath path tombstone ↦ Ok tt ∈ past ->
  always (removed ← remove_tombstone e tombstone;
          match removed with
          | Ok _ => mret (Ok tt)
          | Err err => _ ← call (RenamePath tombstone path); mret (Err err)
          end) (fun h (_ : Res string unit) => guards past h) [].
Proof.
  intros Hpath Htomb Hrename.
  assert (Hback : forall h, removal_permitted (past ++ h) (existT (RenamePath tombstone path) (Ok tt)) /\
                       forall err, removal_permitted (past ++ h) (existT (RenamePath tombstone path) (Err err))).
  { intros h. split; [|intros err]; right; split_and!; try done; try (by apply confined_more); apply elem_of_app; by left. }
  assert (Hremove : forall h, exists p, confined_path (past ++ h) p /\ is_tombstone p tombstone /\
                       RenamePath p tombstone ↦ Ok tt ∈ past ++ h).
  { intros h. exists path. split_and!; [by apply confined_more|done|apply elem_of_app; by left]. }
  unfold remove_tombstone, text_bind.
  intros [meta|err]; cbn; [|intros [[]|err']; cbn; split_and!; try done; by apply Hback].
  destruct (is_dir meta && negb (is_symlink meta)); cbn;
    (intros [[]|err]; cbn; [split_and!; try done; by apply Hremove|];
     intros [[]|err']; cbn; split_and!; try done; try (by apply Hremove); rewrite <- app_assoc; by apply Hback).
Qed.

Lemma tombstone_path_always path index :
  always (tombstone_path path index)
    (fun h tombstone => (exists stamp, h = [NowNanos ↦ stamp]) /\ is_tombstone path tombstone) [].
Proof. intros stamp. cbn. split; [by exists stamp|]. by exists index, (Z.max 0 stamp). Qed.

Lemma remove_manifest_path_always past path index :
  (exists relative, relative ∈ remove_before_run e /\ manifest_removal_path work_dir relative = Ok path) ->
  always (remove_manifest_path e work_dir path index) (fun h _ => guards past h) [].
Proof.
  intros Hrel. unfold remove_manifest_path. apply always_call. intros [meta|err]; [|done]. cbn [guarded].
  set (past1 := past ++ [Lstat path ↦ Ok meta]).
  assert (Hmeta : Lstat path ↦ Ok meta ∈ past1) by (apply elem_of_app; right; left).
  unfold text_bind at 1. eapply always_seq; [by apply (validate_removal_target_always past1 path meta)|].
  intros h [[]|err] [Hh Hconf]; [|cbn; rewrite app_nil_r; done]. specialize (Hconf eq_refl).
  eapply always_seq; [apply tombstone_path_always|]. intros h2 tombstone [[stamp ->] Htomb].
  unfold text_bind. eapply always_seq; [apply always_lifted|]. intros h3 renamed (x & -> & ->).
  assert (Hevents : forall x, guards past1 (h ++ [NowNanos ↦ stamp; RenamePath path tombstone ↦ x])).
  { intros y. apply guarded_app. split; [done|]. cbn. split_and!; try done. left. split; [|done].
    by apply confined_more. }
  assert (Hlstat : removal_permitted past (existT (Lstat path) (Ok meta))) by done.
  destruct x as [[]|err]; cbn [res_map_err].
  - set (past2 := past1 ++ h ++ [NowNanos ↦ stamp; RenamePath path tombstone ↦ Ok tt]).
    eapply always_mono; [apply (remove_tombstone_always past2 path tombstone); [|done|]|].
    + unfold past2. rewrite app_assoc. by apply confined_more.
    + unfold past2. apply elem_of_app. right. apply elem_of_app. right. right. left.
    + intros t r Ht. cbn beta. split; [done|]. change ([NowNanos ↦ stamp] ++ [RenamePath path tombstone ↦ Ok tt] ++ t)
        with ([NowNanos ↦ stamp; RenamePath path tombstone ↦ Ok tt] ++ t).
      rewrite app_assoc. apply guarded_app. split; [apply Hevents|exact Ht].
  - cbn. split; [done|]. apply Hevents.
Qed.

Lemma remove_paths_always past index paths :
  (forall relative, relative ∈ paths -> relative ∈ remove_before_run e) ->
  always (remove_paths_from e work_dir index paths) (fun h _ => guards past h) [].
Proof.
  revert past index. induction paths as [|relative paths IH]; intros past index Hin; [done|].
  cbn [remove_paths_from]. destruct (manifest_removal_path work_dir relative) as [path|err] eqn:Epath; [|done].
  unfold text_bind at 1. cbn [mret Sys_ret mbind Sys_bind sys_bind].
  unfold text_bind. eapply always_seq.
  { apply (remove_manifest_path_always past path index). exists relative. split; [apply Hin; left|done]. }
  intros t [[]|err] Ht; [|cbn; by rewrite app_nil_r].
  eapply always_mono; [apply (IH (past ++ t)); intros; apply Hin; by right|].
  intros t' r Ht'. by apply guarded_app.
Qed.

End Removal.

(** C39: preparing a command touches nothing outside its repository.  Whatever
    the file system answers, every rename is of a path the entry lists, whose
    parent resolved under the root and which, unless it is a symbolic link, did
    so itself, to a tombstone beside it; only a tombstone such a path was renamed
    to is removed, or renamed back; and nothing else is written. *)
Theorem removals_confined `{ErrorText} `{Process} (e : CommandEntry) (work_dir : string) :
  always (remove_manifest_paths e work_dir) (fun h _ => guarded (removal_permitted e work_dir) [] h) [].
Proof. by apply remove_paths_always. Qed.

(** ** Attempts *)

(** The children a history started, in order, and how each ended. *)
Definition spawned (h : History) : list (ChildRequest * Res string ChildCapture) :=
  omap (fun ev : Event =>
    match ev with existT c r =>
      match c as c return answer c -> option (ChildRequest * Res string ChildCapture) with
      | Spawn request => fun r => Some (request, r)
      | _ => fun _ => None
      end r
    end) h.

Lemma spawned_app h1 h2 : spawned (h1 ++ h2) = spawned h1 ++ spawned h2.
Proof. apply omap_app. Qed.

(** A computation that starts no child. *)
Definition childless {A} (m : Sys A) : Prop := always m (fun h _ => spawned h = []) [].

Lemma childless_ret {A} (a : A) : childless (mret a).
Proof. done. Qed.
Lemma childless_bind {A B} (m : Sys A) (f : A -> Sys B) :
  childless m -> (forall a, childless (f a)) -> childless (m ≫= f).
Proof.
  intros Hm Hf. eapply always_seq; [apply Hm|]. intros t a Ht.
  eapply always_mono; [apply Hf|]. intros t' b Ht'. by rewrite spawned_app, Ht, Ht'.
Qed.
Lemma childless_call c : (if c is Spawn _ then False else True) -> childless (call c).
Proof. intros Hc r. by destruct c. Qed.

Section Attempts.
Context `{ErrorText} `{Process} `{Regexes} `{ManifestText}.

Lemma childless_artifact root a : childless (artifact_matches root a).
Proof.
  unfold artifact_matches, resolved_artifact_path_under_root, canonicalize.
  repeat first [apply childless_ret|apply childless_bind; [|intros ?]|by apply childless_call|case_match].
Qed.

Lemma childless_artifacts present text root l : childless (artifacts_failing present text root l).
Proof.
  induction l as [|a l IH]; cbn [artifacts_failing]; [apply childless_ret|].
  apply childless_bind; [apply childless_artifact|intros ?]. by apply childless_bind.
Qed.

(** The result of a child that was waited for. *)
Definition judged (rq : ManifestCommandRequest) (out : ChildCapture) (r : ManifestCommandResult) : Prop :=
  let limit := limit_bytes (rq_capture rq) in
  let stdout := read_bounded_text limit (child_stdout out) in
  let stderr := read_bounded_text limit (child_stderr out) in
  mr_exit_code r = exit_code out /\ mr_timed_out r = timed_out out /\ spawn_error r = None /\
  mr_expectation_failures r =
    expectation_failures rq (exit_code out) stdout stderr ++ (if timed_out out then ["command timed out"] else []).

Lemma process_result_always rq out :
  always (manifest_process_result rq out) (fun h r => spawned h = [] /\ judged rq out r) [].
Proof.
  unfold manifest_process_result, artifact_failures. apply always_bind. eapply always_mono.
  { apply childless_bind; [apply childless_artifacts|intros missing].
    apply childless_bind; [apply childless_artifacts|intros present; apply childless_ret]. }
  intros h failing Hh. cbn. done.
Qed.

Definition child_request (rq : ManifestCommandRequest) : ChildRequest :=
  mkChildRequest (rq_argv rq) (rq_working_directory rq) (manifest_environment rq) (rq_timeout_seconds rq).

Definition retried (rq : ManifestCommandRequest) (x : ChildRequest * Res string ChildCapture) : Prop :=
  x.1 = child_request rq /\ exists out code, x.2 = Ok out /\ exit_code out = Some code /\
    code ∈ retry_exit_codes (rq_retry rq).

(** The attempts of a command, [budget] of them at most. *)
Definition attempts_of (rq : ManifestCommandRequest) (budget : nat) (h : History) (r : ManifestCommandResult) : Prop :=
  exists earlier last,
    spawned h = earlier ++ [(child_request rq, last)] /\ Forall (retried rq) earlier /\
    (length (spawned h) <= budget)%nat /\
    match last with
    | Err err => r = manifest_spawn_error rq err
    | Ok out => judged rq out r /\
        (retried rq (child_request rq, last) -> length (spawned h) = budget)
    end.

Lemma attempts_from_step rq n :
  attempts_from rq (S n) =
  (output ← spawn_manifest_child rq;
   match output with
   | Err err => mret (manifest_spawn_error rq err)
   | Ok output =>
       if should_retry_manifest_result rq (exit_code output) (Z.of_nat (S n))
       then attempts_from rq n else manifest_process_result rq output
   end).
Proof. reflexivity. Qed.

Lemma attempts_from_always rq n :
  rq_argv rq <> [] -> always (attempts_from rq (S n)) (attempts_of rq (S n)) [].
Proof.
  intros Hargv. assert (Hspawn : spawn_manifest_child rq = call (Spawn (child_request rq))).
  { unfold spawn_manifest_child, child_request. by destruct (rq_argv rq). }
  assert (Hstop : forall budget out, (1 <= budget)%nat ->
    (retried rq (child_request rq, Ok out) -> 1 = budget) ->
    always (manifest_process_result rq out)
      (fun t r => attempts_of rq budget ((Spawn (child_request rq) ↦ Ok out) :: t) r) []).
  { intros budget out Hb Hr. eapply always_mono; [apply process_result_always|]. intros t r [Ht Hj].
    exists [], (Ok out). change (spawned ((Spawn (child_request rq) ↦ Ok out) :: t))
      with ((child_request rq, Ok out : Res string ChildCapture) :: spawned t). rewrite Ht.
    split_and!; [done|constructor|cbn; lia|done|done]. }
  induction n as [|n IH].
  - rewrite attempts_from_step, Hspawn. apply always_call. intros [out|err].
    + change (should_retry_manifest_result rq (exit_code out) (Z.of_nat 1)) with false. apply Hstop; [lia|done].
    + exists [], (Err err). split_and!; [done|constructor|cbn; lia|done].
  - rewrite attempts_from_step, Hspawn. apply always_call. intros [out|err].
    2:{ exists [], (Err err). split_and!; [done|constructor|cbn; lia|done]. }
    destruct (should_retry_manifest_result rq (exit_code out) (Z.of_nat (S (S n)))) eqn:Eretry.
    + eapply always_mono; [apply IH|]. intros t r (earlier & last & Ht & Hall & Hlen & Hlast).
      exists ((child_request rq, Ok out) :: earlier), last.
      change (spawned ((Spawn (child_request rq) ↦ Ok out) :: t))
        with ((child_request rq, Ok out : Res string ChildCapture) :: spawned t).
      rewrite Ht in *. split_and!; [done| |cbn in *; lia|].
      * constructor; [|done]. split; [done|]. unfold should_retry_manifest_result in Eretry. bool_hyps.
        destruct (exit_code out) as [code|] eqn:Ecode; [|done]. bool_hyps. by exists out, code.
      * destruct last; [|done]. destruct Hlast as [Hj Hr]. split; [done|]. intros Hret. cbn. f_equal. by apply Hr.
    + apply Hstop; [lia|]. intros [_ (out' & code & [= <-] & Hcode & Hin)].
      unfold should_retry_manifest_result in Eretry. rewrite Hcode in Eretry. cbn in Hin.
      rewrite (bool_decide_true (code ∈ _)), andb_true_r in Eretry by done. apply Z.ltb_ge in Eretry. lia.
Qed.

End Attempts.

Lemma pattern_failures_nil `{Regexes} stream text expected :
  pattern_failures stream text expected = [] ->
  (forall p, p ∈ required_patterns expected -> valid_regex p = true /\ is_match p text = true) /\
  (forall p, p ∈ forbidden_patterns expected -> valid_regex p = false \/ is_match p text = false).
Proof.
  unfold pattern_failures. intros [Hreq%fmap_nil_inv Hforb%fmap_nil_inv]%app_nil. split; intros p Hp.
  - apply (proj1 (filter_nil_iff _ _) Hreq) in Hp. by bool_hyps.
  - apply (proj1 (filter_nil_iff _ _) Hforb) in Hp. by apply andb_false_iff.
Qed.

Lemma expectation_failures_nil `{Regexes} rq code stdout stderr :
  expectation_failures rq code stdout stderr = [] ->
  (exists n, code = Some n /\ n ∈ rq_acceptable_exit_codes rq) /\
  pattern_failures "stdout" stdout (rq_stdout rq) = [] /\ pattern_failures "stderr" stderr (rq_stderr rq) = [].
Proof.
  unfold expectation_failures. intros [Hcode [Hout Herr]%app_nil]%app_nil. split; [|done].
  destruct (acceptable rq code) eqn:Ea; [|done]. unfold acceptable in Ea.
  destruct code as [n|]; [|done]. apply bool_decide_eq_true in Ea. by exists n.
Qed.

(** C40: a command is tried within its policy.  At most one attempt more than
    [max_attempts] starts a child, each with the same arguments, directory,
    environment and timeout; every attempt but the last ended with a code the
    policy retries, and a last one that did used up the attempts.  The result is the
    last attempt's: it passes only if the child's code is acceptable, it did not
    time out, and each stream matches every required pattern and no forbidden
    one. *)
Theorem attempts_bounded `{ErrorText} `{Process} `{Regexes} `{ManifestText} (rq : ManifestCommandRequest) :
  rq_argv rq <> [] -> is_u32 (max_attempts (rq_retry rq)) ->
  always (run_manifest_command rq) (fun h r =>
    attempts_of rq (total_attempts rq) h r /\
    (Z.of_nat (length (spawned h)) <= max_attempts (rq_retry rq) + 1)%Z /\
    (passed r = true -> exists out,
      last (spawned h) = Some (child_request rq, Ok out) /\
      (exists code, exit_code out = Some code /\ code ∈ rq_acceptable_exit_codes rq) /\ timed_out out = false /\
      forall stream expected,
        (stream, expected) ∈ [(child_stdout out, rq_stdout rq); (child_stderr out, rq_stderr rq)] ->
        let text := read_bounded_text (limit_bytes (rq_capture rq)) stream in
        (forall p, p ∈ required_patterns expected -> valid_regex p = true /\ is_match p text = true) /\
        (forall p, p ∈ forbidden_patterns expected -> valid_regex p = false \/ is_match p text = false))) [].
Proof.
  intros Hargv Hu. unfold run_manifest_command.
  assert (exists n, total_attempts rq = S n) as [n Hn].
  { unfold total_attempts, is_u32, u32_max in *. exists (Z.to_nat (Z.min (max_attempts (rq_retry rq) + 1) (2 ^ 32 - 1) - 1)). lia. }
  rewrite Hn. eapply always_mono; [by apply attempts_from_always|]. intros h r Hatt. split; [done|].
  destruct Hatt as (earlier & final & Hspawned & _ & Hlen & Hfinal). split.
  { unfold total_attempts in Hn. lia. }
  intros Hpassed. unfold passed in Hpassed. bool_hyps.
  destruct final as [out|err]; [|subst r; by destruct_and?]. destruct Hfinal as [(_ & Htimed & _ & Hexp) _].
  match goal with Hnil : mr_expectation_failures r = [] |- _ => rewrite Hnil in Hexp end.
  match goal with Hout : mr_timed_out r = false |- _ => rewrite Htimed in Hout; rewrite Hout in Hexp end.
  symmetry in Hexp. apply app_nil in Hexp as [(Hcode & Hout%pattern_failures_nil & Herr%pattern_failures_nil)%expectation_failures_nil _].
  exists out. rewrite Hspawned, last_snoc. split_and!; [done|done|done|].
  intros stream expected [[= -> ->]|[[= -> ->]|Hin]%elem_of_cons]%elem_of_cons; [done..|].
  by apply not_elem_of_nil in Hin.
Qed.

(** ** Arguments *)

Lemma token_candidate_plain k : token_candidate k = true -> has_char "{" k = false /\ has_char "}" k = false.
Proof. unfold token_candidate. intros [_ Hk]%andb_true_iff. split; by apply (all_chars_no token_char). Qed.

Lemma unresolved_from_sound fuel rest k :
  unresolved_from fuel rest = Some k ->
  token_candidate k = true /\ exists a b, rest = a +:+ String "{" (k +:+ String "}" b).
Proof.
  revert rest. induction fuel as [|fuel IH]; intros rest; cbn [unresolved_from]; [done|].
  destruct (split_once "{" rest) as [[p after]|] eqn:Eo; cbn; [|done]. apply split_once_Some in Eo as [-> _].
  destruct (split_once "}" after) as [[candidate b]|] eqn:Ec; cbn; [|done].
  destruct (token_candidate candidate) eqn:Et.
  - intros [= ->]. apply split_once_Some in Ec as [-> _]. split; [done|]. by exists p, b.
  - intros (Hk & a & b' & ->)%IH. split; [done|]. exists (p +:+ String "{" a), b'. by rewrite append_assoc_str.
Qed.

Lemma unresolved_from_complete fuel a k b :
  (String.length (a +:+ String "{" (k +:+ String "}" b)) <= fuel)%nat -> token_candidate k = true ->
  unresolved_from fuel (a +:+ String "{" (k +:+ String "}" b)) <> None.
Proof.
  intros Hlen Hk. pose proof (token_candidate_plain k Hk) as [Hko Hkc].
  revert a Hlen. induction fuel as [|fuel IH]; intros a Hlen; [rewrite length_app_str in Hlen; cbn in Hlen; lia|].
  cbn [unresolved_from]. destruct (split_once "{" a) as [[p a2]|] eqn:Ea.
  - apply split_once_Some in Ea as [-> Hp].
    rewrite !length_app_str in Hlen. cbn in Hlen. rewrite append_assoc_str, str_app_cons, split_once_at by done. cbn.
    destruct (split_once "}" (a2 +:+ _)) as [[candidate after]|] eqn:Ec; cbn.
    + destruct (token_candidate candidate); [done|]. apply IH. rewrite length_app_str. cbn. lia.
    + apply split_once_None in Ec. rewrite !has_char_app in Ec. cbn in Ec. rewrite has_char_app in Ec. cbn in Ec.
      by rewrite !orb_true_r in Ec.
  - apply split_once_None in Ea. rewrite split_once_at by done. cbn. rewrite split_once_at by done. cbn. by rewrite Hk.
Qed.

(** The check finds a token exactly where one is left. *)
Lemma unresolved_template_token_None value :
  unresolved_template_token value = None <->
  forall a k b, token_candidate k = true -> value <> a +:+ braced k +:+ b.
Proof.
  unfold unresolved_template_token. split.
  - intros Hnone a k b Hk ->. revert Hnone. rewrite braced_app. by apply unresolved_from_complete.
  - intros Hfree. destruct (unresolved_from _ value) as [k|] eqn:Ek; [exfalso|done].
    apply unresolved_from_sound in Ek as (Hk & a & b & Heq). apply (Hfree a k b Hk). by rewrite braced_app.
Qed.

Lemma resolve_argument_Ok `{HashOrder} id c argument value :
  resolve_argument id c argument = Ok value ->
  value = interpolate_string argument c /\ unresolved_template_token value = None.
Proof. unfold resolve_argument. destruct (unresolved_template_token _) eqn:Et; [done|]. by intros [= <-]. Qed.

Lemma resolve_entry_argv_Ok `{HashOrder} (e resolved : CommandEntry) (c : StepContext) :
  resolve_entry_argv e c = Ok resolved ->
  ce_argv resolved = (fun argument => interpolate_string argument c) <$> ce_argv e /\
  forall argument a k b, argument ∈ ce_argv resolved -> token_candidate k = true -> argument <> a +:+ braced k +:+ b.
Proof.
  unfold resolve_entry_argv. destruct (mapM _ _) as [argv|err] eqn:Em; cbn; [|done]. intros [= <-]. cbn.
  apply mapM_Ok in Em as [-> Hall].
  induction Hall as [|x l Hx Hall [IHeq IH]]; cbn; [split; [done|set_solver]|].
  destruct (resolve_argument (ce_id e) c x) as [v|err] eqn:Ev; [|done].
  apply resolve_argument_Ok in Ev as [-> Hfree].
  pose proof (proj1 (unresolved_template_token_None _) Hfree) as Hnone. cbn. split; [by rewrite IHeq|].
  intros argument a k b [->|Hin]%elem_of_cons; [apply Hnone|by apply IH].
Qed.

(** ** Examples *)

Section Samples.
#[local] Existing Instance plain_text.
#[local] Instance sample_process : Process := {| Effects.process_id := 42; Effects.to_rfc3339 := pretty |}.
#[local] Instance literal_patterns : Regexes := {|
  valid_regex p := negb (p =?s "("); regex_error _ := "unclosed group"; is_match p text := starts_with text p
|}.
#[local] Instance sample_text : ManifestText := {|
  host_env key := if key =?s "PATH" then Some "/bin" else None;
  manifest_from_value _ := Err "no manifest";
  json_display _ := ""
|}.
#[local] Instance listed_order : HashOrder :=
  {| keys_of := fun A m => (map_to_list m).*1; keys_of_perm := fun A m => reflexivity _ |}.

Definition no_streams : StreamExpectations := mkStreamExpectations [] [].
Definition sample_entry : CommandEntry := {|
  ce_id := "test"; ce_argv := ["cargo"; "test"; "{filter}"]; working_directory := None; project_subdirectory := Some "core";
  ce_env := {["CI" := "1"]}; timeout_seconds := Some 60%Z; acceptable_exit_codes := [0%Z];
  capture := mkCapturePolicy true true 1024; ce_stdout := mkStreamExpectations ["ok"] ["ok."];
  ce_stderr := no_streams; artifacts := mkArtifactExpectations [] []; failure_outcome := FailFixable;
  retry := mkRetryPolicy 1 [101%Z]; run_if_missing_any := []; run_if_present_all := ["Cargo.toml"];
  remove_before_run := ["target/tmp"]
|}.
Definition sample_manifest : Manifest := mkManifest [sample_entry] {["checks" := ["test"]]}.

Lemma validated_manifest_runs_witness :
  validate_command_manifest sample_manifest = Ok tt /\
  exists e, commands_by_id sample_manifest !! "test" = Some e /\
    command_manifest_entry sample_manifest "test" = Ok e /\ entry_runs e.
Proof.
  assert (Hok : validate_command_manifest sample_manifest = Ok tt) by (vm_compute; reflexivity).
  split; [exact Hok|].
  destruct (validated_manifest_runs sample_manifest Hok) as [Hgroups _].
  apply (Hgroups "checks" ["test"] "test"); [vm_compute; reflexivity|left].
Defined.

Example refused_manifests :
  validate_command_manifest (mkManifest [sample_entry; sample_entry] ∅) = Err "duplicate or empty command id 'test'" /\
  validate_command_manifest (mkManifest [sample_entry] {["checks" := ["lint"]]}) =
    Err "unknown command manifest id 'lint'" /\
  validate_command_removal_path "test" "./." =
    Err "command 'test' removal path './.' must not target work_dir itself".
Proof. by vm_compute. Qed.

Definition sample_request : ManifestCommandRequest := {|
  rq_command_id := "test"; rq_argv := ["cargo"; "test"]; rq_working_directory := "/srv/core";
  rq_artifact_base_directory := "/srv"; rq_timeout_seconds := 60; rq_env := {["CI" := "1"]};
  rq_acceptable_exit_codes := [0%Z]; rq_capture := mkCapturePolicy true true 1024;
  rq_stdout := mkStreamExpectations ["ok"] []; rq_stderr := no_streams;
  rq_artifacts := mkArtifactExpectations [] []; rq_failure_outcome := FailFixable; rq_retry := mkRetryPolicy 1 [101%Z]
|}.

(** Children that end with these codes, one after the other. *)
Definition ends_with (c : Syscall) (codes : list Z) : answer c * list Z :=
  match c return answer c * list Z with
  | Spawn _ => (Ok (mkChildCapture (head codes) false (Some "ok") (Some "")), tail codes)
  | c => (fst (sample_handle "" c tt), codes)
  end.

(** A test that is flaky once: two attempts, and the second one counts. *)
Lemma attempts_bounded_witness :
  let run codes := Ownership.run ends_with (run_manifest_command sample_request) codes in
  let history codes := trace ends_with (run_manifest_command sample_request) codes in
  (length (spawned (history [101; 0]%Z)) = 2%nat /\ passed (run [101; 0]%Z).1 = true) /\
  (length (spawned (history [101; 101; 0]%Z)) = 2%nat /\ status (run [101; 101; 0]%Z).1 = "failed") /\
  forall codes, attempts_of sample_request 2 (history codes) (run codes).1.
Proof.
  cbn zeta. split; [split; vm_compute; reflexivity|]. split; [split; vm_compute; reflexivity|]. intros codes.
  assert (Hargv : rq_argv sample_request <> []) by discriminate.
  assert (Hu : is_u32 (max_attempts (rq_retry sample_request))) by (unfold is_u32, u32_max; cbn; lia).
  exact (proj1 (always_run ends_with _ _ [] codes (attempts_bounded sample_request Hargv Hu))).
Defined.

(** A token left behind is reported, and braces that are none are not; the key of
    a token that interpolation would replace may be longer than those. *)
Example tokens_left :
  unresolved_template_token "{broken {missing}" = Some "missing" /\
  unresolved_template_token "printf '{%s}'" = None /\
  unresolved_template_token "{feature-name}" = None /\
  interpolate_string "{feature-name}" (set (StepContext.new "/srv" "r") "feature-name" "x") = "x".
Proof. by vm_compute. Qed.

(** What a child writes behind the limit is not matched against any pattern. *)
Example forbidden_behind_limit :
  pattern_failures "stdout" (read_bounded_text 3 (Some "ok, error")) (mkStreamExpectations [] ["ok, error"]) = [] /\
  pattern_failures "stdout" (read_bounded_text 9 (Some "ok, error")) (mkStreamExpectations [] ["ok, error"]) =
    ["stdout matched forbidden pattern ok, error"].
Proof. by vm_compute. Qed.

(** A forbidden artifact outside the root is never looked for. *)
Example forbidden_outside_root :
  forall handle : forall c, unit -> answer c * unit,
  Ownership.run handle (artifacts_failing false "forbidden artifact present: " "/srv"
    [mkArtifactExpectation "../secrets" AnyKind; mkArtifactExpectation "/etc/passwd" AnyKind]) tt = ([], tt).
Proof. reflexivity. Qed.

End Samples.
