(* ===== verification/TransitionLoop.v ===== *)
(** The transition loop ([engine/runner.rs]): run a step, persist its result,
    follow the edge its outcome selects, under the per-edge limits, until a
    terminal outcome.  [iterate] is one turn of the loop; [run_transition_loop]
    gives it fuel, and [loop_fuel] is enough for every workflow. *)
From S2P Require Import Prelude Effects Sql Status Schema Transition Checkpoints Leases Runs TypedMerge StepContext Runner.

Section Loop.
Context `{Env} `{Host} `{JsonCodec}.

(** A load of the flag another thread may have set; once this runner stored
    [true] it stays set. *)
Definition load_interrupted (r : EngineRunner) : M Db EngineError bool :=
  b ← load_interrupt; mret (interrupted r || b).

(** *** Resuming *)

Definition ownership_denied_error (r : EngineRunner) (failure : FailureCleanupState) : EngineError :=
  InvalidState ("run " ++ run_of r
    ++ " terminated with a workspace ownership denial and cannot resume into cleanup step "
    ++ cleanup_step failure ++ "; cleanup cannot execute in an unowned workspace").

(** The runner as a snapshot leaves it, at a step. *)
Definition restore_snapshot (r : EngineRunner) (s : StateSnapshot) (step : string)
    : Res EngineError EngineRunner :=
  match restore_checkpoint_values (context r) (ss_context s) with
  | (Err e, _) => Err (of_serde e)
  | (Ok _, c) =>
      Ok (transition_to step (r <| context := c |>)
            <| er_retry_count := retry_count s |>
            <| er_edge_loop_counts := edge_loop_counts s |>)
  end.

Definition resume_from_checkpoint (r : EngineRunner) : M Db EngineError EngineRunner :=
  metadata ← load_metadata r;
  let pending :=
    match metadata ≫= failure_cleanup with
    | Some failure => if cleanup_succeeded failure then None else Some failure
    | None => None
    end in
  match pending with
  | Some failure =>
      if ownership_denied failure then throw (ownership_denied_error r failure)
      else
        r' ← lift_res (restore_snapshot r (failed_state_snapshot failure) (cleanup_step failure));
        mret (r' <| pending_failure_cleanup := Some failure |>)
  | None =>
      found ← map_err of_store (load_checkpoint_with_conn (run_of r));
      match found with
      | Some cp => lift_res (restore_snapshot r (state_snapshot cp) (cp_step_id cp))
      | None => mret r
      end
  end.

(** [load_checkpoint], on the shared default database. *)
Definition try_resume (r : EngineRunner) : M Db EngineError (bool * EngineRunner) :=
  found ← map_err of_store (load_checkpoint_with_conn (run_of r));
  mret (match found with
        | Some cp =>
            (true, (transition_to (cp_step_id cp) r)
                     <| er_retry_count := retry_count (state_snapshot cp) |>
                     <| er_edge_loop_counts := edge_loop_counts (state_snapshot cp) |>)
        | None => (false, r)
        end).

Definition mark_run_started (r : EngineRunner) : M Db EngineError unit :=
  if persist_registry r then
    loaded ← load_metadata r;
    match loaded with
    | Some md => t ← now; persist_metadata (RunMeta.mark_started t md)
    | None => mret tt
    end
  else mret tt.

(** *** Interrupts *)

Definition interrupt_at_step (r : EngineRunner) (step : string) : M Db EngineError RunOutcome :=
  cp ← create_checkpoint r step "interrupted";
  map_err of_store (save_checkpoint_with_conn cp);;
  record_event r EventType.StepOutcome step "interrupted" (details object_to_string (context r) step);;
  let outcome := RInterrupted step in
  ignore (record_run_completion r outcome step);;
  mret outcome.

Definition handle_interrupt (r : EngineRunner) : M Db EngineError (RunOutcome * EngineRunner) :=
  let step := current_state (instance r) in
  let r := r <| interrupted := true |> in
  cp ← create_checkpoint r step "interrupted";
  map_err of_store (save_checkpoint_with_conn cp);;
  mret (RInterrupted step, r).

(** *** One step *)

Definition prepare_step_start (r : EngineRunner) (step : string) : M Db EngineError EngineRunner :=
  let r := r <| context := set_current_step_id (context r) step |> in
  r ←
    (if is_failure_cleanup_step r step then
       metadata ← load_metadata r;
       match opt_or (metadata ≫= failure_cleanup) (pending_failure_cleanup r) with
       | None =>
           throw (persistence_text "failure cleanup cannot start without failed-work provenance")
       | Some failure =>
           mret (r <| context := set (set (context r) "failed_work_step" (failed_step failure))
                                   "failed_work_outcome" (failure_outcome failure) |>)
       end
     else mret r);
  heartbeat_owned_lease r;;
  if persist_registry r then
    loaded ← load_metadata r;
    match loaded with
    | Some md =>
        t1 ← now;
        let md := RunMeta.set_current_step step t1 md in
        t2 ← now;
        persist_metadata (RunMeta.set_next_step_candidates
          (Transition.compute_next_step_candidates (transitions_of r) step) t2 md)
    | None => mret tt
    end;;
    record_event r EventType.StepStart step "started" None;;
    mret r
  else mret r.

Definition find_step (r : EngineRunner) (step : string) : option StepDef :=
  List.find (fun s => sd_step_id s =?s step) (steps_of r).

Definition is_registered_step_type (r : EngineRunner) (step : string) : bool :=
  match find_step r step with
  | Some s => contains_step_type (registry r) (sd_step_type s)
  | None => false
  end.

Definition step_parameters_with_config_manifest (r : EngineRunner) (s : StepDef)
    : Res EngineError (option Json) :=
  match wc_command_manifest (config (instance r)) with
  | None => Ok None
  | Some manifest =>
      let params :=
        match default JNull (sd_parameters s) with JNull => JObject ∅ | params => params end in
      match params with
      | JObject object =>
          Ok (Some (JObject
            (if bool_decide (is_Some (object !! "command_manifest")) then object
             else <["command_manifest" := manifest]> object)))
      | _ =>
          Err (StepExecutionError (sd_step_id s)
            "step parameters must be an object to attach command_manifest")
      end
  end.

(** The result beside the runner: the executor's writes to the context stay,
    whatever it returned. *)
Definition execute_step (r : EngineRunner) (step : string)
    : M Db EngineError (Res EngineError StepOutcome.t * EngineRunner) :=
  match find_step r step with
  | None => mret (Err (StepNotFound step), r)
  | Some s =>
      match step_parameters_with_config_manifest r s with
      | Err e => mret (Err e, r)
      | Ok owned =>
          let params := default JNull (opt_or owned (sd_parameters s)) in
          result ← host_call (dispatch (registry r) (sd_step_type s) (context r) params);
          mret (er_result result,
                r <| context := apply_writes (context r) (er_writes result) |>)
      end
  end.

Definition execute_current_step (r : EngineRunner) (step : string)
    : M Db EngineError (Res EngineError StepOutcome.t * EngineRunner) :=
  '(result, r) ← execute_step r step;
  match result with
  | Err e =>
      (if persist_registry r
       then record_event r EventType.Error step "error" (Some (engine_error_to_string e))
       else mret tt);;
      mret (result, r)
  | Ok _ => mret (result, r)
  end.

(** The loop's handling of a failing step: an executor's own failure, or an
    unusable tool, is a fatal outcome; anything else ends the run. *)
Definition outcome_of_result (r : EngineRunner) (step : string) (result : Res EngineError StepOutcome.t)
    : M Db EngineError (StepOutcome.t * EngineRunner) :=
  let fatal e :=
    mret (StepOutcome.Fatal,
          r <| context := set (context r) "diagnostic" (engine_error_to_string e) |>) in
  match result with
  | Ok outcome => mret (outcome, r)
  | Err (StepExecutionError _ _ as e) =>
      if is_registered_step_type r step then fatal e else throw e
  | Err (ToolUnavailable _ as e) => fatal e
  | Err e => throw e
  end.

(** *** Following an edge *)

Definition resolve_next_step (r : EngineRunner) (step : string) (outcome : StepOutcome.t)
    : option string :=
  Transition.resolve_transition_schema step outcome (transitions_of r).

Definition step_index (r : EngineRunner) (step : string) : option nat :=
  position (fun s => sd_step_id s =?s step) (steps_of r).

Definition is_loop_back (r : EngineRunner) (current next : string) : bool :=
  match step_index r current, step_index r next with
  | Some curr, Some next => Nat.leb next curr
  | _, _ => false
  end.

Definition is_limited_transition (r : EngineRunner) (current next : string)
    (transition : option Schema.TransitionDef) : bool :=
  is_loop_back r current next || bool_decide (is_Some (transition ≫= max_iterations)).

Definition edge_key (current next : string) : string := current +:+ ":" +:+ next.

Definition edge_limit_reason (limit : Z) (key : string) : string :=
  "Per-edge loop limit (" +:+ pretty limit +:+ ") exceeded on edge " +:+ key.

Definition enforce_edge_limit (r : EngineRunner) (current next : string) (outcome : StepOutcome.t)
    : M Db EngineError (option RunOutcome * EngineRunner) :=
  let transition := Transition.find_transition (transitions_of r) current outcome in
  if negb (is_limited_transition r current next transition) then mret (None, r)
  else
    let key := edge_key current next in
    let limit := default (max_loops r) (transition ≫= max_iterations) in
    let count := default 0%Z (er_edge_loop_counts r !! key) in
    if bool_decide (limit <= count)%Z then
      let o := RAbandoned current (edge_limit_reason limit key) in
      ignore (record_run_completion r o current);;
      mret (Some o, r)
    else
      mret (None, r <| er_edge_loop_counts := <[key := (count + 1)%Z]> (er_edge_loop_counts r) |>).

Definition advance_to_next_step (r : EngineRunner) (current next : string) (outcome : StepOutcome.t)
    : M Db EngineError (option RunOutcome * EngineRunner) :=
  '(stop, r) ← enforce_edge_limit r current next outcome;
  match stop with
  | Some o => mret (Some o, r)
  | None => mret (None, transition_to next r)
  end.

Definition abandon_at_step (r : EngineRunner) (step : string) : M Db EngineError RunOutcome :=
  let o := RAbandoned step "Loop limit exceeded" in
  ignore (record_run_completion r o step);;
  mret o.

(** *** The loop *)

Inductive Turn :=
| Finished (o : RunOutcome) (r : EngineRunner)
| Advanced (r : EngineRunner) (step : string).

(** What the loop does once the step's outcome is known. *)
Definition conclude_step (r : EngineRunner) (step : string) (outcome : StepOutcome.t)
    : M Db EngineError Turn :=
  let next_step :=
    if bool_decide (outcome = StepOutcome.Abandon) then None
    else resolve_next_step r step outcome in
  r ← persist_step_result r step outcome next_step;
  if terminal_ownership_failure r then
    match pending_failure_cleanup r with
    | None => throw (InvalidState "terminal ownership failure recorded without provenance")
    | Some failure => mret (Finished (RFailure (failed_step failure) (failure_reason failure)) r)
    end
  else if bool_decide (outcome = StepOutcome.Abandon) then
    if is_failure_cleanup_step r step then
      '(o, r) ← finish_without_transition r step outcome; mret (Finished o r)
    else o ← abandon_at_step r step; mret (Finished o r)
  else
    match next_step with
    | Some next =>
        '(stop, r) ← advance_to_next_step r step next outcome;
        mret (match stop with Some o => Finished o r | None => Advanced r next end)
    | None => '(o, r) ← finish_without_transition r step outcome; mret (Finished o r)
    end.

Definition iterate (r : EngineRunner) (step : string) : M Db EngineError Turn :=
  stop ← load_interrupted r;
  if (stop : bool) then o ← interrupt_at_step r step; mret (Finished o r)
  else
    r ← prepare_step_start r step;
    '(result, r) ← execute_current_step r step;
    '(outcome, r) ← outcome_of_result r step result;
    stop ← load_interrupted r;
    if (stop : bool) then o ← interrupt_at_step r step; mret (Finished o r)
    else conclude_step r step outcome.

(** [None]: out of fuel. *)
Fixpoint loop_from (fuel : nat) (r : EngineRunner) (step : string)
    : M Db EngineError (option (RunOutcome * EngineRunner)) :=
  match fuel with
  | 0 => mret None
  | S fuel' =>
      turn ← iterate r step;
      match turn with
      | Finished o r' => mret (Some (o, r'))
      | Advanced r' next => loop_from fuel' r' next
      end
  end.

Definition run_transition_loop (fuel : nat) (r : EngineRunner)
    : M Db EngineError (option (RunOutcome * EngineRunner)) :=
  loop_from fuel r (current_state (instance r)).

Definition run_from_current_step (fuel : nat) (r : EngineRunner)
    : M Db EngineError (option (RunOutcome * EngineRunner)) := run_transition_loop fuel r.

Definition run (fuel : nat) (r : EngineRunner) : M Db EngineError (option (RunOutcome * EngineRunner)) :=
  r ← resume_from_checkpoint r;
  mark_run_started r;;
  run_transition_loop fuel r.

(** ** What a turn leaves alone *)

(** The runner's configuration, counters and authority; its context's
    variables, its pending failure and its ownership verdict may differ. *)
Definition frame (r r' : EngineRunner) : Prop :=
  instance r' = instance r /\ er_retry_count r' = er_retry_count r /\
  er_edge_loop_counts r' = er_edge_loop_counts r /\ max_loops r' = max_loops r /\
  registry r' = registry r /\ run_context r' = run_context r /\
  persist_registry r' = persist_registry r /\ interrupted r' = interrupted r /\
  sc_work_dir (context r') = sc_work_dir (context r) /\
  sc_run_id (context r') = sc_run_id (context r) /\
  daemon_managed (context r') = daemon_managed (context r) /\
  checkpointable_keys (context r') = checkpointable_keys (context r).

Lemma frame_refl r : frame r r.
Proof. by repeat split. Qed.

Lemma frame_trans r1 r2 r3 : frame r1 r2 -> frame r2 r3 -> frame r1 r3.
Proof.
  intros (?&?&?&?&?&?&?&?&?&?&?&?) (?&?&?&?&?&?&?&?&?&?&?&?). repeat split; congruence.
Qed.

Lemma frame_writes r ws : frame r (r <| context := apply_writes (context r) ws |>).
Proof.
  destruct (apply_writes_authority (context r) ws) as (? & ? & ? & ? & _). by repeat split.
Qed.

Lemma frame_set r k v : frame r (r <| context := set (context r) k v |>).
Proof. apply (frame_writes r [WSet k v]). Qed.

(** Two writes to the same context. *)
Lemma frame_set2 r k v k' v' : frame r (r <| context := set (set (context r) k v) k' v' |>).
Proof.
  eapply frame_trans; [apply (frame_set r k v)|].
  exact (frame_set (r <| context := set (context r) k v |>) k' v').
Qed.

Lemma prepare_step_start_frame r step w r' w' :
  prepare_step_start r step w = (Ok r', w') -> frame r r'.
Proof.
  unfold prepare_step_start. intros Hr.
  set (r1 := r <| context := set_current_step_id (context r) step |>) in Hr.
  assert (Hr1 : frame r r1) by apply (frame_writes r [WStep step]).
  apply bind_Ok in Hr as (r2 & w2 & Hr2 & Hr).
  assert (Hf : frame r1 r2).
  { clear Hr. destruct (is_failure_cleanup_step r1 step); run_inv; [|by apply frame_refl].
    apply frame_set2. }
  run_inv; by eapply frame_trans.
Qed.

Lemma execute_step_frame r step w result r' w' :
  execute_step r step w = (Ok (result, r'), w') ->
  frame r r' /\ (find_step r step = None -> result = Err (StepNotFound step)).
Proof.
  unfold execute_step. intros Hr. run_inv; split; try done; try apply frame_refl; try congruence.
  apply frame_writes.
Qed.

Lemma execute_current_step_frame r step w result r' w' :
  execute_current_step r step w = (Ok (result, r'), w') ->
  frame r r' /\ (find_step r step = None -> result = Err (StepNotFound step)).
Proof.
  unfold execute_current_step. intros Hr.
  apply bind_Ok in Hr as ([result1 r1] & w1 & Hx & Hr).
  apply execute_step_frame in Hx. destruct result1; run_inv; done.
Qed.

Lemma outcome_of_result_frame r step result w outcome r' w' :
  outcome_of_result r step result w = (Ok (outcome, r'), w') ->
  frame r r' /\ result <> Err (StepNotFound step).
Proof.
  unfold outcome_of_result. intros Hr.
  destruct result as [o|[]]; run_inv; split; try done; try apply frame_refl;
    apply frame_set.
Qed.

(** The runner after a persisted step: its pending failure, and the verdict
    about the workspace. *)
Lemma persist_step_result_frame r step outcome next w r' w' :
  persist_step_result r step outcome next w = (Ok r', w') ->
  frame r r' /\ context r' = context r.
Proof.
  unfold persist_step_result, persist_terminal_ownership_failure. intros Hr.
  run_inv; repeat case_match; by repeat split.
Qed.

(** The counters after an edge was taken. *)
Definition edge_limit (r : EngineRunner) (step : string) (outcome : StepOutcome.t) : Z :=
  default (max_loops r)
    (Transition.find_transition (transitions_of r) step outcome ≫= max_iterations).

Definition edge_count (r : EngineRunner) (key : string) : Z :=
  default 0%Z (er_edge_loop_counts r !! key).

Definition limited (r : EngineRunner) (step next : string) (outcome : StepOutcome.t) : bool :=
  is_limited_transition r step next (Transition.find_transition (transitions_of r) step outcome).

(** The runner after following an edge that is not refused. *)
Definition follow (r : EngineRunner) (step next : string) (outcome : StepOutcome.t) : EngineRunner :=
  let key := edge_key step next in
  transition_to next
    (if limited r step next outcome
     then r <| er_edge_loop_counts := <[key := (edge_count r key + 1)%Z]> (er_edge_loop_counts r) |>
     else r).

Lemma advance_to_next_step_cases r step next outcome w stop r' w' :
  advance_to_next_step r step next outcome w = (Ok (stop, r'), w') ->
  if limited r step next outcome
     && bool_decide (edge_limit r step outcome <= edge_count r (edge_key step next))%Z
  then r' = r /\ stop = Some (RAbandoned step (edge_limit_reason (edge_limit r step outcome)
                                                 (edge_key step next)))
  else stop = None /\ r' = follow r step next outcome.
Proof.
  unfold advance_to_next_step, enforce_edge_limit, follow, limited, edge_limit, edge_count.
  set (t := Transition.find_transition _ _ _). intros Hr.
  destruct (is_limited_transition r step next t); cbn [negb andb] in *; [|run_inv; done].
  case_bool_decide; run_inv; done.
Qed.

(** What decides about an edge is part of the frame. *)
Lemma frame_edges r r' :
  frame r r' ->
  (forall step, find_step r' step = find_step r step) /\
  (forall step outcome, resolve_next_step r' step outcome = resolve_next_step r step outcome) /\
  (forall step next outcome, limited r' step next outcome = limited r step next outcome) /\
  (forall step outcome, edge_limit r' step outcome = edge_limit r step outcome) /\
  (forall key, edge_count r' key = edge_count r key).
Proof.
  intros (Hi & _ & Hc & Hm & _).
  unfold find_step, resolve_next_step, limited, is_limited_transition, is_loop_back, step_index,
    edge_limit, edge_count, transitions_of, steps_of. by rewrite Hi, Hc, Hm.
Qed.

(** A turn up to the outcome of its step: what the loop then persists, by which
    runner and in which world, unless an interrupt ended it. *)
Definition turn_outcome (r : EngineRunner) (step : string)
    : M Db EngineError (option (StepOutcome.t * EngineRunner)) :=
  stop ← load_interrupted r;
  if (stop : bool) then mret None
  else
    r ← prepare_step_start r step;
    '(result, r) ← execute_current_step r step;
    '(outcome, r) ← outcome_of_result r step result;
    stop ← load_interrupted r;
    mret (if (stop : bool) then None else Some (outcome, r)).

(** What it takes for a turn to go on. *)
Lemma iterate_advanced r step w r' next w' :
  iterate r step w = (Ok (Advanced r' next), w') ->
  exists outcome r1, frame r r1 /\ is_Some (find_step r step) /\
    (exists r0 w0 w1, turn_outcome r step w = (Ok (Some (outcome, r0)), w0) /\
       frame r r0 /\ terminal_ownership_failure r1 = false /\
       persist_step_result r0 step outcome (Some next) w0 = (Ok r1, w1)) /\
    outcome <> StepOutcome.Abandon /\ resolve_next_step r step outcome = Some next /\
    (limited r step next outcome = true ->
     (edge_count r (edge_key step next) < edge_limit r step outcome)%Z) /\
    r' = follow r1 step next outcome.
Proof.
  unfold iterate. intros Hr.
  apply bind_Ok in Hr as (stop & w1 & Hs1 & Hr). destruct stop; [run_inv; done|].
  apply bind_Ok in Hr as (r1 & w2 & Hp & Hr).
  apply bind_Ok in Hr as ([result r2] & w3 & Hx & Hr).
  apply bind_Ok in Hr as ([outcome r3] & w4 & Ho & Hr).
  apply bind_Ok in Hr as (stop & w5 & Hs2 & Hr). destruct stop; [run_inv; done|].
  assert (Hturn : turn_outcome r step w = (Ok (Some (outcome, r3)), w5)).
  { unfold turn_outcome, mbind, M_bind. by rewrite Hs1, Hp, Hx, Ho, Hs2. }
  apply prepare_step_start_frame in Hp. apply execute_current_step_frame in Hx as [Hx Hfound].
  apply outcome_of_result_frame in Ho as [Ho Hnot].
  assert (Hf3 : frame r r3) by (eapply frame_trans, Ho; by eapply frame_trans).
  assert (Hstep : is_Some (find_step r step)).
  { destruct (find_step r1 step) eqn:E; [|by destruct (Hnot (Hfound eq_refl))].
    destruct Hp as [Hi _]. revert E. unfold find_step, steps_of. rewrite Hi. by eauto. }
  unfold conclude_step in Hr. apply bind_Ok in Hr as (r4 & w6 & Hpersist & Hr).
  pose proof (persist_step_result_frame _ _ _ _ _ _ _ Hpersist) as [Hs _].
  destruct (terminal_ownership_failure r4) eqn:Hterm; [run_inv; done|].
  case_bool_decide as Hab; [run_inv; done|].
  assert (Hf4 : frame r r4) by by eapply frame_trans.
  destruct (resolve_next_step r3 step outcome) as [n|] eqn:En; [|run_inv; done].
  apply bind_Ok in Hr as ([stop' r5] & w7 & Ha & Hr). apply ret_Ok in Hr as [Hr _].
  apply advance_to_next_step_cases in Ha. destruct stop'; simplify_eq.
  exists outcome, r4.
  destruct (frame_edges r r3 Hf3) as (_ & Hres & _).
  destruct (frame_edges r r4 Hf4) as (_ & _ & Hl & He & Hc). rewrite Hl, He, Hc in Ha.
  split_and!; try done; [by exists r3, w5, w6|congruence| |].
  - intros Hlim. rewrite Hlim in Ha. case_bool_decide; cbn in Ha; [by destruct Ha|lia].
  - destruct (limited r step next outcome && _); by destruct Ha.
Qed.

(** ** Termination *)

(** The keys of the edges the workflow has, and the largest limit on one. *)
Definition edge_keys (r : EngineRunner) : list string :=
  remove_dups ((fun t => edge_key (from t) (to t)) <$> transitions_of r).

Definition largest_limit (r : EngineRunner) : Z :=
  foldr Z.max (max_loops r) (omap max_iterations (transitions_of r)).

(** How far a step is along the list of steps. *)
Definition rank (r : EngineRunner) (step : string) : nat :=
  default (length (steps_of r)) (step_index r step).

(** How many more limited edges may be followed. *)
Definition budget (r : EngineRunner) : nat :=
  sum_list_with (fun key => Z.to_nat (largest_limit r - edge_count r key)) (edge_keys r).

Definition turns_left (r : EngineRunner) (step : string) : nat :=
  budget r * S (length (steps_of r)) + (length (steps_of r) - rank r step).

(** Enough fuel for every run of the workflow. *)
Definition loop_fuel (r : EngineRunner) : nat :=
  S (length (edge_keys r) * Z.to_nat (largest_limit r) * S (length (steps_of r))
     + length (steps_of r)).

Lemma position_lt {A} (p : A -> bool) l n : position p l = Some n -> n < length l.
Proof.
  revert n. induction l as [|x l IH]; intros n; cbn; [done|].
  destruct (p x); [intros [= <-]; lia|]. intros (m & Hm & ->)%fmap_Some. apply IH in Hm. lia.
Qed.

Lemma position_find {A} (p : A -> bool) l : is_Some (List.find p l) -> is_Some (position p l).
Proof.
  induction l as [|x l IH]; cbn; [done|]. destruct (p x); [by eexists|].
  intros [n ->]%IH. by eexists.
Qed.

Lemma foldr_max_base b l : (b <= foldr Z.max b l)%Z.
Proof. induction l; cbn; lia. Qed.
Lemma foldr_max_elem b l x : x ∈ l -> (x <= foldr Z.max b l)%Z.
Proof. induction 1; cbn; lia. Qed.

Lemma edge_limit_le r step outcome : (edge_limit r step outcome <= largest_limit r)%Z.
Proof.
  unfold edge_limit, largest_limit.
  destruct (Transition.find_transition _ step outcome) as [t|] eqn:Et; cbn; [|apply foldr_max_base].
  destruct (max_iterations t) as [m|] eqn:Em; cbn; [|apply foldr_max_base].
  apply foldr_max_elem, list_elem_of_omap. exists t. split; [|done].
  by apply Transition.find_transition_matches in Et as [? _].
Qed.

Lemma sum_list_with_decrease {A} (f g : A -> nat) (l : list A) x :
  NoDup l -> x ∈ l -> g x < f x -> (forall y, y <> x -> g y = f y) ->
  sum_list_with g l < sum_list_with f l.
Proof.
  intros Hnd Hin Hlt Heq. induction Hin as [x l|x y l Hin IH]; cbn; apply NoDup_cons in Hnd as [Hni Hnd].
  - assert (sum_list_with g l = sum_list_with f l) as ->; [|lia].
    clear Hnd. induction l as [|z l IH]; cbn; [done|].
    apply not_elem_of_cons in Hni as [Hz Hni]. rewrite (Heq z) by done. by rewrite (IH Hni).
  - rewrite (Heq y) by (intros ->; done). specialize (IH Hnd Hlt Heq). lia.
Qed.

(** A followed edge is an edge of the workflow. *)
Lemma resolved_edge_key r step outcome next :
  resolve_next_step r step outcome = Some next -> edge_key step next ∈ edge_keys r.
Proof.
  unfold resolve_next_step. rewrite Transition.resolve_is_find.
  intros (t & Ht & ->)%fmap_Some. apply Transition.find_transition_matches in Ht as [Hin Hm].
  apply Transition.edge_matches_from in Hm as <-.
  apply elem_of_remove_dups, list_elem_of_fmap. by exists t.
Qed.

Lemma follow_fields r step next outcome :
  steps_of (follow r step next outcome) = steps_of r /\
  transitions_of (follow r step next outcome) = transitions_of r /\
  max_loops (follow r step next outcome) = max_loops r /\
  er_edge_loop_counts (follow r step next outcome) =
    if limited r step next outcome
    then <[edge_key step next := (edge_count r (edge_key step next) + 1)%Z]> (er_edge_loop_counts r)
    else er_edge_loop_counts r.
Proof. unfold follow. by destruct (limited r step next outcome). Qed.

(** The quantities depend on the workflow and the counters only. *)
Lemma measure_frame r r' :
  frame r r' ->
  steps_of r' = steps_of r /\ transitions_of r' = transitions_of r /\
  max_loops r' = max_loops r /\ er_edge_loop_counts r' = er_edge_loop_counts r.
Proof.
  intros (Hi & _ & Hc & Hm & _). unfold steps_of, transitions_of. by rewrite Hi, Hc, Hm.
Qed.

Lemma follow_decreases r step next outcome :
  is_Some (find_step r step) -> resolve_next_step r step outcome = Some next ->
  (limited r step next outcome = true ->
   (edge_count r (edge_key step next) < edge_limit r step outcome)%Z) ->
  turns_left (follow r step next outcome) next < turns_left r step.
Proof.
  intros Hstep Hnext Hlim.
  destruct (follow_fields r step next outcome) as (Hs & Ht & Hm & Hc).
  unfold turns_left, budget, rank, step_index, edge_keys, largest_limit. rewrite Hs, Ht, Hm.
  fold (largest_limit r) (edge_keys r) (step_index r step) (step_index r next).
  unfold edge_count at 1. rewrite Hc.
  apply position_find in Hstep as [c Hcur]. fold (step_index r step) in Hcur. rewrite Hcur.
  pose proof (position_lt _ _ _ Hcur) as Hlt. cbn [default from_option id].
  destruct (limited r step next outcome) eqn:El.
  - specialize (Hlim eq_refl). pose proof (edge_limit_le r step outcome) as Hle.
    assert (Hsum : sum_list_with (fun key => Z.to_nat (largest_limit r -
        default 0%Z (<[edge_key step next := (edge_count r (edge_key step next) + 1)%Z]>
          (er_edge_loop_counts r) !! key))) (edge_keys r) <
      sum_list_with (fun key => Z.to_nat (largest_limit r - edge_count r key)) (edge_keys r)).
    { apply (sum_list_with_decrease _ _ _ (edge_key step next)).
      - apply NoDup_remove_dups.
      - by eapply resolved_edge_key.
      - rewrite lookup_insert_eq. cbn. lia.
      - intros k Hk. by rewrite lookup_insert_ne. }
    nia.
  - unfold limited, is_limited_transition, is_loop_back in El. rewrite Hcur in El.
    apply orb_false_iff in El as [El _].
    destruct (step_index r next) as [n|] eqn:En; cbn [default from_option id].
    + apply Nat.leb_gt in El. pose proof (position_lt _ _ _ En). 
      change (fun key => Z.to_nat (largest_limit r - default 0%Z (er_edge_loop_counts r !! key)))
        with (fun key => Z.to_nat (largest_limit r - edge_count r key)). lia.
    + change (fun key => Z.to_nat (largest_limit r - default 0%Z (er_edge_loop_counts r !! key)))
        with (fun key => Z.to_nat (largest_limit r - edge_count r key)). lia.
Qed.

Lemma turns_left_frame r r' step : frame r r' -> turns_left r' step = turns_left r step.
Proof.
  intros (Hs & Ht & Hm & Hc)%measure_frame.
  unfold turns_left, budget, rank, step_index, edge_keys, largest_limit, edge_count.
  by rewrite Hs, Ht, Hm, Hc.
Qed.

Lemma iterate_decreases r step w r' next w' :
  iterate r step w = (Ok (Advanced r' next), w') -> turns_left r' next < turns_left r step.
Proof.
  intros (outcome & r1 & Hf & Hstep & _ & _ & Hnext & Hlim & ->)%iterate_advanced.
  rewrite <- (turns_left_frame r r1) by done.
  destruct (frame_edges r r1 Hf) as (Hs & Hr & Hl & He & Hc).
  apply follow_decreases; [by rewrite Hs|by rewrite Hr|by rewrite Hl, He, Hc].
Qed.

Lemma loop_from_fuel fuel r step w :
  turns_left r step < fuel ->
  (forall w', loop_from fuel r step w <> (Ok None, w')) /\
  forall fuel', turns_left r step < fuel' -> loop_from fuel' r step w = loop_from fuel r step w.
Proof.
  revert r step w. induction fuel as [|fuel IH]; intros r step w Hlt; [lia|]. split.
  - intros w'. cbn. intros Hr.
    apply bind_Ok in Hr as ([o r'|r' next] & w1 & Hit & Hr); [run_inv; done|].
    apply iterate_decreases in Hit. eapply IH; [|exact Hr]. lia.
  - intros [|fuel'] Hlt'; [lia|]. cbn. unfold mbind, M_bind.
    destruct (iterate r step w) as [[[o r'|r' next]|e] w1] eqn:Hit; [done| |done].
    apply iterate_decreases in Hit. apply IH; lia.
Qed.

Lemma turns_left_bound r step :
  (forall key, 0 <= edge_count r key)%Z -> turns_left r step < loop_fuel r.
Proof.
  intros Hpos. unfold turns_left, loop_fuel.
  assert (Hb : budget r <= length (edge_keys r) * Z.to_nat (largest_limit r)).
  { unfold budget. induction (edge_keys r) as [|k ks IH]; cbn; [lia|].
    specialize (Hpos k). lia. }
  nia.
Qed.

(** C4: every run ends.  Whatever the steps do, whenever they are
    interrupted and whichever database statements fail, the transition loop
    reaches a terminal outcome or an error within [loop_fuel] turns: the number
    of edges times the largest limit times the number of steps, and one more
    pass.  More fuel changes nothing. *)
Theorem transition_loop_terminates (r : EngineRunner) (w : World Db) :
  map_Forall (fun _ n => is_u32 n) (er_edge_loop_counts r) ->
  (forall w', run_transition_loop (loop_fuel r) r w <> (Ok None, w')) /\
  forall fuel, loop_fuel r <= fuel ->
    run_transition_loop fuel r w = run_transition_loop (loop_fuel r) r w.
Proof.
  intros Hcounts.
  assert (Hlt : turns_left r (current_state (instance r)) < loop_fuel r).
  { apply turns_left_bound. intros key. unfold edge_count.
    destruct (er_edge_loop_counts r !! key) as [n|] eqn:E; cbn; [|lia].
    destruct (Hcounts key n E). lia. }
  destruct (loop_from_fuel _ r (current_state (instance r)) w Hlt) as [Hsome Hmore].
  split; [exact Hsome|]. intros fuel Hfuel. apply Hmore. lia.
Qed.

(** *** Limits *)

(** A turn that goes on, between runners at a step in a world. *)
Definition goes_on (a b : EngineRunner * string * World Db) : Prop :=
  let '(r, step, w) := a in let '(r', next, w') := b in
  iterate r step w = (Ok (Advanced r' next), w').

(** The limits an edge may be followed under: its own, or the workflow's. *)
Definition key_limit (r : EngineRunner) (key : string) : Z :=
  foldr Z.max 0%Z
    ((fun t => default (max_loops r) (max_iterations t)) <$>
     List.filter (fun t => edge_key (from t) (to t) =?s key) (transitions_of r)).

Lemma edge_limit_key r step outcome next :
  resolve_next_step r step outcome = Some next ->
  (edge_limit r step outcome <= key_limit r (edge_key step next))%Z.
Proof.
  unfold resolve_next_step, edge_limit, key_limit. rewrite Transition.resolve_is_find.
  intros (t & Ht & ->)%fmap_Some. rewrite Ht. cbn.
  apply Transition.find_transition_matches in Ht as [Hin Hm].
  apply Transition.edge_matches_from in Hm as <-.
  apply foldr_max_elem, list_elem_of_fmap. exists t. split; [done|].
  apply list_elem_of_In, filter_In. split; [by apply list_elem_of_In|].
  by apply bool_decide_eq_true.
Qed.

Lemma goes_on_counts r step w r' next w' key :
  goes_on (r, step, w) (r', next, w') ->
  (forall k, key_limit r' k = key_limit r k) /\
  (edge_count r' key = edge_count r key \/
   edge_count r' key = edge_count r key + 1 /\ edge_count r' key <= key_limit r key)%Z.
Proof.
  intros (outcome & r1 & Hf & _ & _ & _ & Hnext & Hlim & ->)%iterate_advanced.
  destruct (frame_edges r r1 Hf) as (_ & _ & Hl & _ & Hc).
  destruct (measure_frame r r1 Hf) as (_ & Ht & Hm & He).
  destruct (follow_fields r1 step next outcome) as (_ & Ht' & Hm' & Hc').
  split; [intros k; unfold key_limit; by rewrite Ht', Hm', Ht, Hm|].
  unfold edge_count at 1 3 5. rewrite Hc', Hl, Hc, He.
  destruct (limited r step next outcome) eqn:El; [|by left].
  destruct (decide (key = edge_key step next)) as [->|Hne].
  - rewrite lookup_insert_eq. cbn. right. split; [done|].
    specialize (Hlim eq_refl). pose proof (edge_limit_key r step outcome next Hnext). lia.
  - rewrite lookup_insert_ne by done. by left.
Qed.

(** Remediation loops are bounded.  However long a run goes on from a
    runner, no edge's counter is ever above both where it started and the
    limit of that edge, and no counter ever goes down. *)
Theorem edge_counts_bounded (a b : EngineRunner * string * World Db) (key : string) :
  rtc goes_on a b ->
  (edge_count a.1.1 key <= edge_count b.1.1 key)%Z /\
  (edge_count b.1.1 key <= Z.max (edge_count a.1.1 key) (key_limit a.1.1 key))%Z.
Proof.
  induction 1 as [a|[[r step] w] [[r' next] w'] c Hstep _ [IH1 IH2]]; cbn; [lia|].
  destruct (goes_on_counts r step w r' next w' key Hstep) as [Hk Hcount]. cbn in *.
  rewrite Hk in IH2. lia.
Qed.

(** *** Ownership *)

(** What lets a failing run into its cleanup step: nothing claims the
    workspace, or its ownership verifies. *)
Definition workspace_trusted (r : EngineRunner) (w : World Db) : Prop :=
  (workspace_ownership_evidence_exists w (sc_work_dir (context r)) = false /\
   daemon_managed (context r) = false) \/
  verify_workspace_ownership w (sc_work_dir (context r)) (run_of r) = None.

Lemma workspace_verdict_ok r outcome next v w :
  workspace_verdict r outcome (Some next) w = Ok v ->
  outcome <> StepOutcome.Success -> is_failure_cleanup_step r next = true -> workspace_trusted r w.
Proof.
  unfold workspace_verdict, entering_cleanup, workspace_trusted, daemon_managed_claim.
  intros Hv Ho Hc. rewrite bool_decide_eq_true_2, Hc in Hv by done. cbn in Hv.
  destruct (workspace_ownership_evidence_exists _ _), (daemon_managed _); cbn in Hv; auto;
    destruct (verify_workspace_ownership _ _ _); auto; done.
Qed.

(** The verdict of a persisted step that does not end the run. *)
Lemma persist_step_result_trusted r step outcome next w r' w' :
  persist_step_result r step outcome (Some next) w = (Ok r', w') ->
  terminal_ownership_failure r' = false ->
  outcome <> StepOutcome.Success -> is_failure_cleanup_step r next = true -> workspace_trusted r w.
Proof.
  unfold persist_step_result, verify_failure_cleanup_workspace. intros Hr Ht Ho Hc.
  apply bind_Ok in Hr as (verdict & w1 & [= <- <-] & Hr).
  destruct (workspace_verdict r outcome (Some next) w) as [v|e] eqn:Ev.
  - by eapply workspace_verdict_ok.
  - destruct e; [run_inv; done..|]. unfold persist_terminal_ownership_failure in Hr. by run_inv.
Qed.

(** C13: cleanup never runs in a workspace the run does not own.  When a turn
    goes on to a failure-cleanup step, then its step's outcome led there, and it
    was a success, or in the very world in which that outcome was received, before
    anything of it was persisted, the workspace carried no claim and the run was
    not the daemon's, or its ownership verified, for the work directory the run was
    built with and not for any a step wrote to its variables. *)
Theorem cleanup_needs_ownership (r r' : EngineRunner) (step next : string) (w w' : World Db) :
  goes_on (r, step, w) (r', next, w') ->
  is_failure_cleanup_step r next = true ->
  exists outcome r0 w0,
    turn_outcome r step w = (Ok (Some (outcome, r0)), w0) /\
    resolve_next_step r step outcome = Some next /\
    (outcome = StepOutcome.Success \/ workspace_trusted r w0).
Proof.
  intros (outcome & r1 & _ & _ & (r0 & w0 & w1 & Hturn & Hf & Ht & Hp) & _ & Hnext & _)%iterate_advanced Hc.
  exists outcome, r0, w0. split_and!; [done..|].
  destruct (decide (outcome = StepOutcome.Success)) as [->|Ho]; [by left|]. right.
  assert (Hc0 : is_failure_cleanup_step r0 next = true).
  { destruct Hf as [Hi _]. unfold is_failure_cleanup_step, steps_of in *. by rewrite Hi. }
  pose proof (persist_step_result_trusted _ _ _ _ _ _ _ Hp Ht Ho Hc0) as Htr.
  destruct Hf as (Hi & _ & _ & _ & _ & _ & _ & _ & Hwd & _ & Hdm & _).
  unfold workspace_trusted, run_of in *. by rewrite Hi, Hwd, Hdm in Htr.
Qed.
End Loop.

(** ** A concrete workflow *)

(** A host on a quiet machine: no workspace carries a claim, nothing is merged
    yet. *)
Definition quiet_host : Host := {|
  render_cause _ := "database error";
  to_rfc3339 t := pretty t;
  object_to_string _ := Some "{}";
  process_id := 4242;
  temp_dir_join run := "/tmp/" +:+ run;
  workspace_ownership_evidence_exists _ _ := false;
  verify_workspace_ownership _ _ _ := Some "no ownership record";
  complete_merge_required_run _ _ w := (MergeNotYetMerged, w);
  target_path_variables _ _ := [];
  scope_control_variables _ := []
|}.

(** An executor that always answers [o]. *)
Definition answering (o : StepOutcome.t) (writes : list ContextWrite) : Executor :=
  fun _ _ w => (mkExecResult (Ok o) writes, w).

(** Implement, then a review that always asks for a fix, at most twice. *)
Definition review_workflow : WorkflowType :=
  mkWorkflowType "wf"
    [mkStepDef "implement" "agent" None None None None None None;
     mkStepDef "review" "check" None None None None None None;
     mkStepDef "abandon_and_log" "failure_cleanup" None None None None (Some true) None]
    [mkTransitionDef "implement" "review" None None;
     mkTransitionDef "review" "implement" (Some "fixable") (Some 2%Z);
     mkTransitionDef "implement" "abandon_and_log" (Some "fatal") None]
    (mkGuardConfig None None None).

Definition review_config : WorkflowConfig :=
  mkWorkflowConfig "cfg" "wf" (mkRuntimeConfig 60 3) (Some 5%Z) ∅
    (mkParentOrchestrationConfig false true 60 None "child" "child-cfg") false None None.

Definition review_registry (review : StepOutcome.t) : ExecutorRegistry :=
  {["agent" := answering StepOutcome.Success [WSet "issue_number" "7"];
    "check" := answering review []]}.

Definition local_context (managed : bool) : RunContext :=
  mkRunContext managed None None (Some "/work/run-1") (Some "acme/app") (Some 7%Z) None None None None.

Section Samples.
#[local] Existing Instance calm.
#[local] Existing Instance quiet_host.
#[local] Existing Instance plain_codec.

Definition review_runner (review : StepOutcome.t) (managed : bool) : EngineRunner :=
  with_context (create_with_run_id review_workflow review_config "run-1") (review_registry review)
    (local_context managed).

(** A review that passes ends the run; one that never does is abandoned at its
    edge's limit. *)
Example review_passes :
  (fun r => from_option fst RSuccess r) <$>
    res_ok (fst (run 10 (review_runner StepOutcome.Success false) (start empty_db))) = Some RSuccess.
Proof. vm_compute. reflexivity. Qed.

Example review_abandoned :
  (fun r => from_option fst RSuccess r) <$>
    res_ok (fst (run 10 (review_runner StepOutcome.Fixable false) (start empty_db))) =
  Some (RAbandoned "review" "Per-edge loop limit (2) exceeded on edge review:implement").
Proof. vm_compute. reflexivity. Qed.

Lemma transition_loop_terminates_witness :
  let r := review_runner StepOutcome.Fixable false in
  (forall w', run_transition_loop (loop_fuel r) r (start empty_db) <> (Ok None, w')) /\
  forall fuel, loop_fuel r <= fuel ->
    run_transition_loop fuel r (start empty_db) =
    run_transition_loop (loop_fuel r) r (start empty_db).
Proof.
  exact (transition_loop_terminates (review_runner StepOutcome.Fixable false) (start empty_db)
    ltac:(by_computation)).
Defined.

(** The turn from a point of the run, when it goes on. *)
Definition next_turn (a : EngineRunner * string * World Db) : EngineRunner * string * World Db :=
  let '(r, step, w) := a in
  match iterate r step w with
  | (Ok (Advanced r' next), w') => (r', next, w')
  | _ => a
  end.

Lemma next_turn_goes_on a :
  (if fst (iterate a.1.1 a.1.2 a.2) is Ok (Advanced _ _) then True else False) ->
  goes_on a (next_turn a).
Proof.
  destruct a as [[r step] w]. cbn. destruct (iterate r step w) as [[[o r'|r' next]|e] w'] eqn:E; done.
Qed.

Lemma edge_counts_bounded_witness :
  let a := (review_runner StepOutcome.Fixable false, "implement", start empty_db) in
  let b := next_turn (next_turn a) in
  (edge_count a.1.1 "review:implement" <= edge_count b.1.1 "review:implement")%Z /\
  (edge_count b.1.1 "review:implement" <=
   Z.max (edge_count a.1.1 "review:implement") (key_limit a.1.1 "review:implement"))%Z.
Proof.
  intros a b. apply (edge_counts_bounded a b "review:implement").
  eapply rtc_l; [apply next_turn_goes_on; vm_compute; exact I|].
  apply rtc_once, next_turn_goes_on. vm_compute. exact I.
Defined.

(** A run that is not the daemon's, in a workspace nothing claims. *)
Lemma cleanup_needs_ownership_witness :
  let r := (review_runner StepOutcome.Fixable false)
             <| registry := {["agent" := answering StepOutcome.Fatal []]} |> in
  let a := (r, "implement", start empty_db) in
  (next_turn a).1.2 = "abandon_and_log" /\
  exists outcome r0 w0,
    turn_outcome r "implement" (start empty_db) = (Ok (Some (outcome, r0)), w0) /\
    resolve_next_step r "implement" outcome = Some "abandon_and_log" /\
    (outcome = StepOutcome.Success \/ workspace_trusted r w0).
Proof.
  intros r a. split; [vm_compute; reflexivity|].
  apply (cleanup_needs_ownership r (next_turn a).1.1 "implement" "abandon_and_log"
           (start empty_db) (next_turn a).2).
  - vm_compute. reflexivity.
  - vm_compute. reflexivity.
Defined.
End Samples.
