(* ===== verification/StepResults.v ===== *)
(** What persisting a step means ([engine/runner/failure_cleanup.rs],
    [engine/runner.rs]): the transaction that records a step's result, the
    terminal that a denied workspace leaves behind, the reasons that become
    public, and the way from an interrupt to the resumed run. *)
From S2P Require Import Prelude Effects Sql Status Schema Transition Checkpoints Leases Runs StepContext Runner TransitionLoop.

Section Results.
Context `{Env} `{Host} `{Codec : JsonCodec}.

(** ** What is to be recorded *)

(** The run's row of the registry, where it can be read. *)
Definition registered_run (run : string) (d : Db) : option RunMetadata :=
  run_row run d ≫= fun row => res_ok (map_run_row row).

(** A step the workflow declares as its failure cleanup. *)
Definition cleanup_declared (r : EngineRunner) (step : string) : Prop :=
  exists s, s ∈ steps_of r /\ sd_step_id s = step /\ sd_terminal s = Some true /\ sd_step_type s = "failure_cleanup".

(** A failing outcome on its way into the cleanup step [cleanup]. *)
Definition failing_into (r : EngineRunner) (outcome : StepOutcome.t) (next : option string) (cleanup : string) : Prop :=
  next = Some cleanup /\ outcome <> StepOutcome.Success /\ cleanup_declared r cleanup.

(** The workspace of a failing run, of the daemon's or with a marker in it, does
    not verify as the run's. *)
Definition denied_for (r : EngineRunner) (outcome : StepOutcome.t) (next : option string) (w : World Db)
    (cleanup : string) : Prop :=
  failing_into r outcome next cleanup /\
  (workspace_ownership_evidence_exists w (sc_work_dir (context r)) = true \/ daemon_managed (context r) = true) /\
  verify_workspace_ownership w (sc_work_dir (context r)) (run_of r) <> None.

(** The provenance of a failed step, as its cleanup and a recovery read it. *)
Definition provenance (step : string) (outcome : StepOutcome.t) (reason cleanup : string) (denied : bool)
    (cp : Checkpoint) (captured : Z) : FailureCleanupState := {|
  fc_schema_version := 1;
  failed_step := step;
  failure_outcome := StepOutcome.to_string outcome;
  failure_reason := reason;
  failed_checkpoint_id := step +:+ "@" +:+ to_rfc3339 (cp_timestamp cp);
  failed_state_snapshot := state_snapshot cp;
  cleanup_step := cleanup;
  cleanup_succeeded := false;
  captured_at := captured;
  cleanup_completed_at := None;
  recovery_consumed_at := None;
  ownership_denied := denied
|}.

(** What entering a cleanup step captures, and nothing else does. *)
Definition captured_failure (r : EngineRunner) (step : string) (outcome : StepOutcome.t) (next : option string)
    (cp : Checkpoint) (failure : option FailureCleanupState) : Prop :=
  (forall cleanup, failing_into r outcome next cleanup -> exists t,
     failure = Some (provenance step outcome
       (public_failure_reason step outcome (get (context r) (step +:+ ".llxprt_failure_reason")))
       cleanup false cp t)) /\
  ((forall cleanup, ~ failing_into r outcome next cleanup) -> failure = None).

(** What the end of a cleanup step hands on: the row's provenance where the row
    can be read and has one, else the runner's, completed by a success. *)
Definition known_failure (r : EngineRunner) (w : World Db) : option FailureCleanupState :=
  opt_or ((if env_fault (w_stmt w) then None else registered_run (run_of r) (w_db w)) ≫= failure_cleanup)
    (pending_failure_cleanup r).
Definition ended_cleanup (r : EngineRunner) (step : string) (outcome : StepOutcome.t) (w : World Db)
    (terminal : option FailureCleanupState) : Prop :=
  (cleanup_declared r step -> exists known, known_failure r w = Some known /\
     (outcome <> StepOutcome.Success -> terminal = Some known) /\
     (outcome = StepOutcome.Success -> exists t,
        terminal = Some (known <| cleanup_succeeded := true |> <| cleanup_completed_at := Some t |>))) /\
  (~ cleanup_declared r step -> terminal = None).

(** The row after a step: where it came from, what may follow, and the provenance. *)
Definition step_row (r : EngineRunner) (step : string) (outcome : StepOutcome.t) (candidates : list string)
    (failure terminal : option FailureCleanupState) (t : Z) (m : RunMetadata) : RunMetadata :=
  let m := m <| previous_step := Some step |> <| previous_outcome := Some (StepOutcome.to_string outcome) |>
             <| next_step_candidates := candidates |> <| updated_at := Some t |> in
  match terminal, failure with
  | Some state, _ =>
      m <| failure_cleanup := Some state |> <| current_step := Some (failed_step state) |>
        <| status := if bool_decide (outcome = StepOutcome.Success) then RunStatus.Abandoned else RunStatus.Failed |>
  | None, Some state => m <| failure_cleanup := Some state |>
  | None, None => m
  end.

Definition logged (run step outcome : string) (ty : EventType.t) (details : option string) (t : Z) (d : Db) : Db :=
  d <| events := events d ++ [mkEventRecord run step outcome (EventType.to_string ty) details t] |>.

(** A lease of the run in one of these statuses. *)
Definition holds (run lease : string) (from : list string) (row : LeaseRow) : bool :=
  bool_decide (lease_id row = lease) && bool_decide (l_status row ∈ from) && bool_decide (l_run_id row = Some run).
Definition moved (run lease : string) (from : list string) (to : string) (t : Z) (l : list LeaseRow) : list LeaseRow :=
  update_where (holds run lease from)
    (fun row => row <| l_status := to |> <| l_updated_at := t |> <| heartbeat_at := t |>) l.

(** The lease the daemon took for the run's issue: of a run of the daemon's whose
    row names the issue. *)
Definition issue_of (r : EngineRunner) (m : RunMetadata) : option (string * Z) :=
  if daemon_managed (context r) then
    match repository m, issue_number m with
    | Some repo, Some number => if decide (0 <= number)%Z then Some (repo, number) else None
    | _, _ => None
    end
  else None.

(** A captured failure moves it to [cleanup_abandoned], which keeps the issue from
    being claimed; there must be one, and it must be the run's. *)
Definition lease_protected (r : EngineRunner) (m : RunMetadata) (l l' : list LeaseRow) : Prop :=
  match issue_of r m with
  | None => l' = l
  | Some (repo, number) => exists lease t,
      select_first (lease_on repo number) l = Some lease /\ l_run_id lease = Some (run_of r) /\
      (exists row, row ∈ l /\ holds (run_of r) (lease_id lease) ["running"; "cleanup_abandoned"] row = true) /\
      l' = moved (run_of r) (lease_id lease) ["running"; "cleanup_abandoned"] "cleanup_abandoned" t l
  end.

(** A denial moves it to [failed], if there is one, it is the run's and running. *)
Definition lease_failed (r : EngineRunner) (m : RunMetadata) (l l' : list LeaseRow) : Prop :=
  match issue_of r m with
  | None => l' = l
  | Some (repo, number) =>
      match select_first (lease_on repo number) l with
      | Some lease =>
          if decide (l_run_id lease = Some (run_of r))
          then exists t, l' = moved (run_of r) (lease_id lease) ["running"] "failed" t l
          else l' = l
      | None => l' = l
      end
  end.

(** The whole database after a step's result was recorded: the checkpoint, the
    event, and with a registry the event of a terminal state, the lease and the
    row. *)
Definition result_persisted (r : EngineRunner) (step : string) (outcome : StepOutcome.t) (cp : Checkpoint)
    (details : option string) (candidates : list string) (failure terminal : option FailureCleanupState)
    (leases : RunMetadata -> list LeaseRow -> list LeaseRow -> Prop) (d d' : Db) : Prop :=
  exists t, let d1 := logged (run_of r) step (StepOutcome.to_string outcome) EventType.StepOutcome details t (saved cp d) in
  if persist_registry r then
    exists m t1 t2 l, let m' := step_row r step outcome candidates failure terminal t1 m in
      registered_run (run_of r) d = Some m /\ leases m' (issue_leases d) l /\
      d' = run_saved m'
             ((match terminal with
               | Some state => logged (run_of r) (failed_step state) (RunStatus.to_string (status m'))
                                 EventType.TerminalState None t2 d1
               | None => d1
               end) <| issue_leases := l |>)
  else d' = d1.

Definition result_recorded (r : EngineRunner) (step : string) (outcome : StepOutcome.t) (cp : Checkpoint)
    (failure terminal : option FailureCleanupState) (d d' : Db) : Prop :=
  result_persisted r step outcome cp (details object_to_string (context r) step)
    (Transition.compute_next_step_candidates (transitions_of r) step) failure terminal
    (match opt_or terminal failure with Some _ => lease_protected r | None => fun _ l l' => l' = l end) d d'.

(** A denied workspace is recorded as the end of the run, never for a cleanup. *)
Definition denial_recorded (r : EngineRunner) (step : string) (outcome : StepOutcome.t) (cp : Checkpoint)
    (cleanup : string) (failure : FailureCleanupState) (d d' : Db) : Prop :=
  result_persisted r step outcome cp None [cleanup] None (Some failure) (lease_failed r) d d'.

(** ** The lease *)

Lemma db_same_leases (d : Db) : d <| issue_leases := issue_leases d |> = d.
Proof. by destruct d. Qed.

Lemma holds_guard run lease (expected : list LeaseStatus.t) row :
  cas_guard lease expected (owner_guard (Some run)) row = holds run lease (LeaseStatus.as_str <$> expected) row.
Proof.
  unfold cas_guard, holds, lease_named, lease_of_run, owner_guard, lease_status_in, lease_of_run. f_equal. f_equal.
  induction expected as [|s l IH]; cbn; [done|]. rewrite IH.
  apply eq_true_iff_eq. rewrite orb_true_iff, !bool_decide_eq_true. set_solver.
Qed.

Lemma moved_cas run lease (expected : list LeaseStatus.t) status t l :
  update_where (cas_guard lease expected (owner_guard (Some run))) (cas_row status None t) l =
  moved run lease (LeaseStatus.as_str <$> expected) (LeaseStatus.as_str status) t l.
Proof.
  unfold moved, update_where. apply list_fmap_ext. intros i row _. rewrite holds_guard.
  by destruct row, (holds _ _ _ _).
Qed.

(** The update of the run's own lease: what it moved, or that there was none. *)
Lemma own_update_wp run lease status expected w :
  expected <> [] ->
  wp (update_lease_status_conditional lease status expected None (Some run))
     (fun res w' => match res with
        | Ok b => exists t,
            w_db w' = (w_db w) <| issue_leases := moved run lease (LeaseStatus.as_str <$> expected)
              (LeaseStatus.as_str status) t (issue_leases (w_db w)) |> /\
            (b = true -> exists row, row ∈ issue_leases (w_db w) /\
               holds run lease (LeaseStatus.as_str <$> expected) row = true)
        | Err _ => True
        end) w.
Proof.
  intros He. unfold update_lease_status_conditional, conditional_update. cbn [from_option].
  rewrite (bool_decide_eq_false_2 _ He). wp_run; try done.
  match goal with H : update_leases _ _ _ = _ |- _ => injection H as <- <- end.
  db_eqs. rewrite moved_cas. eexists. split; [done|]. intros (row & Hin & Hrow)%bool_decide_eq_true%count_where_pos.
  exists row. by rewrite <- holds_guard.
Qed.

Lemma find_lease_wp repo number w :
  wp (get_lease_for_issue repo number)
     (fun res w' => w_db w' = w_db w /\ match res with
        | Ok found => found = row_to_lease <$> select_first (lease_on repo number) (issue_leases (w_db w))
        | Err _ => True
        end) w.
Proof.
  unfold get_lease_for_issue, issue_number_to_sql_i64. wp_run. case_decide; wp_run; db_eqs; done.
Qed.

Lemma lease_issue_of r m : lease_issue r m = issue_of r m.
Proof.
  unfold lease_issue, issue_of, daemon_managed_claim, RunMeta.issue_lease_number.
  destruct (daemon_managed _); cbn; [|done]. destruct (repository m), (issue_number m); cbn; try done. by case_decide.
Qed.

(** What a call on the leases may leave. *)
Definition leases_only (P : list LeaseRow -> list LeaseRow -> Prop) (d d' : Db) : Prop :=
  exists l, P (issue_leases d) l /\ d' = d <| issue_leases := l |>.

Lemma protect_lease_wp r m w :
  wp (protect_failure_cleanup_lease r m)
     (fun res w' => match res with
        | Ok _ => leases_only (lease_protected r m) (w_db w) (w_db w')
        | Err _ => True
        end) w.
Proof.
  unfold protect_failure_cleanup_lease, leases_only, lease_protected. rewrite lease_issue_of.
  destruct (issue_of r m) as [[repo number]|]; wp_steps.
  2:{ exists (issue_leases (w_db w)). by rewrite db_same_leases. }
  eapply wp_consequence; [apply find_lease_wp|]. intros [[lease|]|e] w1 [Hw1 Hfound]; wp_steps; try done.
  case_bool_decide as Hown; cbn [negb]; wp_steps; [|done].
  destruct (select_first _ _) as [row|] eqn:Erow; cbn in Hfound; [|done]. injection Hfound as ->.
  eapply wp_consequence; [by apply own_update_wp|]. intros [[]|e] w2 H2; wp_steps; try done.
  destruct H2 as (t & Hdb & Hrow). eexists. rewrite Hdb, Hw1 in *. split; [|reflexivity].
  exists row, t. split_and!; try done. by apply Hrow.
Qed.

Lemma fail_owned_lease_wp r m w :
  wp (fail_owned_lease_for_ownership_denial r m)
     (fun res w' => match res with
        | Ok _ => leases_only (lease_failed r m) (w_db w) (w_db w')
        | Err _ => True
        end) w.
Proof.
  unfold fail_owned_lease_for_ownership_denial, leases_only, lease_failed. rewrite lease_issue_of.
  assert (Hsame : forall w' P, w_db w' = w_db w -> P (issue_leases (w_db w)) ->
            exists l, P l /\ w_db w' = (w_db w) <| issue_leases := l |>).
  { intros w' P -> HP. exists (issue_leases (w_db w)). by rewrite db_same_leases. }
  destruct (issue_of r m) as [[repo number]|]; wp_steps; [|by apply (Hsame w (fun l => l = _))].
  eapply wp_consequence; [apply find_lease_wp|]. intros [[lease|]|e] w1 [Hw1 Hfound]; wp_steps; try done;
    destruct (select_first _ _) as [row|] eqn:Erow; cbn in Hfound; try done; [|by apply (Hsame w1 (fun l => l = _))].
  injection Hfound as ->. change (l_run_id (row_to_lease row)) with (l_run_id row). case_bool_decide as Hown; cbn [negb]; wp_steps.
  2:{ case_decide; [done|]. by apply (Hsame w1 (fun l => l = _)). }
  eapply wp_consequence; [by apply own_update_wp|]. intros [b|e] w2 H2; wp_steps; [|done].
  destruct H2 as (t & Hdb & _). eexists. rewrite Hdb, Hw1. split; [|reflexivity].
  case_decide; [|done]. by exists t.
Qed.

(** ** The registry row *)

(** The registry's part of a persisted result. *)
Definition row_persisted (r : EngineRunner) (step : string) (outcome : StepOutcome.t) (candidates : list string)
    (failure terminal : option FailureCleanupState)
    (leases : RunMetadata -> list LeaseRow -> list LeaseRow -> Prop) (d d' : Db) : Prop :=
  exists m t1 t2 l, let m' := step_row r step outcome candidates failure terminal t1 m in
    registered_run (run_of r) d = Some m /\ leases m' (issue_leases d) l /\
    d' = run_saved m'
           ((match terminal with
             | Some state => logged (run_of r) (failed_step state) (RunStatus.to_string (status m'))
                               EventType.TerminalState None t2 d
             | None => d
             end) <| issue_leases := l |>).

Lemma registered_read run (d : Db) m : registered_run run d = Some m -> run_id m = run /\ from_option is_u32 True (process_pid m).
Proof.
  unfold registered_run. destruct (run_row run d) as [row|] eqn:Erow; cbn; [|done].
  destruct (map_run_row row) as [m'|] eqn:Em; cbn; [|done]. intros [= ->].
  apply select_first_Some in Erow as [_ Hrow%run_named_id]. unfold map_run_row in Em.
  destruct (parse_run_status _ _); cbn in Em; [|done]. injection Em as <-. split; [done|].
  cbn. destruct (process_pid row); cbn; [|done]. unfold as_u32, is_u32, u32_max.
  pose proof (Z.mod_pos_bound z (2 ^ 32)). lia.
Qed.

(** The two calls both updates of the registry end with. *)
Lemma lease_then_save_wp m w (P : list LeaseRow -> list LeaseRow -> Prop) (act : M Db EngineError unit) :
  wp act (fun res w' => match res with Ok _ => leases_only P (w_db w) (w_db w') | Err _ => True end) w ->
  wp (act;; map_err of_sql (persist_run_with_conn m))
     (fun res w' => match res with
        | Ok _ => exists l, P (issue_leases (w_db w)) l /\ w_db w' = run_saved m ((w_db w) <| issue_leases := l |>)
        | Err _ => True
        end) w.
Proof.
  intros Hact. apply wp_bind. eapply wp_consequence; [exact Hact|]. intros [u|e] w1 H1; [|done].
  destruct H1 as (l & HP & Hdb). apply wp_map_err.
  eapply wp_consequence; [apply persist_run_wp|]. intros [u'|e] w2 Hw2; cbn; [|done].
  exists l. by rewrite Hw2, Hdb.
Qed.

Lemma get_registered_wp run w :
  wp (get_run_with_conn run)
     (fun res w' => w_db w' = w_db w /\ match res with Ok found => found = registered_run run (w_db w) | Err _ => True end) w.
Proof.
  unfold get_run_with_conn, registered_run, run_row. wp_run; split; auto.
  destruct (select_first _ _) as [row|]; [|done]. cbn. by destruct (map_run_row row).
Qed.

(** The code's setters, each with a time of its own. *)
Lemma step_row_plain r step outcome candidates t1 t2 m :
  RunMeta.set_next_step_candidates candidates t2
    (RunMeta.set_previous_step_and_outcome step (StepOutcome.to_string outcome) t1 m) =
  step_row r step outcome candidates None None t2 m.
Proof. by destruct m. Qed.

Lemma step_row_captured r step outcome candidates state t1 t2 m :
  (RunMeta.set_next_step_candidates candidates t2
    (RunMeta.set_previous_step_and_outcome step (StepOutcome.to_string outcome) t1 m))
    <| failure_cleanup := Some state |> =
  step_row r step outcome candidates (Some state) None t2 m.
Proof. by destruct m. Qed.

Lemma step_row_ended r step outcome candidates failure state status' t1 t2 t3 m :
  status' = (if bool_decide (outcome = StepOutcome.Success) then RunStatus.Abandoned else RunStatus.Failed) ->
  RunMeta.set_current_step (failed_step state) t3
    ((RunMeta.set_next_step_candidates candidates t2
      (RunMeta.set_previous_step_and_outcome step (StepOutcome.to_string outcome) t1 m))
      <| failure_cleanup := Some state |> <| status := status' |>) =
  step_row r step outcome candidates failure (Some state) t3 m.
Proof. intros ->. by destruct m. Qed.

Lemma persist_registry_wp r step outcome failure terminal w :
  wp (persist_registry_step_state r step outcome failure terminal)
     (fun res w' => match res with
        | Ok _ => row_persisted r step outcome (Transition.compute_next_step_candidates (transitions_of r) step)
            failure terminal
            (match opt_or terminal failure with Some _ => lease_protected r | None => fun _ l l' => l' = l end)
            (w_db w) (w_db w')
        | Err _ => True
        end) w.
Proof.
  unfold persist_registry_step_state. wp_steps.
  eapply wp_consequence; [apply get_registered_wp|]. intros [[m|]|e] w1 [Hw1 Hm]; wp_steps; try done.
  set (P := match opt_or terminal failure with Some _ => lease_protected r | None => fun _ l l' => l' = l end).
  assert (Hfin : forall m' t1 t2 w2,
    m' = step_row r step outcome (Transition.compute_next_step_candidates (transitions_of r) step) failure terminal t1 m ->
    w_db w2 = match terminal with
              | Some state => logged (run_of r) (failed_step state) (RunStatus.to_string (status m'))
                                EventType.TerminalState None t2 (w_db w)
              | None => w_db w
              end ->
    wp (save_step_metadata r (bool_decide (is_Some failure) || bool_decide (is_Some terminal)) m')
       (fun res w' => match res with
          | Ok _ => row_persisted r step outcome (Transition.compute_next_step_candidates (transitions_of r) step)
              failure terminal P (w_db w) (w_db w')
          | Err _ => True
          end) w2).
  { intros m' t1 t2 w2 Hm' Hw2. unfold save_step_metadata.
    eapply wp_consequence; [apply (lease_then_save_wp _ _ (P m'))|].
    - unfold P. destruct terminal, failure; cbn; try apply protect_lease_wp.
      exists (issue_leases (w_db w2)). split; [done|]. symmetry. apply db_same_leases.
    - intros [u|e] w3 Hsaved; [|done]. destruct Hsaved as (l & Hl & Hdb). exists m, t1, t2, l. cbn zeta. rewrite <- Hm'.
      split; [by symmetry|]. rewrite Hw2 in Hl, Hdb. split; [by destruct terminal|exact Hdb]. }
  clearbody P. destruct terminal as [state|]; [|destruct failure as [state|]]; wp_steps.
  - eapply wp_consequence; [apply append_event_wp|]. intros [u|e] w5 Hw5; wp_steps; [|done].
    eapply Hfin; [by apply step_row_ended|]. rewrite Hw5. db_eqs. reflexivity.
  - eapply (Hfin _ _ 0%Z); [apply step_row_captured|by db_eqs].
  - eapply (Hfin _ _ 0%Z); [apply step_row_plain|by db_eqs].
Qed.

Lemma ownership_registry_wp r step outcome cleanup failure w :
  outcome <> StepOutcome.Success -> failed_step failure = step ->
  wp (persist_terminal_ownership_failure_registry r step outcome cleanup failure)
     (fun res w' => match res with
        | Ok _ => row_persisted r step outcome [cleanup] None (Some failure) (lease_failed r) (w_db w) (w_db w')
        | Err _ => True
        end) w.
Proof.
  intros Ho Hstep. unfold persist_terminal_ownership_failure_registry. wp_steps.
  eapply wp_consequence; [apply get_registered_wp|]. intros [[m|]|e] w1 [Hw1 Hm]; wp_steps; try done.
  eapply wp_consequence; [apply append_event_wp|]. intros [u|e] w5 Hw5; wp_steps; [|done].
  set (m' := RunMeta.set_current_step _ _ _).
  assert (Hm' : exists t1, m' = step_row r step outcome [cleanup] None (Some failure) t1 m).
  { eexists. unfold m'. rewrite <- Hstep at 1. apply step_row_ended. by rewrite (bool_decide_eq_false_2 _ Ho). }
  destruct Hm' as [t1 Hm'].
  eapply wp_consequence; [apply fail_owned_lease_wp|]. intros [u'|e] w6 Hw6; wp_steps; [|done].
  destruct Hw6 as (l & Hl & Hdb).
  eapply wp_consequence; [apply persist_run_wp|]. cbn. intros [u''|e] w7 Hw7; [|done].
  rewrite Hw7, Hdb. rewrite Hw5 in Hl |- *. db_eqs. exists m, t1. do 2 eexists. cbn zeta. rewrite <- Hm'.
  split; [by symmetry|]. split; [exact Hl|]. rewrite Hstep. unfold m'. cbn. reflexivity.
Qed.

(** ** A persisted step *)

(** Both transactions save the checkpoint, append the event and then update the
    registry, if there is one. *)
Lemma result_body_wp r step outcome cp dets candidates failure terminal leases (act : M Db EngineError unit) w :
  (forall w1, wp act (fun res w' => match res with
     | Ok _ => row_persisted r step outcome candidates failure terminal leases (w_db w1) (w_db w')
     | Err _ => True
     end) w1) ->
  wp (map_err of_store (save_checkpoint_with_conn cp);;
      t ← now;
      map_err of_store (append_typed_event_with_conn (run_of r) step (StepOutcome.to_string outcome)
        EventType.StepOutcome dets t);;
      if persist_registry r then act else mret tt)
     (fun res w' => match res with
        | Ok _ => result_persisted r step outcome cp dets candidates failure terminal leases (w_db w) (w_db w')
        | Err _ => True
        end) w.
Proof.
  intros Hact. wp_steps.
  eapply wp_consequence; [apply save_checkpoint_wp|]. intros [u|e] w1 Hw1; wp_steps; [|done].
  eapply wp_consequence; [apply append_event_wp|]. intros [u'|e] w3 Hw3; wp_steps; [|done].
  assert (Hd : w_db w3 = logged (run_of r) step (StepOutcome.to_string outcome) EventType.StepOutcome dets
                 (env_clock (w_clock w1)) (saved cp (w_db w))).
  { rewrite Hw3. by db_eqs. }
  unfold result_persisted. destruct (persist_registry r); [|wp_steps; eexists; exact Hd].
  eapply wp_consequence; [apply Hact|]. intros [u''|e] w4; [|done]. rewrite Hd. intros Hrow.
  eexists. exact Hrow.
Qed.

Lemma load_metadata_eq r w :
  load_metadata r w = (Ok (if env_fault (w_stmt w) then None else registered_run (run_of r) (w_db w)), next_stmt w).
Proof.
  unfold load_metadata, get_run_with_conn, registered_run, run_row, try, query, mbind, M_bind. cbn.
  destruct (env_fault _); [done|]. destruct (select_first _ _) as [row|]; [|done]. cbn. by destruct (map_run_row row).
Qed.

Lemma cleanup_declared_spec r step : is_failure_cleanup_step r step = true <-> cleanup_declared r step.
Proof.
  unfold is_failure_cleanup_step, cleanup_declared, failure_cleanup_stepdef. rewrite existsb_exists. split.
  - intros (s & Hin & [[Hid Ht]%andb_true_iff Hty]%andb_true_iff). exists s. apply list_elem_of_In in Hin.
    apply bool_decide_eq_true in Hid, Ht, Hty. done.
  - intros (s & Hin & Hid & Ht & Hty). exists s. split; [by apply list_elem_of_In|]. by rewrite !bool_decide_eq_true_2.
Qed.

Lemma failing_into_spec r outcome next cleanup :
  next = Some cleanup -> (entering_cleanup r outcome next = true <-> failing_into r outcome next cleanup).
Proof.
  intros ->. unfold entering_cleanup, failing_into. rewrite andb_true_iff, bool_decide_eq_true, cleanup_declared_spec.
  naive_solver.
Qed.

Lemma terminal_state_wp r step outcome w :
  wp (terminal_state_for_step r step outcome)
     (fun res w' => w_db w' = w_db w /\ match res with Ok terminal => ended_cleanup r step outcome w terminal | Err _ => True end) w.
Proof.
  unfold terminal_state_for_step, ended_cleanup, known_failure. destruct (is_failure_cleanup_step r step) eqn:Ec; cbn [negb]; wp_steps.
  - apply cleanup_declared_spec in Ec. unfold wp at 1. rewrite load_metadata_eq. cbn [fst snd].
    destruct (opt_or _ _) as [known|]; wp_steps; [|done]. case_bool_decide; wp_steps.
    + split; [by db_eqs|]. split; [|done]. intros _. exists known. split_and!; try done. eauto.
    + split; [done|]. split; [|done]. intros _. by exists known.
  - split; [done|]. split; [|done]. intros Hc%cleanup_declared_spec. congruence.
Qed.

Lemma ended_cleanup_ext r step outcome (w w1 : World Db) terminal :
  w_db w1 = w_db w -> w_stmt w1 = w_stmt w ->
  ended_cleanup r step outcome w1 terminal -> ended_cleanup r step outcome w terminal.
Proof. unfold ended_cleanup, known_failure. by intros -> ->. Qed.

Lemma failure_states_wp r step outcome next cp w :
  wp (failure_states_for_step r step outcome next cp)
     (fun res w' => w_db w' = w_db w /\ match res with
        | Ok (failure, terminal) => captured_failure r step outcome next cp failure /\ ended_cleanup r step outcome w terminal
        | Err _ => True
        end) w.
Proof.
  unfold failure_states_for_step, build_failure_cleanup_state.
  assert (Hend : forall w1 failure, w_db w1 = w_db w -> w_stmt w1 = w_stmt w ->
    captured_failure r step outcome next cp failure ->
    wp (terminal ← terminal_state_for_step r step outcome; mret (failure, terminal))
     (fun res w' => w_db w' = w_db w /\ match res with
        | Ok (failure, terminal) => captured_failure r step outcome next cp failure /\ ended_cleanup r step outcome w terminal
        | Err _ => True
        end) w1).
  { intros w1 failure Hdb Hst Hf. wp_steps. eapply wp_consequence; [apply terminal_state_wp|].
    intros [terminal|e] w2 [Hw2 Ht]; wp_steps; (split; [congruence|]); [|done]. split; [done|].
    by eapply ended_cleanup_ext. }
  destruct next as [next|]; [destruct (entering_cleanup r outcome (Some next)) eqn:Ee|].
  - do 4 wp_step. apply Hend; [done..|].
    apply (failing_into_spec _ _ _ next) in Ee; [|done]. split.
    + intros cleanup ([= <-] & _). eexists. reflexivity.
    + intros Hno. by destruct (Hno next).
  - do 2 wp_step. apply Hend; [done..|]. split; [|done]. intros cleanup Hf. pose proof Hf as (Hn & _).
    apply (failing_into_spec _ _ _ _ Hn) in Hf. congruence.
  - do 2 wp_step. apply Hend; [done..|]. split; [|done]. by intros cleanup (? & _).
Qed.

(** Recording a denied workspace. *)
Lemma persist_terminal_wp r step outcome next details w :
  outcome <> StepOutcome.Success ->
  wp (persist_terminal_ownership_failure r step outcome next details)
     (fun res w' => match res with
        | Err _ => w_db w' = w_db w
        | Ok r' => exists t t',
            let cp := mkCheckpoint (run_of r) step (runner_snapshot r "completed") t in
            let cleanup := default (of_failed_step details) next in
            let failure := provenance step outcome ("workspace ownership denied before cleanup step " +:+ cleanup)
                             cleanup true cp t' in
            denial_recorded r step outcome cp cleanup failure (w_db w) (w_db w') /\
            r' = r <| pending_failure_cleanup := Some failure |> <| terminal_ownership_failure := true |>
        end) w.
Proof.
  intros Ho. unfold persist_terminal_ownership_failure, create_checkpoint,
    build_terminal_ownership_failure_state. wp_steps.
  set (cp := mkCheckpoint _ _ _ _). set (f := mkFailureCleanupState _ _ _ _ _ _ _ _ _ _ _ _).
  apply wp_transaction; [intros; db_eqs; done|]. intros w3 Hw3.
  eapply wp_consequence.
  { apply (result_body_wp r step outcome cp None [default (of_failed_step details) next] None (Some f) (lease_failed r)).
    intros w4. by apply ownership_registry_wp. }
  intros [u|e] w5 Hres; [|done]. intros w6 Hw6. wp_steps. do 2 eexists. cbn zeta.
  assert (w_db w3 = w_db w) as Hd by by db_eqs. rewrite Hw6, <- Hd. split; [exact Hres|reflexivity].
Qed.

(** The verdict, as the code asks for it and as it is told above. *)
Lemma workspace_verdict_spec r outcome next w :
  match workspace_verdict r outcome next w with
  | Ok _ => forall cleanup, ~ denied_for r outcome next w cleanup
  | Err e => outcome <> StepOutcome.Success /\ exists cleanup details,
      denied_for r outcome next w cleanup /\ next = Some cleanup /\ e = OwnershipFailure details
  end.
Proof.
  unfold workspace_verdict, denied_for. destruct (entering_cleanup r outcome next) eqn:Ee; cbn [negb].
  2:{ intros cleanup [Hf _]. pose proof Hf as (Hn & _). apply (failing_into_spec _ _ _ _ Hn) in Hf. congruence. }
  destruct next as [next|]; [|done]. pose proof (proj1 (failing_into_spec r outcome _ next eq_refl) Ee) as Hf.
  pose proof Hf as (_ & Ho & _). unfold daemon_managed_claim.
  destruct (workspace_ownership_evidence_exists _ _) eqn:Eev, (daemon_managed _) eqn:Edm; cbn;
    try (destruct (verify_workspace_ownership _ _ _) eqn:Ever);
    try (split; [done|]; exists next; eexists; split_and!; [done|by (left + right)|done|done|done]);
    naive_solver.
Qed.

(** C3: a step's result is recorded in full or not at all.  When persisting
    reports an error the database is untouched; when it succeeds the whole
    database is known.  The completed checkpoint holds the runner's counters and
    checkpointable context and the step's outcome is appended to the event log.  A
    failing outcome on its way into the declared cleanup captures its provenance,
    the end of a cleanup hands on the one that is known; the registry row names
    step, outcome, candidates and provenance, the run's own lease is moved so that
    the issue cannot be claimed, or the step is not recorded; no other row
    changes, and the runner carries the same provenance as the row.  Where the
    workspace is denied the same happens with a terminal failure, marked as
    denied, and a lease that has failed. *)
Theorem persist_step_result_atomic (r : EngineRunner) (step : string) (outcome : StepOutcome.t)
    (next : option string) (w : World Db) :
  wp (persist_step_result r step outcome next)
     (fun res w' =>
        match res with
        | Err _ => w_db w' = w_db w
        | Ok r' => exists t,
            let cp := mkCheckpoint (run_of r) step (runner_snapshot r "completed") t in
            (forall cleanup, denied_for r outcome next w cleanup -> exists t',
               let failure := provenance step outcome
                 ("workspace ownership denied before cleanup step " +:+ cleanup) cleanup true cp t' in
               denial_recorded r step outcome cp cleanup failure (w_db w) (w_db w') /\
               r' = r <| pending_failure_cleanup := Some failure |> <| terminal_ownership_failure := true |>) /\
            ((forall cleanup, ~ denied_for r outcome next w cleanup) -> exists failure terminal,
               captured_failure r step outcome next cp failure /\
               ended_cleanup r step outcome w terminal /\
               result_recorded r step outcome cp failure terminal (w_db w) (w_db w') /\
               r' = r <| pending_failure_cleanup :=
                           opt_or (opt_or terminal failure) (pending_failure_cleanup r) |>)
        end) w.
Proof.
  unfold persist_step_result, verify_failure_cleanup_workspace. apply wp_bind. unfold wp at 1. cbn [fst snd].
  pose proof (workspace_verdict_spec r outcome next w) as Hv.
  destruct (workspace_verdict r outcome next w) as [v|e].
  - wp_steps. unfold create_checkpoint. wp_steps. set (cp := mkCheckpoint _ _ _ _).
    eapply wp_consequence; [apply failure_states_wp|].
    intros [[failure terminal]|e] w2 [Hw2 Hstates]; wp_steps; [|db_eqs; done]. destruct Hstates as [Hf Ht].
    apply wp_transaction; [intros; db_eqs; done|]. intros w3 Hw3.
    eapply wp_consequence.
    { eapply (result_body_wp r step outcome cp). intros w4. apply persist_registry_wp. }
    intros [u|e] w5 Hres; [|done]. intros w6 Hw6. wp_steps. exists (env_clock (w_clock w)).
    split; [intros cleanup Hc; by apply Hv in Hc|]. intros _. exists failure, terminal.
    assert (w_db w3 = w_db w) as Hd by by db_eqs. rewrite Hw6, <- Hd. split_and!; try done.
    + eapply ended_cleanup_ext; [| |exact Ht]; done.
    + by destruct r, terminal, failure.
  - destruct Hv as (Ho & cleanup & details & Hden & -> & ->).
    eapply wp_consequence; [by apply persist_terminal_wp|].
    intros [r'|e] w'; [|done]. intros (t & t' & Hrec & ->). exists t. split.
    + intros cleanup' ((Hn & _) & _). injection Hn as <-. by exists t'.
    + intros Hno. by destruct (Hno cleanup).
Qed.

(** ** A denied workspace *)

Lemma denied_details r outcome next e w :
  workspace_verdict r outcome next w = Err e ->
  outcome <> StepOutcome.Success /\ exists details, e = OwnershipFailure details.
Proof.
  intros Hv. pose proof (workspace_verdict_spec r outcome next w) as Hs. rewrite Hv in Hs. naive_solver.
Qed.

Lemma load_metadata_wp r w :
  wp (load_metadata r)
     (fun res w' => w_db w' = w_db w /\
        exists found, res = Ok found /\
          forall m, found = Some m ->
            exists row, run_row (run_of r) (w_db w) = Some row /\ map_run_row row = Ok m) w.
Proof.
  unfold wp. rewrite load_metadata_eq. split; [done|]. eexists. split; [done|]. intros m.
  destruct (env_fault _); [done|]. unfold registered_run. destruct (run_row _ _) as [row|]; cbn; [|done].
  destruct (map_run_row row) eqn:Em; cbn; [|done]. intros [= ->]. by exists row.
Qed.

(** What a reader finds in the row that was recorded. *)
Lemma recorded_reads r step outcome cp dets candidates failure state leases d d' :
  persist_registry r = true ->
  result_persisted r step outcome cp dets candidates failure (Some state) leases d d' ->
  exists m, registered_run (run_of r) d' = Some m /\ failure_cleanup m = Some state.
Proof.
  unfold result_persisted. intros -> (t & m & t1 & t2 & l & Hm & _ & ->). cbn zeta.
  set (m' := step_row _ _ _ _ _ _ _ _). exists m'. split; [|done].
  pose proof (registered_read _ _ _ Hm) as [Hid Hpid]. unfold registered_run. rewrite <- Hid.
  change (run_id m) with (run_id m'). rewrite run_saved_row. cbn. by rewrite map_bound_row.
Qed.

(** No runner of the run resumes on this database: the denial is answered,
    without a write, unless reading the registry fails. *)
Definition refuses_resume (run : string) (d : Db) : Prop :=
  forall r2 w2, run_of r2 = run -> w_db w2 = d -> env_fault (w_stmt w2) = false ->
    exists f, cleanup_succeeded f = false /\
      fst (resume_from_checkpoint r2 w2) = Err (ownership_denied_error r2 f) /\
      w_db (snd (resume_from_checkpoint r2 w2)) = d.

(** C14: a denied workspace ends the run for good.  When ownership is denied on
    the way into a cleanup step and the denial was recorded, the runner is told
    to stop, and whichever runner of the same run later resumes on that
    database is refused with the denial, without a write, as long as its read
    of the registry does not fail. *)
Theorem ownership_denial_final (r r' : EngineRunner) (step next : string) (outcome : StepOutcome.t)
    (e : EngineError) (w w' : World Db) :
  workspace_verdict r outcome (Some next) w = Err e -> persist_registry r = true ->
  persist_step_result r step outcome (Some next) w = (Ok r', w') ->
  terminal_ownership_failure r' = true /\ refuses_resume (run_of r) (w_db w').
Proof.
  intros Hv Hreg Hp. destruct (denied_details _ _ _ _ _ Hv) as (Ho & details & ->).
  unfold persist_step_result, verify_failure_cleanup_workspace in Hp.
  apply bind_Ok in Hp as (verdict & w1 & [= <- <-] & Hp). rewrite Hv in Hp.
  pose proof (persist_terminal_wp r step outcome (Some next) details w Ho) as Hwp.
  unfold wp in Hwp. rewrite Hp in Hwp. cbn in Hwp.
  destruct Hwp as (t & t' & Hrec & ->). set (f := provenance _ _ _ _ _ _ _) in *.
  split; [done|]. intros r2 w2 Hrun Hdb Hfault. exists f.
  destruct (recorded_reads _ _ _ _ _ _ _ _ _ _ _ Hreg Hrec) as (m & Hm & Hf).
  assert (Hload : load_metadata r2 w2 = (Ok (Some m), next_stmt w2)).
  { by rewrite load_metadata_eq, Hfault, Hdb, Hrun, Hm. }
  unfold resume_from_checkpoint, mbind, M_bind. rewrite Hload. cbn. rewrite Hf. by split_and!.
Qed.

(** A registry read that fails counts as no registry row, here too: the resume
    then follows the newest checkpoint, whatever the row says. *)
Lemma unreadable_registry_resumes (r : EngineRunner) (w : World Db) row :
  env_fault (w_stmt w) = true -> env_fault (S (w_stmt w)) = false ->
  newest_by cr_timestamp (select_where (checkpoint_of_run (run_of r)) (checkpoints (w_db w))) =
    Some row ->
  fst (resume_from_checkpoint r w) =
    restore_snapshot r (state_snapshot (row_to_checkpoint row)) (cr_step_id row).
Proof.
  intros Hf1 Hf2 Hrow.
  assert (Hload : load_metadata r w = (Ok None, next_stmt w)).
  { unfold load_metadata, get_run_with_conn, try, query, mbind, M_bind. cbn. by rewrite Hf1. }
  unfold resume_from_checkpoint, mbind at 1, M_bind. rewrite Hload. cbn.
  unfold mbind, M_bind, map_err, load_checkpoint_with_conn, map_err, query. cbn. rewrite Hf2. cbn.
  rewrite Hrow. cbn. unfold lift_res. by destruct (restore_snapshot _ _ _).
Qed.

(** ** Interrupt and resume *)

(** No failure waits for its cleanup in the run's row. *)
Definition no_pending_cleanup (run : string) (d : Db) : Prop :=
  forall row m, run_row run d = Some row -> map_run_row row = Ok m ->
    from_option cleanup_succeeded true (failure_cleanup m) = true.

Lemma map_bound_cleanup m m' :
  map_run_row (bind_run_metadata_params m) = Ok m' -> failure_cleanup m' = failure_cleanup m.
Proof.
  unfold map_run_row. destruct (parse_run_status _ _); cbn; [|done]. by intros [= <-].
Qed.

Lemma no_pending_saved m d :
  from_option cleanup_succeeded true (failure_cleanup m) = true ->
  no_pending_cleanup (run_id m) (run_saved m d).
Proof.
  intros Hm row m'. rewrite run_saved_row. intros [= <-] ->%map_bound_cleanup. done.
Qed.

(** Recording a completion short of a merge touches the run's row and the event
    log, and keeps the row's provenance. *)
Lemma completion_wp r o step w :
  status_for_completion o (wc_merge_required (config (instance r))) <> RunStatus.ReviewReady ->
  no_pending_cleanup (run_of r) (w_db w) ->
  wp (record_run_completion r o step)
     (fun _ w' => checkpoints (w_db w') = checkpoints (w_db w) /\
        no_pending_cleanup (run_of r) (w_db w')) w.
Proof.
  intros Hs Hnp. unfold record_run_completion, record_event, build_metadata.
  destruct (negb _); wp_steps; [done|].
  eapply wp_consequence; [apply load_metadata_wp|]. intros res w1 [Hw1 (found & -> & Hfound)]. wp_steps.
  assert (Hrest : forall m w2, run_id m = run_of r ->
    from_option cleanup_succeeded true (failure_cleanup m) = true -> w_db w2 = w_db w ->
    wp (persist_run_with_conn m)
       (fun res w' => checkpoints (w_db w') = checkpoints (w_db w) /\
          no_pending_cleanup (run_of r) (w_db w')) w2).
  { intros m w2 Hid Hm Hw2. eapply wp_consequence; [apply persist_run_wp|].
    intros [u|e] w3 Hw3; [rewrite Hw3, Hw2|destruct Hw3 as [-> _]; by rewrite Hw2].
    split; [done|]. rewrite <- Hid. by apply no_pending_saved. }
  assert (Hev : forall outcome t w2,
    checkpoints (w_db w2) = checkpoints (w_db w) /\ no_pending_cleanup (run_of r) (w_db w2) ->
    wp (append_typed_event_with_conn (run_of r) step outcome EventType.TerminalState None t)
       (fun _ w' => checkpoints (w_db w') = checkpoints (w_db w) /\
          no_pending_cleanup (run_of r) (w_db w')) w2).
  { intros outcome t w2 Hw2. eapply wp_consequence; [apply append_event_wp|].
    intros [u|e] w3 Hw3; [|destruct Hw3 as [Hw3 _]]; rewrite Hw3; exact Hw2. }
  rewrite (bool_decide_eq_false_2 _ Hs).
  destruct found as [m|]; wp_steps.
  - destruct (Hfound m eq_refl) as (row & Hrow & Hmap).
    eapply wp_consequence; [apply Hrest; [|exact (Hnp row m Hrow Hmap)|db_eqs; done]|].
    { cbn. unfold run_row in Hrow. apply select_first_Some in Hrow as [_ Hid%run_named_id].
      unfold map_run_row in Hmap. destruct (parse_run_status _ _); cbn in Hmap; [|done].
      by injection Hmap as <-. }
    intros [u|e] w4 Hw4; [|done]. wp_steps. apply Hev.
    match goal with H : w_db _ = w_db w4 |- _ => by rewrite H end.
  - eapply wp_consequence; [apply Hrest; [done|done|db_eqs; done]|].
    intros [u|e] w4 Hw4; [|done]. wp_steps. apply Hev.
    match goal with H : w_db _ = w_db w4 |- _ => by rewrite H end.
Qed.

(** What an interrupt leaves in the database. *)
Lemma interrupt_wp r step w :
  no_pending_cleanup (run_of r) (w_db w) ->
  wp (interrupt_at_step r step)
     (fun res w' => match res with
        | Ok o => o = RInterrupted step /\ no_pending_cleanup (run_of r) (w_db w') /\
            checkpoints (w_db w') = checkpoints (saved
              (mkCheckpoint (run_of r) step (runner_snapshot r "interrupted")
                 (env_clock (w_clock w))) (w_db w))
        | Err e => e = of_store (Database SqliteFailure) /\ w_db w' = w_db w
        end) w.
Proof.
  intros Hnp. unfold interrupt_at_step, create_checkpoint, record_event. wp_steps.
  eapply wp_consequence; [apply save_checkpoint_wp|].
  intros [u|e] w2 Hw2; [|destruct Hw2 as [Hw2 ->]; db_eqs; done]. wp_steps.
  eapply wp_consequence; [apply append_event_wp|]. intros res w4 Hw4. wp_steps.
  assert (Hdb : runs (w_db w4) = runs (w_db w) /\
    checkpoints (w_db w4) = checkpoints (w_db w2)).
  { destruct res as [u'|e]; [|destruct Hw4 as [Hw4 _]]; rewrite Hw4; db_eqs; done. }
  destruct Hdb as [Hruns Hcps].
  eapply wp_consequence; [apply completion_wp; [done|]|].
  { intros row m. unfold run_row. rewrite Hruns. apply Hnp. }
  intros _ w5 [Hc Hn]. wp_steps. split_and!; [done..|]. rewrite Hc, Hcps. db_eqs. done.
Qed.

(** C12: an interrupted run resumes where it was.  After an interrupt at a step,
    a runner built for the same run resumes at that step with the same retry
    count, the same loop counters and the same step order, and with the
    allowlisted variables of the interrupted run; the only errors are failing
    statements.  (The clock has moved past the run's older checkpoints; no
    failure waits for its cleanup.) *)
Theorem interrupt_resume `{!JsonCodecLaws Codec} (r r2 : EngineRunner) (step : string) (w : World Db) :
  run_of r2 = run_of r -> checkpointable_keys (context r2) = checkpointable_keys (context r) ->
  Forall (fun k => k ∉ checkpointable_keys (context r))
    [NAMESPACED_VARS_KEY; STEP_ORDER_KEY; EDGE_LOOP_COUNTS_KEY] ->
  is_u32 (er_retry_count r) -> map_Forall (fun _ n => is_u32 n) (er_edge_loop_counts r) ->
  no_pending_cleanup (run_of r) (w_db w) ->
  Forall (fun row => cr_run_id row = run_of r -> cr_timestamp row < env_clock (w_clock w))%Z
    (checkpoints (w_db w)) ->
  wp (o ← interrupt_at_step r step; r' ← resume_from_checkpoint r2; mret (o, r'))
     (fun res _ => match res with
        | Ok (o, r') =>
            o = RInterrupted step /\ current_state (instance r') = step /\
            er_retry_count r' = er_retry_count r /\
            er_edge_loop_counts r' = er_edge_loop_counts r /\
            step_order (context r') = step_order (context r) /\
            namespaced_vars (context r') =
              keep_checkpointable (context r) <$> namespaced_vars (context r) /\
            forall k v, k ∈ checkpointable_keys (context r) ->
              variables (context r) !! k = Some v -> variables (context r') !! k = Some v
        | Err e => e = of_store (Database SqliteFailure)
        end) w.
Proof.
  intros Hrun Hkeys Hctl Hretry Hedges Hnp Hclock. wp_steps.
  eapply wp_consequence; [by apply interrupt_wp|].
  intros [o|e] w1; [|by intros [-> _]]. intros (-> & Hnp1 & Hcps). wp_steps.
  unfold resume_from_checkpoint. wp_steps.
  eapply wp_consequence; [apply load_metadata_wp|]. intros res w2 [Hw2 (found & -> & Hfound)].
  wp_steps. rewrite Hrun in Hfound |- *.
  assert (Hnone : match found ≫= failure_cleanup with
    | Some failure => if cleanup_succeeded failure then None else Some failure | None => None end = None).
  { destruct found as [m|]; [|done]. destruct (Hfound m eq_refl) as (row & Hrow & Hm).
    specialize (Hnp1 row m Hrow Hm). cbn in *. by destruct (failure_cleanup m) as [f|]; cbn in *; rewrite ?Hnp1. }
  rewrite Hnone. clear Hfound Hnone. unfold load_checkpoint_with_conn. wp_steps.
  apply wp_query; [done|]. intros w3 Hw3. cbn [res_map_err].
  set (cp := mkCheckpoint (run_of r) step (runner_snapshot r "interrupted") (env_clock (w_clock w))) in *.
  assert (Hnew : newest_by cr_timestamp (select_where (checkpoint_of_run (run_of r))
      (checkpoints (w_db w2))) = Some (checkpoint_to_row cp)).
  { rewrite Hw2, Hcps. by apply (saved_newest cp). }
  rewrite Hnew. cbn [fmap option_fmap option_map].
  rewrite row_of_checkpoint.
  2: { split_and!; [done| |done]. unfold cp. cbn. unfold loop_count_of, as_u32, is_u32, u32_max.
       pose proof (Z.mod_pos_bound (map_fold (fun _ n acc => (n + acc)%Z) 0%Z (er_edge_loop_counts r)) (2 ^ 32)).
       lia. }
  assert (Hout : forall k, k ∈ [NAMESPACED_VARS_KEY; STEP_ORDER_KEY; EDGE_LOOP_COUNTS_KEY] ->
    k ∉ checkpointable_keys (context r)).
  { by apply Forall_forall. }
  unfold restore_snapshot. cbn [as_stored state_snapshot upd ss_context].
  rewrite (restore_checkpointed (context r)); [|done|..].
  2: { apply Hout. repeat constructor. }
  2: { apply Hout. repeat constructor. }
  2: { unfold as_stored, cp. cbn. rewrite lookup_insert_ne by done. cbn.
       unfold checkpoint_values. by rewrite lookup_insert_ne, lookup_insert_eq by done. }
  2: { unfold as_stored, cp. cbn. rewrite lookup_insert_ne by done. apply lookup_insert_eq. }
  2: { intros k Hk1 Hk2 Hk. unfold as_stored, cp. cbn. rewrite lookup_insert_ne.
       - unfold checkpoint_values. by rewrite !lookup_insert_ne, lookup_fmap by done.
       - intros <-. eapply Hout, Hk. repeat constructor. }
  wp_steps. split_and!; try done. intros k v Hk Hv. cbn.
  apply lookup_union_Some_l. by apply keep_checkpointable_lookup.
Qed.
End Results.

(** ** Witnesses *)

Section Samples.
#[local] Existing Instance calm.
#[local] Existing Instance quiet_host.
#[local] Existing Instance plain_codec.

(** The daemon's run, registered, whose first step fails fatally. *)
Definition managed_runner : EngineRunner :=
  (review_runner StepOutcome.Fatal true) <| persist_registry := true |>.
Definition managed_db : Db :=
  empty_db <| runs := [bind_run_metadata_params (sample_run "run-1" RunStatus.Running)] |>
           <| issue_leases := [mkLease "lease-1" "acme/app" 7 "cfg" (Some "run-1") "running" 1 1 1] |>.

(** Where nothing fails a step is recorded: the daemon's, and a failing one on its
    way into cleanup where nothing claims the workspace. *)
Definition local_runner : EngineRunner :=
  (review_runner StepOutcome.Fatal false) <| persist_registry := true |>.
Example steps_recorded :
  let forward := persist_step_result managed_runner "implement" StepOutcome.Success (Some "review") (start managed_db) in
  let failing := persist_step_result local_runner "implement" StepOutcome.Fatal (Some "abandon_and_log") (start managed_db) in
  is_ok (fst forward) = true /\ is_ok (fst failing) = true /\
  (registered_run "run-1" (w_db (snd failing)) ≫= failure_cleanup) =
    (res_ok (fst failing) ≫= pending_failure_cleanup) /\
  (cleanup_step <$> (res_ok (fst failing) ≫= pending_failure_cleanup)) = Some "abandon_and_log".
Proof. vm_compute. done. Qed.

(** The host verifies no workspace, so the denial is recorded and final. *)
Lemma ownership_denial_final_witness :
  let result := persist_step_result managed_runner "implement" StepOutcome.Fatal
                  (Some "abandon_and_log") (start managed_db) in
  let r' := default managed_runner (res_ok (fst result)) in
  terminal_ownership_failure r' = true /\ refuses_resume "run-1" (w_db (snd result)).
Proof.
  intros result r'.
  apply (ownership_denial_final managed_runner r' "implement" "abandon_and_log" StepOutcome.Fatal
    (OwnershipFailure (mkOwnershipFailureDetails "abandon_and_log" "no ownership record"))
    (start managed_db) (snd result)); vm_compute; reflexivity.
Defined.

Lemma no_pending_sample : no_pending_cleanup "run-1" managed_db.
Proof.
  intros row m Hrow Hm. vm_compute in Hrow. injection Hrow as <-. vm_compute in Hm.
  by injection Hm as <-.
Qed.

Lemma interrupt_resume_witness :
  let r := managed_runner <| er_edge_loop_counts := {["review:implement" := 1%Z]} |> in
  wp (o ← interrupt_at_step r "review"; r' ← resume_from_checkpoint managed_runner; mret (o, r'))
     (fun res _ => match res with
        | Ok (o, r') =>
            o = RInterrupted "review" /\ current_state (instance r') = "review" /\
            er_retry_count r' = er_retry_count r /\
            er_edge_loop_counts r' = er_edge_loop_counts r /\
            step_order (context r') = step_order (context r) /\
            namespaced_vars (context r') =
              keep_checkpointable (context r) <$> namespaced_vars (context r) /\
            forall k v, k ∈ checkpointable_keys (context r) ->
              variables (context r) !! k = Some v -> variables (context r') !! k = Some v
        | Err e => e = of_store (Database SqliteFailure)
        end) (start managed_db).
Proof.
  intros r.
  exact (interrupt_resume r managed_runner "review" (start managed_db) eq_refl eq_refl
    ltac:(by_computation) ltac:(by_computation) ltac:(by_computation) no_pending_sample
    ltac:(by_computation)).
Defined.
End Samples.
